(* ===== verification/_CoqProject ===== *)
-Q . S2P
Prelude.v
Models.v
Heap.v
FrameTable.v
Policy.v
Policies.v
PoliciesSpec.v
Clock.v
Arc.v
Car.v
Algorithms.v
Tlb.v
PageTable.v
MultiLevel.v
Advanced.v
Cow.v
DemandPaging.v
Manager.v
ManagerInv.v
ManagerOps.v
ManagerSteps.v
ManagerCounts.v
ManagerEffects.v
ManagerCoherence.v
ManagerRuns.v
ManagerCow.v
ManagerWrite.v
ManagerProps.v
Hazards.v
ProcMan.v
ProcManProps.v
Simulator.v
SimulatorSteps.v
SimulatorRuns.v
SimulatorProps.v
Monitor.v
MonitorProps.v
Hub.v
HubMoves.v
HubSafe.v
HubTraces.v
HubProps.v
Server.v
ServerSteps.v
SimCalls.v
ServerProps.v
ServerRuns.v
ServerLife.v
Main.v
MainProps.v
Cli.v
Sweeps.v
CliProps.v
