(* ===== verification/Prelude.v ===== *)
(** * Page-replacement simulator with copy-on-write: verification library

    The program (Go, under src/) simulates demand paging: processes access
    virtual pages, a memory manager maps them to a bounded set of physical frames,
    one of twelve replacement algorithms chooses victims, a TLB caches
    translations, and forked processes share frames copy-on-write.  A simulator
    runs access patterns on it, an HTTP and WebSocket server and a command line
    drive it.

    ** Parts and files

    - [Prelude]: record update, fixed-width integers, [float64] (IEEE-754 through
      Stdlib's SpecFloat), the environment [GoEnv] (clock, random draws, map
      iteration order), errors, the state monad with its Hoare rules.
    - [Models] (pkg/models): frames, pages, processes, metrics, access records,
      one Module per struct.  [Heap]: the frames behind the pointers that the
      frame table, the algorithms and the manager share.
    - [FrameTable], [PageTable], [MultiLevel], [Tlb], [Advanced] (internal/memory:
      frame.go, page_table.go, multilevel_pt.go, tlb.go, advanced.go).
    - [Policy] (algorithm.go): the algorithm interface, as a Record of operations
      and a class [LawfulPolicy] of the laws the manager relies on.  [Policies]
      with [PoliciesSpec] (FIFO, LRU, LFU, Random, NRU, Optimal, OPT+, PFF),
      [Clock] (CLOCK, WSClock), [Arc], [Car]: the twelve policies, each an instance.
      [Algorithms]: the sum of them, which the manager holds.
    - [Cow] (internal/cow): sharer sets and the reference counter.
    - [DemandPaging]: the abstract machine the manager refines; no code.
    - [Manager] (internal/memory/manager.go): the manager, every exported method
      over one state record [MM.t].  Then its theory: [ManagerInv] (the invariant
      [wf]), [ManagerOps] (the access path keeps it), [ManagerSteps] (the other
      methods; runs), [ManagerCounts] (hits and faults), [ManagerEffects] (what
      each step does to frame owners, page mappings and the TLB),
      [ManagerCoherence] and [ManagerRuns] (coherence without forks),
      [ManagerCow] (forks and copies), [ManagerWrite] (a write access to a shared
      page), [ManagerProps] (the theorems).
    - [Hazards]: evaluated runs after forks, removals and huge pages in which
      isolation is lost, the cases the theorems exclude.
    - [ProcMan] (internal/process/manager.go): the process manager over the memory
      manager, its methods as compositions of the stretches under one lock.
      [ProcManProps]: its methods in sequence and interleaved.
    - [Simulator] (internal/simulator/simulator.go): the class [GoRand] of seeded
      generators, the access patterns, the scenarios, recording and replay, the
      comparisons.  [SimulatorSteps] and [SimulatorRuns]: what single steps and
      whole scenarios do to the process manager; [SimulatorProps]: the theorems.
    - [Monitor] (internal/monitor/monitor.go): the bounded history and event list,
      the subscribers' channels, the thrashing detector, the views of the API.
      [MonitorProps]: the theorems.
    - [Hub] (pkg/api/server.go, websocket.go): the WebSocket clients, their
      channels and the goroutines around them, each a [task] that takes one step
      at a time in any schedule.  [HubMoves] (the steps as a relation), [HubSafe]
      and [HubTraces] (its invariants), [HubProps]: the theorems and the schedules
      in which a panic ends the program.
    - [Server] (pkg/api/handlers.go, server.go): the server's state and every
      handler, from the decoded request to the status and the encoded value.
      [ServerSteps] (what the handlers rely on), [ServerProps] (one lemma per
      handler), [SimCalls] (a scenario as a sequence of calls of the managers),
      [ServerRuns]: requests interleaved with the calls of a simulation, events,
      snapshots and clients.  [ServerLife]: a process from its creation to its
      deletion.
    - [Main] (cmd/server/main.go): the flags and the middlewares around the
      router; [MainProps].  [Cli] (cmd/cli/main.go): a run of the command line,
      from the flags to what is printed; [CliProps].  [Sweeps]: the frame counts
      that both compute for a sweep.

    ** How state and operations correspond

    A struct is a Record with the code's field names, a method is a Definition
    with the code's name in the Module of its type.  A method that mutates is a
    step of [M S A := S → A * S]; a returned Go [error] is a value ([res]), because
    returning one undoes nothing.  Frames are shared by pointer, so they live in
    an explicit heap; a page is reached through its process and its page-table
    key; a process through its index in [procs].  Integers keep Go's widths
    ([u64], [i32], [i64]).  A mutex leaves no trace in a sequential step: every
    method that takes the manager's lock once is one step, and [AccessMemory],
    which takes it twice, is the composition of [access_fast] and
    [access_locked]; runs ([ManagerSteps.op]) interleave those freely.

    ** What the theorems show

    - policies: every algorithm answers with an evictable candidate exactly when
      there is one and changes no frame binding (whatever was called before);
      each victim is the one the policy is named for; ARC's and CAR's list
      invariants; PFF's target stays in its bounds;
    - TLB, page tables, multi-level table, compression store, sharer counts:
      lookup after update, nothing else changed, counts agree with contents;
    - manager: the invariant of every reachable state, one hit or fault per
      access, isolation and TLB coherence without forks, refinement of demand
      paging, compulsory faults only when the pages fit, forks and first writes,
      removal, PFF's enforcement loop, error paths, the working-set window.
    - process manager: the two managers list the same processes, names are fresh,
      a refused fork is rolled back, a visible process has a page table under
      every interleaving without forks, and the run in which a fork breaks that;
    - simulator: a scenario accesses exactly the pages computed in advance for
      the Optimal policies, a recorded trace replays to the same state, the
      comparison ranks all twelve algorithms by their faults; with concrete runs
      that show Optimal is not minimal and the second run of a scenario differs;
    - monitor: the bounds only forget the oldest entries, thrashing follows the
      fault rate of the window and is announced on its rising edge, an event
      reaches each subscriber once;
    - broadcasting: in every schedule the channels are closed once and each
      client gets a contiguous part of the broadcasts; the places where a send
      can still panic are named, with a schedule for each;
    - API: in every run each request gets the status its input and the registered
      processes determine, a refused request changes nothing, one simulation is
      pending at most and releases its lock; a created process is fetched as it was
      answered until it is deleted; a sweep reports the doublings;
    - entry points: the two checks of an origin agree, what the chain of
      middlewares answers, which flags start a server; how the command line ends
      and what its tables hold.

    ** Fuel

    ARC's and CAR's [adapt], the CLOCK sweep and PFF's enforcement loop recurse on
    a number of rounds: the sum of the list lengths, two turns of the clock, the
    number of used frames.  [ARC_calls_inv], [CAR_calls_inv],
    [CLOCK_is_second_chance] and [PFF_enforcement_reaches_target] show that the
    rounds never run out.  The doublings of a sweep recurse on the points still to
    be added, as the loops of the code count them.  Frame counts are below 2^30, so
    that the [int32] lengths the code compares are exact.

    ** Not modelled

    What libraries do around the API: routing and HTTP (a request arrives as the
    matched route with its decoded body; what the router does with other paths is
    the parameter [fallback] of [Main]), the text of JSON, sockets and their
    deadlines (choices of the environment in [Hub]), the other constant CORS
    headers, listening and signals, logging, the padding of printed columns; the
    web client and the example programs, which only call the parts above; the
    JSON files of [Trace.Save] and [LoadTrace]; the waiting in [sleep] and in the
    tickers, whose rounds are explicit steps; exhaustion of the machine's memory,
    and the panic of allocating a negative number of frames, which the hypotheses
    on frame counts exclude.  Concurrent calls on one simulator or one monitor are
    modelled only as far as their stretches under a lock are separate
    definitions: in [ServerRuns] a handler and an event round are one step each
    and a simulation one step per call, although the stretches of [AccessMemory]
    and of a handler that makes two calls can be interrupted as well ([ProcMan]
    and [ManagerSteps] interleave those); the recorded trace, which the code does
    not lock, belongs to one caller. *)

From stdpp Require Export prelude gmap strings list fin_maps pretty.
From Stdlib Require Export ZArith NArith Lia.
From Stdlib Require Import Floats.SpecFloat.

(** ** Record update

    [r <| f := v |>] is the Go assignment [r.f = v] on a struct value and
    [r <| f ::= g |>] the read-modify-write [r.f = g(r.f)].  Every record of
    the development declares its eta expansion once; the updater of a field is
    found by abstracting the field's projection in it. *)

Class Eta (R : Type) := eta_expansion : R → R.
Class FieldUpdate {R T : Type} (field : R → T) := update_field : (T → T) → R → R.
Arguments update_field {R T} field {_} _ _ /.
#[global] Typeclasses Opaque Eta FieldUpdate.

Ltac derive_field_update :=
  lazymatch goal with
  | |- @FieldUpdate ?R ?T ?field =>
      let inst := constr:(_ : Eta R) in
      let body := eval hnf in inst in
      lazymatch eval pattern field in body with
      | (λ _, ?const) _ => fail "the eta expansion does not project this field"
      | ?ctx _ =>
          let upd := eval cbv beta in (λ (g : T → T) (r : R), ctx (λ x, g (field x)) r) in
          exact upd
      end
  end.
#[export] Hint Extern 1 (FieldUpdate _) => derive_field_update : typeclass_instances.

Declare Scope go_scope.
Delimit Scope go_scope with go.
Notation "r <| f := v |>" := (update_field f (λ _, v) r)
  (at level 1, left associativity, format "r  <| f  :=  v |>") : go_scope.
Notation "r <| f ::= g |>" := (update_field f g r)
  (at level 1, left associativity, format "r  <| f  ::=  g |>") : go_scope.
Open Scope go_scope.

(** ** Go's fixed-width integers

    [uint64] values (page numbers, addresses, counters of the process manager)
    are [N] reduced modulo 2^64; [int32] and [int64] values are [Z] kept in
    two's complement range by [i32] and [i64].  Go's [int] is 64 bits wide. *)

Definition u64 (n : N) : N := (n mod 2 ^ 64)%N.
Definition u64_add (a b : N) : N := u64 (a + b).
Definition u64_sub (a b : N) : N := u64 (a + (2 ^ 64 - u64 b)).
Definition u64_mul (a b : N) : N := u64 (a * b).
Definition u64_shl (a k : N) : N := u64 (N.shiftl a k).
Definition i32 (z : Z) : Z := ((z + 2 ^ 31) mod 2 ^ 32 - 2 ^ 31)%Z.
Definition i64 (z : Z) : Z := ((z + 2 ^ 63) mod 2 ^ 64 - 2 ^ 63)%Z.

(** ** Go's [float64], as IEEE-754 binary64 with round to nearest even

    [f64_lit n d] is the literal whose decimal value is the quotient of two
    integers below 2^53: the quotient of two exact operands is correctly
    rounded, which is what the compiler does with the literal. *)

Definition f64 : Type := spec_float.
Definition f64_of_Z (z : Z) : f64 := binary_normalize 53 1024 z 0 false.
Definition f64_div (a b : f64) : f64 := SFdiv 53 1024 a b.
Definition f64_add (a b : f64) : f64 := SFadd 53 1024 a b.
Definition f64_mul (a b : f64) : f64 := SFmul 53 1024 a b.
Definition f64_ltb (a b : f64) : bool := SFltb a b.
Definition f64_leb (a b : f64) : bool := SFleb a b.
Definition f64_eqb (a b : f64) : bool := SFeqb a b.
Definition f64_lit (n d : Z) : f64 := f64_div (f64_of_Z n) (f64_of_Z d).

(** ** The environment of a run

    What the program reads from outside: the wall clock, the draws of
    [math/rand] and the order in which [range] visits a map, which Go leaves
    unspecified.  The n-th question of a run is answered by the n-th entry, so
    a theorem that quantifies over the environment holds for every clock, every
    seed and every iteration order. *)

Class GoEnv := {
  clock : nat → Z;
  intn : nat → nat → nat;
  intn_lt : ∀ i n, 0 < n → intn i n < n;
  shuffle : ∀ (i : nat) {A : Type}, list A → list A;
  shuffle_perm : ∀ i (A : Type) (l : list A), shuffle i l ≡ₚ l;
}.

(** A concrete run, for evaluating the model on examples: the clock ticks by
    one, every draw is 0 and maps are visited in key order. *)
Definition first_env : GoEnv.
Proof.
  refine {| clock := Z.of_nat; intn := λ _ _, 0; shuffle := λ _ _ l, l |}; [|done].
  by intros _ n Hn.
Defined.

(** ** Errors

    One constructor per [fmt.Errorf] of the modelled packages; a wrapped error
    ([%w]) keeps its cause. *)

Inductive error : Type :=
| ErrNoFrames                      (* "no frames available for eviction" *)
| ErrNoEvictable                   (* "no evictable frame found" *)
| ErrInvalidFrameID (id : Z)
| ErrNoFreeFrames
| ErrNoFreeFramesInRange (lo hi : Z)
| ErrFrameNotFoundForPage (page : N)
| ErrPageNotFound (page : N)
| ErrProcessExists (pid : string)
| ErrProcessNotFound (pid : string)
| ErrParentNotFound (pid : string)
| ErrPageTableNotFound (pid : string)
| ErrMultiLevelNotFound (pid : string)
| ErrNoProcessIDs (page : N)       (* SharePage with an empty sharer list *)
| ErrNodeNotFound (node : Z)
| ErrNodeFull (node : Z)
| ErrHugePageRange (idx : N)
| ErrNilFrame
| ErrNilPage
| ErrNilTrace
| ErrUnknownScenario (name : string)
| ErrUnknownAlgorithm (name : string)
| ErrWorkingSetSize
| ErrWrap (ctx : string) (cause : error).

#[global] Instance error_eq_dec : EqDecision error.
Proof. solve_decision. Defined.

Inductive res (A : Type) : Type :=
| Ok (a : A)
| Err (e : error).
Arguments Ok {A} _.
Arguments Err {A} _.

Definition is_ok {A} (r : res A) : bool :=
  match r with Ok _ => true | Err _ => false end.

(** ** Stateful code

    A Go function that mutates a state [S] and returns an [A] is a
    [M S A]; a Go [error] result is an ordinary value ([res]), because
    returning one undoes nothing. *)

Definition M (S A : Type) : Type := S → A * S.
#[global] Instance M_ret S : MRet (M S) := λ A a s, (a, s).
#[global] Instance M_bind S : MBind (M S) := λ A B k m s, let r := m s in k r.1 r.2.

Definition get_st {S} : M S S := λ s, (s, s).
Definition gets {S A} (f : S → A) : M S A := λ s, (f s, s).
Definition modify {S} (f : S → S) : M S unit := λ s, ((), f s).
Definition run {S A} (m : M S A) (s : S) : S := (m s).2.
Definition result {S A} (m : M S A) (s : S) : A := (m s).1.

(** [bind_ok]: the idiom [x, err := f(); if err != nil { return err }]. *)
Definition bind_ok {S A B} (m : M S (res A)) (k : A → M S (res B)) : M S (res B) :=
  r ← m; match r with Ok a => k a | Err e => mret (Err e) end.
Notation "x <-? m ; k" := (bind_ok m (λ x, k))
  (at level 20, m at level 100, k at level 200, right associativity) : go_scope.

(** The result of a call that may also panic. *)

Inductive outcome (A : Type) : Type :=
| Return (a : A)
| Fail (e : error)
| Panic.
Arguments Return {A} _.
Arguments Fail {A} _.
Arguments Panic {A}.

(** [if err := f(); err != nil { return err }], where a panic unwinds. *)
Definition bind_outcome {S A B} (m : M S (outcome A)) (k : A → M S (outcome B)) : M S (outcome B) :=
  r ← m;
  match r with Return a => k a | Fail e => mret (Fail e) | Panic => mret Panic end.
Notation "x <-! m ; k" := (bind_outcome m (λ x, k))
  (at level 20, m at level 100, k at level 200, right associativity) : go_scope.

Definition of_res {A} (r : res A) : outcome A :=
  match r with Ok a => Return a | Err e => Fail e end.

(** A loop over [l] whose body returns early with an error. *)
Fixpoint try_each {S A} (f : A → M S (outcome unit)) (l : list A) : M S (outcome unit) :=
  match l with
  | [] => mret (Return ())
  | x :: l => _ <-! f x; try_each f l
  end.

(** A [for _, x := range l] loop whose body returns nothing. *)
Fixpoint for_each {S A} (f : A → M S unit) (l : list A) : M S unit :=
  match l with
  | [] => mret ()
  | x :: l => f x ;; for_each f l
  end.

(** [when c m]: an [if] with no [else]. *)
Definition when {S} (c : bool) (m : M S unit) : M S unit :=
  if c then m else mret ().

(** Running the first step of a method. *)
Lemma run_get_st {S A} (k : S → M S A) s : (get_st ≫= k) s = k s s.
Proof. done. Qed.
Lemma run_modify {S A} g (k : unit → M S A) s : (modify g ≫= k) s = k () (g s).
Proof. done. Qed.
Lemma run_gets {S A B} (g : S → B) (k : B → M S A) s : (gets g ≫= k) s = k (g s) s.
Proof. done. Qed.

(** *** Hoare triples over [M]: total, since every [M] returns. *)
Definition triple {S A} (P : S → Prop) (m : M S A) (Q : A → S → Prop) : Prop :=
  ∀ s, P s → Q (m s).1 (m s).2.

(** [preserves R m]: every run of [m] relates the state before and after by
    [R]; with [R] reflexive and transitive it composes. *)
Definition related {S A} (R : relation S) (m : M S A) : Prop :=
  ∀ s, R s (m s).2.

Section hoare.
Context {S : Type}.

Lemma triple_ret {A} (P : S → Prop) (a : A) (Q : A → S → Prop) :
  (∀ s, P s → Q a s) → triple P (mret a) Q.
Proof. intros H s Hs. by apply H. Qed.

Lemma triple_bind {A B} P (m : M S A) (k : A → M S B) Q R :
  triple P m Q → (∀ a, triple (Q a) (k a) R) → triple P (m ≫= k) R.
Proof. intros Hm Hk s Hs. apply Hk, Hm, Hs. Qed.

Lemma triple_seq {B} P (m : M S unit) (k : M S B) (Q : S → Prop) R :
  triple P m (λ _, Q) → triple Q k R → triple P (m ;; k) R.
Proof. intros Hm Hk. eapply triple_bind; [exact Hm|]. intros []. exact Hk. Qed.

Lemma triple_conseq {A} (P P' : S → Prop) (m : M S A) (Q Q' : A → S → Prop) :
  (∀ s, P s → P' s) → (∀ a s, Q' a s → Q a s) → triple P' m Q' → triple P m Q.
Proof. intros HP HQ Hm s Hs. by apply HQ, Hm, HP. Qed.

Lemma triple_post {A} (P : S → Prop) (m : M S A) (Q Q' : A → S → Prop) :
  triple P m Q' → (∀ a s, Q' a s → Q a s) → triple P m Q.
Proof. intros Hm HQ s Hs. by apply HQ, Hm. Qed.

Lemma triple_modify (P : S → Prop) f (Q : unit → S → Prop) :
  (∀ s, P s → Q () (f s)) → triple P (modify f) Q.
Proof. intros H s Hs. by apply (H s). Qed.

Lemma triple_gets {A} (P : S → Prop) (f : S → A) (Q : A → S → Prop) :
  (∀ s, P s → Q (f s) s) → triple P (gets f) Q.
Proof. intros H s Hs. by apply H. Qed.

(** Reading the state: the continuation may rely on it being the state read. *)
Lemma triple_get_st {A} (P : S → Prop) (k : S → M S A) (Q : A → S → Prop) :
  (∀ s0, P s0 → triple (λ s, s = s0) (k s0) Q) → triple P (get_st ≫= k) Q.
Proof. intros Hk s Hs. by apply (Hk s Hs). Qed.

Lemma triple_start {A} (P : S → Prop) (m : M S A) (Q : A → S → Prop) s0 :
  P s0 → triple P m Q → triple (λ s, s = s0) m Q.
Proof. intros H0 Hm s ->. by apply Hm. Qed.

Lemma triple_bind_ok {A B} P (m : M S (res A)) (k : A → M S (res B)) Q R :
  triple P m Q →
  (∀ a, triple (Q (Ok a)) (k a) R) →
  (∀ e s, Q (Err e) s → R (Err e) s) →
  triple P (bind_ok m k) R.
Proof.
  intros Hm Hk He. eapply triple_bind; [exact Hm|].
  intros [a|e]; [apply Hk|]. apply triple_ret. apply He.
Qed.

Lemma triple_when (P : S → Prop) c (m : M S unit) (Q : unit → S → Prop) :
  (c = true → triple P m Q) → (c = false → ∀ s, P s → Q () s) →
  triple P (when c m) Q.
Proof. destruct c; intros H1 H2; [by apply H1|]. apply triple_ret; auto. Qed.

Lemma triple_for_each {A} (I : S → Prop) (f : A → M S unit) l :
  (∀ x, x ∈ l → triple I (f x) (λ _, I)) → triple I (for_each f l) (λ _, I).
Proof.
  induction l as [|x l IH]; intros Hf; simpl.
  - apply triple_ret. auto.
  - eapply triple_seq; [apply Hf; set_solver|]. apply IH. set_solver.
Qed.

Lemma related_ret {A} (R : relation S) `{!Reflexive R} (a : A) : related R (mret a).
Proof. intros s. simpl. reflexivity. Qed.

Lemma related_bind {A B} (R : relation S) `{!Transitive R}
    (m : M S A) (k : A → M S B) :
  related R m → (∀ a, related R (k a)) → related R (m ≫= k).
Proof. intros Hm Hk s. etrans; [apply Hm|apply Hk]. Qed.

Lemma related_gets {A} (R : relation S) `{!Reflexive R} (f : S → A) :
  related R (gets f).
Proof. intros s. simpl. reflexivity. Qed.

Lemma related_bind_ok {A B} (R : relation S) `{!Reflexive R, !Transitive R}
    (m : M S (res A)) (k : A → M S (res B)) :
  related R m → (∀ a, related R (k a)) → related R (bind_ok m k).
Proof.
  intros Hm Hk. apply related_bind; [apply _|done|]. intros [a|e]; [apply Hk|].
  by apply related_ret.
Qed.

Lemma related_when (R : relation S) `{!Reflexive R} c (m : M S unit) :
  related R m → related R (when c m).
Proof. destruct c; [done|]. intros _. by apply related_ret. Qed.

Lemma related_for_each {A} (R : relation S) `{!PreOrder R} (f : A → M S unit) l :
  (∀ x, related R (f x)) → related R (for_each f l).
Proof.
  intros Hf. induction l as [|x l IH]; simpl.
  - apply related_ret, _.
  - apply related_bind; [apply _|apply Hf|]. intros []. exact IH.
Qed.

Lemma related_triple {A} (R : relation S) (m : M S A) s0 :
  related R m → triple (λ s, s = s0) m (λ _ s, R s0 s).
Proof. intros H s Hs. subst s. apply H. Qed.
End hoare.


(** ** Width lemmas *)

Section widths.
Local Open Scope Z_scope.

Lemma i64_range z : - 2 ^ 63 ≤ i64 z < 2 ^ 63.
Proof.
unfold i64. pose proof (Z.mod_pos_bound (z + 2 ^ 63) (2 ^ 64)). lia.
Qed.

Lemma i64_add_l x y : i64 (i64 x + y) = i64 (x + y).
Proof.
unfold i64.
replace ((x + 2 ^ 63) `mod` 2 ^ 64 - 2 ^ 63 + y + 2 ^ 63)
  with ((x + 2 ^ 63) `mod` 2 ^ 64 + y) by lia.
rewrite Z.add_mod_idemp_l by done. f_equal. f_equal. lia.
Qed.

Lemma i64_add_r x y : i64 (x + i64 y) = i64 (x + y).
Proof. by rewrite Z.add_comm, i64_add_l, Z.add_comm. Qed.

Lemma i64_mod x k : i64 (x + k * 2 ^ 64) = i64 x.
Proof.
unfold i64. replace (x + k * 2 ^ 64 + 2 ^ 63) with (x + 2 ^ 63 + k * 2 ^ 64) by lia.
by rewrite Z.mod_add.
Qed.

Lemma i64_wrap x : ∃ k, i64 x = x + k * 2 ^ 64.
Proof.
unfold i64. pose proof (Z.div_mod (x + 2 ^ 63) (2 ^ 64)).
exists (- ((x + 2 ^ 63) / 2 ^ 64)). lia.
Qed.

Lemma i64_sub_l x y : i64 (i64 x - y) = i64 (x - y).
Proof. rewrite <- !Z.add_opp_r. apply i64_add_l. Qed.

Lemma i64_sub_r x y : i64 (x - i64 y) = i64 (x - y).
Proof.
destruct (i64_wrap y) as [k ->].
replace (x - (y + k * 2 ^ 64)) with (x - y + (- k) * 2 ^ 64) by lia. apply i64_mod.
Qed.

Lemma i64_small z : - 2 ^ 63 ≤ z < 2 ^ 63 → i64 z = z.
Proof. intros H. unfold i64. rewrite Z.mod_small; lia. Qed.

Lemma i64_idemp z : i64 (i64 z) = i64 z.
Proof. apply i64_small, i64_range. Qed.

Lemma i32_small z : - 2 ^ 31 ≤ z < 2 ^ 31 → i32 z = z.
Proof. intros H. unfold i32. rewrite Z.mod_small; lia. Qed.

Lemma u64_small n : (n < 2 ^ 64)%N → u64 n = n.
Proof. apply N.mod_small. Qed.

Lemma u64_range n : (u64 n < 2 ^ 64)%N.
Proof. by apply N.mod_upper_bound. Qed.

Lemma i32_range z : - 2 ^ 31 ≤ i32 z < 2 ^ 31.
Proof.
unfold i32. pose proof (Z.mod_pos_bound (z + 2 ^ 31) (2 ^ 32)). lia.
Qed.

Lemma u64_add_small a b : (a + b < 2 ^ 64)%N → u64_add a b = (a + b)%N.
Proof. apply u64_small. Qed.
End widths.

Create HintDb go discriminated.
#[export] Hint Resolve i64_range i32_range u64_range : go.
