(* ===== verification/Models.v ===== *)
(** * The core types: [pkg/models]

    One Module per Go struct: the struct is the record [t], its methods are
    definitions of the same name.  A method that reads [time.Now] takes the
    reading(s) as arguments, in the order the method makes them; times are
    Unix nanoseconds.  Mutexes and atomics guard single fields here and leave
    no trace in a method's sequential meaning. *)

From S2P Require Import Prelude.
Local Open Scope Z_scope.

(** ** [frame.go] *)
Module Frame.
Record t := mk {
  ID : Z;
  PageID : N;
  ProcessID : string;
  numaNodeID : Z;
  Free : bool;
  Pinned : bool;
  Modified : bool;
  LoadedAt : Z;
  LastAccess : Z;
  AccessCount : Z;
  ReferenceBit : Z;
}.
#[global] Instance eta_t : Eta t := λ r,
  mk (ID r) (PageID r) (ProcessID r) (numaNodeID r) (Free r) (Pinned r)
     (Modified r) (LoadedAt r) (LastAccess r) (AccessCount r) (ReferenceBit r).

Definition NewFrame (id : Z) : t :=
  {| ID := id; PageID := 0; ProcessID := ""; numaNodeID := 0;
     Free := true; Pinned := false; Modified := false;
     LoadedAt := 0; LastAccess := 0; AccessCount := 0; ReferenceBit := 0 |}.

Definition AllocateNuma (now : Z) (pageID : N) (processID : string)
    (numaNode : Z) (f : t) : t :=
  f <| PageID := pageID |>
    <| ProcessID := processID |>
    <| numaNodeID := numaNode |>
    <| Free := false |>
    <| Modified := false |>
    <| ReferenceBit := 1 |>
    <| LoadedAt := now |>
    <| LastAccess := now |>
    <| AccessCount := 0 |>.

Definition Allocate (now : Z) (pageID : N) (processID : string) (f : t) : t :=
  AllocateNuma now pageID processID 0 f.

Definition GetNumaNodeID (f : t) : Z := numaNodeID f.
Definition SetNumaNodeID (id : Z) (f : t) : t := f <| numaNodeID := id |>.

Definition Release (f : t) : t :=
  f <| PageID := 0%N |>
    <| ProcessID := "" |>
    <| Free := true |>
    <| Modified := false |>
    <| ReferenceBit := 0 |>
    <| LoadedAt := 0 |>
    <| LastAccess := 0 |>
    <| AccessCount := 0 |>.

Definition Access (now : Z) (write : bool) (f : t) : t :=
  let f := f <| LastAccess := now |>
             <| AccessCount ::= λ c, i64 (c + 1) |>
             <| ReferenceBit := 1 |> in
  if write then f <| Modified := true |> else f.

Definition IsFree (f : t) : bool := Free f.
Definition IsPinned (f : t) : bool := Pinned f.
Definition IsModified (f : t) : bool := Modified f.
Definition Pin (f : t) : t := f <| Pinned := true |>.
Definition Unpin (f : t) : t := f <| Pinned := false |>.
Definition GetReferenceBit (f : t) : bool := ReferenceBit f =? 1.
Definition ClearReferenceBit (f : t) : bool * t :=
  (ReferenceBit f =? 1, f <| ReferenceBit := 0 |>).
Definition GetLastAccessTime (f : t) : Z := LastAccess f.
Definition GetLoadedTime (f : t) : Z := LoadedAt f.
Definition GetAccessCount (f : t) : Z := AccessCount f.
Definition GetPageID (f : t) : N := PageID f.
Definition GetProcessID (f : t) : string := ProcessID f.

Definition GetAge (now : Z) (f : t) : Z :=
  if IsFree f then 0
  else if LoadedAt f =? 0 then 0
  else i64 (now - LoadedAt f).

#[global] Instance inhabited_t : Inhabited t := populate (NewFrame 0).

(** A frame an algorithm may evict. *)
Definition evictable (f : t) : bool := negb (IsFree f) && negb (IsPinned f).

(** [same_binding f g]: the two frames hold the same page of the same
    process on the same node; what the replacement policies may not change. *)
Definition same_binding (f g : t) : Prop :=
  ID f = ID g ∧ PageID f = PageID g ∧ ProcessID f = ProcessID g ∧
  numaNodeID f = numaNodeID g ∧ Free f = Free g ∧ Pinned f = Pinned g.
#[global] Instance same_binding_equiv : Equivalence same_binding.
Proof. unfold same_binding. split; red; intuition congruence. Qed.
End Frame.

(** ** [page.go] *)
Inductive PageState := PageInvalid | PageValid | PageDirty | PageShared.
#[global] Instance PageState_eq_dec : EqDecision PageState.
Proof. solve_decision. Defined.

Module Page.
Record t := mk {
  ID : N;
  ProcessID : string;
  FrameNumber : Z;
  State : PageState;
  LastAccessed : Z;
  AccessCount : Z;
  ReferenceBit : Z;
  Shared : bool;
  RefCount : Z;
  OriginalPage : N;
  Dirty : bool;
  Present : bool;
  ReadOnly : bool;
  CreatedAt : Z;
}.
#[global] Instance eta_t : Eta t := λ r,
  mk (ID r) (ProcessID r) (FrameNumber r) (State r) (LastAccessed r)
     (AccessCount r) (ReferenceBit r) (Shared r) (RefCount r)
     (OriginalPage r) (Dirty r) (Present r) (ReadOnly r) (CreatedAt r).

Definition NewPage (created accessed : Z) (id : N) (processID : string) : t :=
  {| ID := id; ProcessID := processID; FrameNumber := -1;
     State := PageInvalid; LastAccessed := accessed; AccessCount := 0;
     ReferenceBit := 0; Shared := false; RefCount := 1; OriginalPage := 0;
     Dirty := false; Present := false; ReadOnly := false;
     CreatedAt := created |}.

(** [State.CompareAndSwap(from, to)] *)
Definition cas_state (from to : PageState) (p : t) : bool * t :=
  if decide (State p = from) then (true, p <| State := to |>) else (false, p).

Definition Access (now : Z) (write : bool) (p : t) : t :=
  let p := p <| LastAccessed := now |>
             <| AccessCount ::= λ c, i64 (c + 1) |>
             <| ReferenceBit := 1 |> in
  if write then
    let p := p <| Dirty := true |> in
    let '(swapped, p) := cas_state PageValid PageDirty p in
    if swapped then p else (cas_state PageShared PageDirty p).2
  else p.

Definition GetLastAccessTime (p : t) : Z := LastAccessed p.
Definition GetAccessCount (p : t) : Z := AccessCount p.

Definition SetFrame (frameNum : Z) (p : t) : t :=
  let p := p <| FrameNumber := frameNum |> in
  if 0 <=? frameNum
  then p <| Present := true |> <| State := PageValid |>
  else p <| Present := false |> <| State := PageInvalid |>.

Definition GetFrame (p : t) : Z := FrameNumber p.
Definition IsPresent (p : t) : bool := Present p.
Definition IsDirty (p : t) : bool := Dirty p.
Definition IsShared (p : t) : bool := Shared p.

Definition MakeShared (p : t) : t :=
  p <| Shared := true |> <| ReadOnly := true |>.

Definition ClearReferenceBit (p : t) : bool * t :=
  (ReferenceBit p =? 1, p <| ReferenceBit := 0 |>).
Definition GetReferenceBit (p : t) : bool := ReferenceBit p =? 1.
Definition IncrementRefCount (p : t) : Z * t :=
  let c := i32 (RefCount p + 1) in (c, p <| RefCount := c |>).

(** The compare-and-swap loop run without interference: its first attempt
    succeeds. *)
Definition DecrementRefCount (p : t) : Z * t :=
  let cur := RefCount p in
  if cur <=? 0 then (0, p) else (cur - 1, p <| RefCount := cur - 1 |>).
Definition GetRefCount (p : t) : Z := RefCount p.

Definition Clone (created accessed : Z) (newID : N) (p : t) : t :=
  {| ID := newID; ProcessID := ProcessID p; FrameNumber := -1;
     State := PageInvalid; LastAccessed := accessed; AccessCount := 0;
     ReferenceBit := 0; Shared := false; RefCount := 1;
     OriginalPage := ID p; Dirty := false; Present := false;
     ReadOnly := false; CreatedAt := created |}.

Definition GetStateString (p : t) : string :=
  match State p with
  | PageInvalid => "Invalid"
  | PageValid => "Valid"
  | PageDirty => "Dirty"
  | PageShared => "Shared"
  end.

(** A page is present exactly when it names a frame. *)
Definition wf (p : t) : Prop := Present p = true ↔ 0 ≤ FrameNumber p.
End Page.

(** ** [process.go] *)
Inductive ProcessState := ProcessReady | ProcessRunning | ProcessBlocked | ProcessTerminated.
#[global] Instance ProcessState_eq_dec : EqDecision ProcessState.
Proof. solve_decision. Defined.

(** A statistics ratio: [0.0] when nothing was counted, the float64 quotient otherwise. *)
Definition rate (num den : Z) : f64 :=
  if den =? 0 then f64_of_Z 0 else f64_div (f64_of_Z num) (f64_of_Z den).

Module Process.
Record t := mk {
  ID : string;
  Name : string;
  Priority : Z;
  State : ProcessState;
  VirtualPages : N;
  PageTableSize : N;
  WorkingSetSize : Z;
  PageFaults : Z;
  PageHits : Z;
  MemoryAccesses : Z;
  CoWCopies : Z;
  CreatedAt : Z;
  CPUTime : Z;
  ParentID : string;
  Children : list string;
}.
#[global] Instance eta_t : Eta t := λ r,
  mk (ID r) (Name r) (Priority r) (State r) (VirtualPages r) (PageTableSize r)
     (WorkingSetSize r) (PageFaults r) (PageHits r) (MemoryAccesses r)
     (CoWCopies r) (CreatedAt r) (CPUTime r) (ParentID r) (Children r).

Definition NewProcess (now : Z) (id name : string) (priority : Z) (virtualPages : N) : t :=
  {| ID := id; Name := name; Priority := priority; State := ProcessReady;
     VirtualPages := virtualPages; PageTableSize := virtualPages;
     WorkingSetSize := 0; PageFaults := 0; PageHits := 0; MemoryAccesses := 0;
     CoWCopies := 0; CreatedAt := now; CPUTime := 0; ParentID := "";
     Children := [] |}.

Definition RecordPageFault (p : t) : t := p <| PageFaults ::= λ c, i64 (c + 1) |>.
Definition RecordPageHit (p : t) : t := p <| PageHits ::= λ c, i64 (c + 1) |>.
Definition RecordMemoryAccess (p : t) : t := p <| MemoryAccesses ::= λ c, i64 (c + 1) |>.
Definition RecordCoWCopy (p : t) : t := p <| CoWCopies ::= λ c, i64 (c + 1) |>.
Definition GetPageFaultRate (p : t) : f64 := rate (PageFaults p) (MemoryAccesses p).
Definition GetPageHitRate (p : t) : f64 := rate (PageHits p) (MemoryAccesses p).
Definition GetState (p : t) : ProcessState := State p.
Definition SetState (s : ProcessState) (p : t) : t := p <| State := s |>.

(** [State.CompareAndSwap(from, to)] *)
Definition cas_state (from to : ProcessState) (p : t) : t :=
  if decide (State p = from) then p <| State := to |> else p.

Definition AddChild (childID : string) (p : t) : t :=
  p <| Children ::= λ cs, cs ++ [childID] |>.

Fixpoint remove_first (x : string) (l : list string) : list string :=
  match l with
  | [] => []
  | y :: l => if decide (y = x) then l else y :: remove_first x l
  end.
Definition RemoveChild (childID : string) (p : t) : t :=
  p <| Children ::= remove_first childID |>.
Definition GetChildren (p : t) : list string := Children p.

Definition GetStateString (p : t) : string :=
  match State p with
  | ProcessReady => "Ready"
  | ProcessRunning => "Running"
  | ProcessBlocked => "Blocked"
  | ProcessTerminated => "Terminated"
  end.
Definition UpdateWorkingSetSize (size : Z) (p : t) : t := p <| WorkingSetSize := size |>.
Definition GetWorkingSetSize (p : t) : Z := WorkingSetSize p.
End Process.

(** ** [metrics.go] *)
Module Metrics.
Record t := mk {
  TotalFrames : Z;
  UsedFrames : Z; FreeFrames : Z; PinnedFrames : Z;
  TotalPages : Z; PagesInMemory : Z; SharedPages : Z; DirtyPages : Z;
  PageFaults : Z; PageHits : Z; TotalAccesses : Z;
  CoWCopies : Z; CoWSaves : Z; SharedPageReads : Z;
  Evictions : Z; DirtyEvictions : Z;
  AvgSearchTimeNs : Z; LastEvictionTimeNs : Z;
  DroppedEvents : Z;
  TotalProcesses : Z; ActiveProcesses : Z;
  StartTime : Z;
}.
#[global] Instance eta_t : Eta t := λ r,
  mk (TotalFrames r) (UsedFrames r) (FreeFrames r) (PinnedFrames r)
     (TotalPages r) (PagesInMemory r) (SharedPages r) (DirtyPages r)
     (PageFaults r) (PageHits r) (TotalAccesses r) (CoWCopies r) (CoWSaves r)
     (SharedPageReads r) (Evictions r) (DirtyEvictions r) (AvgSearchTimeNs r)
     (LastEvictionTimeNs r) (DroppedEvents r) (TotalProcesses r)
     (ActiveProcesses r) (StartTime r).

Definition NewMetrics (now : Z) (totalFrames : Z) : t :=
  {| TotalFrames := totalFrames; UsedFrames := 0; FreeFrames := totalFrames;
     PinnedFrames := 0; TotalPages := 0; PagesInMemory := 0; SharedPages := 0;
     DirtyPages := 0; PageFaults := 0; PageHits := 0; TotalAccesses := 0;
     CoWCopies := 0; CoWSaves := 0; SharedPageReads := 0; Evictions := 0;
     DirtyEvictions := 0; AvgSearchTimeNs := 0; LastEvictionTimeNs := 0;
     DroppedEvents := 0; TotalProcesses := 0; ActiveProcesses := 0;
     StartTime := now |}.

Definition inc64 (c : Z) : Z := i64 (c + 1).

Definition RecordPageFault (m : t) : t :=
  m <| PageFaults ::= inc64 |> <| TotalAccesses ::= inc64 |>.
Definition RecordPageHit (m : t) : t :=
  m <| PageHits ::= inc64 |> <| TotalAccesses ::= inc64 |>.
Definition RecordEviction (dirty : bool) (m : t) : t :=
  let m := m <| Evictions ::= inc64 |> in
  if dirty then m <| DirtyEvictions ::= inc64 |> else m.
Definition RecordCoWCopy (m : t) : t := m <| CoWCopies ::= inc64 |>.
Definition RecordCoWSave (m : t) : t := m <| CoWSaves ::= inc64 |>.
Definition RecordSharedPageRead (m : t) : t := m <| SharedPageReads ::= inc64 |>.
Definition UpdateFrameStats (used free pinned : Z) (m : t) : t :=
  m <| UsedFrames := used |> <| FreeFrames := free |> <| PinnedFrames := pinned |>.
Definition UpdatePageStats (inMemory shared dirty : Z) (m : t) : t :=
  m <| PagesInMemory := inMemory |> <| SharedPages := shared |> <| DirtyPages := dirty |>.
Definition GetPageFaultRate (m : t) : f64 := rate (PageFaults m) (TotalAccesses m).
Definition GetPageHitRate (m : t) : f64 := rate (PageHits m) (TotalAccesses m).
Definition GetUptime (now : Z) (m : t) : Z := i64 (now - StartTime m).

Definition Reset (now : Z) (m : t) : t :=
  m <| UsedFrames := 0 |> <| FreeFrames := TotalFrames m |> <| PinnedFrames := 0 |>
    <| TotalPages := 0 |> <| PagesInMemory := 0 |> <| SharedPages := 0 |>
    <| DirtyPages := 0 |> <| PageFaults := 0 |> <| PageHits := 0 |>
    <| TotalAccesses := 0 |> <| CoWCopies := 0 |> <| CoWSaves := 0 |>
    <| SharedPageReads := 0 |> <| Evictions := 0 |> <| DirtyEvictions := 0 |>
    <| AvgSearchTimeNs := 0 |> <| LastEvictionTimeNs := 0 |>
    <| DroppedEvents := 0 |> <| StartTime := now |>.

(** Every counted access was counted as a hit or as a fault: the three
    counters agree modulo 2^64, whatever has overflowed. *)
Definition accounted (m : t) : Prop :=
  TotalAccesses m = i64 (PageFaults m + PageHits m).
End Metrics.

(** [MetricsSnapshot], [GetSnapshotWithStats] and [GetSnapshot] *)
Module MetricsSnapshot.
Record t := mk {
  TotalFrames : Z; UsedFrames : Z; FreeFrames : Z; PinnedFrames : Z;
  TotalPages : Z; PagesInMemory : Z; SharedPages : Z; DirtyPages : Z;
  PageFaults : Z; PageHits : Z; TotalAccesses : Z;
  CoWCopies : Z; CoWSaves : Z; SharedPageReads : Z;
  Evictions : Z; DirtyEvictions : Z;
  AvgSearchTimeNs : Z; LastEvictionTimeNs : Z;
  TotalProcesses : Z; ActiveProcesses : Z;
  PageFaultRate : f64; PageHitRate : f64;
  Uptime : Z; DroppedEvents : Z;
}.

Definition GetSnapshotWithStats (now : Z)
    (usedFrames freeFrames pinnedFrames pagesInMemory sharedPages dirtyPages : Z)
    (m : Metrics.t) : t :=
  {| TotalFrames := Metrics.TotalFrames m;
     UsedFrames := usedFrames; FreeFrames := freeFrames; PinnedFrames := pinnedFrames;
     TotalPages := Metrics.TotalPages m;
     PagesInMemory := pagesInMemory; SharedPages := sharedPages; DirtyPages := dirtyPages;
     PageFaults := Metrics.PageFaults m; PageHits := Metrics.PageHits m;
     TotalAccesses := Metrics.TotalAccesses m;
     CoWCopies := Metrics.CoWCopies m; CoWSaves := Metrics.CoWSaves m;
     SharedPageReads := Metrics.SharedPageReads m;
     Evictions := Metrics.Evictions m; DirtyEvictions := Metrics.DirtyEvictions m;
     AvgSearchTimeNs := Metrics.AvgSearchTimeNs m;
     LastEvictionTimeNs := Metrics.LastEvictionTimeNs m;
     TotalProcesses := Metrics.TotalProcesses m;
     ActiveProcesses := Metrics.ActiveProcesses m;
     PageFaultRate := Metrics.GetPageFaultRate m;
     PageHitRate := Metrics.GetPageHitRate m;
     Uptime := Metrics.GetUptime now m;
     DroppedEvents := Metrics.DroppedEvents m |}.

Definition GetSnapshot (now : Z) (m : Metrics.t) : t :=
  GetSnapshotWithStats now (Metrics.UsedFrames m) (Metrics.FreeFrames m)
    (Metrics.PinnedFrames m) (Metrics.PagesInMemory m) (Metrics.SharedPages m)
    (Metrics.DirtyPages m) m.
End MetricsSnapshot.

(** ** [access.go] *)
Inductive AccessType := AccessRead | AccessWrite | AccessExecute.
#[global] Instance AccessType_eq_dec : EqDecision AccessType.
Proof. solve_decision. Defined.

Module MemoryAccess.
Record t := mk {
  ProcessID : string; VirtualPage : N; Kind : AccessType; Timestamp : Z;
  PageFault : bool; CoWTriggered : bool; LatencyNs : Z;
}.
Definition NewMemoryAccess (now : Z) (processID : string) (virtualPage : N)
    (accessType : AccessType) : t :=
  mk processID virtualPage accessType now false false 0.
Definition IsWrite (a : t) : bool := bool_decide (Kind a = AccessWrite).
Definition IsRead (a : t) : bool := bool_decide (Kind a = AccessRead).
Definition GetAccessTypeString (a : t) : string :=
  match Kind a with
  | AccessRead => "Read" | AccessWrite => "Write" | AccessExecute => "Execute"
  end.
End MemoryAccess.

Inductive AccessPattern :=
  PatternSequential | PatternRandom | PatternLocality | PatternLooping | PatternMixed.
Definition GetAccessPatternString (p : AccessPattern) : string :=
  match p with
  | PatternSequential => "Sequential" | PatternRandom => "Random"
  | PatternLocality => "Locality" | PatternLooping => "Looping" | PatternMixed => "Mixed"
  end.

(** ** [vm.go] *)
Inductive PageSize := PageSizeRegular | PageSizeHuge | PageSizeGigantic.
Definition GetSizeBytes (ps : PageSize) : Z :=
  match ps with
  | PageSizeHuge => 2 * 1024 * 1024
  | PageSizeGigantic => 1 * 1024 * 1024 * 1024
  | PageSizeRegular => 4 * 1024
  end.
Definition GetRegularPageCount (ps : PageSize) : Z :=
  match ps with PageSizeHuge => 512 | PageSizeGigantic => 262144 | PageSizeRegular => 1 end.
Definition PageSize_String (ps : PageSize) : string :=
  match ps with PageSizeHuge => "2MB" | PageSizeGigantic => "1GB" | PageSizeRegular => "4KB" end.

Module NumaNode.
Record t := mk {
  ID : Z; Name : string; AccessCostNs : Z; LocalFrames : Z; TotalFrames : Z;
}.
#[global] Instance eta_t : Eta t := λ r,
  mk (ID r) (Name r) (AccessCostNs r) (LocalFrames r) (TotalFrames r).
Definition NewNumaNode (id : Z) (name : string) (accessCostNs frameCount : Z) : t :=
  mk id name accessCostNs frameCount frameCount.
End NumaNode.

Module CompressionStats.
Record t := mk {
  UncompressedBytes : Z; CompressedBytes : Z; CompressionRatio : f64;
  PagesCompressed : Z; PagesDecompressed : Z;
}.
End CompressionStats.

Module PageCluster.
(** [Pages] is only ever created empty by the code. *)
Record t := mk {
  Pages : list Page.t; AnchorPage : N; ClusterSize : Z; Sequential : bool;
  ProcessID : string;
}.
End PageCluster.

(** ** Lemmas *)

Section metrics.
Implicit Types m : Metrics.t.

Lemma accounted_new now n : Metrics.accounted (Metrics.NewMetrics now n).
Proof. reflexivity. Qed.

Lemma accounted_reset now m : Metrics.accounted (Metrics.Reset now m).
Proof. reflexivity. Qed.

Lemma accounted_fault m :
  Metrics.accounted m → Metrics.accounted (Metrics.RecordPageFault m).
Proof.
  unfold Metrics.accounted, Metrics.inc64; simpl; intros ->.
  unfold Metrics.inc64. rewrite !i64_add_l. f_equal. lia.
Qed.

Lemma accounted_hit m :
  Metrics.accounted m → Metrics.accounted (Metrics.RecordPageHit m).
Proof.
  unfold Metrics.accounted, Metrics.inc64; simpl; intros ->.
  unfold Metrics.inc64. rewrite i64_add_l, i64_add_r. f_equal. lia.
Qed.

(** A counter update that leaves the three access counters alone. *)
Lemma accounted_frame m m' :
  Metrics.TotalAccesses m' = Metrics.TotalAccesses m →
  Metrics.PageFaults m' = Metrics.PageFaults m →
  Metrics.PageHits m' = Metrics.PageHits m →
  Metrics.accounted m → Metrics.accounted m'.
Proof. unfold Metrics.accounted. congruence. Qed.
End metrics.

Lemma page_wf_new c a id pid : Page.wf (Page.NewPage c a id pid).
Proof. unfold Page.wf; simpl; split; [done|lia]. Qed.

Lemma page_wf_SetFrame n p : Page.wf (Page.SetFrame n p).
Proof.
  unfold Page.wf, Page.SetFrame. destruct (Z.leb_spec 0 n); simpl; split; try done; lia.
Qed.

Lemma page_wf_MakeShared p : Page.wf p → Page.wf (Page.MakeShared p).
Proof. done. Qed.
