(* ===== verification/Heap.v ===== *)
(** * The frame heap

    Go code shares frames by pointer: the frame table, the list handed to a
    replacement algorithm and the manager's local variables all point to the
    same [models.Frame].  A pointer is an index into the list of frame objects;
    objects are only ever added.  The heap also holds the position in the
    environment's answers, so that every reading of the clock, every random
    draw and every map iteration of a run is a question of its own.

    A pointer outside the heap plays the role of [nil]: storing through it does
    nothing, which is what the code's [if frame != nil] guards say. *)

From S2P Require Import Prelude Models.
Local Open Scope Z_scope.

Definition ptr := nat.

Record heap := mk_heap { frames : list Frame.t; tick : nat }.
#[global] Instance eta_heap : Eta heap := λ h, mk_heap (frames h) (tick h).

Section heap_ops.
Context `{Env : GoEnv}.

(** [time.Now().UnixNano()] *)
Definition time_now : M heap Z :=
  λ h, (clock (tick h), h <| tick ::= S |>).

(** [rng.Intn(n)] *)
Definition rand_intn (n : nat) : M heap nat :=
  λ h, (intn (tick h) n, h <| tick ::= S |>).

(** [for k, v := range m] *)
Definition range_map {K V} `{Countable K} (m : gmap K V) : M heap (list (K * V)) :=
  λ h, (shuffle (tick h) (map_to_list m), h <| tick ::= S |>).

Definition new_frame (f : Frame.t) : M heap ptr :=
  λ h, (length (frames h), h <| frames ::= λ fs, fs ++ [f] |>).

(** [*p], the zero frame for a pointer outside the heap. *)
Definition load (p : ptr) : M heap Frame.t :=
  gets (λ h, default (Frame.NewFrame 0) (frames h !! p)).
Definition update (p : ptr) (g : Frame.t → Frame.t) : M heap unit :=
  modify (λ h, h <| frames ::= alter g p |>).

(** Frame methods called through a pointer. *)
Definition frame_Access (p : ptr) (write : bool) : M heap unit :=
  now ← time_now; update p (Frame.Access now write).
Definition frame_Allocate (p : ptr) (pageID : N) (pid : string) : M heap unit :=
  now ← time_now; update p (Frame.Allocate now pageID pid).
Definition frame_Release (p : ptr) : M heap unit := update p Frame.Release.
Definition frame_ClearReferenceBit (p : ptr) : M heap unit :=
  update p (λ f, (Frame.ClearReferenceBit f).2).
End heap_ops.

(** ** Relations between heaps *)

(** [same_bindings h h']: the frames are the same objects, holding the same
    pages; only the policies' own fields (dirty bit, reference bit, times,
    counts) and the position in the environment may differ. *)
Definition same_bindings (h h' : heap) : Prop :=
  Forall2 Frame.same_binding (frames h) (frames h').

#[global] Instance same_bindings_equiv : Equivalence same_bindings.
Proof.
  unfold same_bindings. split.
  - intros h. apply Forall2_same_length_lookup. split; [done|]. naive_solver.
  - intros h h' H. by symmetry.
  - intros h1 h2 h3 H1 H2. by trans (frames h2).
Qed.

(** The object behind a pointer, as a function of the heap. *)
Definition frame_of (h : heap) (p : ptr) : Frame.t :=
  default (Frame.NewFrame 0) (frames h !! p).

Definition evictable_at (h : heap) (p : ptr) : Prop :=
  ∃ f, frames h !! p = Some f ∧ Frame.evictable f = true.

(** ** Lemmas *)

Section heap_lemmas.
Implicit Types (h : heap) (p q : ptr).

Lemma list_alter_eq_insert {A} (g : A → A) (l : list A) i x :
  l !! i = Some x → alter g i l = <[i := g x]> l.
Proof.
  intros Hx. apply list_eq. intros j. destruct (decide (i = j)) as [->|Hne].
  - rewrite list_lookup_alter_eq, Hx, list_lookup_insert_eq; [done|].
    by eapply lookup_lt_Some.
  - by rewrite list_lookup_alter_ne, list_lookup_insert_ne by done.
Qed.

Lemma frames_update p g h q :
  frames (update p g h).2 !! q = if decide (p = q) then g <$> frames h !! q else frames h !! q.
Proof.
  destruct (decide (p = q)) as [->|Hne]; [apply list_lookup_alter_eq|].
  by apply list_lookup_alter_ne.
Qed.

Lemma same_bindings_lookup h h' p f :
  same_bindings h h' → frames h !! p = Some f →
  ∃ f', frames h' !! p = Some f' ∧ Frame.same_binding f f'.
Proof. apply Forall2_lookup_l. Qed.

Lemma frame_of_spec h p f : frames h !! p = Some f → frame_of h p = f.
Proof. unfold frame_of. by intros ->. Qed.

Lemma evictable_at_frame_of h p :
  evictable_at h p ↔ Frame.evictable (frame_of h p) = true.
Proof.
  unfold evictable_at, frame_of. destruct (frames h !! p) as [f|]; simpl; [naive_solver|].
  split; [naive_solver|done].
Qed.

Lemma same_bindings_length h h' :
  same_bindings h h' → length (frames h) = length (frames h').
Proof. apply Forall2_length. Qed.

Lemma same_binding_evictable f g :
  Frame.same_binding f g → Frame.evictable f = Frame.evictable g.
Proof.
  unfold Frame.evictable, Frame.IsFree, Frame.IsPinned.
  intros (_&_&_&_&->&->). done.
Qed.

#[global] Instance evictable_at_proper :
  Proper (same_bindings ==> eq ==> iff) evictable_at.
Proof.
  intros h h' Hh p ? <-. split; intros (f & Hf & Hev).
  - destruct (same_bindings_lookup _ _ _ _ Hh Hf) as (f' & Hf' & Hb).
    exists f'. split; [done|]. by rewrite <-(same_binding_evictable _ _ Hb).
  - symmetry in Hh.
    destruct (same_bindings_lookup _ _ _ _ Hh Hf) as (f' & Hf' & Hb).
    exists f'. split; [done|]. by rewrite <-(same_binding_evictable _ _ Hb).
Qed.

Lemma same_bindings_frames h h' : frames h = frames h' → same_bindings h h'.
Proof. unfold same_bindings. intros ->. by apply (reflexivity (R:=same_bindings) h'). Qed.

Lemma related_update p g :
  (∀ f, Frame.same_binding f (g f)) → related same_bindings (update p g).
Proof.
  intros Hg h. unfold same_bindings; simpl.
  apply Forall2_same_length_lookup_2; [by rewrite length_alter|].
  intros i f f' Hf Hf'. destruct (decide (p = i)) as [->|Hne].
  - rewrite list_lookup_alter_eq, Hf in Hf'. simplify_eq/=. apply Hg.
  - rewrite list_lookup_alter_ne, Hf in Hf' by done. by simplify_eq.
Qed.

Lemma same_binding_Access now w f : Frame.same_binding f (Frame.Access now w f).
Proof. unfold Frame.Access. destruct w; done. Qed.

Lemma same_binding_ClearReferenceBit f :
  Frame.same_binding f (Frame.ClearReferenceBit f).2.
Proof. done. Qed.

Context `{Env : GoEnv}.

Lemma related_time_now : related same_bindings time_now.
Proof. intros h. by apply same_bindings_frames. Qed.

Lemma related_rand_intn n : related same_bindings (rand_intn n).
Proof. intros h. by apply same_bindings_frames. Qed.

Lemma related_load p : related same_bindings (load p).
Proof. intros h. by apply same_bindings_frames. Qed.

Lemma related_Access p w : related same_bindings (frame_Access p w).
Proof.
  apply related_bind; [apply _|apply related_time_now|].
  intros now. apply related_update, same_binding_Access.
Qed.

Lemma related_ClearReferenceBit p :
  related same_bindings (frame_ClearReferenceBit p).
Proof. apply related_update, same_binding_ClearReferenceBit. Qed.

Lemma frame_Allocate_spec p pageID pid h f :
  frames h !! p = Some f →
  frames (frame_Allocate p pageID pid h).2 =
    <[p := Frame.Allocate (clock (tick h)) pageID pid f]> (frames h).
Proof. intros Hf. by apply list_alter_eq_insert. Qed.

Lemma load_spec h p f : frames h !! p = Some f → load p h = (f, h).
Proof. intros H. unfold load, gets. by rewrite H. Qed.
End heap_lemmas.

#[export] Hint Resolve related_time_now related_rand_intn related_load
  related_Access related_ClearReferenceBit : go.
#[export] Hint Resolve related_ret related_gets related_when : go.

(** Decompose a [related] goal along the code. *)
Ltac related_step :=
  first
  [ progress intros
  | assumption
  | solve [eauto 3 with go typeclass_instances]
  | apply related_bind; [apply _| |]
  | apply related_when; [apply _|]
  | apply related_for_each; [apply _|]
  | match goal with |- related _ (match ?x with _ => _ end) => destruct x end ].
Ltac solve_related := repeat related_step.
