(* ===== verification/FrameTable.v ===== *)
(** * The physical frame table: [internal/memory/frame.go]

    The table is an array of pointers into the frame heap.  Every operation
    takes the table's lock for its whole body, so each is one atomic step.
    [wf] is the table's invariant: slot [i] points to the frame whose ID is
    [i], and no two slots share an object. *)

From S2P Require Import Prelude Models Heap.
Local Open Scope Z_scope.

Module FrameTable.
Record t := mk { Frames : list ptr; TotalSize : Z }.

Module Stats.
Record t := mk {
  TotalFrames : Z; FreeFrames : Z; UsedFrames : Z; PinnedFrames : Z; DirtyFrames : Z }.
#[global] Instance eta_t : Eta t := λ r,
  mk (TotalFrames r) (FreeFrames r) (UsedFrames r) (PinnedFrames r) (DirtyFrames r).
End Stats.

Fixpoint new_frames (i : Z) (n : nat) : M heap (list ptr) :=
  match n with
  | O => mret []
  | S n => p ← new_frame (Frame.NewFrame i); ps ← new_frames (i + 1) n; mret (p :: ps)
  end.

(** [make] panics on a negative length; a table is only built for 0 or more frames. *)
Definition NewFrameTable (numFrames : Z) : M heap t :=
  ps ← new_frames 0 (Z.to_nat numFrames);
  mret {| Frames := ps; TotalSize := numFrames |}.

Definition GetFrame (ft : t) (frameID : Z) : res ptr :=
  if (frameID <? 0) || (TotalSize ft <=? frameID) then Err (ErrInvalidFrameID frameID)
  else match Frames ft !! Z.to_nat frameID with
       | Some p => Ok p
       | None => Err (ErrInvalidFrameID frameID)   (* index out of range: a Go panic *)
       end.

Definition GetAllFrames (ft : t) : list ptr := Frames ft.

Section ops.
Context `{Env : GoEnv}.

(** The scan shared by [AllocateFrame] and [AllocateFrameInRange]. *)
Fixpoint allocate_first (ps : list ptr) (pageID : N) (processID : string)
    : M heap (option ptr) :=
  match ps with
  | [] => mret None
  | p :: ps =>
      f ← load p;
      if Frame.IsFree f
      then frame_Allocate p pageID processID ;; mret (Some p)
      else allocate_first ps pageID processID
  end.

Definition AllocateFrame (ft : t) (pageID : N) (processID : string) : M heap (res ptr) :=
  r ← allocate_first (Frames ft) pageID processID;
  mret match r with Some p => Ok p | None => Err ErrNoFreeFrames end.

(** The frames [start .. end - 1].  A negative [start], for which the code would
    panic, counts as 0; the memory manager passes 0 or the middle of the table. *)
Definition AllocateFrameInRange (ft : t) (start end_ : Z) (pageID : N)
    (processID : string) : M heap (res ptr) :=
  let end_ := if TotalSize ft <? end_ then TotalSize ft else end_ in
  let slots := take (Z.to_nat (end_ - start)) (drop (Z.to_nat start) (Frames ft)) in
  r ← allocate_first slots pageID processID;
  mret match r with Some p => Ok p | None => Err (ErrNoFreeFramesInRange start end_) end.

Definition ReleaseFrame (ft : t) (frameID : Z) : M heap (res unit) :=
  match GetFrame ft frameID with
  | Err e => mret (Err e)
  | Ok p => frame_Release p ;; mret (Ok ())
  end.

Definition Clear (ft : t) : M heap unit := for_each frame_Release (Frames ft).
End ops.

(** The read-only scans, as functions of the heap. *)
Definition GetFreeFrames (ft : t) (h : heap) : list ptr :=
  filter (λ p, Frame.IsFree (frame_of h p) = true) (Frames ft).
Definition GetUsedFrames (ft : t) (h : heap) : list ptr :=
  filter (λ p, Frame.IsFree (frame_of h p) = false) (Frames ft).
Definition GetFreeFrameCount (ft : t) (h : heap) : Z :=
  foldl (λ count p, if Frame.IsFree (frame_of h p) then i32 (count + 1) else count)
    0 (Frames ft).
Definition GetUsedFrameCount (ft : t) (h : heap) : Z :=
  foldl (λ count p, if negb (Frame.IsFree (frame_of h p)) then i32 (count + 1) else count)
    0 (Frames ft).

Definition FindFrameByPage (ft : t) (pageID : N) (h : heap) : res ptr :=
  match list_find (λ p, Frame.IsFree (frame_of h p) = false ∧
                        Frame.GetPageID (frame_of h p) = pageID) (Frames ft) with
  | Some (_, p) => Ok p
  | None => Err (ErrFrameNotFoundForPage pageID)
  end.

Definition stats_step (h : heap) (s : Stats.t) (p : ptr) : Stats.t :=
  let f := frame_of h p in
  let inc := λ c, i32 (c + 1) in
  if Frame.IsFree f then s <| Stats.FreeFrames ::= inc |>
  else
    let s := s <| Stats.UsedFrames ::= inc |> in
    let s := if Frame.IsPinned f then s <| Stats.PinnedFrames ::= inc |> else s in
    if Frame.IsModified f then s <| Stats.DirtyFrames ::= inc |> else s.

Definition GetStats (ft : t) (h : heap) : Stats.t :=
  foldl (stats_step h) (Stats.mk (i32 (Z.of_nat (length (Frames ft)))) 0 0 0 0) (Frames ft).

(** The invariant. *)
Definition wf (ft : t) (h : heap) : Prop :=
  0 ≤ TotalSize ft ∧
  Frames ft = seq 0 (Z.to_nat (TotalSize ft)) ∧
  (∀ p, (p < Z.to_nat (TotalSize ft))%nat →
     ∃ f, frames h !! p = Some f ∧ Frame.ID f = Z.of_nat p).

(** *** Lemmas *)
Section lemmas.
Context `{Env : GoEnv}.
Implicit Types (ft : t) (h : heap).

Lemma new_frames_spec i n h :
  (new_frames i n h).1 = seq (length (frames h)) n ∧
  tick (new_frames i n h).2 = tick h ∧
  frames (new_frames i n h).2 =
    frames h ++ ((λ k, Frame.NewFrame (i + Z.of_nat k)) <$> seq 0 n).
Proof.
  revert i h. induction n as [|n IH]; intros i h.
  - simpl. by rewrite app_nil_r.
  - simpl. unfold mbind, M_bind; simpl.
    destruct (IH (i + 1) (mk_heap (frames h ++ [Frame.NewFrame i]) (tick h)))
      as (IH1 & IH2 & IH3).
    rewrite IH1, IH2, IH3. simpl. split_and!; [|done|].
    + rewrite length_app; simpl. f_equal. f_equal. lia.
    + rewrite <-app_assoc. f_equal. simpl. f_equal; [f_equal; lia|].
      rewrite <-(fmap_S_seq 0 n), <-list_fmap_compose.
      apply list_fmap_ext. intros k x _. simpl. f_equal. lia.
Qed.

Lemma wf_NewFrameTable n t0 :
  0 ≤ n →
  let '(ft, h) := NewFrameTable n (mk_heap [] t0) in
  wf ft h ∧ TotalSize ft = n ∧
  ∀ p f, frames h !! p = Some f → Frame.Free f = true ∧ Frame.Pinned f = false.
Proof.
  intros Hn. unfold NewFrameTable, mbind, M_bind; simpl.
  destruct (new_frames_spec 0 (Z.to_nat n) (mk_heap [] t0)) as (H1 & _ & H3).
  rewrite H1. simpl in *. split_and!; [|done|].
  - split_and!; [done|done|]. simpl. intros p Hp. rewrite H3.
    rewrite list_lookup_fmap, lookup_seq_lt by done. simpl. eauto.
  - intros p f. rewrite H3, list_lookup_fmap.
    destruct (seq _ _ !! p); simpl; naive_solver.
Qed.

Lemma wf_same_bindings ft h h' : same_bindings h h' → wf ft h → wf ft h'.
Proof.
  intros Hb (H1 & H2 & H3). split_and!; [done..|].
  intros p Hp. destruct (H3 p Hp) as (f & Hf & Hid).
  destruct (same_bindings_lookup _ _ _ _ Hb Hf) as (f' & Hf' & Hs).
  exists f'. split; [done|]. destruct Hs as [<- _]. done.
Qed.

#[global] Instance wf_proper : Proper (eq ==> same_bindings ==> iff) wf.
Proof.
  intros ft ? <- h h' Hh. split; apply wf_same_bindings; [done|by symmetry].
Qed.

(** [GetFrame] on a well-formed table is total on valid IDs and returns
    the frame that carries the ID. *)
Lemma GetFrame_spec ft h id :
  wf ft h → 0 ≤ id < TotalSize ft →
  GetFrame ft id = Ok (Z.to_nat id) ∧
  ∃ f, frames h !! Z.to_nat id = Some f ∧ Frame.ID f = id.
Proof.
  intros (H1 & H2 & H3) Hid. unfold GetFrame.
  destruct (Z.ltb_spec id 0); [lia|]. destruct (Z.leb_spec (TotalSize ft) id); [lia|].
  simpl. rewrite H2, lookup_seq_lt by lia. split; [done|].
  destruct (H3 (Z.to_nat id)) as (f & Hf & Hf'); [lia|].
  exists f. split; [done|]. lia.
Qed.

Lemma GetFrame_Ok ft h id p :
  wf ft h → GetFrame ft id = Ok p → 0 ≤ id < TotalSize ft ∧ p = Z.to_nat id.
Proof.
  intros Hwf Hg. assert (0 ≤ id < TotalSize ft) as Hid.
  { revert Hg. unfold GetFrame. destruct (Z.ltb_spec id 0); simpl; [done|].
    destruct (Z.leb_spec (TotalSize ft) id); simpl; [done|]. lia. }
  destruct (GetFrame_spec ft h id Hwf Hid) as [Hg' _]. rewrite Hg in Hg'. by simplify_eq.
Qed.

Lemma elem_of_GetUsedFrames ft h p :
  p ∈ GetUsedFrames ft h ↔ Frame.IsFree (frame_of h p) = false ∧ p ∈ Frames ft.
Proof. unfold GetUsedFrames. by rewrite list_elem_of_filter. Qed.

Lemma elem_of_Frames ft h p :
  wf ft h → p ∈ Frames ft ↔ Z.of_nat p < TotalSize ft.
Proof. intros (H1 & -> & _). rewrite elem_of_seq. lia. Qed.

(** The result of the free-frame scan, in full: the first free slot is
    allocated and nothing else changes; with none free nothing changes. *)
Lemma allocate_first_spec ps pageID pid h :
  (∀ p, p ∈ ps → is_Some (frames h !! p)) →
  match (allocate_first ps pageID pid h).1 with
  | Some p =>
      p ∈ ps ∧
      ∃ f now, frames h !! p = Some f ∧ Frame.Free f = true ∧
        frames (allocate_first ps pageID pid h).2 =
          <[p := Frame.Allocate now pageID pid f]> (frames h)
  | None =>
      (allocate_first ps pageID pid h).2 = h ∧
      ∀ p, p ∈ ps → Frame.IsFree (frame_of h p) = false
  end.
Proof.
  induction ps as [|p ps IH]; intros Hps.
  - simpl. split; [done|]. by intros p ?%elem_of_nil.
  - destruct (Hps p) as [f Hf]; [set_solver|].
    simpl. unfold mbind, M_bind. rewrite (load_spec _ _ _ Hf). simpl.
    destruct (Frame.IsFree f) eqn:Hfree.
    + simpl. split; [set_solver|]. exists f, (clock (tick h)). split_and!; [done..|].
      by apply frame_Allocate_spec.
    + specialize (IH (λ q Hq, Hps q (list_elem_of_further _ _ _ Hq))).
      destruct (allocate_first ps pageID pid h) as [[q|] h'] eqn:Ha; simpl in *.
      * destruct IH as (Hq & IH). split; [set_solver|done].
      * destruct IH as [-> IH]. split; [done|].
        intros q [->|Hq]%elem_of_cons; [|auto]. by rewrite (frame_of_spec _ _ _ Hf).
Qed.
End lemmas.
End FrameTable.
