(* ===== verification/Policy.v ===== *)
(** * The replacement-policy interface: [internal/algorithms/algorithm.go]

    [PageReplacementAlgorithm] is the Go interface.  [LawfulPolicy] states what
    the memory manager relies on when it calls through the interface: a policy
    never moves, frees or pins a frame; a victim is one of the candidates and
    may be evicted; an error means that no candidate could be evicted.  Each
    policy's file discharges it, and the manager's theorems use nothing else. *)

From S2P Require Import Prelude Models Heap.
Local Open Scope Z_scope.

Class PageReplacementAlgorithm (A : Type) := {
  SelectVictim : A → list ptr → M heap (res ptr * A);
  OnPageAccess : A → ptr → bool → M heap A;
  OnPageFault : A → ptr → M heap A;
  OnPageEviction : A → ptr → M heap A;
  GetName : A → string;
  Reset : A → A;
}.

Inductive AlgorithmType :=
| AlgorithmLRU | AlgorithmCLOCK | AlgorithmLFU | AlgorithmFIFO
| AlgorithmOptimal | AlgorithmRandom | AlgorithmARC | AlgorithmCAR
| AlgorithmWSClock | AlgorithmPFF | AlgorithmOPTPlus | AlgorithmNRU.
#[global] Instance AlgorithmType_eq_dec : EqDecision AlgorithmType.
Proof. solve_decision. Defined.

Definition ValidAlgorithmNames : list string :=
  ["LRU"; "CLOCK"; "LFU"; "FIFO"; "Optimal"; "Random";
   "ARC"; "CAR"; "WSClock"; "PFF"; "OPT+"; "NRU"].

Definition ParseAlgorithmType (name : string) : option AlgorithmType :=
  if String.eqb name "LRU" then Some AlgorithmLRU
  else if String.eqb name "CLOCK" then Some AlgorithmCLOCK
  else if String.eqb name "LFU" then Some AlgorithmLFU
  else if String.eqb name "FIFO" then Some AlgorithmFIFO
  else if String.eqb name "Optimal" then Some AlgorithmOptimal
  else if String.eqb name "Random" then Some AlgorithmRandom
  else if String.eqb name "ARC" then Some AlgorithmARC
  else if String.eqb name "CAR" then Some AlgorithmCAR
  else if String.eqb name "WSClock" then Some AlgorithmWSClock
  else if String.eqb name "PFF" then Some AlgorithmPFF
  else if String.eqb name "OPT+" then Some AlgorithmOPTPlus
  else if String.eqb name "NRU" then Some AlgorithmNRU
  else None.

Definition GetAlgorithmName (algType : AlgorithmType) : string :=
  match algType with
  | AlgorithmLRU => "LRU" | AlgorithmCLOCK => "CLOCK" | AlgorithmLFU => "LFU"
  | AlgorithmFIFO => "FIFO" | AlgorithmOptimal => "Optimal"
  | AlgorithmRandom => "Random" | AlgorithmARC => "ARC" | AlgorithmCAR => "CAR"
  | AlgorithmWSClock => "WSClock" | AlgorithmPFF => "PFF"
  | AlgorithmOPTPlus => "OPT+" | AlgorithmNRU => "NRU"
  end.

(** ** What a caller relies on *)

(** Candidate lists: pointers to existing frames, few enough that twice their
    number fits in an [int32]. *)
Definition candidates (h : heap) (ps : list ptr) : Prop :=
  (∀ p, p ∈ ps → is_Some (frames h !! p)) ∧ Z.of_nat (length ps) < 2 ^ 30.

(** The result of a victim search in heap [h]. *)
Definition victim_ok (h : heap) (ps : list ptr) (r : res ptr) : Prop :=
  match r with
  | Ok p => p ∈ ps ∧ evictable_at h p
  | Err e => (e = ErrNoFrames ∨ e = ErrNoEvictable) ∧
             ∀ p, p ∈ ps → ¬ evictable_at h p
  end.

Class LawfulPolicy (A : Type) `{PageReplacementAlgorithm A} := {
  policy_inv : A → Prop;
  select_victim_lawful a ps h :
    policy_inv a → candidates h ps →
    victim_ok h ps (SelectVictim a ps h).1.1 ∧
    same_bindings h (SelectVictim a ps h).2 ∧
    policy_inv (SelectVictim a ps h).1.2;
  on_page_access_lawful a p w h :
    policy_inv a →
    same_bindings h (OnPageAccess a p w h).2 ∧ policy_inv (OnPageAccess a p w h).1;
  on_page_fault_lawful a p h :
    policy_inv a →
    same_bindings h (OnPageFault a p h).2 ∧ policy_inv (OnPageFault a p h).1;
  on_page_eviction_lawful a p h :
    policy_inv a →
    same_bindings h (OnPageEviction a p h).2 ∧ policy_inv (OnPageEviction a p h).1;
  reset_lawful a : policy_inv a → policy_inv (Reset a);
}.

(** ** A policy in use: any sequence of calls through the interface *)

Inductive policy_call : Type :=
| CallSelect (ps : list ptr)
| CallAccess (p : ptr) (write : bool)
| CallFault (p : ptr)
| CallEviction (p : ptr)
| CallReset.

Definition call {A} `{PageReplacementAlgorithm A} (c : policy_call) (a : A) : M heap A :=
  match c with
  | CallSelect ps => r ← SelectVictim a ps; mret r.2
  | CallAccess p w => OnPageAccess a p w
  | CallFault p => OnPageFault a p
  | CallEviction p => OnPageEviction a p
  | CallReset => mret (Reset a)
  end.

Fixpoint calls {A} `{PageReplacementAlgorithm A} (cs : list policy_call) (a : A) : M heap A :=
  match cs with
  | [] => mret a
  | c :: cs => a ← call c a; calls cs a
  end.

(** ** The scan most policies share

    [for _, frame := range frames { if free or pinned { continue }
     k := key(frame); if first || better(k, best) { victim, best, first = frame, k, false } }] *)
Section scan.
Context {K : Type} (key : Frame.t → K) (better : K → K → bool).

Fixpoint scan (h : heap) (ps : list ptr) (victim : option ptr) (best : K) (first : bool)
    : option ptr :=
  match ps with
  | [] => victim
  | p :: ps =>
      let f := frame_of h p in
      if Frame.IsFree f || Frame.IsPinned f then scan h ps victim best first
      else if first || better (key f) best then scan h ps (Some p) (key f) false
      else scan h ps victim best first
  end.
End scan.

(** [better] compares by a strict weak order. *)
Class StrictWeak {K} (better : K → K → bool) := {
  better_irrefl x : better x x = false;
  better_negtrans x y z : better x y = false → better y z = false → better x z = false;
  better_asym x y : better x y = true → better y x = false;
}.

(** [best_of key better h ps p]: [p] is the scan's answer by specification:
    an evictable candidate, at least as good as every other one and strictly
    better than those before it. *)
Definition best_of {K} (key : Frame.t → K) (better : K → K → bool)
    (h : heap) (ps : list ptr) (p : ptr) : Prop :=
  ∃ l r, ps = l ++ p :: r ∧ evictable_at h p ∧
    (∀ q, q ∈ l → evictable_at h q → better (key (frame_of h p)) (key (frame_of h q)) = true) ∧
    (∀ q, q ∈ r → evictable_at h q → better (key (frame_of h q)) (key (frame_of h p)) = false).

(** ** Lemmas *)

Lemma candidates_proper h h' ps : same_bindings h h' → candidates h ps ↔ candidates h' ps.
Proof.
  intros Hb. unfold candidates. f_equiv. apply forall_proper. intros p.
  apply forall_proper. intros _. rewrite !lookup_lt_is_Some.
  by rewrite (same_bindings_length _ _ Hb).
Qed.

#[global] Instance StrictWeak_ltb : StrictWeak Z.ltb.
Proof. split; intros; lia. Qed.
#[global] Instance StrictWeak_gtb : StrictWeak Z.gtb.
Proof. split; intros; lia. Qed.

Lemma StrictWeak_trans {K} (better : K → K → bool) `{!StrictWeak better} x y z :
  better x y = true → better y z = true → better x z = true.
Proof.
  intros Hxy Hyz. destruct (better x z) eqn:Hxz; [done|].
  pose proof (better_asym _ _ Hyz) as Hzy.
  pose proof (better_negtrans _ _ _ Hxz Hzy). congruence.
Qed.

Lemma StrictWeak_trans_l {K} (better : K → K → bool) `{!StrictWeak better} x y z :
  better x y = true → better z y = false → better x z = true.
Proof.
  intros Hxy Hzy. destruct (better x z) eqn:Hxz; [done|].
  pose proof (better_negtrans _ _ _ Hxz Hzy). congruence.
Qed.

Lemma skip_not_evictable h p :
  Frame.IsFree (frame_of h p) || Frame.IsPinned (frame_of h p) = true ↔ ¬ evictable_at h p.
Proof.
  rewrite evictable_at_frame_of. unfold Frame.evictable.
  destruct (Frame.IsFree _), (Frame.IsPinned _); simpl; naive_solver.
Qed.

Lemma take_evictable h p :
  Frame.IsFree (frame_of h p) || Frame.IsPinned (frame_of h p) = false ↔ evictable_at h p.
Proof.
  rewrite evictable_at_frame_of. unfold Frame.evictable.
  destruct (Frame.IsFree _), (Frame.IsPinned _); simpl; naive_solver.
Qed.

Section scan_lemmas.
Context {K : Type} (key : Frame.t → K) (better : K → K → bool) `{!StrictWeak better}.
Implicit Types (h : heap) (ps : list ptr).

Lemma best_of_skip h l p ps :
  (∀ q, q ∈ l → ¬ evictable_at h q) →
  best_of key better h ps p → best_of key better h (l ++ ps) p.
Proof.
  intros Hl (l' & r & -> & Hp & H1 & H2). exists (l ++ l'), r.
  split_and!; [by rewrite <-app_assoc|done| |done].
  intros q [Hq|Hq]%elem_of_app ?; [by destruct (Hl q)|auto].
Qed.

(** From a current best [v], already known for a prefix [l]. *)
Lemma scan_from h l v r ps :
  (∀ q, q ∈ l → evictable_at h q →
     better (key (frame_of h v)) (key (frame_of h q)) = true) →
  (∀ q, q ∈ r → evictable_at h q →
     better (key (frame_of h q)) (key (frame_of h v)) = false) →
  evictable_at h v →
  ∃ p, scan key better h ps (Some v) (key (frame_of h v)) false = Some p ∧
    best_of key better h (l ++ v :: r ++ ps) p.
Proof.
  revert l v r. induction ps as [|p ps IH]; intros l v r Hl Hr Hv; simpl.
  - exists v. split; [done|]. exists l, r. by rewrite app_nil_r.
  - destruct (Frame.IsFree _ || _) eqn:Hskip.
    + apply skip_not_evictable in Hskip.
      destruct (IH l v (r ++ [p]) Hl) as (q & Hq & Hb); [|done|].
      { intros q [? | ->%list_elem_of_singleton]%elem_of_app; naive_solver. }
      exists q. split; [done|]. by rewrite <-app_assoc in Hb.
    + apply take_evictable in Hskip. destruct (better _ _) eqn:Hbetter.
      * destruct (IH (l ++ v :: r) p []) as (q & Hq & Hb); [|set_solver|done|].
        { intros q [Hq | [-> | Hq]%elem_of_cons]%elem_of_app Hev; [| done |].
          - by eapply StrictWeak_trans; eauto.
          - by eapply StrictWeak_trans_l; eauto. }
        exists q. split; [done|]. by rewrite <-app_assoc in Hb.
      * destruct (IH l v (r ++ [p]) Hl) as (q & Hq & Hb); [|done|].
        { intros q [? | ->%list_elem_of_singleton]%elem_of_app; naive_solver. }
        exists q. split; [done|]. by rewrite <-app_assoc in Hb.
Qed.

(** The scan finds the best evictable candidate, and finds none only when
    there is none.  [first] may start false when every key beats [best]. *)
Lemma scan_spec h ps best first :
  first = true ∨ (∀ p, p ∈ ps → evictable_at h p → better (key (frame_of h p)) best = true) →
  match scan key better h ps None best first with
  | Some p => best_of key better h ps p
  | None => ∀ p, p ∈ ps → ¬ evictable_at h p
  end.
Proof.
  induction ps as [|p ps IH]; intros Hinit; simpl.
  - by intros p ?%elem_of_nil.
  - destruct (Frame.IsFree _ || _) eqn:Hskip.
    + apply skip_not_evictable in Hskip.
      specialize (IH ltac:(set_solver)).
      destruct (scan _ _ _ ps None best first) as [q|].
      * apply (best_of_skip h [p]); [set_solver|done].
      * intros q [->|Hq]%elem_of_cons; auto.
    + apply take_evictable in Hskip.
      assert (first || better (key (frame_of h p)) best = true) as ->.
      { destruct Hinit as [->|Hinit]; [done|]. rewrite Hinit; [by rewrite orb_true_r|set_solver|done]. }
      destruct (scan_from h [] p [] ps) as (q & -> & Hq); [set_solver..|done|]. done.
Qed.

Lemma best_of_victim h ps p : best_of key better h ps p → p ∈ ps ∧ evictable_at h p.
Proof. intros (l & r & -> & Hp & _). split; [set_solver|done]. Qed.

(** A best candidate is at least as good as every evictable one. *)
Lemma best_of_optimal h ps p q :
  best_of key better h ps p → q ∈ ps → evictable_at h q →
  better (key (frame_of h q)) (key (frame_of h p)) = false.
Proof.
  intros (l & r & -> & Hp & Hl & Hr) Hq Hev.
  apply elem_of_app in Hq as [Hq | [-> | Hq]%elem_of_cons]; [|apply better_irrefl|auto].
  by apply better_asym, Hl.
Qed.
End scan_lemmas.
