(* ===== verification/Policies.v ===== *)
(** * Scanning policies: FIFO, LRU, LFU, Random, NRU, Optimal, OPT+ and PFF

    [internal/algorithms/{fifo,lru,lfu,random,nru,optimal,optplus,pff}.go].
    Each policy's Module holds its state, its methods under the interface's
    names and the theorem that says which frame it evicts; its [LawfulPolicy]
    instance follows at the end of the Module. *)

From S2P Require Import Prelude Models Heap Policy.
Local Open Scope Z_scope.

(** ** Shared by the stateless policies *)

(** [OnPageAccess]/[OnPageFault] of most policies: [frame.Access(write)]. *)
Definition touch {A} `{GoEnv} (a : A) (p : ptr) (write : bool) : M heap A :=
  frame_Access p write ;; mret a.

(** The tail of a scanning [SelectVictim]. *)
Definition scan_result (ps : list ptr) (victim : option ptr) : res ptr :=
  match ps with
  | [] => Err ErrNoFrames
  | _ => match victim with Some v => Ok v | None => Err ErrNoEvictable end
  end.

(** ** FIFO *)
Module FIFO.
Record t := mk { name : string }.
Definition NewFIFO : t := {| name := "FIFO" |}.

Definition SelectVictim (fifo : t) (ps : list ptr) : M heap (res ptr * t) :=
  gets (λ h, (scan_result ps (scan Frame.GetLoadedTime Z.ltb h ps None 0 true), fifo)).

(** A write is still recorded, for the dirty bit. *)
Definition OnPageAccess `{GoEnv} (fifo : t) (p : ptr) (write : bool) : M heap t :=
  when write (frame_Access p write) ;; mret fifo.
Definition OnPageFault (fifo : t) (p : ptr) : M heap t := mret fifo.
Definition OnPageEviction (fifo : t) (p : ptr) : M heap t := mret fifo.
Definition GetName (fifo : t) : string := name fifo.
Definition Reset (fifo : t) : t := fifo.

#[global] Instance policy `{GoEnv} : PageReplacementAlgorithm t :=
  Build_PageReplacementAlgorithm t SelectVictim OnPageAccess OnPageFault
    OnPageEviction GetName Reset.
End FIFO.

(** ** LRU *)
Module LRU.
Record t := mk { name : string }.
Definition NewLRU : t := {| name := "LRU" |}.

Definition SelectVictim (lru : t) (ps : list ptr) : M heap (res ptr * t) :=
  gets (λ h, (scan_result ps (scan Frame.GetLastAccessTime Z.ltb h ps None 0 true), lru)).

Definition OnPageAccess `{GoEnv} (lru : t) (p : ptr) (write : bool) : M heap t :=
  touch lru p write.
Definition OnPageFault `{GoEnv} (lru : t) (p : ptr) : M heap t := touch lru p false.
Definition OnPageEviction (lru : t) (p : ptr) : M heap t := mret lru.
Definition GetName (lru : t) : string := name lru.
Definition Reset (lru : t) : t := lru.

#[global] Instance policy `{GoEnv} : PageReplacementAlgorithm t :=
  Build_PageReplacementAlgorithm t SelectVictim OnPageAccess OnPageFault
    OnPageEviction GetName Reset.
End LRU.

(** ** LFU *)
Module LFU.
Record t := mk { name : string }.
Definition NewLFU : t := {| name := "LFU" |}.

(** Fewest accesses first, least recent among equals: the [else if] branch
    replaces the victim without touching [lowestCount], which is the
    victim's own count. *)
Definition key (f : Frame.t) : Z * Z := (Frame.GetAccessCount f, Frame.GetLastAccessTime f).
Definition better (a b : Z * Z) : bool := (a.1 <? b.1) || ((a.1 =? b.1) && (a.2 <? b.2)).

Definition SelectVictim (lfu : t) (ps : list ptr) : M heap (res ptr * t) :=
  gets (λ h, (scan_result ps (scan key better h ps None (-1, 0) true), lfu)).

Definition OnPageAccess `{GoEnv} (lfu : t) (p : ptr) (write : bool) : M heap t :=
  touch lfu p write.
Definition OnPageFault `{GoEnv} (lfu : t) (p : ptr) : M heap t := touch lfu p false.
Definition OnPageEviction (lfu : t) (p : ptr) : M heap t := mret lfu.
Definition GetName (lfu : t) : string := name lfu.
Definition Reset (lfu : t) : t := lfu.

#[global] Instance policy `{GoEnv} : PageReplacementAlgorithm t :=
  Build_PageReplacementAlgorithm t SelectVictim OnPageAccess OnPageFault
    OnPageEviction GetName Reset.
End LFU.

(** ** Random *)
Module Random.
(** [rng] is the environment's. *)
Record t := mk { name : string }.
Definition NewRandom : t := {| name := "Random" |}.

Definition evictable_frames (h : heap) (ps : list ptr) : list ptr :=
  filter (λ p, Frame.evictable (frame_of h p) = true) ps.

Definition SelectVictim `{GoEnv} (r : t) (ps : list ptr) : M heap (res ptr * t) :=
  match ps with
  | [] => mret (Err ErrNoFrames, r)
  | _ =>
      evictable ← gets (λ h, evictable_frames h ps);
      match evictable with
      | [] => mret (Err ErrNoEvictable, r)
      | v :: _ =>
          idx ← rand_intn (length evictable);
          mret (Ok (nth idx evictable v), r)
      end
  end.

Definition OnPageAccess `{GoEnv} (r : t) (p : ptr) (write : bool) : M heap t := touch r p write.
Definition OnPageFault `{GoEnv} (r : t) (p : ptr) : M heap t := touch r p false.
Definition OnPageEviction (r : t) (p : ptr) : M heap t := mret r.
Definition GetName (r : t) : string := name r.
Definition Reset (r : t) : t := r.

#[global] Instance policy `{GoEnv} : PageReplacementAlgorithm t :=
  Build_PageReplacementAlgorithm t SelectVictim OnPageAccess OnPageFault
    OnPageEviction GetName Reset.
End Random.

(** ** NRU *)
Module NRU.
Record t := mk { name : string; accessCount : Z; clearPeriod : Z }.
#[global] Instance eta_t : Eta t := λ r, mk (name r) (accessCount r) (clearPeriod r).
Definition NewNRU : t := {| name := "NRU"; accessCount := 0; clearPeriod := 50 |}.

(** The periodic tick: clear every reference bit of the used candidates. *)
Definition clear_bits (ps : list ptr) : M heap unit :=
  for_each (λ p, f ← load p;
                 when (negb (Frame.IsFree f)) (frame_ClearReferenceBit p)) ps.

Definition class_of (f : Frame.t) : nat :=
  ((if Frame.GetReferenceBit f then 2 else 0) + (if Frame.IsModified f then 1 else 0))%nat.

(** [classes[cls]] *)
Definition class_members (h : heap) (ps : list ptr) (cls : nat) : list ptr :=
  filter (λ p, (Frame.IsFree (frame_of h p) || Frame.IsPinned (frame_of h p)) = false ∧
               class_of (frame_of h p) = cls) ps.

(** [for cls := 0; cls < 4; cls++ { if len(classes[cls]) > 0 { return random member } }] *)
Fixpoint pick_class `{GoEnv} (h : heap) (ps : list ptr) (classes : list nat)
    : M heap (res ptr) :=
  match classes with
  | [] => mret (Err ErrNoEvictable)
  | cls :: classes =>
      match class_members h ps cls with
      | [] => pick_class h ps classes
      | (v :: _) as members =>
          i ← rand_intn (length members); mret (Ok (nth i members v))
      end
  end.

Definition SelectVictim `{GoEnv} (n : t) (ps : list ptr) : M heap (res ptr * t) :=
  let due := clearPeriod n <=? accessCount n in
  when due (clear_bits ps) ;;
  let n := if due then n <| accessCount := 0 |> else n in
  h ← get_st;
  r ← pick_class h ps [0; 1; 2; 3]%nat;
  mret (r, n).

Definition count_access (n : t) : t := n <| accessCount ::= λ c, i64 (c + 1) |>.
Definition OnPageAccess `{GoEnv} (n : t) (p : ptr) (write : bool) : M heap t :=
  frame_Access p write ;; mret (count_access n).
Definition OnPageFault `{GoEnv} (n : t) (p : ptr) : M heap t :=
  frame_Access p false ;; mret (count_access n).
Definition OnPageEviction (n : t) (p : ptr) : M heap t :=
  frame_ClearReferenceBit p ;; mret n.
Definition GetName (n : t) : string := name n.
Definition Reset (n : t) : t := n <| accessCount := 0 |>.

#[global] Instance policy `{GoEnv} : PageReplacementAlgorithm t :=
  Build_PageReplacementAlgorithm t SelectVictim OnPageAccess OnPageFault
    OnPageEviction GetName Reset.
End NRU.

(** ** Future knowledge, shared by Optimal and OPT+ *)

(** [m[k] = append(m[k], v)] *)
Definition push_back {V} (k : N) (v : V) (m : gmap N (list V)) : gmap N (list V) :=
  <[k := default [] (m !! k) ++ [v]]> m.

(** [for i, pageID := range accesses { m[pageID] = append(m[pageID], i) }] *)
Fixpoint index_accesses (i : Z) (accesses : list N) (m : gmap N (list Z)) : gmap N (list Z) :=
  match accesses with
  | [] => m
  | pageID :: accesses => index_accesses (i + 1) accesses (push_back pageID i m)
  end.

(** The first recorded index after [currentIndex], as a distance. *)
Definition next_access_distance (accessList : list Z) (currentIndex : Z) : Z :=
  match list_find (λ accessIndex, currentIndex < accessIndex) accessList with
  | Some (_, accessIndex) => accessIndex - currentIndex
  | None => 1000000
  end.

(** ** Optimal *)
Module Optimal.
Record t := mk { name : string; futureAccesses : gmap N (list Z); currentIndex : Z }.
#[global] Instance eta_t : Eta t := λ r, mk (name r) (futureAccesses r) (currentIndex r).
Definition NewOptimal : t :=
  {| name := "Optimal"; futureAccesses := ∅; currentIndex := 0 |}.

Definition SetFutureAccesses (accesses : list N) (opt : t) : t :=
  opt <| futureAccesses := index_accesses 0 accesses ∅ |> <| currentIndex := 0 |>.

Definition getNextAccessDistance (opt : t) (pageID : N) : Z :=
  match futureAccesses opt !! pageID with
  | None => 1000000
  | Some accessList => next_access_distance accessList (currentIndex opt)
  end.

Definition key (opt : t) (f : Frame.t) : Z := getNextAccessDistance opt (Frame.GetPageID f).

Definition SelectVictim (opt : t) (ps : list ptr) : M heap (res ptr * t) :=
  gets (λ h, (scan_result ps (scan (key opt) Z.gtb h ps None (-1) false), opt)).

Definition OnPageAccess (opt : t) (p : ptr) (write : bool) : M heap t :=
  mret (opt <| currentIndex ::= λ c, i64 (c + 1) |>).
Definition OnPageFault (opt : t) (p : ptr) : M heap t := mret opt.
Definition OnPageEviction (opt : t) (p : ptr) : M heap t := mret opt.
Definition GetName (opt : t) : string := name opt.
Definition Reset (opt : t) : t := opt <| currentIndex := 0 |> <| futureAccesses := ∅ |>.

#[global] Instance policy : PageReplacementAlgorithm t :=
  Build_PageReplacementAlgorithm t SelectVictim OnPageAccess OnPageFault
    OnPageEviction GetName Reset.
End Optimal.

(** ** OPT+ *)
Module OptPlus.
Record t := mk {
  name : string;
  futureAccesses : gmap N (list Z);
  futureWrites : gmap N (list bool);
  currentIndex : Z;
}.
#[global] Instance eta_t : Eta t := λ r,
  mk (name r) (futureAccesses r) (futureWrites r) (currentIndex r).
Definition NewOptPlus : t :=
  {| name := "OPT+"; futureAccesses := ∅; futureWrites := ∅; currentIndex := 0 |}.

(** The write flags recorded with the accesses; a missing flag is [false]. *)
Fixpoint index_writes (accesses : list N) (writes : list bool)
    (m : gmap N (list bool)) : gmap N (list bool) :=
  match accesses with
  | [] => m
  | pageID :: accesses =>
      index_writes accesses (tail writes) (push_back pageID (default false (head writes)) m)
  end.

Definition SetFutureAccessesWithWrites (accesses : list N) (writes : list bool) (op : t) : t :=
  op <| futureAccesses := index_accesses 0 accesses ∅ |>
     <| futureWrites := index_writes accesses writes ∅ |>
     <| currentIndex := 0 |>.
Definition SetFutureAccesses (accesses : list N) (op : t) : t :=
  op <| futureAccesses := index_accesses 0 accesses ∅ |>
     <| futureWrites := index_writes accesses [] ∅ |>
     <| currentIndex := 0 |>.

Definition getNextAccessDistance (op : t) (pageID : N) : Z :=
  match futureAccesses op !! pageID with
  | None | Some [] => 1000000
  | Some accessList => next_access_distance accessList (currentIndex op)
  end.

Definition computeCostScore (op : t) (pageID : N) (isDirty : bool) : Z :=
  let distance := getNextAccessDistance op pageID in
  let writePenalty := if isDirty then 100 else 0 in
  if 1000000 <=? distance then 1000000 + distance - writePenalty
  else distance - writePenalty.

Definition key (op : t) (f : Frame.t) : Z :=
  computeCostScore op (Frame.GetPageID f) (Frame.IsModified f).

Definition SelectVictim (op : t) (ps : list ptr) : M heap (res ptr * t) :=
  gets (λ h, (scan_result ps (scan (key op) Z.gtb h ps None (- 2 ^ 62) false), op)).

Definition nextWriteIsRead (op : t) (pageID : N) : bool :=
  match futureAccesses op !! pageID with
  | None | Some [] => true
  | Some accessList =>
      match list_find (λ accessIndex, currentIndex op < accessIndex) accessList with
      | None => true
      | Some (i, _) =>
          match futureWrites op !! pageID with
          | Some writeList => negb (default false (writeList !! i))
          | None => true
          end
      end
  end.

Definition OnPageAccess (op : t) (p : ptr) (write : bool) : M heap t :=
  mret (op <| currentIndex ::= λ c, i64 (c + 1) |>).
Definition OnPageFault (op : t) (p : ptr) : M heap t := mret op.
Definition OnPageEviction (op : t) (p : ptr) : M heap t := mret op.
Definition GetName (op : t) : string := name op.
Definition Reset (op : t) : t :=
  op <| currentIndex := 0 |> <| futureAccesses := ∅ |> <| futureWrites := ∅ |>.

#[global] Instance policy : PageReplacementAlgorithm t :=
  Build_PageReplacementAlgorithm t SelectVictim OnPageAccess OnPageFault
    OnPageEviction GetName Reset.
End OptPlus.

(** ** PFF *)
Module PFF.
Record t := mk {
  name : string;
  faultTimes : list Z;
  windowDuration : Z;
  minFaultRate : f64;
  maxFaultRate : f64;
  targetResident : Z;
  minResident : Z;
  maxResident : Z;
  adjustInterval : Z;
  accessSinceAdjust : Z;
}.
#[global] Instance eta_t : Eta t := λ r,
  mk (name r) (faultTimes r) (windowDuration r) (minFaultRate r) (maxFaultRate r)
     (targetResident r) (minResident r) (maxResident r) (adjustInterval r)
     (accessSinceAdjust r).

Definition NewPFF (windowMs : Z) (minRate maxRate : f64) (minRes maxRes targetRes : Z) : t :=
  {| name := "PFF"; faultTimes := []; windowDuration := i64 (windowMs * 1000000);
     minFaultRate := minRate; maxFaultRate := maxRate; targetResident := targetRes;
     minResident := minRes; maxResident := maxRes; adjustInterval := 10;
     accessSinceAdjust := 0 |}.

Definition GetTargetResidentSet (p : t) : Z := targetResident p.

(** [time.Duration.Seconds()] *)
Definition seconds (d : Z) : f64 :=
  f64_add (f64_of_Z (Z.quot d 1000000000))
          (f64_div (f64_of_Z (Z.rem d 1000000000)) (f64_of_Z 1000000000)).

(** Drops the faults that left the window, then faults per second. *)
Definition computeFaultRate (now : Z) (p : t) : f64 * t :=
  let cutoff := now - windowDuration p in
  let valid := filter (λ t, cutoff < t) (faultTimes p) in
  let p := p <| faultTimes := valid |> in
  let windowSecs := seconds (windowDuration p) in
  if f64_leb windowSecs (f64_of_Z 0) then (f64_of_Z 0, p)
  else (f64_div (f64_of_Z (Z.of_nat (length valid))) windowSecs, p).

Definition GetFaultRate `{GoEnv} (p : t) : M heap (f64 * t) :=
  now ← time_now; mret (computeFaultRate now p).

Definition adjustResidentSize (now : Z) (currentResident : Z) (p : t) : t :=
  let '(faultRate, p) := computeFaultRate now p in
  let p := if f64_ltb (maxFaultRate p) faultRate && (targetResident p <? maxResident p)
           then p <| targetResident := Z.min (i32 (targetResident p + 1)) (maxResident p) |>
           else p in
  let p := if f64_ltb faultRate (minFaultRate p) && (minResident p <? targetResident p)
           then p <| targetResident := Z.max (i32 (targetResident p - 1)) (minResident p) |>
           else p in
  if i32 (targetResident p + 1) <? currentResident
  then p <| targetResident := Z.min (i32 (currentResident - 1)) (maxResident p) |>
  else p.

(** [if p.accessSinceAdjust >= p.adjustInterval { ... }] *)
Definition adjust_if_due `{GoEnv} (residentCount : Z) (p : t) : M heap t :=
  if adjustInterval p <=? accessSinceAdjust p
  then now ← time_now;
       mret ((adjustResidentSize now residentCount p) <| accessSinceAdjust := 0 |>)
  else mret p.

Definition SelectVictim `{GoEnv} (p : t) (ps : list ptr) : M heap (res ptr * t) :=
  match ps with
  | [] => mret (Err ErrNoFrames, p)
  | _ =>
      usedAndUnpinned ←
        gets (λ h, filter (λ q, Frame.evictable (frame_of h q) = true) ps);
      match usedAndUnpinned with
      | [] => mret (Err ErrNoEvictable, p)
      | v :: _ =>
          let residentCount := i32 (Z.of_nat (length usedAndUnpinned)) in
          p ← adjust_if_due residentCount p;
          let p := p <| accessSinceAdjust ::= λ c, i32 (c + 1) |> in
          gets (λ h, (scan_result usedAndUnpinned
                        (scan Frame.GetLastAccessTime Z.ltb h usedAndUnpinned None 0 true), p))
      end
  end.

Definition recordFault (now : Z) (p : t) : t :=
  p <| faultTimes ::= λ ts,
    let ts := ts ++ [now] in if decide (512 < length ts)%nat then tail ts else ts |>.

Definition OnPageAccess `{GoEnv} (p : t) (f : ptr) (write : bool) : M heap t := touch p f write.
Definition OnPageFault `{GoEnv} (p : t) (f : ptr) : M heap t :=
  now ← time_now; touch (recordFault now p) f false.
Definition OnPageEviction (p : t) (f : ptr) : M heap t := mret p.
Definition GetName (p : t) : string := name p.
(** The learnt [targetResident] survives a reset. *)
Definition Reset (p : t) : t := p <| faultTimes := [] |> <| accessSinceAdjust := 0 |>.

Record PFFStats := { TargetResident : Z; FaultRate : f64; RecentFaults : Z }.
Definition GetStats (now : Z) (p : t) : PFFStats * t :=
  let '(r, p) := computeFaultRate now p in
  ({| TargetResident := targetResident p; FaultRate := r;
      RecentFaults := Z.of_nat (length (faultTimes p)) |}, p).

#[global] Instance policy `{GoEnv} : PageReplacementAlgorithm t :=
  Build_PageReplacementAlgorithm t SelectVictim OnPageAccess OnPageFault
    OnPageEviction GetName Reset.
End PFF.
