(* ===== verification/PoliciesSpec.v ===== *)
(** * The scanning policies: which frame each one evicts

    The victim of FIFO, LRU, LFU, Optimal, OPT+ and PFF is the best candidate
    of the policy's own order ([best_of]); Random's is a candidate; NRU's is in
    the lowest non-empty class.  Optimal's distances are those of a direct
    search in the announced trace.  Every policy meets [LawfulPolicy]. *)

From S2P Require Import Prelude Models Heap Policy Policies.
Local Open Scope Z_scope.

(** ** Generic facts *)

#[global] Instance StrictWeak_lfu : StrictWeak LFU.better.
Proof.
  split; unfold LFU.better.
  - intros [a b]; simpl. lia.
  - intros [a1 a2] [b1 b2] [c1 c2]; simpl. lia.
  - intros [a1 a2] [b1 b2]; simpl. lia.
Qed.

(** What a scanning [SelectVictim] answers. *)
Definition picks {K} (key : Frame.t → K) (better : K → K → bool)
    (h : heap) (ps : list ptr) (r : res ptr) : Prop :=
  match r with
  | Ok p => best_of key better h ps p
  | Err e => (e = ErrNoFrames ∨ e = ErrNoEvictable) ∧ ∀ p, p ∈ ps → ¬ evictable_at h p
  end.

Section picks.
Context {K : Type} (key : Frame.t → K) (better : K → K → bool) `{!StrictWeak better}.

Lemma picks_scan h ps best first :
  first = true ∨ (∀ p, p ∈ ps → evictable_at h p → better (key (frame_of h p)) best = true) →
  picks key better h ps (scan_result ps (scan key better h ps None best first)).
Proof.
  intros Hinit. pose proof (scan_spec key better h ps best first Hinit) as Hs.
  unfold picks, scan_result. destruct ps as [|p ps]; [simpl in *; auto|].
  destruct (scan _ _ _ (p :: ps) _ _ _); auto.
Qed.

Lemma picks_victim_ok h ps r : picks key better h ps r → victim_ok h ps r.
Proof. destruct r; simpl; [apply (best_of_victim key better)|done]. Qed.

(** With an evictable candidate the answer is a frame. *)
Lemma picks_ok h ps r q :
  picks key better h ps r → q ∈ ps → evictable_at h q → ∃ p, r = Ok p ∧ best_of key better h ps p.
Proof. destruct r as [p|e]; simpl; [eauto|]. intros [_ Hno] Hq Hev. by destruct (Hno q). Qed.
End picks.

Lemma scan_frames {K} (key : Frame.t → K) better h h' ps v b first :
  frames h = frames h' → scan key better h ps v b first = scan key better h' ps v b first.
Proof.
  intros Hh. assert (∀ p, frame_of h p = frame_of h' p) as Hf by (intros; unfold frame_of; by rewrite Hh).
  revert v b first. induction ps as [|p ps IH]; intros v b first; simpl; [done|].
  by rewrite Hf, !IH.
Qed.

Lemma best_of_sublist {K} (key : Frame.t → K) better h (P : ptr → Prop)
    `{!∀ p, Decision (P p)} ps p :
  (∀ q, evictable_at h q → P q) →
  best_of key better h (filter P ps) p → best_of key better h ps p.
Proof.
  intros HP (l & r & Heq & Hp & Hl & Hr).
  assert (∃ l' r', ps = l' ++ p :: r' ∧ filter P l' = l ∧ filter P r' = r)
    as (l' & r' & -> & <- & <-).
  { revert l Heq Hl. induction ps as [|x ps IH]; intros l Heq Hl.
    - by destruct l.
    - rewrite filter_cons in Heq. destruct (decide (P x)) as [Hx|Hx].
      + destruct l as [|y l]; simplify_eq/=.
        * exists [], ps. done.
        * destruct (IH l) as (l' & r' & -> & <- & <-); [done|set_solver|].
          exists (y :: l'), r'. by rewrite filter_cons_True.
      + destruct (IH l) as (l' & r' & -> & <- & <-); [done|done|].
        exists (x :: l'), r'. by rewrite filter_cons_False. }
  exists l', r'. split_and!; [done|done| |]; intros q Hq Hev.
  - apply Hl; [|done]. rewrite list_elem_of_filter. auto.
  - apply Hr; [|done]. rewrite list_elem_of_filter. auto.
Qed.

(** The fields of a lawful policy, for one whose methods only [touch]. *)
Lemma touch_lawful {A} `{GoEnv} (a : A) p w h :
  same_bindings h (touch a p w h).2 ∧ (touch a p w h).1 = a.
Proof.
  split; [|done]. apply (related_bind same_bindings); [apply related_Access|].
  intros. apply related_ret, _.
Qed.

(** ** FIFO, LRU, LFU *)

Lemma FIFO_picks fifo ps h :
  picks Frame.GetLoadedTime Z.ltb h ps (FIFO.SelectVictim fifo ps h).1.1.
Proof. apply picks_scan; [apply _|by left]. Qed.

Lemma LRU_picks lru ps h :
  picks Frame.GetLastAccessTime Z.ltb h ps (LRU.SelectVictim lru ps h).1.1.
Proof. apply picks_scan; [apply _|by left]. Qed.

Lemma LFU_picks lfu ps h : picks LFU.key LFU.better h ps (LFU.SelectVictim lfu ps h).1.1.
Proof. apply picks_scan; [apply _|by left]. Qed.

Lemma FIFO_access_related `{GoEnv} fifo p w :
  related same_bindings (FIFO.OnPageAccess fifo p w).
Proof. unfold FIFO.OnPageAccess. solve_related. Qed.

#[global] Program Instance FIFO_lawful `{GoEnv} : LawfulPolicy FIFO.t := {| policy_inv _ := True |}.
Next Obligation. intros. split_and!; [|done..]. eapply picks_victim_ok, FIFO_picks. apply _. Qed.
Next Obligation.
  intros. split; [apply FIFO_access_related|done].
Qed.
Next Obligation. done. Qed.
Next Obligation. done. Qed.
Next Obligation. done. Qed.

#[global] Program Instance LRU_lawful `{GoEnv} : LawfulPolicy LRU.t := {| policy_inv _ := True |}.
Next Obligation. intros. split_and!; [|done..]. eapply picks_victim_ok, LRU_picks. apply _. Qed.
Next Obligation. intros. split; [apply touch_lawful|done]. Qed.
Next Obligation. intros. split; [apply touch_lawful|done]. Qed.
Next Obligation. done. Qed.
Next Obligation. done. Qed.

#[global] Program Instance LFU_lawful `{GoEnv} : LawfulPolicy LFU.t := {| policy_inv _ := True |}.
Next Obligation. intros. split_and!; [|done..]. eapply picks_victim_ok, LFU_picks. apply _. Qed.
Next Obligation. intros. split; [apply touch_lawful|done]. Qed.
Next Obligation. intros. split; [apply touch_lawful|done]. Qed.
Next Obligation. done. Qed.
Next Obligation. done. Qed.

(** ** Random *)

Lemma evictable_frames_spec h ps p :
  p ∈ Random.evictable_frames h ps ↔ evictable_at h p ∧ p ∈ ps.
Proof.
  unfold Random.evictable_frames. by rewrite list_elem_of_filter, evictable_at_frame_of.
Qed.

(** A draw below the length selects a member. *)
Lemma nth_draw_elem `{GoEnv} (i : nat) (v : ptr) (l : list ptr) :
  nth (intn i (length (v :: l))) (v :: l) v ∈ v :: l.
Proof. apply list_elem_of_In, nth_In, intn_lt. simpl. lia. Qed.

#[global] Program Instance Random_lawful `{GoEnv} : LawfulPolicy Random.t :=
  {| policy_inv _ := True |}.
Next Obligation.
  intros. simpl. unfold Random.SelectVictim. destruct ps as [|p0 ps0] eqn:Hps.
  { split_and!; [|done..]. split; [by left|]. by intros ? ?%elem_of_nil. }
  rewrite <-Hps in *. clear Hps p0 ps0. unfold mbind, M_bind, gets; simpl.
  destruct (Random.evictable_frames h ps) as [|v l] eqn:Hev.
  - split_and!; [|done..]. split; [by right|]. intros q Hq Hqev.
    assert (q ∈ Random.evictable_frames h ps) as Hin by (by apply evictable_frames_spec).
    rewrite Hev in Hin. by apply elem_of_nil in Hin.
  - split_and!; [|by apply same_bindings_frames|done].
    pose proof (nth_draw_elem (tick h) v l) as Hin. rewrite <-Hev in Hin at 3.
    apply evictable_frames_spec in Hin as [? ?]. done.
Qed.
Next Obligation. intros. split; [apply touch_lawful|done]. Qed.
Next Obligation. intros. split; [apply touch_lawful|done]. Qed.
Next Obligation. done. Qed.
Next Obligation. done. Qed.

(** ** NRU *)

Section nru.
Context `{Env : GoEnv}.

Lemma clear_bits_related ps : related same_bindings (NRU.clear_bits ps).
Proof. unfold NRU.clear_bits. solve_related. Qed.

Lemma class_members_spec h ps cls p :
  p ∈ NRU.class_members h ps cls ↔
    p ∈ ps ∧ evictable_at h p ∧ NRU.class_of (frame_of h p) = cls.
Proof.
  unfold NRU.class_members. rewrite list_elem_of_filter, take_evictable. naive_solver.
Qed.

Lemma class_of_lt f : (NRU.class_of f < 4)%nat.
Proof. unfold NRU.class_of. repeat case_match; lia. Qed.

(** [lowest h ps p]: [p] is an evictable candidate of the lowest class. *)
Definition nru_lowest (h : heap) (ps : list ptr) (p : ptr) : Prop :=
  p ∈ ps ∧ evictable_at h p ∧
  ∀ q, q ∈ ps → evictable_at h q →
    (NRU.class_of (frame_of h p) ≤ NRU.class_of (frame_of h q))%nat.

Lemma pick_class_spec h0 h ps lo n :
  (lo + n = 4)%nat →
  (∀ q, q ∈ ps → evictable_at h0 q → (lo ≤ NRU.class_of (frame_of h0 q))%nat) →
  match (NRU.pick_class h0 ps (seq lo n) h).1 with
  | Ok p => nru_lowest h0 ps p
  | Err e => e = ErrNoEvictable ∧ ∀ p, p ∈ ps → ¬ evictable_at h0 p
  end.
Proof.
  revert lo. induction n as [|n IH]; intros lo Hlo Hge; simpl.
  - split; [done|]. intros p Hp Hev. specialize (Hge p Hp Hev).
    pose proof (class_of_lt (frame_of h0 p)). lia.
  - destruct (NRU.class_members h0 ps lo) as [|v l] eqn:Hm.
    + apply IH; [lia|]. intros q Hq Hev. specialize (Hge q Hq Hev).
      destruct (decide (NRU.class_of (frame_of h0 q) = lo)) as [Heq|]; [|lia].
      assert (q ∈ NRU.class_members h0 ps lo) as Hin by (by apply class_members_spec).
      rewrite Hm in Hin. by apply elem_of_nil in Hin.
    + unfold mbind, M_bind; simpl.
      pose proof (nth_draw_elem (tick h) v l) as Hin. rewrite <-Hm in Hin at 3.
      apply class_members_spec in Hin as (Hin & Hev & Hcls).
      split_and!; [done..|]. intros q Hq Hqev. simpl in *. rewrite Hcls. auto.
Qed.

Lemma pick_class_heap h0 h ps classes :
  same_bindings h (NRU.pick_class h0 ps classes h).2.
Proof.
  revert h. induction classes as [|c cs IH]; intros h; simpl; [done|].
  destruct (NRU.class_members h0 ps c); [done|]. by apply same_bindings_frames.
Qed.

(** The heap in which NRU classifies: after the periodic tick, if one is due. *)
Definition nru_ticked (n : NRU.t) (ps : list ptr) (h : heap) : heap :=
  (when (NRU.clearPeriod n <=? NRU.accessCount n) (NRU.clear_bits ps) h).2.

Lemma nru_ticked_bindings n ps h : same_bindings h (nru_ticked n ps h).
Proof. apply (related_when same_bindings), clear_bits_related. Qed.

Lemma NRU_picks n ps h :
  match (NRU.SelectVictim n ps h).1.1 with
  | Ok p => nru_lowest (nru_ticked n ps h) ps p
  | Err e => e = ErrNoEvictable ∧ ∀ p, p ∈ ps → ¬ evictable_at (nru_ticked n ps h) p
  end.
Proof.
  unfold NRU.SelectVictim, mbind, M_bind, get_st; simpl.
  fold (nru_ticked n ps h). apply (pick_class_spec _ _ ps 0 4); [done|]. lia.
Qed.

Lemma NRU_select_lawful n ps h :
  victim_ok h ps (NRU.SelectVictim n ps h).1.1 ∧
  same_bindings h (NRU.SelectVictim n ps h).2 ∧ True.
Proof.
  pose proof (NRU_picks n ps h) as Hp. pose proof (nru_ticked_bindings n ps h) as Hb.
  split_and!; [| |done].
  - destruct (NRU.SelectVictim n ps h).1.1 as [p|e].
    + destruct Hp as (Hp & Hev & _). split; [done|]. by rewrite Hb.
    + destruct Hp as [-> Hp]. split; [by right|]. intros q Hq. rewrite Hb. auto.
  - etrans; [exact Hb|]. apply pick_class_heap.
Qed.
End nru.

#[global] Program Instance NRU_lawful `{GoEnv} : LawfulPolicy NRU.t := {| policy_inv _ := True |}.
Next Obligation. intros. by apply NRU_select_lawful. Qed.
Next Obligation. intros. split; [apply touch_lawful|done]. Qed.
Next Obligation. intros. split; [apply touch_lawful|done]. Qed.
Next Obligation.
  intros. split; [|done]. apply (related_ClearReferenceBit p).
Qed.
Next Obligation. done. Qed.

(** ** Optimal and OPT+ *)

Lemma next_access_distance_pos l i : 0 < next_access_distance l i.
Proof.
  unfold next_access_distance. destruct (list_find _ l) as [[k x]|] eqn:Hf; [|lia].
  apply list_find_Some in Hf as (_ & Hx & _). lia.
Qed.

Lemma Optimal_picks opt ps h :
  picks (Optimal.key opt) Z.gtb h ps (Optimal.SelectVictim opt ps h).1.1.
Proof.
  apply picks_scan; [apply _|]. right. intros p _ _. unfold Optimal.key, Optimal.getNextAccessDistance.
  destruct (_ !! _); [|done]. pose proof (next_access_distance_pos l (Optimal.currentIndex opt)). lia.
Qed.

Lemma OptPlus_score_low op f : -100 < OptPlus.key op f.
Proof.
  unfold OptPlus.key, OptPlus.computeCostScore.
  assert (0 < OptPlus.getNextAccessDistance op (Frame.GetPageID f)) as Hpos.
  { unfold OptPlus.getNextAccessDistance. destruct (_ !! _) as [[|x l]|]; [lia| |lia].
    apply next_access_distance_pos. }
  repeat case_match; lia.
Qed.

Lemma OptPlus_picks op ps h :
  picks (OptPlus.key op) Z.gtb h ps (OptPlus.SelectVictim op ps h).1.1.
Proof.
  apply picks_scan; [apply _|]. right. intros p _ _.
  pose proof (OptPlus_score_low op (frame_of h p)). lia.
Qed.

#[global] Program Instance Optimal_lawful : LawfulPolicy Optimal.t := {| policy_inv _ := True |}.
Next Obligation. intros. split_and!; [|done..]. eapply picks_victim_ok, Optimal_picks. apply _. Qed.
Next Obligation. done. Qed.
Next Obligation. done. Qed.
Next Obligation. done. Qed.
Next Obligation. done. Qed.

#[global] Program Instance OptPlus_lawful : LawfulPolicy OptPlus.t := {| policy_inv _ := True |}.
Next Obligation. intros. split_and!; [|done..]. eapply picks_victim_ok, OptPlus_picks. apply _. Qed.
Next Obligation. done. Qed.
Next Obligation. done. Qed.
Next Obligation. done. Qed.
Next Obligation. done. Qed.

(** ** PFF *)

Section pff.
Context `{Env : GoEnv}.

(** The candidates PFF keeps are exactly the evictable ones. *)
Lemma PFF_kept h (ps : list ptr) q :
  q ∈ filter (λ q, Frame.evictable (frame_of h q) = true) ps ↔ q ∈ ps ∧ evictable_at h q.
Proof. rewrite list_elem_of_filter, evictable_at_frame_of. naive_solver. Qed.

Lemma PFF_adjust_frames n p h : frames (PFF.adjust_if_due n p h).2 = frames h.
Proof. unfold PFF.adjust_if_due. by destruct (_ <=? _). Qed.

Lemma PFF_picks p ps h :
  picks Frame.GetLastAccessTime Z.ltb h ps (PFF.SelectVictim p ps h).1.1 ∧
  frames (PFF.SelectVictim p ps h).2 = frames h.
Proof.
  unfold PFF.SelectVictim. destruct ps as [|p0 ps0] eqn:Hps.
  { split; [|done]. split; [by left|]. by intros ? ?%elem_of_nil. }
  rewrite <-Hps. clear Hps p0 ps0. unfold mbind, M_bind, gets; cbn [fst snd].
  destruct (filter _ ps) as [|v l] eqn:Hf.
  { split; [|done]. split; [by right|]. intros q Hq Hev.
    pose proof (proj2 (PFF_kept h ps q) (conj Hq Hev)) as Hin.
    rewrite Hf in Hin. by apply elem_of_nil in Hin. }
  rewrite <-Hf. cbn [fst snd].
  pose proof (PFF_adjust_frames (i32 (Z.of_nat (length (filter (λ q,
    Frame.evictable (frame_of h q) = true) ps)))) p h) as Hh.
  destruct (PFF.adjust_if_due _ p h) as [p' h']. cbn [fst snd] in *. split; [|done].
  rewrite (scan_frames _ _ h' h) by done.
  pose proof (picks_scan Frame.GetLastAccessTime Z.ltb h (filter (λ q,
    Frame.evictable (frame_of h q) = true) ps) 0 true (or_introl eq_refl)) as Hp.
  destruct (scan_result _ _) as [q|e]; simpl in *.
  - eapply best_of_sublist; [|exact Hp]. intros x. by rewrite evictable_at_frame_of.
  - destruct Hp as [He Hno]. split; [done|]. intros q Hq Hqev.
    by apply (Hno q); [apply PFF_kept|].
Qed.

(** The resident-set target never leaves [[lo, maxResident]], for any [lo]
    below the configured minimum and the starting target. *)
Definition pff_bounds (lo : Z) (p : PFF.t) : Prop :=
  0 ≤ lo ≤ PFF.minResident p ∧ lo ≤ PFF.targetResident p ≤ PFF.maxResident p ∧
  PFF.maxResident p < 2 ^ 31 - 1 ∧ (length (PFF.faultTimes p) ≤ 512)%nat.

Lemma computeFaultRate_bounds lo now p :
  pff_bounds lo p → pff_bounds lo (PFF.computeFaultRate now p).2.
Proof.
  intros (H1 & H2 & H3 & H4). unfold PFF.computeFaultRate.
  assert (pff_bounds lo (p <| PFF.faultTimes :=
    filter (λ t, now - PFF.windowDuration p < t) (PFF.faultTimes p) |>)) as Hb.
  { split_and!; simpl; try lia. etrans; [apply length_filter|done]. }
  destruct (f64_leb _ _); exact Hb.
Qed.

Lemma adjustResidentSize_bounds lo now n p :
  n < 2 ^ 31 → pff_bounds lo p → pff_bounds lo (PFF.adjustResidentSize now n p).
Proof.
  intros Hn Hb. apply (computeFaultRate_bounds lo now) in Hb.
  unfold PFF.adjustResidentSize. destruct (PFF.computeFaultRate now p) as [r q].
  simpl in Hb. clear p. rename q into p.
  assert (∀ b, pff_bounds lo (if b && (PFF.targetResident p <? PFF.maxResident p)
    then p <| PFF.targetResident :=
                Z.min (i32 (PFF.targetResident p + 1)) (PFF.maxResident p) |>
    else p)) as Hup.
  { intros b. destruct b, (Z.ltb_spec (PFF.targetResident p) (PFF.maxResident p));
      simpl; try done. destruct Hb as (H1 & H2 & H3 & H4).
    rewrite i32_small by lia. split_and!; simpl; lia. }
  specialize (Hup (f64_ltb (PFF.maxFaultRate p) r)). revert Hup.
  generalize (if f64_ltb (PFF.maxFaultRate p) r &&
    (PFF.targetResident p <? PFF.maxResident p)
    then p <| PFF.targetResident :=
                Z.min (i32 (PFF.targetResident p + 1)) (PFF.maxResident p) |>
    else p). clear p Hb. intros p Hb.
  assert (∀ b, pff_bounds lo (if b && (PFF.minResident p <? PFF.targetResident p)
    then p <| PFF.targetResident :=
                Z.max (i32 (PFF.targetResident p - 1)) (PFF.minResident p) |>
    else p)) as Hdown.
  { intros b. destruct b, (Z.ltb_spec (PFF.minResident p) (PFF.targetResident p));
      simpl; try done. destruct Hb as (H1 & H2 & H3 & H4).
    rewrite i32_small by lia. split_and!; simpl; lia. }
  specialize (Hdown (f64_ltb r (PFF.minFaultRate p))). revert Hdown.
  generalize (if f64_ltb r (PFF.minFaultRate p) &&
    (PFF.minResident p <? PFF.targetResident p)
    then p <| PFF.targetResident :=
                Z.max (i32 (PFF.targetResident p - 1)) (PFF.minResident p) |>
    else p). clear p Hb. intros p (H1 & H2 & H3 & H4).
  rewrite (i32_small (PFF.targetResident p + 1)) by lia.
  destruct (Z.ltb_spec (PFF.targetResident p + 1) n); [|exact (conj H1 (conj H2 (conj H3 H4)))].
  rewrite i32_small by lia. split_and!; simpl; lia.
Qed.
End pff.

#[global] Program Instance PFF_lawful `{GoEnv} : LawfulPolicy PFF.t := {| policy_inv _ := True |}.
Next Obligation.
  intros ? p ps h _ _. destruct (PFF_picks p ps h) as [Hp Hh]. split_and!; [|by apply same_bindings_frames|done].
  eapply picks_victim_ok, Hp. apply _.
Qed.
Next Obligation. intros. split; [apply touch_lawful|done]. Qed.
Next Obligation.
  intros. split; [|done]. etrans; [|apply touch_lawful]. by apply same_bindings_frames.
Qed.
Next Obligation. done. Qed.
Next Obligation. done. Qed.

(** PFF's bounds through its whole interface. *)
Section pff_calls.
Context `{Env : GoEnv}.

Lemma pff_bounds_count lo f p :
  pff_bounds lo p → pff_bounds lo (p <| PFF.accessSinceAdjust ::= f |>).
Proof. done. Qed.

Lemma adjust_if_due_bounds lo n p h :
  n < 2 ^ 31 → pff_bounds lo p → pff_bounds lo (PFF.adjust_if_due n p h).1.
Proof.
  intros Hn Hb. unfold PFF.adjust_if_due. destruct (_ <=? _); [|exact Hb].
  apply (pff_bounds_count lo (λ _, 0) (PFF.adjustResidentSize (clock (tick h)) n p)).
  exact (adjustResidentSize_bounds lo (clock (tick h)) n p Hn Hb).
Qed.

Lemma pff_bounds_call lo c p h :
  pff_bounds lo p → pff_bounds lo (call c p h).1.
Proof.
  intros Hb. destruct c as [ps| | | |]; simpl.
  - unfold PFF.SelectVictim. destruct ps as [|p0 ps]; [exact Hb|].
    unfold mbind, M_bind, gets; cbn [fst snd].
    destruct (filter _ (p0 :: ps)) as [|v l]; [exact Hb|]. cbn [fst snd].
    apply pff_bounds_count.
    exact (adjust_if_due_bounds lo _ p h (proj2 (i32_range _)) Hb).
  - exact Hb.
  - unfold PFF.OnPageFault, mbind, M_bind; simpl.
    destruct Hb as (H1 & H2 & H3 & H4). split_and!; simpl; try lia.
    destruct (decide _) as [|Hle]; [|lia].
    destruct (PFF.faultTimes p); simpl in *; [lia|]. rewrite length_app. simpl. lia.
  - exact Hb.
  - destruct Hb as (H1 & H2 & H3 & H4). split_and!; simpl; try lia.
Qed.

Lemma pff_bounds_calls lo cs p h : pff_bounds lo p → pff_bounds lo (calls cs p h).1.
Proof.
  revert p h. induction cs as [|c cs IH]; intros p h Hb; [done|].
  apply IH, pff_bounds_call, Hb.
Qed.
End pff_calls.

(** ** Optimal's distances are those of a search in the announced trace *)

(** Where [page] is accessed in [accs], whose first index is [i]. *)
Fixpoint positions (i : Z) (accs : list N) (page : N) : list Z :=
  match accs with
  | [] => []
  | x :: accs => if decide (x = page) then i :: positions (i + 1) accs page
                 else positions (i + 1) accs page
  end.

(** Belady's distance: from the current index [cur] to the next use of [page],
    a million when it is never used again, the distance that the code gives to
    such a page (beyond every other one in traces of up to a million accesses). *)
Fixpoint next_use (i : Z) (accs : list N) (cur : Z) (page : N) : Z :=
  match accs with
  | [] => 1000000
  | x :: accs => if decide (x = page ∧ cur < i) then i - cur
                 else next_use (i + 1) accs cur page
  end.

Lemma default_push_back {V} (k j : N) (v : V) m :
  default [] (push_back k v m !! j) =
    default [] (m !! j) ++ (if decide (k = j) then [v] else []).
Proof.
  unfold push_back. destruct (decide (k = j)) as [->|Hne].
  - by rewrite lookup_insert_eq.
  - by rewrite lookup_insert_ne, app_nil_r.
Qed.

Lemma index_accesses_lookup i accs m page :
  default [] (index_accesses i accs m !! page) = default [] (m !! page) ++ positions i accs page.
Proof.
  revert i m. induction accs as [|x accs IH]; intros i m; simpl; [by rewrite app_nil_r|].
  rewrite IH, default_push_back. destruct (decide (x = page)); simpl.
  - by rewrite <-app_assoc.
  - by rewrite app_nil_r.
Qed.

Lemma next_access_positions i accs cur page :
  next_access_distance (positions i accs page) cur = next_use i accs cur page.
Proof.
  revert i. induction accs as [|x accs IH]; intros i; simpl; [done|].
  destruct (decide (x = page)) as [->|Hne].
  - unfold next_access_distance. simpl. destruct (decide (cur < i)).
    + rewrite decide_True by done. done.
    + rewrite decide_False by naive_solver. rewrite <-IH. unfold next_access_distance.
      by destruct (list_find _ _) as [[??]|].
  - rewrite decide_False by naive_solver. apply IH.
Qed.

Lemma Optimal_distance accs opt page :
  Optimal.futureAccesses opt = index_accesses 0 accs ∅ →
  Optimal.getNextAccessDistance opt page = next_use 0 accs (Optimal.currentIndex opt) page.
Proof.
  intros Heq. unfold Optimal.getNextAccessDistance. rewrite Heq.
  pose proof (index_accesses_lookup 0 accs ∅ page) as Hl.
  rewrite lookup_empty in Hl. simpl in Hl. rewrite <-next_access_positions, <-Hl.
  by destruct (index_accesses 0 accs ∅ !! page).
Qed.

(** ** Sequences of calls *)

Lemma calls_lawful {A} `{LawfulPolicy A} (a : A) cs h :
  policy_inv a → (∀ ps, CallSelect ps ∈ cs → candidates h ps) →
  same_bindings h (calls cs a h).2 ∧ policy_inv (calls cs a h).1.
Proof.
  revert a h. induction cs as [|c cs IH]; intros a h Ha Hps; [done|].
  assert (same_bindings h (call c a h).2 ∧ policy_inv (call c a h).1) as [Hb Ha'].
  { destruct c; simpl.
    - apply select_victim_lawful; [done|]. apply Hps. by left.
    - by apply on_page_access_lawful.
    - by apply on_page_fault_lawful.
    - by apply on_page_eviction_lawful.
    - split; [done|]. by apply reset_lawful. }
  destruct (IH (call c a h).1 (call c a h).2 Ha') as [Hb' Ha''].
  { intros ps Hin. rewrite <-(candidates_proper _ _ _ Hb). apply Hps. by right. }
  split; [by etrans|done].
Qed.

(** ** What the policies guarantee *)

(** The first candidate in the slice with the least numeric key. *)
Definition minimal_victim (key : Frame.t → Z) (h : heap) (ps : list ptr) (r : res ptr) : Prop :=
  match r with
  | Ok p => evictable_at h p ∧ ∃ l l', ps = l ++ p :: l' ∧
            (∀ q, q ∈ l → evictable_at h q → key (frame_of h p) < key (frame_of h q)) ∧
            (∀ q, q ∈ l' → evictable_at h q → key (frame_of h p) ≤ key (frame_of h q))
  | Err e => e = (if decide (ps = []) then ErrNoFrames else ErrNoEvictable) ∧
             ∀ q, q ∈ ps → ¬ evictable_at h q
  end.

Lemma scan_result_error ps r e :
  scan_result ps r = Err e → e = if decide (ps = []) then ErrNoFrames else ErrNoEvictable.
Proof. unfold scan_result. destruct ps; [by intros [= <-]|]. destruct r; [done|]. by intros [= <-]. Qed.

Lemma PFF_error `{GoEnv} p ps h e :
  (PFF.SelectVictim p ps h).1.1 = Err e → e = if decide (ps = []) then ErrNoFrames else ErrNoEvictable.
Proof.
  unfold PFF.SelectVictim. destruct ps as [|p0 ps0] eqn:Hps; [by intros [= <-]|]. rewrite <-Hps.
  rewrite decide_False by (by rewrite Hps). clear Hps p0 ps0. unfold mbind, M_bind, gets; cbn [fst snd].
  destruct (filter _ ps) as [|v l]; [by intros [= <-]|]. cbn [fst snd].
  destruct (PFF.adjust_if_due _ p h) as [p' h']. cbn [fst snd]. by intros ->%scan_result_error.
Qed.

Lemma picks_minimal key h ps r :
  (∀ e, r = Err e → e = if decide (ps = []) then ErrNoFrames else ErrNoEvictable) →
  picks key Z.ltb h ps r → minimal_victim key h ps r.
Proof.
  intros He. destruct r as [p|e]; simpl; [|intros []; auto].
  intros (l & l' & -> & Hev & Hl & Hl'). split; [done|]. exists l, l'. split_and!; [done| |];
    intros q Hq Hqev; [specialize (Hl q Hq Hqev)|specialize (Hl' q Hq Hqev)]; lia.
Qed.

(** Evictable frames of a two-frame memory whose first frame was loaded and
    used first, for examples. *)
Definition two_frames : heap :=
  mk_heap [Frame.Allocate 1 7 "P2" (Frame.NewFrame 0);
           Frame.Access 9 true (Frame.Allocate 2 8 "P2" (Frame.NewFrame 1))] 0.

(** C33: LRU evicts the evictable candidate with the oldest last access, FIFO
    the one with the oldest load time, and PFF the one LRU evicts, the first such
    frame in the slice if several are equally old; each fails only when no
    candidate is evictable, with the error for an empty slice if it is empty. *)
Theorem recency_victims `{GoEnv} lru fifo pff ps h :
  minimal_victim Frame.GetLastAccessTime h ps (LRU.SelectVictim lru ps h).1.1 ∧
  minimal_victim Frame.GetLoadedTime h ps (FIFO.SelectVictim fifo ps h).1.1 ∧
  minimal_victim Frame.GetLastAccessTime h ps (PFF.SelectVictim pff ps h).1.1.
Proof.
  split_and!; apply picks_minimal; [|apply LRU_picks| |apply FIFO_picks| |apply PFF_picks];
    intros e; [apply scan_result_error..|apply PFF_error].
Qed.

(** LFU evicts a frame with the fewest accesses, and among those the one
    whose last access is oldest. *)
Theorem LFU_victim lfu ps h p q :
  (LFU.SelectVictim lfu ps h).1.1 = Ok p → q ∈ ps → evictable_at h q →
  let n := λ x, Frame.GetAccessCount (frame_of h x) in
  n p < n q ∨ n p = n q ∧
    Frame.GetLastAccessTime (frame_of h p) ≤ Frame.GetLastAccessTime (frame_of h q).
Proof.
  intros Hr Hq Hev. pose proof (LFU_picks lfu ps h) as Hp. rewrite Hr in Hp.
  pose proof (best_of_optimal _ _ _ _ _ _ Hp Hq Hev) as Hb.
  unfold LFU.better, LFU.key in Hb. simpl in *. lia.
Qed.

(** C32: Optimal's victim is Belady's: after [SetFutureAccesses accs], with the
    trace position at [c], no evictable candidate's page is used later than the
    victim's. *)
Theorem Optimal_victim_is_belady accs c opt ps h p q :
  (Optimal.SelectVictim
     ((Optimal.SetFutureAccesses accs opt) <| Optimal.currentIndex := c |>) ps h).1.1 = Ok p →
  q ∈ ps → evictable_at h q →
  next_use 0 accs c (Frame.GetPageID (frame_of h q)) ≤
  next_use 0 accs c (Frame.GetPageID (frame_of h p)).
Proof.
  set (o := _ <| _ := _ |>). intros Hr Hq Hev.
  pose proof (Optimal_picks o ps h) as Hp. rewrite Hr in Hp.
  pose proof (best_of_optimal _ _ _ _ _ _ Hp Hq Hev) as Hb. unfold Optimal.key in Hb.
  rewrite !(Optimal_distance accs o) in Hb by done. simpl in Hb. lia.
Qed.

(** NRU's victim belongs to the lowest class (not referenced before
    referenced, clean before dirty) that has an evictable candidate, classes
    being read after the periodic clearing of reference bits when it is due. *)
Theorem NRU_victim_lowest_class `{GoEnv} n ps h p q :
  (NRU.SelectVictim n ps h).1.1 = Ok p → q ∈ ps → evictable_at h q →
  (NRU.class_of (frame_of (nru_ticked n ps h) p) ≤
   NRU.class_of (frame_of (nru_ticked n ps h) q))%nat.
Proof.
  intros Hr Hq Hev. pose proof (NRU_picks n ps h) as Hp. rewrite Hr in Hp.
  apply Hp; [done|]. by rewrite <-(nru_ticked_bindings n ps h).
Qed.

(** Whatever is called through the interface, PFF started with the
    manager's parameters keeps its resident-set target between the smaller of 4
    and half the frames, and the number of frames, and remembers at most 512
    fault times. *)
Theorem PFF_target_bounded `{GoEnv} cs numFrames h :
  0 ≤ numFrames < 2 ^ 31 - 1 → 4 ≤ numFrames →
  let p := (calls cs (PFF.NewPFF 5000 (f64_lit 1 10) (f64_of_Z 10) 4 numFrames
                        (Z.quot numFrames 2)) h).1 in
  Z.min 4 (Z.quot numFrames 2) ≤ PFF.targetResident p ≤ PFF.maxResident p ∧
  (length (PFF.faultTimes p) ≤ 512)%nat.
Proof.
  intros Hn H4 p.
  assert (Z.quot numFrames 2 * 2 ≤ numFrames ∧ 2 ≤ Z.quot numFrames 2) as Hq.
  { rewrite Z.quot_div_nonneg by lia. pose proof (Z.div_mod numFrames 2). 
    pose proof (Z.mod_pos_bound numFrames 2). lia. }
  destruct (pff_bounds_calls (Z.min 4 (Z.quot numFrames 2)) cs
    (PFF.NewPFF 5000 (f64_lit 1 10) (f64_of_Z 10) 4 numFrames (Z.quot numFrames 2)) h)
    as (_ & H1 & _ & H2); [split_and!; simpl; lia|]. done.
Qed.

(** *** Witnesses *)

Lemma LFU_victim_witness :
  (LFU.SelectVictim LFU.NewLFU [0; 1]%nat two_frames).1.1 = Ok 0%nat ∧
  Frame.GetAccessCount (frame_of two_frames 0%nat) <
  Frame.GetAccessCount (frame_of two_frames 1%nat).
Proof.
  split; [vm_compute; reflexivity|].
  destruct (LFU_victim LFU.NewLFU [0; 1]%nat two_frames 0%nat 1%nat) as [Hlt|[Heq _]].
  - vm_compute; reflexivity.
  - set_solver.
  - eexists; split; vm_compute; reflexivity.
  - exact Hlt.
  - vm_compute in Heq. discriminate Heq.
Defined.

Lemma Optimal_victim_is_belady_witness :
  next_use 0 [7; 8; 7]%N 0 8 ≤ next_use 0 [7; 8; 7]%N 0 7.
Proof.
  apply (Optimal_victim_is_belady [7; 8; 7]%N 0 Optimal.NewOptimal [0; 1]%nat two_frames
    0%nat 1%nat).
  - vm_compute; reflexivity.
  - set_solver.
  - eexists; split; vm_compute; reflexivity.
Defined.

Lemma NRU_victim_lowest_class_witness :
  (NRU.class_of (frame_of two_frames 0%nat) ≤ NRU.class_of (frame_of two_frames 1%nat))%nat.
Proof.
  apply (@NRU_victim_lowest_class first_env NRU.NewNRU [0; 1]%nat two_frames 0%nat 1%nat).
  - vm_compute; reflexivity.
  - set_solver.
  - eexists; split; vm_compute; reflexivity.
Defined.

Lemma PFF_target_bounded_witness :
  let p := (@calls _ (@PFF.policy first_env) [CallFault 0%nat; CallSelect [0; 1]%nat]
    (PFF.NewPFF 5000 (f64_lit 1 10) (f64_of_Z 10) 4 16 8) two_frames).1 in
  4 ≤ PFF.targetResident p ≤ 16.
Proof.
  split; apply (@PFF_target_bounded first_env [CallFault 0%nat; CallSelect [0; 1]%nat] 16
    two_frames); lia.
Defined.
