(* ===== verification/Clock.v ===== *)
(** * The clock policies: CLOCK and WSClock

    [internal/algorithms/{clock,wsclock}.go].  Both walk the candidates
    circularly from a saved hand for at most twice their number, which is the
    loop bound of the code and the fuel of [sweep].  CLOCK is proved to be the
    textbook second-chance policy ([second_chance]): its fall-back scan after
    two turns is never reached while a candidate can be evicted. *)

From S2P Require Import Prelude Models Heap Policy Policies PoliciesSpec.
Local Open Scope Z_scope.

(** [(hand + 1) % numFrames] in [int32]. *)
Definition advance (hand numFrames : Z) : Z := Z.rem (i32 (hand + 1)) numFrames.

(** [if hand >= numFrames { hand = 0 }] *)
Definition wrap (hand numFrames : Z) : Z := if numFrames <=? hand then 0 else hand.

(** [frames[hand]]; the hand is always in range ([Clock.hand_range]). *)
Definition frame_at (ps : list ptr) (hand : Z) : ptr := nth (Z.to_nat hand) ps 0%nat.

(** [for i := 0; i < numFrames; i++ { if evictable(frames[i]) ... return }]:
    the first slot that satisfies [ok], with its index. *)
Definition first_slot (ok : Frame.t → bool) (h : heap) (ps : list ptr) : option (nat * ptr) :=
  list_find (λ p, Frame.evictable (frame_of h p) && ok (frame_of h p) = true) ps.

(** ** CLOCK *)
Module CLOCK.
Record t := mk { name : string; hand : Z }.
#[global] Instance eta_t : Eta t := λ r, mk (name r) (hand r).
Definition NewCLOCK : t := {| name := "CLOCK"; hand := 0 |}.

(** The main loop: at most [fuel] iterations; the victim if one was found,
    and the hand. *)
Fixpoint sweep (fuel : nat) (ps : list ptr) (numFrames hand : Z) : M heap (option ptr * Z) :=
  match fuel with
  | O => mret (None, hand)
  | S fuel =>
      let hand := wrap hand numFrames in
      let frame := frame_at ps hand in
      f ← load frame;
      if negb (Frame.IsFree f) && negb (Frame.IsPinned f) then
        if Frame.GetReferenceBit f
        then frame_ClearReferenceBit frame ;;
             sweep fuel ps numFrames (advance hand numFrames)
        else mret (Some frame, advance hand numFrames)
      else sweep fuel ps numFrames (advance hand numFrames)
  end.

(** After two full turns: the first evictable frame. *)
Definition fallback (c : t) (ps : list ptr) (numFrames : Z) : M heap (res ptr * t) :=
  gets (λ h, match first_slot (λ _, true) h ps with
             | Some (i, p) => (Ok p, c <| hand := advance (Z.of_nat i) numFrames |>)
             | None => (Err ErrNoEvictable, c)
             end).

Definition SelectVictim (c : t) (ps : list ptr) : M heap (res ptr * t) :=
  match ps with
  | [] => mret (Err ErrNoFrames, c)
  | _ =>
      let numFrames := i32 (Z.of_nat (length ps)) in
      let maxIterations := i32 (numFrames * 2) in
      if maxIterations <=? 0 then mret (Err ErrNoEvictable, c)
      else
        '(victim, hand') ← sweep (Z.to_nat maxIterations) ps numFrames (hand c);
        match victim with
        | Some v => mret (Ok v, c <| hand := hand' |>)
        | None => fallback (c <| hand := hand' |>) ps numFrames
        end
  end.

Definition OnPageAccess `{GoEnv} (c : t) (p : ptr) (write : bool) : M heap t := touch c p write.
Definition OnPageFault `{GoEnv} (c : t) (p : ptr) : M heap t := touch c p false.
Definition OnPageEviction (c : t) (p : ptr) : M heap t := frame_ClearReferenceBit p ;; mret c.
Definition GetName (c : t) : string := name c.
Definition Reset (c : t) : t := c <| hand := 0 |>.
Definition GetHandPosition (c : t) : Z := hand c.

#[global] Instance policy `{GoEnv} : PageReplacementAlgorithm t :=
  Build_PageReplacementAlgorithm t SelectVictim OnPageAccess OnPageFault
    OnPageEviction GetName Reset.
End CLOCK.

(** ** WSClock *)
Module WSClock.
Record t := mk { name : string; hand : Z; workingSetAge : Z }.
#[global] Instance eta_t : Eta t := λ r, mk (name r) (hand r) (workingSetAge r).
Definition NewWSClock (workingSetWindowMs : Z) : t :=
  {| name := "WSClock"; hand := 0; workingSetAge := i64 (workingSetWindowMs * 1000000) |}.

(** [Time.Sub] saturates. *)
Definition clamp64 (d : Z) : Z := Z.max (- 2 ^ 63) (Z.min (2 ^ 63 - 1) d).
Definition age (now : Z) (f : Frame.t) : Z := clamp64 (now - Frame.GetLastAccessTime f).

(** [frame.Modified.Store(false)] *)
Definition clear_modified (p : ptr) : M heap unit :=
  update p (λ f, f <| Frame.Modified := false |>).

Section ops.
Context `{Env : GoEnv}.

Fixpoint sweep (fuel : nat) (wsAge : Z) (ps : list ptr) (numFrames hand : Z)
    : M heap (option ptr * Z) :=
  match fuel with
  | O => mret (None, hand)
  | S fuel =>
      let idx := wrap hand numFrames in
      let hand := advance idx numFrames in
      let continue := sweep fuel wsAge ps numFrames hand in
      let frame := frame_at ps idx in
      f ← load frame;
      if Frame.IsFree f || Frame.IsPinned f then continue
      else
        now ← time_now;
        if Frame.GetReferenceBit f then frame_ClearReferenceBit frame ;; continue
        else if wsAge <? age now f then
          if Frame.IsModified f then clear_modified frame ;; continue
          else mret (Some frame, hand)
        else continue
  end.

(** The second pass: the first old and clean frame, with its index. *)
Fixpoint scan_old (i : nat) (wsAge : Z) (ps : list ptr) : M heap (option (nat * ptr)) :=
  match ps with
  | [] => mret None
  | p :: ps =>
      f ← load p;
      if negb (Frame.IsFree f) && negb (Frame.IsPinned f) then
        now ← time_now;
        if (wsAge <? age now f) && negb (Frame.IsModified f)
        then mret (Some (i, p))
        else scan_old (S i) wsAge ps
      else scan_old (S i) wsAge ps
  end.

(** The third pass: any evictable frame. *)
Definition scan_any (w : t) (ps : list ptr) (numFrames : Z) : M heap (res ptr * t) :=
  gets (λ h, match first_slot (λ _, true) h ps with
             | Some (i, p) => (Ok p, w <| hand := advance (Z.of_nat i) numFrames |>)
             | None => (Err ErrNoEvictable, w)
             end).

Definition SelectVictim (w : t) (ps : list ptr) : M heap (res ptr * t) :=
  match ps with
  | [] => mret (Err ErrNoFrames, w)
  | _ =>
      let numFrames := i32 (Z.of_nat (length ps)) in
      let maxIterations := i32 (numFrames * 2) in
      '(victim, hand') ←
        sweep (Z.to_nat maxIterations) (workingSetAge w) ps numFrames (hand w);
      let w := w <| hand := hand' |> in
      match victim with
      | Some v => mret (Ok v, w)
      | None =>
          old ← scan_old 0 (workingSetAge w) ps;
          match old with
          | Some (i, v) => mret (Ok v, w <| hand := advance (Z.of_nat i) numFrames |>)
          | None => scan_any w ps numFrames
          end
      end
  end.

Definition OnPageAccess (w : t) (p : ptr) (write : bool) : M heap t := touch w p write.
Definition OnPageFault (w : t) (p : ptr) : M heap t := touch w p false.
End ops.
Definition SetTime (w : t) (now : Z) : t := w.
Definition OnPageEviction (w : t) (p : ptr) : M heap t := frame_ClearReferenceBit p ;; mret w.
Definition GetName (w : t) : string := name w.
Definition Reset (w : t) : t := w <| hand := 0 |>.
Definition GetWorkingSetAge (w : t) : Z := workingSetAge w.

#[global] Instance policy `{GoEnv} : PageReplacementAlgorithm t :=
  Build_PageReplacementAlgorithm t SelectVictim OnPageAccess OnPageFault
    OnPageEviction GetName Reset.
End WSClock.

(** ** The hand *)

Lemma advance_range hand n : 0 < n < 2 ^ 30 → 0 ≤ hand < n → 0 ≤ advance hand n < n.
Proof.
  intros Hn Hh. unfold advance. rewrite i32_small by lia. apply Z.rem_bound_pos; lia.
Qed.

Lemma wrap_range hand n : 0 < n → 0 ≤ hand → 0 ≤ wrap hand n < n.
Proof. intros. unfold wrap. destruct (Z.leb_spec n hand); lia. Qed.

Lemma frame_at_elem ps hand :
  0 ≤ hand < Z.of_nat (length ps) → frame_at ps hand ∈ ps.
Proof. intros. apply list_elem_of_In, nth_In. lia. Qed.

Lemma evictable_negb f :
  negb (Frame.IsFree f) && negb (Frame.IsPinned f) = Frame.evictable f.
Proof. done. Qed.

Lemma first_slot_spec ok h ps :
  match first_slot ok h ps with
  | Some (i, p) => ps !! i = Some p ∧ p ∈ ps ∧ evictable_at h p ∧ ok (frame_of h p) = true
  | None => ∀ p, p ∈ ps → evictable_at h p → ok (frame_of h p) = false
  end.
Proof.
  unfold first_slot. destruct (list_find _ ps) as [[i p]|] eqn:Hf.
  - apply list_find_Some in Hf as (Hi & [Hev Hok]%andb_prop & _).
    split_and!; [done|by eapply list_elem_of_lookup_2|by apply evictable_at_frame_of|done].
  - apply list_find_None in Hf. rewrite Forall_forall in Hf. intros p Hp Hev.
    specialize (Hf p Hp). apply evictable_at_frame_of in Hev. rewrite Hev in Hf.
    by destruct (ok _).
Qed.

Lemma candidates_width h ps :
  candidates h ps → ps ≠ [] →
  i32 (Z.of_nat (length ps)) = Z.of_nat (length ps) ∧
  i32 (Z.of_nat (length ps) * 2) = 2 * Z.of_nat (length ps) ∧ 0 < Z.of_nat (length ps) < 2 ^ 30.
Proof.
  intros [_ Hlen] Hne. assert (length ps ≠ 0)%nat by (by destruct ps).
  rewrite !i32_small by lia. lia.
Qed.

(** ** CLOCK is lawful *)

Lemma clock_sweep_lawful fuel ps n hand h :
  n = Z.of_nat (length ps) → 0 < n < 2 ^ 30 → 0 ≤ hand →
  let '(r, h') := CLOCK.sweep fuel ps n hand h in
  same_bindings h h' ∧ 0 ≤ r.2 ∧ ∀ v, r.1 = Some v → v ∈ ps ∧ evictable_at h v.
Proof.
  intros Hn Hlt. revert hand h. induction fuel as [|fuel IH]; intros hand h Hh; simpl; [done|].
  pose proof (wrap_range hand n (proj1 Hlt) Hh) as Hw.
  pose proof (advance_range _ _ Hlt Hw) as Ha.
  unfold mbind, M_bind, load, gets; cbn [fst snd].
  fold (frame_of h (frame_at ps (wrap hand n))).
  rewrite evictable_negb. destruct (Frame.evictable _) eqn:Hev; [|apply IH; lia].
  apply evictable_at_frame_of in Hev. destruct (Frame.GetReferenceBit _).
  - pose proof (related_ClearReferenceBit (frame_at ps (wrap hand n)) h) as Hb.
    unfold mbind, M_bind; cbn [fst snd].
    specialize (IH (advance (wrap hand n) n)
      (frame_ClearReferenceBit (frame_at ps (wrap hand n)) h).2 (proj1 Ha)).
    destruct (CLOCK.sweep _ _ _ _ _) as [r h']. destruct IH as (IH1 & IH2 & IH3).
    split_and!; [by etrans|done|]. intros v Hv. rewrite Hb. auto.
  - simpl. split_and!; [done|lia|]. intros v [= <-]. split; [|done].
    apply frame_at_elem. lia.
Qed.

#[global] Program Instance CLOCK_lawful `{GoEnv} : LawfulPolicy CLOCK.t :=
  {| policy_inv c := 0 ≤ CLOCK.hand c |}.
Next Obligation.
  intros ? c ps h Hc Hps. simpl in *. unfold CLOCK.SelectVictim.
  destruct (decide (ps = [])) as [->|Hne].
  { split_and!; [|done..]. split; [by left|]. by intros ? ?%elem_of_nil. }
  destruct (candidates_width _ _ Hps Hne) as (Hn & Hn2 & Hlt).
  destruct ps as [|p0 ps0] eqn:Hp0; [done|]. rewrite <-Hp0 in *. clear Hp0 p0 ps0.
  rewrite Hn, Hn2. destruct (Z.leb_spec (2 * Z.of_nat (length ps)) 0); [lia|].
  unfold mbind, M_bind.
  pose proof (clock_sweep_lawful (Z.to_nat (2 * Z.of_nat (length ps))) ps _ (CLOCK.hand c) h
    eq_refl Hlt Hc) as Hs.
  destruct (CLOCK.sweep _ _ _ _ _) as [[[v|] hd] h']; cbn [fst snd] in *;
    destruct Hs as (Hb & Hhd & Hv).
  - split_and!; [by apply Hv|done|done].
  - unfold CLOCK.fallback, gets; cbn [fst snd].
    pose proof (first_slot_spec (λ _, true) h' ps) as Hf.
    destruct (first_slot _ h' ps) as [[i p]|]; simpl.
    + destruct Hf as (Hi & Hp & Hev & _). split_and!; [done|by rewrite Hb|done|].
      apply lookup_lt_Some in Hi. apply advance_range; [lia|lia].
    + split_and!; [by right| |done|done]. intros p Hp Hev. rewrite Hb in Hev.
      by specialize (Hf p Hp Hev).
Qed.
Next Obligation. intros. split; [apply touch_lawful|done]. Qed.
Next Obligation. intros. split; [apply touch_lawful|done]. Qed.
Next Obligation. intros. split; [apply (related_ClearReferenceBit p)|done]. Qed.
Next Obligation. done. Qed.

(** ** WSClock is lawful *)

Section wsclock.
Context `{Env : GoEnv}.

Lemma related_clear_modified p : related same_bindings (WSClock.clear_modified p).
Proof. apply related_update. done. Qed.

Lemma tick_clear_modified p h : tick (WSClock.clear_modified p h).2 = tick h.
Proof. done. Qed.

(** What a pass over the candidates may do: [h] to [h'], victim [v] if any,
    found at a reading of the clock made during the pass. *)
Definition old_clean (wsAge : Z) (i j : nat) (h : heap) (v : ptr) : Prop :=
  Frame.IsModified (frame_of h v) = false ∧
  ∃ k, (i ≤ k < j)%nat ∧ wsAge < WSClock.age (clock k) (frame_of h v).

Lemma old_clean_weaken wsAge i i' j h v :
  (i' ≤ i)%nat → old_clean wsAge i j h v → old_clean wsAge i' j h v.
Proof. intros Hi (Hm & k & Hk & Ha). split; [done|]. exists k. split; [lia|done]. Qed.

Lemma ws_sweep_lawful fuel wsAge ps n hand h :
  n = Z.of_nat (length ps) → 0 < n < 2 ^ 30 → 0 ≤ hand →
  let '(r, h') := WSClock.sweep fuel wsAge ps n hand h in
  same_bindings h h' ∧ 0 ≤ r.2 ∧ (tick h ≤ tick h')%nat ∧
  ∀ v, r.1 = Some v → v ∈ ps ∧ evictable_at h v ∧ old_clean wsAge (tick h) (tick h') h' v ∧
    Frame.GetReferenceBit (frame_of h' v) = false.
Proof.
  intros Hn Hlt. revert hand h. induction fuel as [|fuel IH]; intros hand h Hh; simpl.
  { split_and!; [done|done|lia|done]. }
  pose proof (wrap_range hand n (proj1 Hlt) Hh) as Hw.
  pose proof (advance_range _ _ Hlt Hw) as Ha.
  set (p := frame_at ps (wrap hand n)). set (hd := advance (wrap hand n) n) in *.
  assert (∀ h1, same_bindings h h1 → (tick h ≤ tick h1)%nat →
    let '(r, h') := WSClock.sweep fuel wsAge ps n hd h1 in
    same_bindings h h' ∧ 0 ≤ r.2 ∧ (tick h ≤ tick h')%nat ∧
    ∀ v, r.1 = Some v → v ∈ ps ∧ evictable_at h v ∧
      old_clean wsAge (tick h) (tick h') h' v ∧
      Frame.GetReferenceBit (frame_of h' v) = false) as Hstep.
  { intros h1 Hb Ht. specialize (IH hd h1 (proj1 Ha)).
    destruct (WSClock.sweep _ _ _ _ _ h1) as [r h']. destruct IH as (IH1 & IH2 & IH3 & IH4).
    split_and!; [by etrans|done|lia|]. intros v Hv.
    destruct (IH4 v Hv) as (Hin & Hev & Hold & Href).
    split_and!; [done|by rewrite Hb| |done].
    by eapply old_clean_weaken. }
  clear IH. unfold mbind, M_bind, load, gets; cbn [fst snd]. fold (frame_of h p).
  destruct (_ || _) eqn:Hskip; [by apply Hstep|]. apply take_evictable in Hskip.
  set (h1 := (time_now h).2). assert (same_bindings h h1) as Hb1 by apply related_time_now.
  cbn [fst snd]. destruct (Frame.GetReferenceBit (frame_of h p)) eqn:Href.
  { apply Hstep; [etrans; [exact Hb1|apply (related_ClearReferenceBit p)]|simpl; lia]. }
  destruct (Z.ltb_spec wsAge (WSClock.age (time_now h).1 (frame_of h p))) as [Hage|].
  - destruct (Frame.IsModified _) eqn:Hmod.
    + apply Hstep; [etrans; [exact Hb1|apply (related_clear_modified p)]|simpl; lia].
    + simpl. split_and!; [done|lia|lia|]. intros v [= <-].
      split_and!; [apply frame_at_elem; lia|done| |done].
      split; [done|]. exists (tick h). split; [lia|done].
  - apply Hstep; [done|simpl; lia].
Qed.

Lemma scan_old_lawful i wsAge ps h :
  let '(r, h') := WSClock.scan_old i wsAge ps h in
  frames h' = frames h ∧ (tick h ≤ tick h')%nat ∧
  match r with
  | Some (j, v) => (i ≤ j)%nat ∧ (j < i + length ps)%nat ∧ v ∈ ps ∧ evictable_at h v ∧
                   old_clean wsAge (tick h) (tick h') h v
  | None => ∀ v, v ∈ ps → evictable_at h v →
      Frame.IsModified (frame_of h v) = true ∨
      ∃ k, (tick h ≤ k < tick h')%nat ∧ WSClock.age (clock k) (frame_of h v) ≤ wsAge
  end.
Proof.
  revert i h. induction ps as [|p ps IH]; intros i h; simpl.
  { split_and!; [done|lia|]. by intros ? ?%elem_of_nil. }
  unfold mbind, M_bind, load, gets; cbn [fst snd]. fold (frame_of h p).
  rewrite evictable_negb. destruct (Frame.evictable _) eqn:Hev.
  - cbn [fst snd]. apply evictable_at_frame_of in Hev.
    destruct (_ && _) eqn:Hgo.
    + apply andb_prop in Hgo as [Hage Hmod]. simpl.
      split_and!; [done|lia|lia|lia|set_solver|done|].
      split; [by destruct (Frame.IsModified _)|]. exists (tick h). simpl in *. split; lia.
    + specialize (IH (S i) (time_now h).2).
      destruct (WSClock.scan_old _ _ _ _) as [r h']. destruct IH as (IH1 & IH2 & IH3).
      simpl in *. split_and!; [done|lia|]. destruct r as [[j v]|].
      * destruct IH3 as (Hj & Hj' & Hv & Hvev & Hold).
        split_and!; [lia|lia|set_solver|done|].
        eapply old_clean_weaken; [|exact Hold]. simpl. lia.
      * intros v [->|Hv]%elem_of_cons Hvev.
        -- apply andb_false_iff in Hgo as [Hgo|Hgo].
           ++ right. exists (tick h). split; [lia|]. simpl in Hgo. lia.
           ++ left. by destruct (Frame.IsModified _).
        -- destruct (IH3 v Hv Hvev) as [?|(k & Hk & Hage)]; [by left|].
           right. exists k. simpl in *. split; [lia|done].
  - specialize (IH (S i) h). destruct (WSClock.scan_old _ _ _ _) as [r h'].
    destruct IH as (IH1 & IH2 & IH3). split_and!; [done|done|]. destruct r as [[j v]|].
    + destruct IH3 as (Hj & Hj' & Hv & Hvev & Hold). split_and!; [lia|lia|set_solver|done..].
    + intros v [->|Hv]%elem_of_cons Hvev; [|auto].
      apply evictable_at_frame_of in Hvev. congruence.
Qed.
End wsclock.

Section wsclock_select.
Context `{Env : GoEnv}.

(** WSClock's answer: an old and clean frame, unless no candidate was both
    old and clean when the second pass looked at it. *)
Lemma WSClock_select_spec w ps h :
  0 ≤ WSClock.hand w → candidates h ps →
  let '((r, w'), h') := WSClock.SelectVictim w ps h in
  same_bindings h h' ∧ 0 ≤ WSClock.hand w' ∧ victim_ok h ps r ∧
  ∀ v, r = Ok v →
    old_clean (WSClock.workingSetAge w) (tick h) (tick h') h' v ∨
    ∀ q, q ∈ ps → evictable_at h q →
      Frame.IsModified (frame_of h' q) = true ∨
      ∃ k, (tick h ≤ k < tick h')%nat ∧
           WSClock.age (clock k) (frame_of h' q) ≤ WSClock.workingSetAge w.
Proof.
  intros Hc Hps. unfold WSClock.SelectVictim.
  destruct (decide (ps = [])) as [->|Hne].
  { split_and!; [done|done| |done]. split; [by left|]. by intros ? ?%elem_of_nil. }
  destruct (candidates_width _ _ Hps Hne) as (Hn & Hn2 & Hlt).
  destruct ps as [|p0 ps0] eqn:Hp0; [done|]. rewrite <-Hp0 in *. clear Hp0 p0 ps0.
  rewrite Hn, Hn2. unfold mbind, M_bind.
  pose proof (ws_sweep_lawful (Z.to_nat (2 * Z.of_nat (length ps))) (WSClock.workingSetAge w)
    ps _ (WSClock.hand w) h eq_refl Hlt Hc) as Hs.
  destruct (WSClock.sweep _ _ _ _ _ _) as [[[v|] hd] h1]; cbn [fst snd] in *;
    destruct Hs as (Hb & Hhd & Ht & Hv).
  { destruct (Hv v) as (Hin & Hev & Hold & _); [done|]. split_and!; [done..|].
    intros ? [= <-]. by left. }
  pose proof (scan_old_lawful 0 (WSClock.workingSetAge w) ps h1) as Hs. cbn in *.
  destruct (WSClock.scan_old _ _ _ _) as [[[i v]|] h2]; cbn [fst snd] in *;
    destruct Hs as (Hf2 & Ht2 & Hs).
  - destruct Hs as (_ & Hi & Hin & Hev & Hold).
    assert (same_bindings h h2) as Hb2 by (rewrite Hb; by apply same_bindings_frames).
    split_and!; [done|apply advance_range; simpl in *; lia|split; [done|by rewrite Hb]|].
    intros ? [= <-]. left. destruct Hold as (Hm & k & Hk & Ha).
    unfold old_clean, frame_of in *. rewrite Hf2.
    split; [done|]. exists k. split; [lia|done].
  - assert (same_bindings h h2) as Hb2 by (rewrite Hb; by apply same_bindings_frames).
    unfold WSClock.scan_any, gets.
    pose proof (first_slot_spec (λ _, true) h2 ps) as Hf.
    destruct (first_slot _ h2 ps) as [[i p]|]; simpl.
    + destruct Hf as (Hi & Hp & Hev & _). apply lookup_lt_Some in Hi.
      split_and!; [done|apply advance_range; lia|done|by rewrite Hb2|].
      intros ? _. right. intros q Hq Hqev. rewrite Hb in Hqev.
      unfold frame_of in *. rewrite Hf2.
      destruct (Hs q Hq Hqev) as [?|(k & Hk & Ha)]; [by left|].
      right. exists k. split; [lia|done].
    + split_and!; [done|done|by right| |done]. intros p Hp Hev.
      rewrite Hb2 in Hev. by specialize (Hf p Hp Hev).
Qed.
End wsclock_select.

#[global] Program Instance WSClock_lawful `{GoEnv} : LawfulPolicy WSClock.t :=
  {| policy_inv w := 0 ≤ WSClock.hand w |}.
Next Obligation.
  intros ? w ps h Hc Hps. pose proof (WSClock_select_spec w ps h Hc Hps) as Hs.
  simpl in *. destruct (WSClock.SelectVictim w ps h) as [[r w'] h'].
  destruct Hs as (H1 & H2 & H3 & _). done.
Qed.
Next Obligation. intros. split; [apply touch_lawful|done]. Qed.
Next Obligation. intros. split; [apply touch_lawful|done]. Qed.
Next Obligation. intros. split; [apply (related_ClearReferenceBit p)|done]. Qed.
Next Obligation. done. Qed.

(** ** CLOCK is second chance *)

(** The candidates in the order the hand meets them. *)
Definition rotation (ps : list ptr) (hand : nat) : list ptr := drop hand ps ++ take hand ps.

(** The textbook victim: the first evictable frame with a clear reference bit,
    or, when every one has had its second chance, the first evictable frame. *)
Definition second_chance (h : heap) (l : list ptr) : option ptr :=
  match list_find (λ p, Frame.evictable (frame_of h p) = true ∧
                        Frame.GetReferenceBit (frame_of h p) = false) l with
  | Some (_, p) => Some p
  | None => snd <$> list_find (λ p, Frame.evictable (frame_of h p) = true) l
  end.

(** The sweep as a walk over an explicit list of frames. *)
Fixpoint walk (l : list ptr) (h : heap) : option ptr * heap :=
  match l with
  | [] => (None, h)
  | p :: l =>
      if Frame.evictable (frame_of h p) then
        if Frame.GetReferenceBit (frame_of h p)
        then walk l (frame_ClearReferenceBit p h).2
        else (Some p, h)
      else walk l h
  end.

Lemma wrap_mod hand n : 0 ≤ hand < n → wrap hand n = hand.
Proof. intros. unfold wrap. destruct (Z.leb_spec n hand); lia. Qed.

Lemma advance_mod hand n : 0 < n < 2 ^ 30 → 0 ≤ hand < n → advance hand n = (hand + 1) `mod` n.
Proof.
  intros. unfold advance. rewrite i32_small by lia. apply Z.rem_mod_nonneg; lia.
Qed.

(** What the hand meets in [fuel] steps. *)
Definition met (ps : list ptr) (n hand : Z) (fuel : nat) : list ptr :=
  (λ i, frame_at ps ((hand + Z.of_nat i) `mod` n)) <$> seq 0 fuel.

Lemma met_S ps n hand fuel :
  0 < n < 2 ^ 30 → 0 ≤ hand < n →
  met ps n hand (S fuel) = frame_at ps hand :: met ps n (advance hand n) fuel.
Proof.
  intros Hn Hh. unfold met. simpl. f_equal.
  - f_equal. rewrite Z.mod_small; lia.
  - rewrite <-fmap_S_seq, <-list_fmap_compose. apply list_fmap_ext. intros _ i _. simpl.
    f_equal. rewrite advance_mod by done. rewrite Z.add_mod_idemp_l by lia. f_equal. lia.
Qed.

Lemma sweep_walk fuel ps n hand h :
  0 < n < 2 ^ 30 → 0 ≤ hand < n →
  (CLOCK.sweep fuel ps n hand h).1.1 = (walk (met ps n hand fuel) h).1 ∧
  (CLOCK.sweep fuel ps n hand h).2 = (walk (met ps n hand fuel) h).2.
Proof.
  intros Hn. revert hand h. induction fuel as [|fuel IH]; intros hand h Hh; [done|].
  rewrite met_S by done. simpl. rewrite wrap_mod by done.
  pose proof (advance_range _ _ Hn Hh) as Ha.
  unfold mbind, M_bind, load, gets; cbn [fst snd]. fold (frame_of h (frame_at ps hand)).
  rewrite evictable_negb. destruct (Frame.evictable _); [|by apply IH].
  destruct (Frame.GetReferenceBit _); [|done].
  unfold mbind, M_bind; cbn [fst snd]. by apply IH.
Qed.

Lemma frame_at_of_nat ps i : frame_at ps (Z.of_nat i) = nth i ps 0%nat.
Proof. unfold frame_at. by rewrite Nat2Z.id. Qed.

Lemma met_one_turn ps hand :
  (hand < length ps)%nat →
  met ps (Z.of_nat (length ps)) (Z.of_nat hand) (length ps) = rotation ps hand.
Proof.
  intros Hh. unfold met, rotation. set (n := length ps) in *.
  assert (seq 0 n = seq 0 (n - hand) ++ seq (n - hand) hand) as ->
    by (rewrite <-seq_app; f_equal; lia).
  rewrite fmap_app. f_equal.
  - apply list_eq. intros i. rewrite lookup_drop, list_lookup_fmap.
    destruct (decide (i < n - hand)%nat).
    + rewrite lookup_seq_lt by done. simpl. rewrite Z.mod_small by lia.
      rewrite <-Nat2Z.inj_add, frame_at_of_nat.
      destruct (lookup_lt_is_Some_2 ps (hand + i)) as [x Hx]; [lia|].
      rewrite Hx. f_equal. by apply nth_lookup_Some.
    + rewrite lookup_seq_ge by lia. simpl. symmetry. apply lookup_ge_None. lia.
  - apply list_eq. intros i. rewrite list_lookup_fmap.
    destruct (decide (i < hand)%nat).
    + rewrite lookup_seq_lt, lookup_take_lt by done. simpl.
      replace (Z.of_nat hand + Z.of_nat (n - hand + i)) with (Z.of_nat i + 1 * Z.of_nat n) by lia.
      rewrite Z.mod_add, Z.mod_small, frame_at_of_nat by lia.
      destruct (lookup_lt_is_Some_2 ps i) as [x Hx]; [lia|].
      rewrite Hx. f_equal. by apply nth_lookup_Some.
    + rewrite lookup_seq_ge, lookup_take_ge by lia. done.
Qed.

Lemma met_two_turns ps hand :
  (hand < length ps)%nat →
  met ps (Z.of_nat (length ps)) (Z.of_nat hand) (length ps + length ps) =
    rotation ps hand ++ rotation ps hand.
Proof.
  intros Hh. rewrite <-(met_one_turn _ _ Hh). unfold met at 1.
  rewrite seq_app, fmap_app. f_equal.
  rewrite (Nat.add_comm 0), <-fmap_add_seq, <-list_fmap_compose. apply list_fmap_ext.
  intros _ i _. simpl. f_equal.
  replace (Z.of_nat hand + Z.of_nat (length ps + i))
    with (Z.of_nat hand + Z.of_nat i + 1 * Z.of_nat (length ps)) by lia.
  apply Z.mod_add. lia.
Qed.

(** Clearing one frame's bit. *)
Lemma frame_of_clear p q h :
  frame_of (frame_ClearReferenceBit p h).2 q =
    if decide (p = q) then (Frame.ClearReferenceBit (frame_of h q)).2 else frame_of h q.
Proof.
  unfold frame_of, frame_ClearReferenceBit. rewrite frames_update.
  destruct (decide (p = q)); [|done]. by destruct (frames h !! q).
Qed.

Lemma evictable_clear p q h :
  Frame.evictable (frame_of (frame_ClearReferenceBit p h).2 q) = Frame.evictable (frame_of h q).
Proof. rewrite frame_of_clear. by destruct (decide _). Qed.

Lemma walk_app l1 l2 h :
  walk (l1 ++ l2) h =
    match walk l1 h with (Some v, h') => (Some v, h') | (None, h') => walk l2 h' end.
Proof.
  revert h. induction l1 as [|p l1 IH]; intros h; [done|]. cbn [walk app].
  destruct (Frame.evictable (frame_of h p)); [|apply IH].
  destruct (Frame.GetReferenceBit _); [apply IH|done].
Qed.

Lemma walk_evictable l h q :
  Frame.evictable (frame_of (walk l h).2 q) = Frame.evictable (frame_of h q).
Proof.
  revert h. induction l as [|p l IH]; intros h; cbn [walk]; [done|].
  destruct (Frame.evictable (frame_of h p)); [|apply IH].
  destruct (Frame.GetReferenceBit _); [|done]. by rewrite IH, evictable_clear.
Qed.

Lemma walk_outside l h q : q ∉ l → frame_of (walk l h).2 q = frame_of h q.
Proof.
  revert h. induction l as [|p l IH]; intros h Hq; cbn [walk]; [done|].
  apply not_elem_of_cons in Hq as [Hne Hq].
  destruct (Frame.evictable (frame_of h p)); [|by apply IH].
  destruct (Frame.GetReferenceBit _); [|done].
  rewrite IH, frame_of_clear by done. by rewrite decide_False.
Qed.

Lemma list_find_ext_elem {A} (P Q : A → Prop) `{!∀ x, Decision (P x), !∀ x, Decision (Q x)}
    (l : list A) :
  (∀ x, x ∈ l → P x ↔ Q x) → list_find P l = list_find Q l.
Proof.
  intros HPQ. induction l as [|x l IH]; simpl; [done|].
  rewrite (decide_ext (P x) (Q x)) by (apply HPQ; by left).
  rewrite IH; [done|]. intros y Hy. apply HPQ. by right.
Qed.

(** One turn over distinct frames finds the first frame whose bit is clear, or
    clears every bit. *)
Lemma walk_turn l h :
  NoDup l →
  match list_find (λ p, Frame.evictable (frame_of h p) = true ∧
                        Frame.GetReferenceBit (frame_of h p) = false) l with
  | Some (_, p) => (walk l h).1 = Some p
  | None => (walk l h).1 = None ∧
            ∀ p, p ∈ l → Frame.evictable (frame_of h p) = true →
                 Frame.GetReferenceBit (frame_of (walk l h).2 p) = false
  end.
Proof.
  revert h. induction l as [|p l IH]; intros h Hnd; cbn [walk list_find].
  { split; [done|]. by intros ? ?%elem_of_nil. }
  apply NoDup_cons in Hnd as [Hp Hnd].
  destruct (Frame.evictable (frame_of h p)) eqn:Hev.
  - destruct (Frame.GetReferenceBit (frame_of h p)) eqn:Href.
    + rewrite decide_False by naive_solver.
      set (h' := (frame_ClearReferenceBit p h).2). specialize (IH h' Hnd).
      assert (∀ q, q ≠ p → frame_of h' q = frame_of h q) as Hframe.
      { intros q Hq. unfold h'. rewrite frame_of_clear. by rewrite decide_False. }
      rewrite (list_find_ext_elem _ (λ q, Frame.evictable (frame_of h q) = true ∧
        Frame.GetReferenceBit (frame_of h q) = false)) in IH.
      2:{ intros q Hq. rewrite Hframe; [done|]. by intros ->. }
      destruct (list_find _ l) as [[i q]|]; [exact IH|]. destruct IH as [IH1 IH2].
      split; [done|]. intros q [->|Hq]%elem_of_cons Hqev.
      * rewrite walk_outside by done. unfold h'. rewrite frame_of_clear.
        by rewrite decide_True.
      * apply IH2; [done|]. unfold h'. by rewrite evictable_clear.
    + by rewrite decide_True by done.
  - rewrite decide_False by naive_solver. specialize (IH h Hnd).
    destruct (list_find _ l) as [[i q]|]; [exact IH|]. destruct IH as [IH1 IH2].
    split; [done|]. intros q [->|Hq]%elem_of_cons Hqev; [congruence|auto].
Qed.

(** When every bit is clear the walk stops at the first evictable frame. *)
Lemma walk_clear l h :
  (∀ p, p ∈ l → Frame.evictable (frame_of h p) = true →
        Frame.GetReferenceBit (frame_of h p) = false) →
  (walk l h).1 = snd <$> list_find (λ p, Frame.evictable (frame_of h p) = true) l.
Proof.
  induction l as [|p l IH]; intros Hl; cbn [walk list_find]; [done|].
  destruct (Frame.evictable (frame_of h p)) eqn:Hev.
  - rewrite decide_True by done. rewrite (Hl p) by (set_solver || done). done.
  - rewrite decide_False by done. rewrite IH by set_solver.
    by destruct (list_find _ l) as [[??]|].
Qed.

Lemma list_find_app_none {A} (P : A → Prop) `{!∀ x, Decision (P x)} (l1 l2 : list A) :
  list_find P l1 = None → snd <$> list_find P (l1 ++ l2) = snd <$> list_find P l2.
Proof.
  induction l1 as [|x l1 IH]; simpl; [done|].
  destruct (decide (P x)); [done|]. intros Hn. destruct (list_find P l1) as [[??]|] eqn:Hl; [done|].
  rewrite <-IH by done. by destruct (list_find P (l1 ++ l2)) as [[??]|].
Qed.

Lemma rotation_perm ps hand : rotation ps hand ≡ₚ ps.
Proof. unfold rotation. by rewrite (Permutation_app_comm (drop _ _)), take_drop. Qed.

(** Two turns over distinct frames: the second-chance victim. *)
Lemma walk_second_chance l h : NoDup l → (walk (l ++ l) h).1 = second_chance h l.
Proof.
  intros Hnd. rewrite walk_app. unfold second_chance.
  pose proof (walk_turn l h Hnd) as Ht. pose proof (walk_evictable l h) as Hev.
  destruct (walk l h) as [r h']; simpl in *.
  destruct (list_find _ l) as [[i p]|]; simpl in *; [by subst r|].
  destruct Ht as [-> Hclear]. rewrite walk_clear.
  - f_equal. apply list_find_ext. intros p. by rewrite Hev.
  - intros p Hp. rewrite Hev. auto.
Qed.

Lemma second_chance_none h l :
  second_chance h l = None → ∀ p, p ∈ l → ¬ evictable_at h p.
Proof.
  unfold second_chance. destruct (list_find _ l) as [[??]|]; [done|].
  destruct (list_find (λ p, Frame.evictable (frame_of h p) = true) l) as [[??]|] eqn:Hf; [done|].
  intros _ p Hp. rewrite evictable_at_frame_of.
  apply list_find_None in Hf. rewrite Forall_forall in Hf. by apply Hf.
Qed.

(** *** The hand and the bits *)

(** The hand ends just past the victim, or, with none, [fuel] slots further. *)
Lemma sweep_hand fuel ps n hand h :
  0 < n < 2 ^ 30 → 0 ≤ hand < n →
  match (CLOCK.sweep fuel ps n hand h).1 with
  | (Some v, hd) => ∃ k, 0 ≤ k < n ∧ v = frame_at ps k ∧ hd = (k + 1) `mod` n
  | (None, hd) => hd = (hand + Z.of_nat fuel) `mod` n
  end.
Proof.
  intros Hn. revert hand h. induction fuel as [|fuel IH]; intros hand h Hh.
  { simpl. rewrite Z.add_0_r, Z.mod_small; lia. }
  pose proof (advance_range _ _ Hn Hh) as Ha.
  assert (∀ h', match (CLOCK.sweep fuel ps n (advance hand n) h').1 with
    | (Some v, hd) => ∃ k, 0 ≤ k < n ∧ v = frame_at ps k ∧ hd = (k + 1) `mod` n
    | (None, hd) => hd = (hand + Z.of_nat (S fuel)) `mod` n end) as Hrec.
  { intros h'. specialize (IH (advance hand n) h' Ha). destruct (CLOCK.sweep _ _ _ _ _).1 as [[v|] hd]; [done|].
    rewrite IH, advance_mod, Z.add_mod_idemp_l by lia. f_equal. lia. }
  simpl. rewrite wrap_mod by done. unfold mbind, M_bind, load, gets; cbn [fst snd].
  fold (frame_of h (frame_at ps hand)). rewrite evictable_negb.
  destruct (Frame.evictable _); [|apply Hrec]. destruct (Frame.GetReferenceBit _); [unfold mbind, M_bind; cbn [fst snd]; apply Hrec|].
  exists hand. split_and!; [lia..|done|by apply advance_mod].
Qed.

(** The frames that the hand passes before it stops, at the first frame that is
    evictable and not referenced. *)
Definition passed (h : heap) (l : list ptr) : list ptr :=
  match list_find (λ p, Frame.evictable (frame_of h p) = true ∧
                        Frame.GetReferenceBit (frame_of h p) = false) l with
  | Some (i, _) => take i l
  | None => l
  end.

(** The bits after the frames [ps] have had their second chance. *)
Definition chance_taken (h : heap) (ps : list ptr) (q : ptr) : Frame.t :=
  if decide (q ∈ ps ∧ Frame.evictable (frame_of h q) = true)
  then (Frame.ClearReferenceBit (frame_of h q)).2 else frame_of h q.

Lemma passed_cons h p l :
  passed h (p :: l) =
    if decide (Frame.evictable (frame_of h p) = true ∧ Frame.GetReferenceBit (frame_of h p) = false)
    then [] else p :: passed h l.
Proof.
  unfold passed. cbn [list_find]. destruct (decide _); [done|]. by destruct (list_find _ l) as [[??]|].
Qed.

Lemma passed_subset h l q : q ∈ passed h l → q ∈ l.
Proof.
  unfold passed. destruct (list_find _ l) as [[i p]|]; [|done]. intros Hq.
  rewrite <-(take_drop i l). set_solver.
Qed.

Lemma passed_ext h h' l :
  (∀ p, p ∈ l → frame_of h' p = frame_of h p) → passed h' l = passed h l.
Proof.
  intros Hl. unfold passed. by rewrite (list_find_ext_elem _
    (λ p, Frame.evictable (frame_of h p) = true ∧ Frame.GetReferenceBit (frame_of h p) = false))
    by (intros p Hp; by rewrite Hl).
Qed.

(** One turn clears the bits of what it passes. *)
Lemma walk_bits l h q : NoDup l → frame_of (walk l h).2 q = chance_taken h (passed h l) q.
Proof.
  unfold chance_taken. revert h. induction l as [|p l IH]; intros h Hnd; cbn [walk].
  { rewrite decide_False; [done|]. intros [Hq _]. by apply elem_of_nil in Hq. }
  apply NoDup_cons in Hnd as [Hp Hnd]. rewrite passed_cons.
  destruct (Frame.evictable (frame_of h p)) eqn:Hev; [destruct (Frame.GetReferenceBit (frame_of h p)) eqn:Href|].
  - rewrite (decide_False (P := true = true ∧ true = false)) by naive_solver. rewrite IH, frame_of_clear by done.
    rewrite (passed_ext h) by (intros x Hx; rewrite frame_of_clear, decide_False; [done|by intros ->]).
    destruct (decide (p = q)) as [->|Hne].
    + rewrite decide_False, decide_True; [done|set_solver|]. intros [Hq%passed_subset _]. done.
    + apply decide_ext. set_solver.
  - rewrite (decide_True (P := true = true ∧ false = false)) by done. rewrite decide_False; [done|]. set_solver.
  - rewrite (decide_False (P := false = true ∧ _)) by naive_solver. rewrite IH by done. apply decide_ext.
    split; [set_solver|]. intros [[->|Hq]%elem_of_cons Hq2]; [congruence|done].
Qed.

(** A turn over cleared frames changes nothing. *)
Lemma walk_cleared l h :
  (∀ p, p ∈ l → Frame.evictable (frame_of h p) = true → Frame.GetReferenceBit (frame_of h p) = false) →
  (walk l h).2 = h.
Proof.
  induction l as [|p l IH]; intros Hl; cbn [walk]; [done|].
  destruct (Frame.evictable (frame_of h p)) eqn:Hev; [|apply IH; set_solver].
  by rewrite (Hl p) by (set_solver || done).
Qed.

Lemma walk_two_bits l h q : NoDup l → frame_of (walk (l ++ l) h).2 q = chance_taken h (passed h l) q.
Proof.
  intros Hnd. rewrite <-walk_bits by done. rewrite walk_app. pose proof (walk_turn l h Hnd) as Ht.
  pose proof (walk_evictable l h) as Hev. destruct (walk l h) as [[v|] h']; [done|]. simpl in *.
  destruct (list_find _ l) as [[i p]|]; [done|]. rewrite walk_cleared; [done|].
  intros p Hp. rewrite Hev. apply Ht, Hp.
Qed.

Lemma match_nonempty {A B} (l : list A) (x y : B) :
  l ≠ [] → match l with [] => x | _ :: _ => y end = y.
Proof. by destruct l. Qed.

(** ** Properties *)

(** C31: CLOCK is the second-chance policy.  Over distinct candidates the victim
    is the first frame from the hand on whose reference bit is clear, and when
    every evictable frame is referenced, the first evictable one after a whole
    turn has cleared their bits; the code's fall-back scan changes nothing.  The
    hand ends just past the victim (where it was, if nothing can be evicted), and
    the bits that are cleared are those of the evictable frames it passed. *)
Theorem CLOCK_is_second_chance c ps h :
  NoDup ps → candidates h ps → ps ≠ [] → 0 ≤ CLOCK.hand c < Z.of_nat (length ps) →
  let l := rotation ps (Z.to_nat (CLOCK.hand c)) in
  let '((r, c'), h') := CLOCK.SelectVictim c ps h in
  match second_chance h l with
  | Some p => r = Ok p ∧
      ∃ i : nat, ps !! i = Some p ∧ CLOCK.hand c' = (Z.of_nat i + 1) `mod` Z.of_nat (length ps)
  | None => r = Err ErrNoEvictable ∧ CLOCK.hand c' = CLOCK.hand c
  end ∧
  ∀ q, frame_of h' q = chance_taken h (passed h l) q.
Proof.
  intros Hnd Hps Hne Hc l. destruct (candidates_width _ _ Hps Hne) as (Hn & Hn2 & Hlt).
  unfold CLOCK.SelectVictim. rewrite (match_nonempty ps) by done. rewrite Hn, Hn2.
  destruct (Z.leb_spec (2 * Z.of_nat (length ps)) 0); [lia|].
  replace (Z.to_nat (2 * Z.of_nat (length ps))) with (length ps + length ps)%nat by lia.
  destruct (sweep_walk (length ps + length ps) ps _ (CLOCK.hand c) h Hlt Hc) as [Hv Hh].
  pose proof (sweep_hand (length ps + length ps) ps _ (CLOCK.hand c) h Hlt Hc) as Hhand.
  rewrite <-(Z2Nat.id (CLOCK.hand c)) in Hv at 2 by lia.
  rewrite <-(Z2Nat.id (CLOCK.hand c)) in Hh at 2 by lia.
  rewrite met_two_turns in Hv, Hh by lia. fold l in Hv, Hh.
  assert (l ≡ₚ ps) as Hrot by apply rotation_perm.
  assert (NoDup l) as Hndl by (by rewrite Hrot).
  rewrite walk_second_chance in Hv by done.
  pose proof (walk_two_bits l h) as Hbits. rewrite <-Hh in Hbits.
  pose proof (walk_evictable (l ++ l) h) as Hwev. rewrite <-Hh in Hwev.
  unfold mbind, M_bind. destruct (CLOCK.sweep _ _ _ _ _) as [[v hd] h']; cbn [fst snd] in *.
  rewrite <-Hv. destruct v as [v|].
  { split; [|auto]. split; [done|]. destruct Hhand as (k & Hk & -> & ->). exists (Z.to_nat k).
    rewrite Z2Nat.id by lia. split; [|done]. destruct (lookup_lt_is_Some_2 ps (Z.to_nat k)) as [x Hx]; [lia|].
    unfold frame_at. by rewrite (nth_lookup_Some _ _ _ _ Hx). }
  unfold CLOCK.fallback, gets. pose proof (first_slot_spec (λ _, true) h' ps) as Hf.
  destruct (first_slot _ h' ps) as [[i p]|]; cbn [fst snd].
  - destruct Hf as (_ & Hp & Hev & _). exfalso.
    apply (second_chance_none h l (eq_sym Hv) p); [by rewrite Hrot|].
    apply evictable_at_frame_of. rewrite <-Hwev. by apply evictable_at_frame_of.
  - split; [|auto]. split; [done|]. simpl. rewrite Hhand, Nat2Z.inj_add.
    replace (CLOCK.hand c + _) with (CLOCK.hand c + 2 * Z.of_nat (length ps)) by lia.
    rewrite Z.mod_add, Z.mod_small; lia.
Qed.

(** WSClock evicts a frame that left the working set and is clean; another
    frame is taken only when every evictable candidate was dirty or still in the
    working set when the second pass read the clock for it. *)
Theorem WSClock_victim_old_clean `{GoEnv} w ps h v :
  0 ≤ WSClock.hand w → candidates h ps →
  let '((r, w'), h') := WSClock.SelectVictim w ps h in
  r = Ok v →
  v ∈ ps ∧ evictable_at h v ∧
  (old_clean (WSClock.workingSetAge w) (tick h) (tick h') h' v ∨
   ∀ q, q ∈ ps → evictable_at h q →
     Frame.IsModified (frame_of h' q) = true ∨
     ∃ k, (tick h ≤ k < tick h')%nat ∧
          WSClock.age (clock k) (frame_of h' q) ≤ WSClock.workingSetAge w).
Proof.
  intros Hw Hps. pose proof (WSClock_select_spec w ps h Hw Hps) as Hs.
  destruct (WSClock.SelectVictim w ps h) as [[r w'] h']. destruct Hs as (_ & _ & Hv & Ho).
  intros ->. destruct Hv. split_and!; [done|done|]. by apply Ho.
Qed.

(** *** Witnesses *)

Lemma two_frames_candidates : candidates two_frames [0; 1]%nat.
Proof.
  split; [|simpl; lia].
  intros p [->|[->|Hp]%elem_of_cons]%elem_of_cons; [eexists; reflexivity..|].
  by apply elem_of_nil in Hp.
Qed.

Lemma CLOCK_is_second_chance_witness :
  (CLOCK.SelectVictim CLOCK.NewCLOCK [0; 1]%nat two_frames).1.1 = Ok 0%nat ∧
  Frame.GetReferenceBit (frame_of (CLOCK.SelectVictim CLOCK.NewCLOCK [0; 1]%nat two_frames).2 1%nat) = false.
Proof.
  pose proof (CLOCK_is_second_chance CLOCK.NewCLOCK [0; 1]%nat two_frames
    (bool_decide_unpack (NoDup [0; 1]%nat) I) two_frames_candidates ltac:(discriminate) ltac:(simpl; lia)) as H.
  cbv zeta in H. destruct (CLOCK.SelectVictim _ _ _) as [[r c'] h']. destruct H as [[Hr _] Hb].
  split; [exact Hr|]. cbn [snd]. rewrite Hb. vm_compute. reflexivity.
Defined.

Lemma WSClock_victim_old_clean_witness :
  ∃ v, (@WSClock.SelectVictim first_env (WSClock.NewWSClock 1000) [0; 1]%nat two_frames).1.1 = Ok v ∧
       v ∈ [0; 1]%nat.
Proof.
  exists 0%nat. split; [vm_compute; reflexivity|].
  pose proof (@WSClock_victim_old_clean first_env (WSClock.NewWSClock 1000) [0; 1]%nat
    two_frames 0%nat) as Hw.
  specialize (Hw ltac:(simpl; lia) two_frames_candidates).
  destruct (WSClock.SelectVictim _ _ _) as [[r w'] h'] eqn:Hs.
  apply Hw. vm_compute in Hs. injection Hs as <- _ _. reflexivity.
Defined.
