(* ===== verification/Arc.v ===== *)
(** * ARC: [internal/algorithms/arc.go]

    Two resident lists (T1 seen once, T2 seen again), two ghost lists (B1, B2)
    and the adaptive target [p] for the size of T1.  A [container/list] is a
    Rocq list whose head is [Front()] and whose last element is [Back()]; the
    list's own length and the code's separate size counters are both kept, and
    the invariant [inv] says that they agree.  [adapt]'s loops have no bound in
    the code: they are modelled with fuel, and [adapt_terminates] shows that
    under the invariant the fuel is never exhausted. *)

From S2P Require Import Prelude Models Heap Policy Policies PoliciesSpec.
Local Open Scope Z_scope.

Module ARC.
Record arcEntry := entry { pageID : N; frameID : Z; key : Z }.
Record t := mk {
  name : string;
  t1 : list arcEntry; t2 : list arcEntry; b1 : list arcEntry; b2 : list arcEntry;
  t1Size : Z; t2Size : Z; b1Size : Z; b2Size : Z;
  p : Z; c : Z; index : Z;
}.
#[global] Instance eta_t : Eta t := λ r,
  mk (name r) (t1 r) (t2 r) (b1 r) (b2 r) (t1Size r) (t2Size r) (b1Size r) (b2Size r)
     (p r) (c r) (index r).

Definition NewARC (numFrames : Z) : t :=
  {| name := "ARC"; t1 := []; t2 := []; b1 := []; b2 := [];
     t1Size := 0; t2Size := 0; b1Size := 0; b2Size := 0;
     p := 0; c := numFrames; index := 0 |}.

Definition getIndex (a : t) : Z * t :=
  let i := i64 (index a + 1) in (i, a <| index := i |>).

(** [for e := l.Front(); ...] up to the first element satisfying [P], which is removed. *)
Fixpoint take_out (P : arcEntry → bool) (l : list arcEntry) : option (arcEntry * list arcEntry) :=
  match l with
  | [] => None
  | e :: l =>
      if P e then Some (e, l)
      else match take_out P l with Some (x, l) => Some (x, e :: l) | None => None end
  end.
Definition has_page (page : N) (e : arcEntry) : bool := (pageID e =? page)%N.
Definition has_key (k : Z) (e : arcEntry) : bool := key e =? k.

(** Removal of the first match, with its size counter. *)
Definition remove_t1 (P : arcEntry → bool) (a : t) : option (arcEntry * t) :=
  match take_out P (t1 a) with
  | Some (e, l) => Some (e, a <| t1 := l |> <| t1Size ::= Z.pred |>)
  | None => None
  end.
Definition remove_t2 (P : arcEntry → bool) (a : t) : option (arcEntry * t) :=
  match take_out P (t2 a) with
  | Some (e, l) => Some (e, a <| t2 := l |> <| t2Size ::= Z.pred |>)
  | None => None
  end.
Definition remove_b1 (P : arcEntry → bool) (a : t) : option (arcEntry * t) :=
  match take_out P (b1 a) with
  | Some (e, l) => Some (e, a <| b1 := l |> <| b1Size ::= Z.pred |>)
  | None => None
  end.
Definition remove_b2 (P : arcEntry → bool) (a : t) : option (arcEntry * t) :=
  match take_out P (b2 a) with
  | Some (e, l) => Some (e, a <| b2 := l |> <| b2Size ::= Z.pred |>)
  | None => None
  end.
Definition drop_entry (r : option (arcEntry * t)) (a : t) : t :=
  match r with Some (_, a') => a' | None => a end.

Definition push_t1 (e : arcEntry) (a : t) : t := a <| t1 ::= cons e |> <| t1Size ::= Z.succ |>.
Definition push_t2 (e : arcEntry) (a : t) : t := a <| t2 ::= cons e |> <| t2Size ::= Z.succ |>.

(** [b1.PushFront(e); b1Size++; if b1Size > c { remove the back; b1Size-- }] *)
Definition push_b1 (e : arcEntry) (a : t) : t :=
  let a := a <| b1 ::= cons e |> <| b1Size ::= Z.succ |> in
  if c a <? b1Size a then a <| b1 ::= @removelast _ |> <| b1Size ::= Z.pred |> else a.
Definition push_b2 (e : arcEntry) (a : t) : t :=
  let a := a <| b2 ::= cons e |> <| b2Size ::= Z.succ |> in
  if c a <? b2Size a then a <| b2 ::= @removelast _ |> <| b2Size ::= Z.pred |> else a.

Definition inT2 (e : arcEntry) (a : t) : bool := existsb (has_key (key e)) (t2 a).
Definition moveToB1 (e : arcEntry) (a : t) : t :=
  push_b1 e (drop_entry (remove_t1 (has_key (key e)) a) a).
Definition moveToB2 (e : arcEntry) (a : t) : t :=
  push_b2 e (drop_entry (remove_t2 (has_key (key e)) a) a).

(** [adapt]'s first loop: T1 shrinks to [p], from the back, into B1. *)
Fixpoint adapt_t1 (fuel : nat) (a : t) : option t :=
  if t1Size a <=? p a then Some a
  else match fuel with
       | O => None
       | S fuel =>
           match last (t1 a) with
           | None => Some a
           | Some e => adapt_t1 fuel (push_b1 e (a <| t1 ::= @removelast _ |> <| t1Size ::= Z.pred |>))
           end
       end.

(** The second loop: T2 shrinks until the resident lists fit in [c].  A round
    with T2 empty changes nothing. *)
Fixpoint adapt_t2 (fuel : nat) (a : t) : option t :=
  if t1Size a + t2Size a <=? c a then Some a
  else match fuel with
       | O => None
       | S fuel =>
           adapt_t2 fuel
             match last (t2 a) with
             | Some e =>
                 if 0 <? t2Size a
                 then push_b2 e (a <| t2 ::= @removelast _ |> <| t2Size ::= Z.pred |>)
                 else a
             | None => a
             end
       end.

Definition adapt_fuel (a : t) : option t :=
  match adapt_t1 (length (t1 a)) a with
  | Some a => adapt_t2 (length (t2 a)) a
  | None => None
  end.
Definition adapt (a : t) : t := default a (adapt_fuel a).

(** The frame among [ps] that holds the entry's page and may be evicted. *)
Definition frame_for (h : heap) (ps : list ptr) (e : arcEntry) : option ptr :=
  snd <$> list_find (λ f, Frame.GetPageID (frame_of h f) = pageID e ∧
                          Frame.evictable (frame_of h f) = true) ps.
Fixpoint find_entry (h : heap) (ps : list ptr) (es : list arcEntry) : option (ptr * arcEntry) :=
  match es with
  | [] => None
  | e :: es => match frame_for h ps e with
               | Some f => Some (f, e)
               | None => find_entry h ps es
               end
  end.

Definition findVictim (a : t) (h : heap) (ps : list ptr) : option (ptr * option arcEntry) :=
  match find_entry h ps (reverse (t1 a)) with
  | Some (f, e) => Some (f, Some e)
  | None =>
      match find_entry h ps (reverse (t2 a)) with
      | Some (f, e) => Some (f, Some e)
      | None =>
          match list_find (λ f, Frame.evictable (frame_of h f) = true) ps with
          | Some (_, f) => Some (f, None)
          | None => None
          end
      end
  end.

(** The lists after the eviction of [f]. *)
Definition record_victim (f : Frame.t) (victimEntry : option arcEntry) (a : t) : t :=
  match victimEntry with
  | Some e => if inT2 e a then moveToB2 e a else moveToB1 e a
  | None =>
      let page := Frame.GetPageID f in
      let a := drop_entry (remove_t1 (has_page page) a) a in
      let a := drop_entry (remove_t2 (has_page page) a) a in
      let '(k, a) := getIndex a in
      push_b1 (entry page (Frame.ID f) k) a
  end.

Definition SelectVictim (a : t) (ps : list ptr) : M heap (res ptr * t) :=
  gets (λ h, match findVictim a h ps with
             | None => (Err ErrNoEvictable, a)
             | Some (f, e) => (Ok f, record_victim (frame_of h f) e a)
             end).

(** The learning rate: the ratio of the ghost lists' sizes, at least 1. *)
Definition delta (large small : Z) : Z :=
  let d := if (small <=? large) && (0 <? small) then Z.quot large small else 1 in
  if d <? 1 then 1 else d.

(** The list part of [OnPageAccess], for the page and ID of the frame. *)
Definition on_access (page : N) (id : Z) (a : t) : t :=
  match remove_t1 (has_page page) a with
  | Some (e, a) => push_t2 e a
  | None =>
  match remove_t2 (has_page page) a with
  | Some (e, a) => push_t2 e a                       (* MoveToFront *)
  | None =>
  match remove_b1 (has_page page) a with
  | Some (e, a') =>
      push_t2 e (adapt (a' <| p := Z.min (p a + delta (b1Size a) (b2Size a)) (c a) |>))
  | None =>
  match remove_b2 (has_page page) a with
  | Some (e, a') =>
      push_t2 e (adapt (a' <| p := Z.max (p a - delta (b2Size a) (b1Size a)) 0 |>))
  | None =>
      let '(k, a) := getIndex a in adapt (push_t1 (entry page id k) a)
  end end end end.

(** The list part of [OnPageFault]. *)
Definition on_fault (page : N) (id : Z) (a : t) : t :=
  match remove_b1 (has_page page) a with
  | Some (e, a) => push_t2 e a
  | None =>
  match remove_b2 (has_page page) a with
  | Some (e, a) => push_t2 e a
  | None => let '(k, a) := getIndex a in adapt (push_t1 (entry page id k) a)
  end end.

Definition OnPageAccess `{GoEnv} (a : t) (f : ptr) (write : bool) : M heap t :=
  fr ← load f;
  touch (on_access (Frame.GetPageID fr) (Frame.ID fr) a) f write.
Definition OnPageFault `{GoEnv} (a : t) (f : ptr) : M heap t :=
  fr ← load f;
  touch (on_fault (Frame.GetPageID fr) (Frame.ID fr) a) f false.
Definition OnPageEviction (a : t) (f : ptr) : M heap t := mret a.
Definition GetName (a : t) : string := name a.
Definition Reset (a : t) : t :=
  a <| t1 := [] |> <| t2 := [] |> <| b1 := [] |> <| b2 := [] |>
    <| t1Size := 0 |> <| t2Size := 0 |> <| b1Size := 0 |> <| b2Size := 0 |>
    <| p := 0 |> <| index := 0 |>.

#[global] Instance policy `{GoEnv} : PageReplacementAlgorithm t :=
  Build_PageReplacementAlgorithm t SelectVictim OnPageAccess OnPageFault
    OnPageEviction GetName Reset.

(** ** The invariant *)

Definition len {A} (l : list A) : Z := Z.of_nat (length l).

(** Counters are lengths, the target stays within the cache and the ghost lists
    hold at most [c] entries each. *)
Record inv (a : t) : Prop := {
  inv_t1 : t1Size a = len (t1 a);
  inv_t2 : t2Size a = len (t2 a);
  inv_b1 : b1Size a = len (b1 a);
  inv_b2 : b2Size a = len (b2 a);
  inv_p : 0 ≤ p a ≤ c a;
  inv_b1_max : len (b1 a) ≤ c a;
  inv_b2_max : len (b2 a) ≤ c a;
}.
End ARC.
Import ARC.

(** ** List facts *)

#[local] Arguments removelast : simpl never.

Lemma take_out_length P l e l' :
  take_out P l = Some (e, l') → len l = len l' + 1 ∧ 0 ≤ len l'.
Proof.
  unfold len. revert l'. induction l as [|x l IH]; intros l' H; simpl in H; [done|].
  destruct (P x); simplify_eq/=; [lia|].
  destruct (take_out P l) as [[y l'']|]; simplify_eq/=. specialize (IH l'' eq_refl). lia.
Qed.

Lemma removelast_len {A} (l : list A) : len (removelast l) = Z.max 0 (len l - 1).
Proof. unfold len. rewrite removelast_firstn_len, length_firstn. lia. Qed.

Lemma len_cons {A} (x : A) l : len (x :: l) = len l + 1.
Proof. unfold len. simpl. lia. Qed.

Lemma len_nonneg {A} (l : list A) : 0 ≤ len l.
Proof. unfold len. lia. Qed.

Lemma last_none_len {A} (l : list A) : last l = None → len l = 0.
Proof. intros ->%last_None. done. Qed.

Lemma last_some_len {A} (l : list A) x : last l = Some x → 1 ≤ len l.
Proof. destruct l; [done|]. rewrite len_cons. pose proof (len_nonneg l). lia. Qed.

(** Solve a goal about sizes from the invariant and the lengths in context. *)
Ltac arc_lia :=
  repeat match goal with H : inv _ |- _ => destruct H end;
  simpl in *; rewrite ?removelast_len, ?len_cons in *;
  repeat match goal with
  | |- context [len ?l] =>
      lazymatch goal with
      | _ : 0 ≤ len l |- _ => fail
      | _ => pose proof (len_nonneg l)
      end
  end; lia.

(** ** Each list operation *)

(** [step_ok a a']: [a'] keeps the invariant, [p] and [c]. *)
Definition step_ok (a a' : ARC.t) : Prop := inv a → inv a' ∧ c a' = c a ∧ p a' = p a.

Lemma step_ok_push_t1 e a : step_ok a (push_t1 e a).
Proof. intros Hi. split_and!; [constructor|..]; arc_lia. Qed.
Lemma step_ok_push_t2 e a : step_ok a (push_t2 e a).
Proof. intros Hi. split_and!; [constructor|..]; arc_lia. Qed.

Lemma step_ok_push_b1 e a : step_ok a (push_b1 e a).
Proof.
  intros Hi. unfold push_b1; simpl. destruct (Z.ltb_spec (c a) (Z.succ (b1Size a)));
    (split_and!; [constructor|..]; arc_lia).
Qed.
Lemma step_ok_push_b2 e a : step_ok a (push_b2 e a).
Proof.
  intros Hi. unfold push_b2; simpl. destruct (Z.ltb_spec (c a) (Z.succ (b2Size a)));
    (split_and!; [constructor|..]; arc_lia).
Qed.

Ltac solve_remove :=
  match goal with
  | |- context [take_out ?P ?l] =>
      let H := fresh in
      destruct (take_out P l) as [[??]|] eqn:H; [|done];
      apply take_out_length in H; intros ?? [= <- <-] ?;
      split_and!; [constructor|..]; arc_lia
  end.

Lemma step_ok_remove_t1 P a e a' : remove_t1 P a = Some (e, a') → step_ok a a'.
Proof. unfold remove_t1. revert e a'. solve_remove. Qed.
Lemma step_ok_remove_t2 P a e a' : remove_t2 P a = Some (e, a') → step_ok a a'.
Proof. unfold remove_t2. revert e a'. solve_remove. Qed.
Lemma step_ok_remove_b1 P a e a' : remove_b1 P a = Some (e, a') → step_ok a a'.
Proof. unfold remove_b1. revert e a'. solve_remove. Qed.
Lemma step_ok_remove_b2 P a e a' : remove_b2 P a = Some (e, a') → step_ok a a'.
Proof. unfold remove_b2. revert e a'. solve_remove. Qed.

Lemma step_ok_getIndex a : step_ok a (getIndex a).2.
Proof. intros Hi. split_and!; [constructor|..]; arc_lia. Qed.

Lemma step_ok_trans a1 a2 a3 : step_ok a1 a2 → step_ok a2 a3 → step_ok a1 a3.
Proof.
  intros H1 H2 Hi. destruct (H1 Hi) as (Hi2 & ? & ?). destruct (H2 Hi2) as (? & ? & ?).
  split_and!; [done|congruence|congruence].
Qed.

(** Dropping an entry that may be missing. *)
Lemma step_ok_drop (r : option (arcEntry * ARC.t)) a :
  (∀ e a', r = Some (e, a') → step_ok a a') → step_ok a (drop_entry r a).
Proof. intros Hr. destruct r as [[e a']|]; simpl; [by apply (Hr e)|done]. Qed.

(** ** [adapt] terminates *)

Lemma step_ok_pop_t1 e a :
  last (t1 a) = Some e →
  step_ok a (a <| t1 ::= @removelast _ |> <| t1Size ::= Z.pred |>) ∧
  len (t1 (a <| t1 ::= @removelast _ |> <| t1Size ::= Z.pred |>)) = len (t1 a) - 1.
Proof.
  intros Hl%last_some_len. split; [|arc_lia].
  intros Hi. split_and!; [constructor|..]; arc_lia.
Qed.

Lemma step_ok_pop_t2 e a :
  last (t2 a) = Some e →
  step_ok a (a <| t2 ::= @removelast _ |> <| t2Size ::= Z.pred |>) ∧
  len (t2 (a <| t2 ::= @removelast _ |> <| t2Size ::= Z.pred |>)) = len (t2 a) - 1.
Proof.
  intros Hl%last_some_len. split; [|arc_lia].
  intros Hi. split_and!; [constructor|..]; arc_lia.
Qed.

Lemma push_b1_t1 e a : t1 (push_b1 e a) = t1 a ∧ t2 (push_b1 e a) = t2 a.
Proof. unfold push_b1. by destruct (_ <? _). Qed.
Lemma push_b2_t2 e a : t1 (push_b2 e a) = t1 a ∧ t2 (push_b2 e a) = t2 a.
Proof. unfold push_b2. by destruct (_ <? _). Qed.

Lemma adapt_t1_terminates fuel a :
  inv a → len (t1 a) ≤ Z.of_nat fuel →
  ∃ a', adapt_t1 fuel a = Some a' ∧ step_ok a a' ∧ len (t1 a') ≤ p a' ∧ t2 a' = t2 a.
Proof.
  revert a. induction fuel as [|fuel IH]; intros a Hi Hf; simpl;
    destruct (Z.leb_spec (t1Size a) (p a)) as [Hle|Hgt].
  1,3: exists a; split_and!; [done|done|rewrite <-(inv_t1 _ Hi); lia|done].
  { destruct Hi. lia. }
  destruct (last (t1 a)) as [e|] eqn:Hl.
  2:{ apply last_none_len in Hl. destruct Hi. lia. }
  destruct (step_ok_pop_t1 e a Hl) as [Hpop Hlen]. set (b := _ <| t1Size ::= _ |>) in *.
  pose proof (step_ok_trans _ _ _ Hpop (step_ok_push_b1 e b)) as Hs.
  destruct (push_b1_t1 e b) as [Ht1 Ht2].
  destruct (IH (push_b1 e b)) as (a' & Ha' & Hok & Hp & Ht2').
  { by apply Hs. } { rewrite Ht1. lia. }
  exists a'. split_and!; [done| |done|by rewrite Ht2', Ht2].
  exact (step_ok_trans _ _ _ Hs Hok).
Qed.

Lemma adapt_t2_terminates fuel a :
  inv a → len (t1 a) ≤ c a → len (t2 a) ≤ Z.of_nat fuel →
  ∃ a', adapt_t2 fuel a = Some a' ∧ step_ok a a' ∧ len (t1 a') + len (t2 a') ≤ c a'.
Proof.
  revert a. induction fuel as [|fuel IH]; intros a Hi Ht1 Hf; simpl;
    destruct (Z.leb_spec (t1Size a + t2Size a) (c a)) as [Hle|Hgt].
  1,3: exists a; split_and!; [done|done|rewrite <-(inv_t1 _ Hi), <-(inv_t2 _ Hi); lia].
  { destruct Hi. lia. }
  destruct (last (t2 a)) as [e|] eqn:Hl.
  2:{ apply last_none_len in Hl. destruct Hi. lia. }
  pose proof (last_some_len _ _ Hl).
  rewrite (proj2 (Z.ltb_lt 0 (t2Size a))) by (destruct Hi; lia).
  destruct (step_ok_pop_t2 e a Hl) as [Hpop Hlen].
  assert (t1 (a <| t2 ::= @removelast _ |> <| t2Size ::= Z.pred |>) = t1 a) as Hb1 by done.
  set (b := _ <| t2Size ::= _ |>) in *.
  pose proof (step_ok_trans _ _ _ Hpop (step_ok_push_b2 e b)) as Hs.
  destruct (push_b2_t2 e b) as [Ht1' Ht2']. destruct (Hs Hi) as (Hib & Hc & _).
  destruct (IH (push_b2 e b)) as (a' & Ha' & Hok & Hsum); [done| | |].
  { rewrite Ht1', Hb1. lia. } { rewrite Ht2'. lia. }
  exists a'. split_and!; [done| |done]. exact (step_ok_trans _ _ _ Hs Hok).
Qed.

(** The fuel suffices; afterwards T1 and T2 fit in the cache. *)
Lemma adapt_spec a :
  inv a → adapt_fuel a = Some (adapt a) ∧ step_ok a (adapt a) ∧
          len (t1 (adapt a)) + len (t2 (adapt a)) ≤ c (adapt a).
Proof.
  intros Hi. unfold adapt, adapt_fuel.
  destruct (adapt_t1_terminates (length (t1 a)) a Hi) as (a1 & -> & Hs1 & Hp1 & Ht2); [done|].
  destruct (Hs1 Hi) as (Hi1 & Hc1 & Hpp).
  destruct (adapt_t2_terminates (length (t2 a1)) a1 Hi1) as (a2 & -> & Hs2 & Hsum).
  { destruct (inv_p _ Hi1). lia. } { done. }
  simpl. split_and!; [done| |done]. exact (step_ok_trans _ _ _ Hs1 Hs2).
Qed.

(** ** The operations keep the invariant *)

Lemma step_ok_adapt a : step_ok a (adapt a).
Proof. intros Hi. by apply adapt_spec. Qed.

Lemma new_entry_inv page id a :
  inv a → inv (adapt (push_t1 (entry page id (getIndex a).1) (getIndex a).2)).
Proof. intros Hi. apply step_ok_adapt, step_ok_push_t1, step_ok_getIndex, Hi. Qed.

Lemma ghost_hit_inv e a a' q :
  step_ok a a' → 0 ≤ q ≤ c a → inv a → inv (push_t2 e (adapt (a' <| p := q |>))).
Proof.
  intros Hs Hq Hi. destruct (Hs Hi) as (Hi' & Hc & _).
  apply step_ok_push_t2, step_ok_adapt. constructor; simpl in *; rewrite ?Hc; arc_lia.
Qed.

Lemma delta_pos x y : 1 ≤ delta x y.
Proof. unfold delta. generalize (if (y <=? x) && (0 <? y) then Z.quot x y else 1). intros d. destruct (Z.ltb_spec d 1); lia. Qed.

Lemma on_access_inv page id a : inv a → inv (on_access page id a).
Proof.
  intros Hi. pose proof (inv_p _ Hi) as Hp. unfold on_access.
  destruct (remove_t1 _ a) as [[e a']|] eqn:H1.
  { by eapply step_ok_push_t2, step_ok_remove_t1. }
  destruct (remove_t2 _ a) as [[e a']|] eqn:H2.
  { by eapply step_ok_push_t2, step_ok_remove_t2. }
  pose proof (delta_pos (b1Size a) (b2Size a)). pose proof (delta_pos (b2Size a) (b1Size a)).
  destruct (remove_b1 _ a) as [[e a']|] eqn:H3.
  { apply (ghost_hit_inv e a a'); [by eapply step_ok_remove_b1|lia|done]. }
  destruct (remove_b2 _ a) as [[e a']|] eqn:H4.
  { apply (ghost_hit_inv e a a'); [by eapply step_ok_remove_b2|lia|done]. }
  by apply new_entry_inv.
Qed.

Lemma on_fault_inv page id a : inv a → inv (on_fault page id a).
Proof.
  intros Hi. unfold on_fault.
  destruct (remove_b1 _ a) as [[e a']|] eqn:H1.
  { by eapply step_ok_push_t2, step_ok_remove_b1. }
  destruct (remove_b2 _ a) as [[e a']|] eqn:H2.
  { by eapply step_ok_push_t2, step_ok_remove_b2. }
  by apply new_entry_inv.
Qed.

Lemma step_ok_record_victim f e a : step_ok a (record_victim f e a).
Proof.
  unfold record_victim, moveToB1, moveToB2. destruct e as [e|].
  - destruct (inT2 e a); eapply step_ok_trans;
      [apply step_ok_drop|apply step_ok_push_b2|apply step_ok_drop|apply step_ok_push_b1];
      intros; [by eapply step_ok_remove_t2|by eapply step_ok_remove_t1].
  - eapply step_ok_trans; [|apply step_ok_push_b1].
    eapply step_ok_trans; [|apply step_ok_getIndex].
    eapply step_ok_trans; apply step_ok_drop; intros;
      [by eapply step_ok_remove_t1|by eapply step_ok_remove_t2].
Qed.

Lemma reset_inv a : inv a → inv (Reset a).
Proof.
  intros Hi. pose proof (inv_p _ Hi). unfold Reset. constructor; simpl; unfold len; simpl; lia.
Qed.

(** ** [findVictim] *)

Lemma frame_for_spec h ps e :
  match frame_for h ps e with
  | Some f => f ∈ ps ∧ evictable_at h f ∧ Frame.GetPageID (frame_of h f) = pageID e
  | None => ∀ f, f ∈ ps → evictable_at h f → Frame.GetPageID (frame_of h f) ≠ pageID e
  end.
Proof.
  unfold frame_for. destruct (list_find _ ps) as [[i f]|] eqn:Hf; simpl.
  - apply list_find_Some in Hf as (Hi & [Hpg Hev] & _).
    split_and!; [by eapply list_elem_of_lookup_2|by apply evictable_at_frame_of|done].
  - apply list_find_None in Hf. rewrite Forall_forall in Hf. intros f Hin Hev Hpg.
    apply (Hf f Hin). by rewrite <-evictable_at_frame_of.
Qed.

(** [find_entry]: the first entry with an evictable frame. *)
Lemma find_entry_spec h ps es :
  match find_entry h ps es with
  | Some (f, e) => f ∈ ps ∧ evictable_at h f ∧ Frame.GetPageID (frame_of h f) = pageID e ∧
      ∃ l r, es = l ++ e :: r ∧
        ∀ x g, x ∈ l → g ∈ ps → evictable_at h g → Frame.GetPageID (frame_of h g) ≠ pageID x
  | None => ∀ x g, x ∈ es → g ∈ ps → evictable_at h g →
      Frame.GetPageID (frame_of h g) ≠ pageID x
  end.
Proof.
  induction es as [|e es IH]; simpl; [by intros ?? ?%elem_of_nil|].
  pose proof (frame_for_spec h ps e) as Hf. destruct (frame_for h ps e) as [f|].
  - destruct Hf as (? & ? & ?). split_and!; [done..|]. exists [], es.
    split; [done|]. by intros ?? ?%elem_of_nil.
  - destruct (find_entry h ps es) as [[f x]|].
    + destruct IH as (? & ? & ? & l & r & -> & Hl). split_and!; [done..|].
      exists (e :: l), r. split; [done|]. intros y g [->|Hy]%elem_of_cons; eauto.
    + intros y g [->|Hy]%elem_of_cons; eauto.
Qed.

Lemma findVictim_ok a h ps :
  match findVictim a h ps with
  | Some (f, _) => f ∈ ps ∧ evictable_at h f
  | None => ∀ f, f ∈ ps → ¬ evictable_at h f
  end.
Proof.
  unfold findVictim.
  pose proof (find_entry_spec h ps (reverse (t1 a))) as H1.
  destruct (find_entry _ _ _) as [[f e]|]; [naive_solver|]. clear H1.
  pose proof (find_entry_spec h ps (reverse (t2 a))) as H2.
  destruct (find_entry _ _ _) as [[f e]|]; [naive_solver|]. clear H2.
  destruct (list_find _ ps) as [[i f]|] eqn:Hf.
  - apply list_find_Some in Hf as (Hi & Hev & _).
    split; [by eapply list_elem_of_lookup_2|by apply evictable_at_frame_of].
  - apply list_find_None in Hf. rewrite Forall_forall in Hf. intros f Hin.
    rewrite evictable_at_frame_of. by apply Hf.
Qed.

Lemma ARC_access_lawful `{GoEnv} a f w h :
  inv a → same_bindings h (ARC.OnPageAccess a f w h).2 ∧ inv (ARC.OnPageAccess a f w h).1.
Proof.
  intros Hi. unfold ARC.OnPageAccess. split; [|by apply on_access_inv].
  apply (related_bind same_bindings); [apply related_load|]. intros fr h'. apply touch_lawful.
Qed.

Lemma ARC_fault_lawful `{GoEnv} a f h :
  inv a → same_bindings h (ARC.OnPageFault a f h).2 ∧ inv (ARC.OnPageFault a f h).1.
Proof.
  intros Hi. unfold ARC.OnPageFault. split; [|by apply on_fault_inv].
  apply (related_bind same_bindings); [apply related_load|]. intros fr h'. apply touch_lawful.
Qed.

#[global] Program Instance ARC_lawful `{GoEnv} : LawfulPolicy ARC.t := {| policy_inv := inv |}.
Next Obligation.
  intros ? a ps h Hi _. simpl. unfold ARC.SelectVictim, gets.
  pose proof (findVictim_ok a h ps) as Hv. destruct (findVictim a h ps) as [[f e]|]; simpl.
  - split_and!; [apply Hv..|done|]. by apply step_ok_record_victim.
  - split_and!; [by right|done|done|done].
Qed.
Next Obligation. intros. by apply ARC_access_lawful. Qed.
Next Obligation. intros. by apply ARC_fault_lawful. Qed.
Next Obligation. done. Qed.
Next Obligation. intros. by apply reset_inv. Qed.

(** ** Properties *)

(** C34: whatever is called through the interface on a new ARC, its counters are
    the lengths of its lists, [0 <= p <= c] and the ghost lists hold at most [c]
    entries; and [adapt], whose loops have no bound of their own, terminates in
    every such state and leaves T1 and T2 within the cache. *)
Theorem ARC_calls_inv `{GoEnv} cs numFrames h :
  0 ≤ numFrames → (∀ ps, CallSelect ps ∈ cs → candidates h ps) →
  let a := (calls cs (NewARC numFrames) h).1 in
  inv a ∧ adapt_fuel a = Some (adapt a) ∧
  len (t1 (adapt a)) + len (t2 (adapt a)) ≤ c (adapt a).
Proof.
  intros Hn Hps a. assert (inv a) as Hi.
  { refine (proj2 (calls_lawful (NewARC numFrames) cs h _ Hps)).
    constructor; simpl; unfold len; simpl; lia. }
  split; [done|]. destruct (adapt_spec a Hi) as (? & _ & ?). done.
Qed.

(** ARC evicts from T1 before T2, and in each list the entry nearest the
    back that some evictable frame holds; a frame in neither list is taken only
    when no evictable frame's page is in T1 or T2. *)
Theorem ARC_victim_order a ps h f :
  (ARC.SelectVictim a ps h).1.1 = Ok f →
  let held e := ∃ g, g ∈ ps ∧ evictable_at h g ∧ Frame.GetPageID (frame_of h g) = pageID e in
  let oldest_held es := ∃ l e r, reverse es = l ++ e :: r ∧
    pageID e = Frame.GetPageID (frame_of h f) ∧ ∀ x, x ∈ l → ¬ held x in
  f ∈ ps ∧ evictable_at h f ∧
  (oldest_held (t1 a) ∨
   (∀ e, e ∈ t1 a → ¬ held e) ∧ oldest_held (t2 a) ∨
   (∀ e, e ∈ t1 a ++ t2 a → ¬ held e)).
Proof.
  unfold ARC.SelectVictim, gets; simpl.
  pose proof (findVictim_ok a h ps) as Hok. revert Hok. unfold findVictim.
  pose proof (find_entry_spec h ps (reverse (t1 a))) as H1.
  pose proof (find_entry_spec h ps (reverse (t2 a))) as H2.
  destruct (find_entry h ps (reverse (t1 a))) as [[f1 e1]|].
  { intros [? ?] [= ->]. destruct H1 as (_ & _ & Hpg & l & r & Heq & Hl).
    split_and!; [done..|]. left. exists l, e1, r. split_and!; [done|done|].
    intros x Hx (g & ? & ? & ?). by eapply Hl. }
  assert (∀ e, e ∈ t1 a → ¬ ∃ g, g ∈ ps ∧ evictable_at h g ∧
    Frame.GetPageID (frame_of h g) = pageID e) as Ht1.
  { intros e He (g & ? & ? & ?). apply (H1 e g); [by apply elem_of_reverse|done..]. }
  destruct (find_entry h ps (reverse (t2 a))) as [[f2 e2]|].
  { intros [? ?] [= ->]. destruct H2 as (_ & _ & Hpg & l & r & Heq & Hl).
    split_and!; [done..|]. right; left. split; [done|]. exists l, e2, r. split_and!; [done|done|].
    intros x Hx (g & ? & ? & ?). by eapply Hl. }
  destruct (list_find _ ps) as [[i f0]|]; [|done]. intros [? ?] [= ->].
  split_and!; [done..|]. right; right. intros e [He|He]%elem_of_app; [by apply Ht1|].
  intros (g & ? & ? & ?). apply (H2 e g); [by apply elem_of_reverse|done..].
Qed.

(** *** Witnesses *)

Lemma ARC_calls_inv_witness :
  adapt_fuel (@calls _ (@ARC.policy first_env) [CallFault 0%nat; CallAccess 1%nat true]
    (NewARC 2) two_frames).1 =
  Some (adapt (@calls _ (@ARC.policy first_env) [CallFault 0%nat; CallAccess 1%nat true]
    (NewARC 2) two_frames).1).
Proof.
  apply (@ARC_calls_inv first_env [CallFault 0%nat; CallAccess 1%nat true] 2 two_frames).
  - lia.
  - set_solver.
Defined.

Lemma ARC_victim_order_witness :
  0%nat ∈ [0; 1]%nat ∧ (ARC.SelectVictim (NewARC 2) [0; 1]%nat two_frames).1.1 = Ok 0%nat.
Proof.
  split; [|vm_compute; reflexivity].
  apply (ARC_victim_order (NewARC 2) [0; 1]%nat two_frames 0%nat).
  vm_compute. reflexivity.
Defined.
