(* ===== verification/Car.v ===== *)
(** * CAR: [internal/algorithms/car.go]

    Clock with adaptive replacement: T1 and T2 are slices scanned by a hand,
    with a reference bit per entry; B1 and B2 remember evicted page IDs.  Each
    hand loop is bounded in the code by twice the slice's length at its start,
    which is the fuel here; [adapt] has unbounded loops, shown to terminate
    under the invariant. *)

From S2P Require Import Prelude Models Heap Policy Policies PoliciesSpec.
Local Open Scope Z_scope.

Module CAR.
Record carEntry := entry { pageID : N; frameID : Z; refBit : bool; key : Z }.
#[global] Instance eta_entry : Eta carEntry := λ r,
  entry (pageID r) (frameID r) (refBit r) (key r).

Record t := mk {
  name : string;
  t1 : list carEntry; t2 : list carEntry; b1 : list N; b2 : list N;
  t1Hand : Z; t2Hand : Z; t1Count : Z; t2Count : Z;
  p : Z; c : Z; index : Z;
}.
#[global] Instance eta_t : Eta t := λ r,
  mk (name r) (t1 r) (t2 r) (b1 r) (b2 r) (t1Hand r) (t2Hand r) (t1Count r) (t2Count r)
     (p r) (c r) (index r).

Definition NewCAR (numFrames : Z) : t :=
  {| name := "CAR"; t1 := []; t2 := []; b1 := []; b2 := [];
     t1Hand := 0; t2Hand := 0; t1Count := 0; t2Count := 0;
     p := Z.quot numFrames 2; c := numFrames; index := 0 |}.

Definition len {A} (l : list A) : Z := Z.of_nat (length l).

Definition nextIndex (a : t) : Z * t :=
  let i := i64 (index a + 1) in (i, a <| index := i |>).

Definition pushT1 (e : carEntry) (a : t) : t := a <| t1 ::= λ l, l ++ [e] |> <| t1Count ::= Z.succ |>.
Definition pushT2 (e : carEntry) (a : t) : t := a <| t2 ::= λ l, l ++ [e] |> <| t2Count ::= Z.succ |>.

(** The slice without its first element of the given key, if there is one. *)
Fixpoint without_key (k : Z) (l : list carEntry) : option (list carEntry) :=
  match l with
  | [] => None
  | e :: l => if key e =? k then Some l
              else match without_key k l with Some l => Some (e :: l) | None => None end
  end.
Definition removeT1 (e : carEntry) (a : t) : t :=
  match without_key (key e) (t1 a) with
  | Some l => a <| t1 := l |> <| t1Count ::= Z.pred |>
  | None => a
  end.
Definition removeT2 (e : carEntry) (a : t) : t :=
  match without_key (key e) (t2 a) with
  | Some l => a <| t2 := l |> <| t2Count ::= Z.pred |>
  | None => a
  end.

Definition moveT1ToT2 (e : carEntry) (a : t) : t := pushT2 e (removeT1 e a).

(** [b = append(b, page); if len(b) > c*2 { b = b[1:] }] *)
Definition append_ghost (a : t) (page : N) (b : list N) : list N :=
  let b := b ++ [page] in if c a * 2 <? len b then tail b else b.
Definition moveT1ToB1 (a : t) : t :=
  match t1 a with
  | [] => a
  | e :: l => a <| b1 ::= append_ghost a (pageID e) |> <| t1 := l |> <| t1Count ::= Z.pred |>
  end.
Definition moveT2ToB2 (a : t) : t :=
  match t2 a with
  | [] => a
  | e :: l => a <| b2 ::= append_ghost a (pageID e) |> <| t2 := l |> <| t2Count ::= Z.pred |>
  end.

Fixpoint adapt_t1 (fuel : nat) (a : t) : option t :=
  if t1Count a <=? p a then Some a
  else match fuel, t1 a with
       | _, [] => Some a
       | O, _ => None
       | S fuel, _ => adapt_t1 fuel (moveT1ToB1 a)
       end.
Fixpoint adapt_rest (fuel : nat) (a : t) : option t :=
  if t1Count a + t2Count a <=? c a then Some a
  else match fuel with
       | O => None
       | S fuel =>
           if 0 <? t2Count a then adapt_rest fuel (moveT2ToB2 a)
           else if 0 <? t1Count a then adapt_rest fuel (moveT1ToB1 a)
           else Some a
       end.
Definition adapt_fuel (a : t) : option t :=
  match adapt_t1 (length (t1 a)) a with
  | Some a => adapt_rest (length (t1 a) + length (t2 a)) a
  | None => None
  end.
Definition adapt (a : t) : t := default a (adapt_fuel a).

(** [remove the first occurrence] in a ghost slice. *)
Fixpoint remove_page (page : N) (b : list N) : list N :=
  match b with
  | [] => []
  | x :: b => if (x =? page)%N then b else x :: remove_page page b
  end.
Definition isIn (page : N) (b : list N) : bool := existsb (N.eqb page) b.

Definition findFrameByPageID (h : heap) (ps : list ptr) (page : N) : option ptr :=
  snd <$> list_find (λ f, Frame.GetPageID (frame_of h f) = page) ps.

(** The frame an entry's page is found in, when it can be evicted. *)
Definition candidate (h : heap) (ps : list ptr) (page : N) : option ptr :=
  match findFrameByPageID h ps page with
  | Some f => if Frame.IsFree (frame_of h f) || Frame.IsPinned (frame_of h f) then None else Some f
  | None => None
  end.

(** [hand % len(l)], with the code's guard against a negative hand. *)
Definition at_hand (hand : Z) (l : list carEntry) : Z :=
  let i := Z.rem hand (len l) in if i <? 0 then 0 else i.

(** [l[i].refBit = b], on the entry the slices share with the caller. *)
Definition set_ref (b : bool) (i : nat) (l : list carEntry) : list carEntry :=
  alter (λ e, e <| refBit := b |>) i l.

Fixpoint sweep_t1 (fuel : nat) (h : heap) (ps : list ptr) (a : t) : option ptr * t :=
  match fuel with
  | O => (None, a)
  | S fuel =>
      let i := at_hand (t1Hand a) (t1 a) in
      match t1 a !! Z.to_nat i with
      | None => (None, a)                              (* len(t1) = 0 *)
      | Some e =>
          let a := a <| t1Hand := i + 1 |> in
          match candidate h ps (pageID e) with
          | None => sweep_t1 fuel h ps a
          | Some f =>
              if refBit e then
                let a := a <| t1 ::= set_ref false (Z.to_nat i) |> <| t1Hand ::= Z.pred |> in
                sweep_t1 fuel h ps (moveT1ToT2 (e <| refBit := false |>) a)
              else (Some f, removeT1 e a)
          end
      end
  end.

Fixpoint sweep_t2 (fuel : nat) (h : heap) (ps : list ptr) (a : t) : option ptr * t :=
  match fuel with
  | O => (None, a)
  | S fuel =>
      let i := at_hand (t2Hand a) (t2 a) in
      match t2 a !! Z.to_nat i with
      | None => (None, a)
      | Some e =>
          let a := a <| t2Hand := i + 1 |> in
          match candidate h ps (pageID e) with
          | None => sweep_t2 fuel h ps a
          | Some f =>
              if refBit e
              then sweep_t2 fuel h ps (a <| t2 ::= set_ref false (Z.to_nat i) |>)
              else (Some f, removeT2 e a)
          end
      end
  end.

(** [for _, f := range frames { if evictable { return f } }] *)
Definition any_victim (h : heap) (ps : list ptr) : res ptr :=
  match list_find (λ f, Frame.evictable (frame_of h f) = true) ps with
  | Some (_, f) => Ok f
  | None => Err ErrNoEvictable
  end.

Definition select (h : heap) (ps : list ptr) (a : t) : res ptr * t :=
  let '(v, a) := if (0 <? len (t1 a)) && (0 <? t1Count a)
                 then sweep_t1 (2 * length (t1 a)) h ps a else (None, a) in
  match v with
  | Some f => (Ok f, a)
  | None =>
      let '(v, a) := if (0 <? len (t2 a)) && (0 <? t2Count a)
                     then sweep_t2 (2 * length (t2 a)) h ps a else (None, a) in
      match v with
      | Some f => (Ok f, a)
      | None => (any_victim h ps, a)
      end
  end.

Definition SelectVictim (a : t) (ps : list ptr) : M heap (res ptr * t) :=
  gets (λ h, select h ps a).

(** The learning rate. *)
Definition delta (large small : Z) : Z :=
  if small <=? large then Z.max 1 (Z.quot large (Z.max 1 small)) else 1.

(** [if e := findInT1(page); e != nil { e.refBit = true; return }], then T2 *)
Definition mark_page (page : N) (l : list carEntry) : option (list carEntry) :=
  match list_find (λ e, pageID e = page) l with
  | Some (i, _) => Some (set_ref true i l)
  | None => None
  end.

Definition on_access (page : N) (id : Z) (a : t) : t :=
  match mark_page page (t1 a) with
  | Some l => a <| t1 := l |>
  | None =>
  match mark_page page (t2 a) with
  | Some l => a <| t2 := l |>
  | None =>
      let '(k, a) := nextIndex a in
      let e := entry page id true k in
      if isIn page (b1 a) then
        let a := a <| p := Z.min (p a + delta (len (b1 a)) (len (b2 a))) (c a) |> in
        pushT2 e (adapt (a <| b1 ::= remove_page page |>))
      else if isIn page (b2 a) then
        let a := a <| p := Z.max (p a - delta (len (b2 a)) (len (b1 a))) 0 |> in
        pushT2 e (adapt (a <| b2 ::= remove_page page |>))
      else adapt (pushT1 e a)
  end end.

Definition on_fault (page : N) (id : Z) (a : t) : t :=
  let '(k, a) := nextIndex a in
  let e := entry page id true k in
  adapt (if isIn page (b1 a) then pushT2 e (a <| b1 ::= remove_page page |>)
         else if isIn page (b2 a) then pushT2 e (a <| b2 ::= remove_page page |>)
         else pushT1 e a).

Definition OnPageAccess `{GoEnv} (a : t) (f : ptr) (write : bool) : M heap t :=
  frame_Access f write ;;
  fr ← load f;
  mret (on_access (Frame.GetPageID fr) (Frame.ID fr) a).
Definition OnPageFault `{GoEnv} (a : t) (f : ptr) : M heap t :=
  frame_Access f false ;;
  fr ← load f;
  mret (on_fault (Frame.GetPageID fr) (Frame.ID fr) a).
Definition OnPageEviction (a : t) (f : ptr) : M heap t := mret a.
Definition GetName (a : t) : string := name a.
Definition Reset (a : t) : t :=
  a <| t1 := [] |> <| t2 := [] |> <| b1 := [] |> <| b2 := [] |>
    <| t1Count := 0 |> <| t2Count := 0 |> <| t1Hand := 0 |> <| t2Hand := 0 |>
    <| index := 0 |> <| p := Z.quot (c a) 2 |>.

#[global] Instance policy `{GoEnv} : PageReplacementAlgorithm t :=
  Build_PageReplacementAlgorithm t SelectVictim OnPageAccess OnPageFault
    OnPageEviction GetName Reset.

(** ** The invariant: counters are lengths, the resident lists overflow the
    cache by at most one entry, the ghost lists by at most the cache. *)
Record inv (a : t) : Prop := {
  inv_t1 : t1Count a = len (t1 a);
  inv_t2 : t2Count a = len (t2 a);
  inv_p : 0 ≤ p a ≤ c a;
  inv_hands : 0 ≤ t1Hand a ∧ 0 ≤ t2Hand a;
  inv_b1 : len (b1 a) ≤ 2 * c a;
  inv_b2 : len (b2 a) ≤ 2 * c a;
}.
Definition resident (a : t) : Z := len (t1 a) + len (t2 a).
End CAR.
Import CAR.

(** ** List facts *)

#[local] Arguments append_ghost : simpl never.

Lemma car_len_nonneg {A} (l : list A) : 0 ≤ len l.
Proof. unfold len. lia. Qed.
Lemma len_app1 {A} (l : list A) x : len (l ++ [x]) = len l + 1.
Proof. unfold len. rewrite length_app. simpl. lia. Qed.
Lemma car_len_cons {A} (x : A) l : len (x :: l) = len l + 1.
Proof. unfold len. simpl. lia. Qed.
Lemma len_set_ref b i l : len (set_ref b i l) = len l.
Proof. unfold len, set_ref. by rewrite length_alter. Qed.

Lemma without_key_len k l l' : without_key k l = Some l' → len l = len l' + 1.
Proof.
  revert l'. induction l as [|e l IH]; intros l' H; simpl in H; [done|].
  rewrite car_len_cons. destruct (key e =? k); [by simplify_eq|].
  destruct (without_key k l) as [l2|]; simplify_eq. rewrite car_len_cons, (IH l2); [lia|done].
Qed.

Lemma remove_page_len page b : len (remove_page page b) ≤ len b.
Proof.
  induction b as [|x b IH]; simpl; [done|]. destruct (x =? page)%N; rewrite ?car_len_cons; lia.
Qed.

Lemma append_ghost_len a page b :
  0 ≤ c a → len b ≤ 2 * c a → len (append_ghost a page b) ≤ 2 * c a.
Proof.
  intros Hc Hb. unfold append_ghost. destruct (Z.ltb_spec (c a * 2) (len (b ++ [page])));
    [|lia]. rewrite len_app1 in *. destruct b as [|x b]; simpl in *;
    rewrite ?len_app1, ?car_len_cons in *; unfold len in *; simpl in *; lia.
Qed.

Lemma mark_page_len page l l' : mark_page page l = Some l' → len l' = len l.
Proof.
  unfold mark_page. destruct (list_find _ l) as [[i e]|]; [|done]. intros [= <-].
  apply len_set_ref.
Qed.

Ltac car_lia :=
  repeat match goal with H : inv _ |- _ => destruct H end;
  unfold resident in *; simpl in *; rewrite ?len_app1, ?car_len_cons, ?len_set_ref in *;
  repeat match goal with
  | |- context [len ?l] =>
      lazymatch goal with
      | _ : 0 ≤ len l |- _ => fail
      | _ => pose proof (car_len_nonneg l)
      end
  end; lia.

(** ** Each list operation *)

(** [step_ok d a a']: [a'] keeps the invariant, [p] and [c], and holds at most
    [d] resident entries more. *)
Definition step_ok (d : Z) (a a' : CAR.t) : Prop :=
  inv a → inv a' ∧ c a' = c a ∧ p a' = p a ∧ resident a' ≤ resident a + d.

Lemma car_step_ok_trans d1 d2 a1 a2 a3 :
  step_ok d1 a1 a2 → step_ok d2 a2 a3 → step_ok (d1 + d2) a1 a3.
Proof.
  intros H1 H2 Hi. destruct (H1 Hi) as (Hi2 & ? & ? & ?). destruct (H2 Hi2) as (? & ? & ? & ?).
  split_and!; [done|congruence|congruence|lia].
Qed.

Lemma step_ok_refl a : step_ok 0 a a.
Proof. intros Hi. split_and!; [done..|lia]. Qed.

Lemma step_ok_pushT1 e a : step_ok 1 a (pushT1 e a).
Proof. intros Hi. split_and!; [constructor|..]; car_lia. Qed.
Lemma step_ok_pushT2 e a : step_ok 1 a (pushT2 e a).
Proof. intros Hi. split_and!; [constructor|..]; car_lia. Qed.
Lemma step_ok_nextIndex a : step_ok 0 a (nextIndex a).2.
Proof. intros Hi. split_and!; [constructor|..]; car_lia. Qed.

Lemma step_ok_removeT1 e a : step_ok 0 a (removeT1 e a).
Proof.
  unfold removeT1. destruct (without_key _ _) eqn:H; [|apply step_ok_refl].
  apply without_key_len in H. intros Hi. split_and!; [constructor|..]; car_lia.
Qed.
Lemma step_ok_removeT2 e a : step_ok 0 a (removeT2 e a).
Proof.
  unfold removeT2. destruct (without_key _ _) eqn:H; [|apply step_ok_refl].
  apply without_key_len in H. intros Hi. split_and!; [constructor|..]; car_lia.
Qed.

(** The entry the hand is on is in T1, so promoting it keeps the total. *)
Lemma step_ok_moveT1ToT2 e a x i :
  t1 a !! i = Some x → key x = key e → step_ok 0 a (moveT1ToT2 e a).
Proof.
  intros Hx Hk. unfold moveT1ToT2, removeT1. destruct (without_key (key e) (t1 a)) as [l|] eqn:H.
  - apply without_key_len in H. intros Hi. split_and!; [constructor|..]; car_lia.
  - exfalso. revert i Hx H. induction (t1 a) as [|y l IH]; intros i Hx H; [done|].
    simpl in H. destruct i as [|i]; simplify_eq/=.
    + by rewrite Hk, Z.eqb_refl in H.
    + destruct (key y =? key e); [done|].
      destruct (without_key (key e) l) eqn:Hw; [done|]. by eapply IH.
Qed.

Lemma step_ok_moveT1ToB1 a :
  step_ok 0 a (moveT1ToB1 a) ∧
  (t1 a ≠ [] → len (t1 (moveT1ToB1 a)) = len (t1 a) - 1) ∧ t2 (moveT1ToB1 a) = t2 a.
Proof.
  unfold moveT1ToB1. destruct (t1 a) as [|e l] eqn:Ht1.
  { split_and!; [apply step_ok_refl|done|done]. }
  split_and!; [|intros _; car_lia|done]. intros Hi.
  pose proof (append_ghost_len a (pageID e) (b1 a)) as Hg.
  split_and!; [constructor|..]; destruct Hi; unfold resident; simpl; rewrite ?Ht1 in *; car_lia.
Qed.
Lemma step_ok_moveT2ToB2 a :
  step_ok 0 a (moveT2ToB2 a) ∧
  (t2 a ≠ [] → len (t2 (moveT2ToB2 a)) = len (t2 a) - 1) ∧ t1 (moveT2ToB2 a) = t1 a.
Proof.
  unfold moveT2ToB2. destruct (t2 a) as [|e l] eqn:Ht2.
  { split_and!; [apply step_ok_refl|done|done]. }
  split_and!; [|intros _; car_lia|done]. intros Hi.
  pose proof (append_ghost_len a (pageID e) (b2 a)) as Hg.
  split_and!; [constructor|..]; destruct Hi; unfold resident; simpl; rewrite ?Ht2 in *; car_lia.
Qed.

Lemma nonempty_len {A} (l : list A) : 0 < len l → l ≠ [].
Proof. by intros ? ->. Qed.

(** ** [adapt] terminates *)

Lemma car_adapt_t1_terminates fuel a :
  inv a → len (t1 a) ≤ Z.of_nat fuel →
  ∃ a', adapt_t1 fuel a = Some a' ∧ step_ok 0 a a'.
Proof.
  revert a. induction fuel as [|fuel IH]; intros a Hi Hf; simpl;
    destruct (Z.leb_spec (t1Count a) (p a)) as [Hle|Hgt].
  1,3: exists a; split; [done|apply step_ok_refl].
  { destruct Hi. lia. }
  destruct (t1 a) as [|e l] eqn:Ht1; [exists a; split; [done|apply step_ok_refl]|].
  destruct (step_ok_moveT1ToB1 a) as (Hs & Hlen & _). rewrite Ht1 in Hlen.
  destruct (IH (moveT1ToB1 a)) as (a' & Ha' & Hs').
  { by apply Hs. } { rewrite Hlen by done. lia. }
  exists a'. split; [done|]. exact (car_step_ok_trans 0 0 _ _ _ Hs Hs').
Qed.

Lemma adapt_rest_terminates fuel a :
  inv a → resident a ≤ Z.of_nat fuel →
  ∃ a', adapt_rest fuel a = Some a' ∧ step_ok 0 a a' ∧ resident a' ≤ c a'.
Proof.
  revert a. induction fuel as [|fuel IH]; intros a Hi Hf; simpl;
    destruct (Z.leb_spec (t1Count a + t2Count a) (c a)) as [Hle|Hgt].
  1,3: exists a; split_and!; [done|apply step_ok_refl|destruct Hi; unfold resident; lia].
  { destruct Hi. unfold resident in Hf. lia. }
  destruct (Z.ltb_spec 0 (t2Count a)) as [H2|H2].
  - destruct (step_ok_moveT2ToB2 a) as (Hs & Hlen & Ht1).
    destruct (IH (moveT2ToB2 a)) as (a' & Ha' & Hs' & Hr).
    { by apply Hs. }
    { unfold resident in *. rewrite Ht1, Hlen; [lia|]. apply nonempty_len. destruct Hi. lia. }
    exists a'. split_and!; [done| |done]. exact (car_step_ok_trans 0 0 _ _ _ Hs Hs').
  - destruct (Z.ltb_spec 0 (t1Count a)) as [H1|H1].
    2:{ destruct Hi. lia. }
    destruct (step_ok_moveT1ToB1 a) as (Hs & Hlen & Ht2).
    destruct (IH (moveT1ToB1 a)) as (a' & Ha' & Hs' & Hr).
    { by apply Hs. }
    { unfold resident in *. rewrite Ht2, Hlen; [lia|]. apply nonempty_len. destruct Hi. lia. }
    exists a'. split_and!; [done| |done]. exact (car_step_ok_trans 0 0 _ _ _ Hs Hs').
Qed.

Lemma car_adapt_spec a :
  inv a → adapt_fuel a = Some (adapt a) ∧ step_ok 0 a (adapt a) ∧
          resident (adapt a) ≤ c (adapt a).
Proof.
  intros Hi. unfold adapt, adapt_fuel.
  destruct (car_adapt_t1_terminates (length (t1 a)) a Hi) as (a1 & -> & Hs1); [done|].
  destruct (Hs1 Hi) as (Hi1 & _).
  destruct (adapt_rest_terminates (length (t1 a1) + length (t2 a1)) a1 Hi1)
    as (a2 & -> & Hs2 & Hsum); [unfold resident, len; lia|].
  simpl. split_and!; [done| |done]. exact (car_step_ok_trans 0 0 _ _ _ Hs1 Hs2).
Qed.

(** ** The sweeps *)

Lemma at_hand_range hand l :
  0 ≤ hand → 0 < len l → 0 ≤ at_hand hand l < len l.
Proof.
  intros Hh Hl. unfold at_hand. pose proof (Z.rem_bound_pos hand (len l) Hh Hl).
  destruct (Z.ltb_spec (Z.rem hand (len l)) 0); lia.
Qed.

Lemma at_hand_nonneg hand l : 0 ≤ at_hand hand l.
Proof. unfold at_hand. destruct (Z.ltb_spec (Z.rem hand (len l)) 0); lia. Qed.

Lemma candidate_spec h ps page f :
  candidate h ps page = Some f → f ∈ ps ∧ evictable_at h f ∧ Frame.GetPageID (frame_of h f) = page.
Proof.
  unfold candidate, findFrameByPageID.
  destruct (list_find _ ps) as [[i g]|] eqn:Hf; simpl; [|done].
  apply list_find_Some in Hf as (Hi & Hpg & _). destruct (_ || _) eqn:Hskip; [done|].
  intros [= <-]. split_and!; [by eapply list_elem_of_lookup_2|by apply take_evictable|done].
Qed.

Lemma step_ok_hand1 a i : 0 ≤ i → step_ok 0 a (a <| t1Hand := i |>).
Proof. intros ? Hi. split_and!; [constructor|..]; car_lia. Qed.
Lemma step_ok_hand2 a i : 0 ≤ i → step_ok 0 a (a <| t2Hand := i |>).
Proof. intros ? Hi. split_and!; [constructor|..]; car_lia. Qed.

(** A promotion: clear the bit of the entry at [i], step the hand back, move. *)
Lemma step_ok_promote a i e :
  0 ≤ i → t1 a !! Z.to_nat i = Some e →
  step_ok 0 a (moveT1ToT2 (e <| refBit := false |>)
    (a <| t1Hand := i + 1 |> <| t1 ::= set_ref false (Z.to_nat i) |> <| t1Hand ::= Z.pred |>)).
Proof.
  intros Hi0 He. set (b := _ <| t1Hand ::= _ |>).
  assert (step_ok 0 a b) as Hb.
  { intros Hi. unfold b. split_and!; [constructor|..]; car_lia. }
  apply (car_step_ok_trans 0 0 _ _ _ Hb).
  apply (step_ok_moveT1ToT2 _ _ (e <| refBit := false |>) (Z.to_nat i)); [|done].
  unfold b; simpl. unfold set_ref. by rewrite list_lookup_alter_eq, He.
Qed.

Lemma sweep_t1_ok fuel h ps a :
  let '(v, a') := sweep_t1 fuel h ps a in
  step_ok 0 a a' ∧ ∀ f, v = Some f → f ∈ ps ∧ evictable_at h f.
Proof.
  revert a. induction fuel as [|fuel IH]; intros a; simpl; [split; [apply step_ok_refl|done]|].
  pose proof (at_hand_nonneg (t1Hand a) (t1 a)) as Hn. set (i := at_hand _ _) in *.
  destruct (t1 a !! Z.to_nat i) as [e|] eqn:He; [|split; [apply step_ok_refl|done]].
  set (a1 := a <| t1Hand := i + 1 |>).
  assert (step_ok 0 a a1) as H1 by (apply step_ok_hand1; lia).
  destruct (candidate h ps (pageID e)) as [f|] eqn:Hc.
  - destruct (refBit e).
    + pose proof (step_ok_promote a i e Hn He) as Hp. fold a1 in Hp.
      specialize (IH (moveT1ToT2 (e <| refBit := false |>)
        (a1 <| t1 ::= set_ref false (Z.to_nat i) |> <| t1Hand ::= Z.pred |>))).
      destruct (sweep_t1 _ _ _ _) as [v a']. destruct IH as [IH1 IH2].
      split; [exact (car_step_ok_trans 0 0 _ _ _ Hp IH1)|done].
    + split; [exact (car_step_ok_trans 0 0 _ _ _ H1 (step_ok_removeT1 e a1))|].
      intros g [= <-]. by apply candidate_spec in Hc as (? & ? & _).
  - specialize (IH a1). destruct (sweep_t1 _ _ _ _) as [v a']. destruct IH as [IH1 IH2].
    split; [exact (car_step_ok_trans 0 0 _ _ _ H1 IH1)|done].
Qed.

Lemma sweep_t2_ok fuel h ps a :
  let '(v, a') := sweep_t2 fuel h ps a in
  step_ok 0 a a' ∧ ∀ f, v = Some f → f ∈ ps ∧ evictable_at h f.
Proof.
  revert a. induction fuel as [|fuel IH]; intros a; simpl; [split; [apply step_ok_refl|done]|].
  pose proof (at_hand_nonneg (t2Hand a) (t2 a)) as Hn. set (i := at_hand _ _) in *.
  destruct (t2 a !! Z.to_nat i) as [e|] eqn:He; [|split; [apply step_ok_refl|done]].
  set (a1 := a <| t2Hand := i + 1 |>).
  assert (step_ok 0 a a1) as H1 by (apply step_ok_hand2; lia).
  destruct (candidate h ps (pageID e)) as [f|] eqn:Hc.
  - destruct (refBit e).
    + assert (step_ok 0 a1 (a1 <| t2 ::= set_ref false (Z.to_nat i) |>)) as Hb.
      { intros Hi. split_and!; [constructor|..]; car_lia. }
      specialize (IH (a1 <| t2 ::= set_ref false (Z.to_nat i) |>)).
      destruct (sweep_t2 _ _ _ _) as [v a']. destruct IH as [IH1 IH2].
      split; [exact (car_step_ok_trans 0 0 _ _ _ H1 (car_step_ok_trans 0 0 _ _ _ Hb IH1))|done].
    + split; [exact (car_step_ok_trans 0 0 _ _ _ H1 (step_ok_removeT2 e a1))|].
      intros g [= <-]. by apply candidate_spec in Hc as (? & ? & _).
  - specialize (IH a1). destruct (sweep_t2 _ _ _ _) as [v a']. destruct IH as [IH1 IH2].
    split; [exact (car_step_ok_trans 0 0 _ _ _ H1 IH1)|done].
Qed.

Lemma any_victim_ok h ps : victim_ok h ps (any_victim h ps).
Proof.
  unfold any_victim. destruct (list_find _ ps) as [[i f]|] eqn:Hf; simpl.
  - apply list_find_Some in Hf as (Hi & Hev & _).
    split; [by eapply list_elem_of_lookup_2|by apply evictable_at_frame_of].
  - split; [by right|]. apply list_find_None in Hf. rewrite Forall_forall in Hf.
    intros f Hin. rewrite evictable_at_frame_of. by apply Hf.
Qed.

Lemma select_ok h ps a :
  victim_ok h ps (select h ps a).1 ∧ step_ok 0 a (select h ps a).2.
Proof.
  unfold select.
  assert (let '(v, a') := if (0 <? len (t1 a)) && (0 <? t1Count a)
            then sweep_t1 (2 * length (t1 a)) h ps a else (None, a) in
          step_ok 0 a a' ∧ ∀ f, v = Some f → f ∈ ps ∧ evictable_at h f) as H1.
  { destruct (_ && _); [apply sweep_t1_ok|split; [apply step_ok_refl|done]]. }
  destruct (if _ : bool then _ else _) as [[f|] a1]; destruct H1 as [Hs1 Hv1].
  { split; [by apply Hv1|done]. }
  assert (let '(v, a') := if (0 <? len (t2 a1)) && (0 <? t2Count a1)
            then sweep_t2 (2 * length (t2 a1)) h ps a1 else (None, a1) in
          step_ok 0 a1 a' ∧ ∀ f, v = Some f → f ∈ ps ∧ evictable_at h f) as H2.
  { destruct (_ && _); [apply sweep_t2_ok|split; [apply step_ok_refl|done]]. }
  destruct (if _ : bool then _ else _) as [[f|] a2]; destruct H2 as [Hs2 Hv2]; simpl;
    (split; [|exact (car_step_ok_trans 0 0 _ _ _ Hs1 Hs2)]).
  - by apply Hv2.
  - apply any_victim_ok.
Qed.

(** ** The operations keep the invariant *)

(** Between calls the resident lists may exceed the cache by one entry: a
    ghost hit in [OnPageAccess] pushes after adapting. *)
Definition car_ok (a : CAR.t) : Prop := inv a ∧ resident a ≤ c a + 1.

Lemma adapted_ok a : inv a → car_ok (adapt a) ∧ resident (adapt a) ≤ c (adapt a).
Proof.
  intros Hi. destruct (car_adapt_spec a Hi) as (_ & Hs & Hr). destruct (Hs Hi) as (Hi' & _).
  split; [split; [done|lia]|done].
Qed.

Lemma pushed_ok e a : inv a → car_ok (pushT2 e (adapt a)).
Proof.
  intros Hi. destruct (adapted_ok a Hi) as ([Hi' _] & Hr).
  destruct (step_ok_pushT2 e (adapt a) Hi') as (Hi2 & Hc & _ & Hr2). split; [done|]. lia.
Qed.

Lemma car_delta_pos x y : 1 ≤ delta x y.
Proof. unfold delta. destruct (y <=? x); lia. Qed.

Lemma marked_ok l a : car_ok a →
  (len l = len (t1 a) → car_ok (a <| t1 := l |>)) ∧ (len l = len (t2 a) → car_ok (a <| t2 := l |>)).
Proof.
  intros [Hi Hr]. split; intros Hl; (split; [constructor|]; car_lia).
Qed.

Lemma on_access_ok page id a : car_ok a → car_ok (on_access page id a).
Proof.
  intros Hok. pose proof Hok as [Hi Hr]. unfold on_access.
  destruct (mark_page page (t1 a)) as [l|] eqn:H1; [by eapply marked_ok, mark_page_len|].
  destruct (mark_page page (t2 a)) as [l|] eqn:H2; [by eapply marked_ok, mark_page_len|].
  pose proof (car_delta_pos (len (b1 a)) (len (b2 a))). pose proof (car_delta_pos (len (b2 a)) (len (b1 a))).
  pose proof (remove_page_len page (b1 a)). pose proof (remove_page_len page (b2 a)).
  simpl. destruct (isIn page (b1 a)); [|destruct (isIn page (b2 a))].
  - apply pushed_ok. constructor; car_lia.
  - apply pushed_ok. constructor; car_lia.
  - apply adapted_ok, step_ok_pushT1. by apply (step_ok_nextIndex a).
Qed.

Lemma on_fault_ok page id a :
  inv a → car_ok (on_fault page id a) ∧ resident (on_fault page id a) ≤ c (on_fault page id a).
Proof.
  intros Hi. unfold on_fault. simpl. apply adapted_ok.
  pose proof (remove_page_len page (b1 a)). pose proof (remove_page_len page (b2 a)).
  destruct (isIn page (b1 a)); [|destruct (isIn page (b2 a))];
    [apply step_ok_pushT2; constructor; car_lia..|].
  apply step_ok_pushT1. by apply (step_ok_nextIndex a).
Qed.

Lemma car_half n : 0 ≤ n → 0 ≤ Z.quot n 2 ≤ n.
Proof.
  intros. rewrite Z.quot_div_nonneg by lia. pose proof (Z.div_mod n 2).
  pose proof (Z.mod_pos_bound n 2). lia.
Qed.

Lemma new_ok n : 0 ≤ n → car_ok (NewCAR n).
Proof.
  intros Hn. pose proof (car_half n Hn). unfold NewCAR.
  split; [constructor|unfold resident]; simpl; unfold len; simpl; lia.
Qed.

Lemma CAR_access_lawful `{GoEnv} a f w h :
  car_ok a →
  same_bindings h (CAR.OnPageAccess a f w h).2 ∧ car_ok (CAR.OnPageAccess a f w h).1.
Proof.
  intros Hi. unfold CAR.OnPageAccess. split; [|by apply on_access_ok].
  apply (related_bind same_bindings); [apply related_Access|]. intros [].
  apply (related_bind same_bindings); [apply related_load|]. intros fr. apply related_ret, _.
Qed.

Lemma CAR_fault_lawful `{GoEnv} a f h :
  car_ok a →
  same_bindings h (CAR.OnPageFault a f h).2 ∧ car_ok (CAR.OnPageFault a f h).1.
Proof.
  intros [Hi _]. unfold CAR.OnPageFault. split; [|by apply on_fault_ok].
  apply (related_bind same_bindings); [apply related_Access|]. intros [].
  apply (related_bind same_bindings); [apply related_load|]. intros fr. apply related_ret, _.
Qed.

#[global] Program Instance CAR_lawful `{GoEnv} : LawfulPolicy CAR.t := {| policy_inv := car_ok |}.
Next Obligation.
  intros ? a ps h [Hi Hr] _. destruct (select_ok h ps a) as [Hv Hs].
  split_and!; [exact Hv|done|]. destruct (Hs Hi) as (Hi' & Hc & _ & Hr').
  split; [exact Hi'|]. simpl. lia.
Qed.
Next Obligation. intros. by apply CAR_access_lawful. Qed.
Next Obligation. intros. by apply CAR_fault_lawful. Qed.
Next Obligation. done. Qed.
Next Obligation.
  intros ? a [Hi _]. pose proof (inv_p _ Hi). pose proof (car_half (c a)).
  split; [constructor|unfold resident]; simpl; unfold len; simpl; lia.
Qed.

(** ** Properties *)

(** C35: whatever is called through the interface on a new CAR, its counters are
    the lengths of its slices, [0 <= p <= c], the hands stay non-negative, the
    resident slices exceed the cache by at most one entry and the ghost slices
    hold at most [2c]; after a page fault the resident slices fit in the cache.
    [adapt] terminates in every such state. *)
Theorem CAR_calls_inv `{GoEnv} cs numFrames h :
  0 ≤ numFrames → (∀ ps, CallSelect ps ∈ cs → candidates h ps) →
  let a := (calls cs (NewCAR numFrames) h).1 in
  inv a ∧ resident a ≤ c a + 1 ∧ adapt_fuel a = Some (adapt a) ∧
  ∀ page id, resident (on_fault page id a) ≤ c (on_fault page id a).
Proof.
  intros Hn Hps a.
  pose proof (calls_lawful (NewCAR numFrames) cs h) as Hc.
  destruct (Hc (new_ok _ Hn) Hps) as [_ [Hi Hr]].
  split_and!; [exact Hi|exact Hr|by apply car_adapt_spec|].
  intros page id. by apply on_fault_ok.
Qed.

(** *** Witness *)

Lemma CAR_calls_inv_witness :
  resident (@calls _ (@CAR.policy first_env) [CallFault 0%nat; CallSelect [0; 1]%nat]
    (NewCAR 2) two_frames).1 ≤ 3.
Proof.
  destruct (@CAR_calls_inv first_env [CallFault 0%nat; CallSelect [0; 1]%nat] 2 two_frames)
    as (_ & Hr & _); [lia| |].
  - intros ps [Heq|Hin]%elem_of_cons; [discriminate Heq|].
    apply list_elem_of_singleton in Hin. injection Hin as ->. split; [|simpl; lia].
    intros q [->|[->|Hq]%elem_of_cons]%elem_of_cons; [eexists; reflexivity..|].
    by apply elem_of_nil in Hq.
  - vm_compute in Hr. vm_compute. exact Hr.
Defined.
