(* ===== verification/Algorithms.v ===== *)
(** * The twelve algorithms behind one interface

    A Go value of interface type [PageReplacementAlgorithm] is one of the
    twelve concrete policies; [algorithm] is that sum and [policy] is the
    dynamic dispatch.  [new_algorithm] is the constructor switch of
    [MemoryManager.SetAlgorithm] ([internal/memory/manager.go]), with the
    parameters it passes.  The dispatch is lawful because each policy is. *)

From S2P Require Import Prelude Models Heap Policy Policies PoliciesSpec Clock Arc Car.
Local Open Scope Z_scope.

Inductive algorithm : Type :=
| AlgLRU (a : LRU.t) | AlgCLOCK (a : CLOCK.t) | AlgLFU (a : LFU.t) | AlgFIFO (a : FIFO.t)
| AlgOptimal (a : Optimal.t) | AlgRandom (a : Random.t) | AlgARC (a : ARC.t) | AlgCAR (a : CAR.t)
| AlgWSClock (a : WSClock.t) | AlgPFF (a : PFF.t) | AlgOptPlus (a : OptPlus.t) | AlgNRU (a : NRU.t).

Definition new_algorithm (numFrames : Z) (algType : AlgorithmType) : algorithm :=
  match algType with
  | AlgorithmLRU => AlgLRU LRU.NewLRU
  | AlgorithmCLOCK => AlgCLOCK CLOCK.NewCLOCK
  | AlgorithmLFU => AlgLFU LFU.NewLFU
  | AlgorithmFIFO => AlgFIFO FIFO.NewFIFO
  | AlgorithmOptimal => AlgOptimal Optimal.NewOptimal
  | AlgorithmRandom => AlgRandom Random.NewRandom
  | AlgorithmARC => AlgARC (ARC.NewARC numFrames)
  | AlgorithmCAR => AlgCAR (CAR.NewCAR numFrames)
  | AlgorithmWSClock => AlgWSClock (WSClock.NewWSClock 1000)
  | AlgorithmPFF =>
      AlgPFF (PFF.NewPFF 5000 (f64_lit 1 10) (f64_of_Z 10) 4 numFrames (Z.quot numFrames 2))
  | AlgorithmOPTPlus => AlgOptPlus OptPlus.NewOptPlus
  | AlgorithmNRU => AlgNRU NRU.NewNRU
  end.

(** A policy seen through the interface: its state, its constructor and its class. *)
Record view := mk_view {
  view_type : Type;
  view_policy : PageReplacementAlgorithm view_type;
  view_lawful : @LawfulPolicy view_type view_policy;
  view_state : view_type;
  view_back : view_type → algorithm;
}.

Section dispatch.
Context `{Env : GoEnv}.

Definition dispatch (a : algorithm) : view :=
  match a with
  | AlgLRU x => mk_view _ _ _ x AlgLRU
  | AlgCLOCK x => mk_view _ _ _ x AlgCLOCK
  | AlgLFU x => mk_view _ _ _ x AlgLFU
  | AlgFIFO x => mk_view _ _ _ x AlgFIFO
  | AlgOptimal x => mk_view _ _ _ x AlgOptimal
  | AlgRandom x => mk_view _ _ _ x AlgRandom
  | AlgARC x => mk_view _ _ _ x AlgARC
  | AlgCAR x => mk_view _ _ _ x AlgCAR
  | AlgWSClock x => mk_view _ _ _ x AlgWSClock
  | AlgPFF x => mk_view _ _ _ x AlgPFF
  | AlgOptPlus x => mk_view _ _ _ x AlgOptPlus
  | AlgNRU x => mk_view _ _ _ x AlgNRU
  end.

#[local] Existing Instance view_policy.
#[local] Existing Instance view_lawful.

#[global] Instance algorithm_policy : PageReplacementAlgorithm algorithm := {
  SelectVictim a ps :=
    let v := dispatch a in
    r ← SelectVictim (view_state v) ps; mret (r.1, view_back v r.2);
  OnPageAccess a p w :=
    let v := dispatch a in x ← OnPageAccess (view_state v) p w; mret (view_back v x);
  OnPageFault a p :=
    let v := dispatch a in x ← OnPageFault (view_state v) p; mret (view_back v x);
  OnPageEviction a p :=
    let v := dispatch a in x ← OnPageEviction (view_state v) p; mret (view_back v x);
  GetName a := let v := dispatch a in GetName (view_state v);
  Reset a := let v := dispatch a in view_back v (Reset (view_state v));
}.

Definition algorithm_inv (a : algorithm) : Prop :=
  policy_inv (view_state (dispatch a)).

(** [view_back] only puts a state back under its constructor. *)
Lemma algorithm_inv_back a (x : view_type (dispatch a)) :
  policy_inv x → algorithm_inv (view_back (dispatch a) x).
Proof. by destruct a. Qed.

#[global] Program Instance algorithm_lawful : LawfulPolicy algorithm :=
  {| policy_inv := algorithm_inv |}.
Next Obligation.
  intros a ps h Ha Hps.
  destruct (select_victim_lawful (view_state (dispatch a)) ps h Ha Hps) as (Hv & Hb & Hi).
  split_and!; [exact Hv|exact Hb|]. by apply algorithm_inv_back.
Qed.
Next Obligation.
  intros a p w h Ha.
  destruct (on_page_access_lawful (view_state (dispatch a)) p w h Ha) as [Hb Hi].
  split; [exact Hb|]. by apply algorithm_inv_back.
Qed.
Next Obligation.
  intros a p h Ha.
  destruct (on_page_fault_lawful (view_state (dispatch a)) p h Ha) as [Hb Hi].
  split; [exact Hb|]. by apply algorithm_inv_back.
Qed.
Next Obligation.
  intros a p h Ha.
  destruct (on_page_eviction_lawful (view_state (dispatch a)) p h Ha) as [Hb Hi].
  split; [exact Hb|]. by apply algorithm_inv_back.
Qed.
Next Obligation.
  intros a Ha. apply algorithm_inv_back. by apply reset_lawful.
Qed.

(** The laws at the sum type, as the manager uses them. *)
Lemma algorithm_select a ps h :
  algorithm_inv a → candidates h ps →
  victim_ok h ps (SelectVictim a ps h).1.1 ∧ same_bindings h (SelectVictim a ps h).2 ∧
  algorithm_inv (SelectVictim a ps h).1.2.
Proof. exact (select_victim_lawful (LawfulPolicy := algorithm_lawful) a ps h). Qed.
Lemma algorithm_access a p w h :
  algorithm_inv a →
  same_bindings h (OnPageAccess a p w h).2 ∧ algorithm_inv (OnPageAccess a p w h).1.
Proof. exact (on_page_access_lawful (LawfulPolicy := algorithm_lawful) a p w h). Qed.
Lemma algorithm_fault a p h :
  algorithm_inv a →
  same_bindings h (OnPageFault a p h).2 ∧ algorithm_inv (OnPageFault a p h).1.
Proof. exact (on_page_fault_lawful (LawfulPolicy := algorithm_lawful) a p h). Qed.
Lemma algorithm_eviction a p h :
  algorithm_inv a →
  same_bindings h (OnPageEviction a p h).2 ∧ algorithm_inv (OnPageEviction a p h).1.
Proof. exact (on_page_eviction_lawful (LawfulPolicy := algorithm_lawful) a p h). Qed.

Lemma new_algorithm_inv n algType : 0 ≤ n → algorithm_inv (new_algorithm n algType).
Proof.
  intros Hn. destruct algType; try exact I.
  - change (0 ≤ 0). lia.
  - change (ARC.inv (ARC.NewARC n)). constructor; simpl; unfold ARC.len; simpl; lia.
  - by apply new_ok.
  - change (0 ≤ 0). lia.
Qed.
End dispatch.

(** ** Properties *)

(** C30: every algorithm the manager can install meets the contract the manager
    relies on: after any calls, a victim search answers with an evictable
    candidate whenever there is one and with one of the two documented errors
    otherwise, and no call has allocated, freed, pinned or rebound a frame. *)
Theorem installed_algorithm_lawful `{GoEnv} numFrames algType cs ps h :
  0 ≤ numFrames → (∀ ps', CallSelect ps' ∈ cs → candidates h ps') → candidates h ps →
  let '(a, h1) := calls cs (new_algorithm numFrames algType) h in
  let '((r, a'), h2) := SelectVictim a ps h1 in
  same_bindings h h2 ∧
  ((∃ p, p ∈ ps ∧ evictable_at h p) → ∃ v, r = Ok v ∧ v ∈ ps ∧ evictable_at h v) ∧
  ((∀ p, p ∈ ps → ¬ evictable_at h p) → r = Err ErrNoFrames ∨ r = Err ErrNoEvictable).
Proof.
  intros Hn Hcs Hps. pose proof (calls_lawful (new_algorithm numFrames algType) cs h) as Hc.
  destruct (Hc (new_algorithm_inv _ _ Hn) Hcs) as [Hb Hi].
  destruct (calls cs _ h) as [a h1]; cbn [fst snd] in *.
  destruct (select_victim_lawful a ps h1 Hi) as (Hv & Hb2 & _).
  { by rewrite <-(candidates_proper _ _ _ Hb). }
  destruct (SelectVictim a ps h1) as [[r a'] h2]; cbn [fst snd] in *.
  split_and!; [by etrans| |].
  - intros (p & Hp & Hev). destruct r as [v|e].
    + exists v. destruct Hv. split_and!; [done..|by rewrite Hb].
    + destruct Hv as [_ Hno]. rewrite Hb in Hev. by destruct (Hno p Hp).
  - intros Hno. destruct r as [v|e].
    + destruct Hv as [Hin Hev]. rewrite <-Hb in Hev. by destruct (Hno v Hin).
    + destruct Hv as [[-> | ->] _]; auto.
Qed.

Lemma ParseAlgorithmType_name name algType :
  ParseAlgorithmType name = Some algType → name = GetAlgorithmName algType.
Proof.
  unfold ParseAlgorithmType.
  repeat match goal with
  | |- context [String.eqb name ?s] => destruct (String.eqb_spec name s) as [->|]; [by intros [= <-]|]
  end. done.
Qed.
Lemma new_algorithm_name `{GoEnv} numFrames algType :
  GetName (new_algorithm numFrames algType) = GetAlgorithmName algType.
Proof. by destruct algType. Qed.

(** The names are the canonical ones: parsing accepts exactly the listed
    names and inverts naming, and every installed algorithm reports the name it
    was requested by. *)
Theorem algorithm_names_roundtrip `{GoEnv} numFrames :
  (∀ algType, ParseAlgorithmType (GetAlgorithmName algType) = Some algType ∧
     GetAlgorithmName algType ∈ ValidAlgorithmNames ∧
     GetName (new_algorithm numFrames algType) = GetAlgorithmName algType) ∧
  (∀ name algType, ParseAlgorithmType name = Some algType → name = GetAlgorithmName algType).
Proof.
  split.
  - intros algType. split_and!; [by destruct algType| |apply new_algorithm_name].
    apply (bool_decide_unpack _). destruct algType; vm_compute; exact I.
  - apply ParseAlgorithmType_name.
Qed.

(** *** Witness *)

Lemma installed_algorithm_lawful_witness :
  ∃ v, (SelectVictim (PageReplacementAlgorithm := @algorithm_policy first_env)
          (@calls _ (@algorithm_policy first_env) [CallFault 0%nat]
             (new_algorithm 2 AlgorithmARC) two_frames).1
          [0; 1]%nat
          (@calls _ (@algorithm_policy first_env) [CallFault 0%nat]
             (new_algorithm 2 AlgorithmARC) two_frames).2).1.1 = Ok v ∧ v ∈ [0; 1]%nat.
Proof.
  pose proof (@installed_algorithm_lawful first_env 2 AlgorithmARC [CallFault 0%nat] [0; 1]%nat
    two_frames ltac:(lia) ltac:(set_solver) two_frames_candidates) as Hw.
  destruct (calls _ _ _) as [a h1]. destruct (SelectVictim _ _ _) as [[r a'] h2] eqn:Hs.
  destruct Hw as (_ & Hw & _). destruct Hw as (v & -> & Hv & _).
  { exists 0%nat. split; [set_solver|]. eexists; split; vm_compute; reflexivity. }
  exists v. split; [reflexivity|exact Hv].
Defined.
