(* ===== verification/Tlb.v ===== *)
(** * The translation cache: [internal/memory/tlb.go]

    A map from a string key to an entry.  [translate] is what the TLB knows
    about a process's page; the theorems say that the TLB is a cache of the
    translations inserted: it may forget one (capacity, invalidation), it never
    invents or mixes them up, because keys are injective. *)

From S2P Require Import Prelude Models Heap.
Local Open Scope Z_scope.

Module TLB.
Record TLBEntry := mk_entry {
  VirtualPage : N;
  FrameNumber : Z;
  ProcessID : string;
  Valid : bool;
  lastAccessNs : Z;
}.
#[global] Instance eta_entry : Eta TLBEntry := λ r,
  mk_entry (VirtualPage r) (FrameNumber r) (ProcessID r) (Valid r) (lastAccessNs r).

Record t := mk {
  entries : gmap string TLBEntry;
  capacity : Z;
  hits : Z;
  misses : Z;
}.
#[global] Instance eta_t : Eta t := λ r, mk (entries r) (capacity r) (hits r) (misses r).

Definition NewTLB (capacity : Z) : t :=
  {| entries := ∅; capacity := capacity; hits := 0; misses := 0 |}.

(** [processID + "\x00" + strconv.FormatUint(virtualPage, 10)] *)
Definition nul : Ascii.ascii := Ascii.zero.
Definition makeKey (processID : string) (virtualPage : N) : string :=
  processID +:+ String nul (pretty virtualPage).

Section ops.
Context `{Env : GoEnv}.

Definition Lookup (processID : string) (virtualPage : N) (tlb : t)
    : M heap (option Z * t) :=
  let key := makeKey processID virtualPage in
  match entries tlb !! key with
  | Some entry =>
      if Valid entry then
        now ← time_now;
        mret (Some (FrameNumber entry),
              tlb <| entries := <[key := entry <| lastAccessNs := now |>]> (entries tlb) |>
                  <| hits ::= λ c, i64 (c + 1) |>)
      else mret (None, tlb <| misses ::= λ c, i64 (c + 1) |>)
  | None => mret (None, tlb <| misses ::= λ c, i64 (c + 1) |>)
  end.

(** The scan for the oldest entry, in the order of [range]. *)
Fixpoint oldest (l : list (string * TLBEntry)) (best : option (string * Z))
    : option (string * Z) :=
  match l with
  | [] => best
  | (key, entry) :: l =>
      let ns := lastAccessNs entry in
      match best with
      | Some (k, oldestNs) =>
          if ns <? oldestNs then oldest l (Some (key, ns)) else oldest l best
      | None => oldest l (Some (key, ns))
      end
  end.

Definition evictLRU (tlb : t) : M heap t :=
  l ← range_map (entries tlb);
  mret match oldest l None with
       | Some (k, _) => if String.eqb k "" then tlb else tlb <| entries ::= delete k |>
       | None => tlb
       end.

Definition Insert (processID : string) (virtualPage : N) (frameNumber : Z) (tlb : t)
    : M heap t :=
  let key := makeKey processID virtualPage in
  tlb ← (if (0 <? capacity tlb) && (capacity tlb <=? Z.of_nat (size (entries tlb)))
         then evictLRU tlb else mret tlb);
  now ← time_now;
  mret (tlb <| entries ::= <[key := mk_entry virtualPage frameNumber processID true now]> |>).
End ops.

Definition Invalidate (processID : string) (virtualPage : N) (tlb : t) : t :=
  tlb <| entries ::= delete (makeKey processID virtualPage) |>.
Definition InvalidateProcess (processID : string) (tlb : t) : t :=
  tlb <| entries ::= filter (λ kv, ProcessID kv.2 ≠ processID) |>.
Definition Clear (tlb : t) : t := tlb <| entries := ∅ |> <| hits := 0 |> <| misses := 0 |>.
Definition GetHitRate (tlb : t) : f64 := rate (hits tlb) (i64 (hits tlb + misses tlb)).

Record TLBStats := mk_stats {
  Capacity : Z; Size : Z; Hits : Z; Misses : Z; HitRate : f64 }.
Definition GetStats (tlb : t) : TLBStats :=
  mk_stats (capacity tlb) (Z.of_nat (size (entries tlb))) (hits tlb) (misses tlb)
    (GetHitRate tlb).

(** ** What the TLB knows *)

Definition translate (tlb : t) (processID : string) (virtualPage : N) : option Z :=
  match entries tlb !! makeKey processID virtualPage with
  | Some e => if Valid e then Some (FrameNumber e) else None
  | None => None
  end.

(** Every entry is filed under its own key and valid, and a limited TLB never
    holds more entries than its capacity. *)
Record wf (tlb : t) : Prop := {
  wf_key k e : entries tlb !! k = Some e →
    k = makeKey (ProcessID e) (VirtualPage e) ∧ Valid e = true;
  wf_size : 0 < capacity tlb → Z.of_nat (size (entries tlb)) ≤ capacity tlb;
}.
End TLB.

(** ** Keys *)

Fixpoint no_nul (s : string) : Prop :=
  match s with
  | EmptyString => True
  | String c s => c ≠ TLB.nul ∧ no_nul s
  end.

Lemma no_nul_pretty_go x s : no_nul s → no_nul (pretty_N_go x s).
Proof.
  revert s. induction (N.lt_wf_0 x) as [x _ IH]; intros s Hs.
  destruct (decide (0 < x)%N) as [Hx|Hx].
  - rewrite pretty_N_go_step by done. apply IH; [by apply N.div_lt|].
    split; [|done]. unfold pretty_N_char. by repeat case_match.
  - replace x with 0%N by lia. by rewrite pretty_N_go_0.
Qed.

Lemma no_nul_pretty (n : N) : no_nul (pretty n).
Proof. unfold pretty, pretty_N. destruct (decide _); [done|]. by apply no_nul_pretty_go. Qed.

Lemma no_nul_app s1 s2 : no_nul (s1 +:+ String TLB.nul s2) → False.
Proof. induction s1 as [|c s1 IH]; simpl; [by intros []|]. intros [_ ?]. auto. Qed.

(** The last separator splits a key, whatever the process ID contains. *)
Lemma split_last_nul p1 p2 d1 d2 :
  no_nul d1 → no_nul d2 →
  p1 +:+ String TLB.nul d1 = p2 +:+ String TLB.nul d2 → p1 = p2 ∧ d1 = d2.
Proof.
  intros H1 H2. revert p2. induction p1 as [|c1 p1 IH]; intros [|c2 p2] Heq;
    simplify_eq/=; [done| | |].
  - by apply no_nul_app in H1.
  - by apply no_nul_app in H2.
  - destruct (IH p2) as [-> ->]; done.
Qed.

Lemma makeKey_inj p1 p2 v1 v2 :
  TLB.makeKey p1 v1 = TLB.makeKey p2 v2 → p1 = p2 ∧ v1 = v2.
Proof.
  intros Heq. destruct (split_last_nul p1 p2 (pretty v1) (pretty v2)) as [-> Hv].
  - apply no_nul_pretty.
  - apply no_nul_pretty.
  - exact Heq.
  - split; [done|]. by apply (inj pretty) in Hv.
Qed.

Lemma makeKey_not_empty p v : TLB.makeKey p v ≠ "".
Proof. unfold TLB.makeKey. by destruct p. Qed.

(** ** Operations *)

Section tlb.
Context `{Env : GoEnv}.
Implicit Types (tlb : TLB.t) (p q : string) (v w : N).
Import TLB.

Lemma wf_NewTLB cap : wf (NewTLB cap).
Proof. constructor; [done|]. simpl. rewrite map_size_empty. lia. Qed.

Lemma translate_wf tlb p v :
  wf tlb → translate tlb p v = FrameNumber <$> entries tlb !! makeKey p v.
Proof.
  intros [Hk _]. unfold translate. destruct (_ !! _) eqn:He; [|done].
  destruct (Hk _ _ He) as [_ ->]. done.
Qed.

(** [Lookup] answers with the translation and keeps every translation. *)
Lemma Lookup_spec tlb p v h :
  wf tlb →
  let '((r, tlb'), h') := Lookup p v tlb h in
  r = translate tlb p v ∧ wf tlb' ∧ capacity tlb' = capacity tlb ∧ frames h' = frames h ∧
  ∀ q w, translate tlb' q w = translate tlb q w.
Proof.
  intros Hwf. pose proof (wf_key _ Hwf) as Hkey.
  unfold Lookup. rewrite (translate_wf tlb p v Hwf).
  destruct (entries tlb !! makeKey p v) as [e|] eqn:He; [|split_and!; [done|..|done|done];
    [by destruct Hwf|done]].
  destruct (Hkey _ _ He) as [Hk Hval]. rewrite Hval.
  unfold mbind, M_bind; simpl. split_and!; [done| |done|done|].
  - constructor; simpl.
    + intros k e' [[<- <-]|[_ He']]%lookup_insert_Some; [done|auto].
    + intros Hc. pose proof (wf_size _ Hwf Hc).
      rewrite map_size_insert_Some; [done|]. by rewrite He.
  - intros q w. unfold translate; simpl.
    destruct (decide (makeKey p v = makeKey q w)) as [Heq|Hne].
    + by rewrite <-Heq, lookup_insert_eq, He.
    + by rewrite lookup_insert_ne.
Qed.

Lemma oldest_in (l : list (string * TLBEntry)) best k ns :
  oldest l best = Some (k, ns) → (∃ e, (k, e) ∈ l) ∨ best = Some (k, ns).
Proof.
  revert best. induction l as [|[k' e'] l IH]; intros best Ho; simpl in Ho; [by right|].
  destruct best as [[k0 n0]|].
  - destruct (_ <? _); destruct (IH _ Ho) as [[e He]|Heq]; simplify_eq;
      [left; exists e; by right|left; exists e'; by left|left; exists e; by right|by right].
  - destruct (IH _ Ho) as [[e He]|Heq]; simplify_eq;
      [left; exists e; by right|left; exists e'; by left].
Qed.

Lemma oldest_some (l : list (string * TLBEntry)) best :
  l ≠ [] ∨ is_Some best → is_Some (oldest l best).
Proof.
  revert best. induction l as [|[k e] l IH]; intros best Hl; simpl.
  - by destruct Hl as [|?].
  - destruct best as [[k0 n0]|]; [destruct (_ <? _)|]; apply IH; right; done.
Qed.

(** Evicting removes exactly one entry of a non-empty TLB. *)
Lemma evictLRU_spec tlb h :
  wf tlb →
  let '(tlb', h') := evictLRU tlb h in
  frames h' = frames h ∧ capacity tlb' = capacity tlb ∧
  entries tlb' ⊆ entries tlb ∧
  (entries tlb ≠ ∅ → (size (entries tlb') + 1 = size (entries tlb))%nat).
Proof.
  intros Hwf. unfold evictLRU, range_map, mbind, M_bind; simpl.
  set (l := shuffle (tick h) (map_to_list (entries tlb))).
  assert (l ≡ₚ map_to_list (entries tlb)) as Hl by apply shuffle_perm.
  destruct (oldest l None) as [[k ns]|] eqn:Ho.
  - destruct (oldest_in _ _ _ _ Ho) as [[e He]|]; [|done].
    rewrite Hl in He. apply elem_of_map_to_list in He.
    destruct (wf_key _ Hwf _ _ He) as [Hk _].
    destruct (String.eqb_spec k "") as [->|_].
    { by destruct (makeKey_not_empty (ProcessID e) (VirtualPage e)). }
    simpl. split_and!; [done|done|apply delete_subseteq|]. intros _.
    rewrite map_size_delete_Some by (by rewrite He).
    assert (size (entries tlb) ≠ 0)%nat; [|lia].
    intros Hs%map_size_empty_iff. by rewrite Hs, lookup_empty in He.
  - split_and!; [done|done|done|]. intros Hne. exfalso.
    destruct (oldest_some l None) as [x Hx]; [|congruence].
    left. intros Hnil. rewrite Hnil in Hl. symmetry in Hl. apply Permutation_nil_r in Hl.
    by apply map_to_list_empty_iff in Hl.
Qed.

Lemma entries_subseteq_translate tlb tlb' q w f :
  wf tlb → entries tlb' ⊆ entries tlb → translate tlb' q w = Some f →
  translate tlb q w = Some f.
Proof.
  intros Hwf Hsub. unfold translate.
  destruct (entries tlb' !! makeKey q w) as [e|] eqn:He; [|done].
  by rewrite (lookup_weaken _ _ _ _ He Hsub).
Qed.

Lemma entries_subseteq_wf tlb tlb' :
  wf tlb → capacity tlb' = capacity tlb → entries tlb' ⊆ entries tlb → wf tlb'.
Proof.
  intros [Hk Hs] Hc Hsub. constructor.
  - intros k e He. apply Hk. by eapply lookup_weaken.
  - rewrite Hc. intros Hpos. specialize (Hs Hpos).
    pose proof (map_subseteq_size _ _ Hsub). lia.
Qed.

Lemma Insert_spec tlb p v f h :
  wf tlb →
  let '(tlb', h') := Insert p v f tlb h in
  wf tlb' ∧ capacity tlb' = capacity tlb ∧ frames h' = frames h ∧
  translate tlb' p v = Some f ∧
  ∀ q w g, (q, w) ≠ (p, v) → translate tlb' q w = Some g → translate tlb q w = Some g.
Proof.
  intros Hwf. unfold Insert, mbind, M_bind; simpl.
  set (m := (if (_ : bool) then evictLRU tlb else mret tlb) : M heap TLB.t).
  assert (let '(tlb1, h1) := m h in
    frames h1 = frames h ∧ capacity tlb1 = capacity tlb ∧ entries tlb1 ⊆ entries tlb ∧
    (0 < capacity tlb → Z.of_nat (size (entries tlb1)) < capacity tlb)) as Hm.
  { unfold m. destruct (Z.ltb_spec 0 (capacity tlb)) as [Hpos|]; cbn [andb].
    2:{ simpl. split_and!; [done..|lia]. }
    destruct (Z.leb_spec (capacity tlb) (Z.of_nat (size (entries tlb)))).
    2:{ simpl. split_and!; [done|done|done|lia]. }
    pose proof (evictLRU_spec tlb h Hwf) as He. destruct (evictLRU tlb h) as [tlb1 h1].
    destruct He as (? & ? & ? & Hsz). split_and!; [done..|]. intros _.
    pose proof (wf_size _ Hwf Hpos). specialize (Hsz ltac:(intros Hem; rewrite Hem, map_size_empty in *; lia)).
    lia. }
  destruct (m h) as [tlb1 h1]. destruct Hm as (Hf & Hc & Hsub & Hsz). simpl.
  pose proof (entries_subseteq_wf _ _ Hwf Hc Hsub) as Hwf1.
  split_and!; [|done|done|unfold translate; simpl; by rewrite lookup_insert_eq|].
  - constructor; simpl.
    + intros k e [[<- <-]|[_ He]]%lookup_insert_Some; [done|]. by apply Hwf1.
    + rewrite Hc. intros Hpos. specialize (Hsz Hpos).
      destruct (entries tlb1 !! makeKey p v) as [e|] eqn:He.
      * rewrite map_size_insert_Some by (by rewrite He). lia.
      * rewrite map_size_insert_None by done. lia.
  - intros q w g Hne Hg. eapply entries_subseteq_translate; [done|exact Hsub|].
    revert Hg. unfold translate; simpl. rewrite lookup_insert_ne; [done|].
    intros [-> ->]%makeKey_inj. done.
Qed.

(** [full tlb]: the next insertion makes room first. *)
Definition full tlb : Prop := 0 < capacity tlb ≤ Z.of_nat (size (entries tlb)).

(** [least_recent tlb q w]: the entry of page [w] of [q] was accessed no later
    than any other. *)
Definition least_recent tlb q w : Prop :=
  ∃ e, entries tlb !! makeKey q w = Some e ∧
    ∀ k e', entries tlb !! k = Some e' → lastAccessNs e ≤ lastAccessNs e'.

Lemma oldest_least (l : list (string * TLBEntry)) best k ns :
  oldest l best = Some (k, ns) →
  ((∃ e, (k, e) ∈ l ∧ lastAccessNs e = ns) ∨ best = Some (k, ns)) ∧
  (∀ k' e', (k', e') ∈ l → ns ≤ lastAccessNs e') ∧
  (∀ b, best = Some b → ns ≤ b.2).
Proof.
  revert best. induction l as [|[k0 e0] l IH]; intros best Ho; simpl in Ho.
  { split_and!; [by right|by intros ?? ?%elem_of_nil|]. by intros b ->; simplify_eq. }
  assert (∃ b0, oldest l (Some b0) = Some (k, ns) ∧ (b0 = (k0, lastAccessNs e0) ∨ best = Some b0) ∧
    b0.2 ≤ lastAccessNs e0 ∧ ∀ b, best = Some b → b0.2 ≤ b.2) as (b0 & Hb & Hor & Hle & Hb0).
  { destruct best as [[k1 n1]|]; [destruct (Z.ltb_spec (lastAccessNs e0) n1)|];
      (eexists; split_and!; [exact Ho|by auto|simpl; lia|]); intros b; simplify_eq/=; [intros [= <-]..|done]; simpl; lia. }
  destruct (IH _ Hb) as (H1 & H2 & H3). specialize (H3 _ eq_refl). split_and!.
  - destruct H1 as [(e & He & Hns)|[= ->]]; [left; exists e; split; [by right|done]|].
    destruct Hor as [[= -> ->]| ->]; [left; exists e0; split; [by left|done]|by right].
  - intros k' e' [[= -> ->]|He]%elem_of_cons; [lia|by eapply H2].
  - intros b Hbest. specialize (Hb0 b Hbest). lia.
Qed.

Lemma evictLRU_drops tlb h :
  wf tlb → entries tlb ≠ ∅ →
  ∃ q w, least_recent tlb q w ∧ entries (evictLRU tlb h).1 = delete (makeKey q w) (entries tlb).
Proof.
  intros Hwf Hne. unfold evictLRU, range_map, mbind, M_bind; simpl.
  set (l := shuffle (tick h) (map_to_list (entries tlb))).
  assert (l ≡ₚ map_to_list (entries tlb)) as Hl by apply shuffle_perm.
  assert (∀ k e, (k, e) ∈ l ↔ entries tlb !! k = Some e) as Hin
    by (intros; rewrite Hl; apply elem_of_map_to_list).
  destruct (oldest l None) as [[k ns]|] eqn:Ho.
  - destruct (oldest_least _ _ _ _ Ho) as ([(e & He%Hin & Hns)|[=]] & Hleast & _).
    destruct (wf_key _ Hwf _ _ He) as [Hk _]. exists (ProcessID e), (VirtualPage e). rewrite <-Hk. split.
    + exists e. rewrite <-Hk. split; [done|]. intros k' e' He'%Hin. rewrite Hns. by eapply Hleast.
    + destruct (String.eqb_spec k "") as [->|_]; [|done]. by destruct (makeKey_not_empty (ProcessID e) (VirtualPage e)).
  - exfalso. destruct (oldest_some l None) as [x Hx]; [|congruence].
    left. intros Hnil. rewrite Hnil in Hl. symmetry in Hl. apply Permutation_nil_r in Hl.
    by apply map_to_list_empty_iff in Hl.
Qed.

Lemma translate_delete tlb tlb' k q w :
  entries tlb' = delete k (entries tlb) →
  translate tlb' q w = if decide (k = makeKey q w) then None else translate tlb q w.
Proof.
  intros He. unfold translate. rewrite He. destruct (decide _) as [->|Hne].
  - by rewrite lookup_delete_eq.
  - by rewrite lookup_delete_ne.
Qed.

(** What an insertion does to the other translations. *)
Lemma Insert_others tlb p v f h :
  wf tlb →
  ∃ dropped : option (string * N),
    match dropped with
    | Some (q, w) => full tlb ∧ least_recent tlb q w
    | None => ¬ full tlb
    end ∧
    ∀ q w, (q, w) ≠ (p, v) →
      translate (Insert p v f tlb h).1 q w = if decide (dropped = Some (q, w)) then None else translate tlb q w.
Proof.
  intros Hwf. assert (∀ tlb1 e q w, (q, w) ≠ (p, v) →
    translate (tlb1 <| entries ::= <[makeKey p v := e]> |>) q w = translate tlb1 q w) as Hins.
  { intros tlb1 e q w Hne. unfold translate. simpl. rewrite lookup_insert_ne; [done|]. intros [-> ->]%makeKey_inj. done. }
  destruct (decide (0 < capacity tlb ≤ Z.of_nat (size (entries tlb)))) as [Hfull|Hroom].
  - assert (entries tlb ≠ ∅) as Hne by (intros E; rewrite E, map_size_empty in Hfull; lia).
    destruct (evictLRU_drops tlb h Hwf Hne) as (q0 & w0 & Hl & He). exists (Some (q0, w0)).
    split; [done|]. intros q w Hqw. unfold Insert, mbind, M_bind.
    rewrite (proj2 (andb_true_iff _ _)) by (split; [apply Z.ltb_lt|apply Z.leb_le]; lia).
    destruct (evictLRU tlb h) as [tlb1 h1]. simpl in *. etrans; [by apply (Hins tlb1)|].
    rewrite (translate_delete tlb tlb1 _ q w He). apply decide_ext. split; [by intros [-> ->]%makeKey_inj|by intros [= -> ->]].
  - exists None. split; [done|]. intros q w Hqw. unfold Insert, mbind, M_bind.
    destruct (andb _ _) eqn:Hb; [apply andb_true_iff in Hb as [?%Z.ltb_lt ?%Z.leb_le]; lia|].
    by apply (Hins tlb).
Qed.

(** The two invalidations remove what they name and nothing else. *)
Lemma Invalidate_spec tlb p v :
  wf tlb →
  wf (Invalidate p v tlb) ∧ capacity (Invalidate p v tlb) = capacity tlb ∧
  translate (Invalidate p v tlb) p v = None ∧
  ∀ q w, (q, w) ≠ (p, v) → translate (Invalidate p v tlb) q w = translate tlb q w.
Proof.
  intros Hwf. unfold Invalidate. split_and!; [|done| |].
  - eapply entries_subseteq_wf; [done|done|]. apply delete_subseteq.
  - unfold translate; simpl. by rewrite lookup_delete_eq.
  - intros q w Hne. unfold translate; simpl. rewrite lookup_delete_ne; [done|].
    by intros [-> ->]%makeKey_inj.
Qed.

Lemma InvalidateProcess_spec tlb p :
  wf tlb →
  wf (InvalidateProcess p tlb) ∧ capacity (InvalidateProcess p tlb) = capacity tlb ∧
  ∀ q w, translate (InvalidateProcess p tlb) q w = if decide (q = p) then None else translate tlb q w.
Proof.
  intros Hwf. unfold InvalidateProcess. split_and!; [|done|].
  - eapply entries_subseteq_wf; [done|done|]. apply map_filter_subseteq.
  - intros q w. unfold translate; simpl.
    destruct (entries tlb !! makeKey q w) as [e|] eqn:He.
    + destruct (wf_key _ Hwf _ _ He) as [[Hq Hw]%makeKey_inj Hval].
      destruct (decide (q = p)) as [->|Hne].
      * rewrite map_lookup_filter_None_2; [done|]. right. intros e' He'. simplify_eq/=. naive_solver.
      * rewrite (map_lookup_filter_Some_2 _ _ _ e); [done|done|]. simpl. congruence.
    + rewrite map_lookup_filter_None_2 by (by left). by destruct (decide _).
Qed.

Lemma Clear_spec tlb : wf (Clear tlb) ∧ ∀ q w, translate (Clear tlb) q w = None.
Proof.
  split; [constructor|]; simpl.
  - intros k e He. by rewrite lookup_empty in He.
  - rewrite map_size_empty. lia.
  - intros q w. unfold translate; simpl. by rewrite lookup_empty.
Qed.
End tlb.

(** ** Properties *)

(** C36: the TLB is a cache.  [Insert] makes its translation available.  Every
    other translation stays what it was, none appears, except that an insertion
    into a full TLB drops one, the one of an entry that was accessed no later than
    any other; an insertion with room drops none.  The size never exceeds a
    positive capacity. *)
Theorem TLB_insert_sound `{GoEnv} tlb p v f h :
  TLB.wf tlb →
  let '(tlb', h') := TLB.Insert p v f tlb h in
  TLB.translate tlb' p v = Some f ∧
  (∃ dropped : option (string * N),
    match dropped with
    | Some (q, w) => full tlb ∧ least_recent tlb q w
    | None => ¬ full tlb
    end ∧
    ∀ q w, (q, w) ≠ (p, v) →
      TLB.translate tlb' q w = if decide (dropped = Some (q, w)) then None else TLB.translate tlb q w) ∧
  TLB.wf tlb' ∧
  (0 < TLB.capacity tlb → Z.of_nat (size (TLB.entries tlb')) ≤ TLB.capacity tlb).
Proof.
  intros Hwf. pose proof (Insert_spec tlb p v f h Hwf) as Hi. pose proof (Insert_others tlb p v f h Hwf) as Ho.
  destruct (TLB.Insert p v f tlb h) as [tlb' h']. destruct Hi as (Hwf' & Hc & _ & Hs & _).
  split_and!; [done..|]. rewrite <-Hc. apply Hwf'.
Qed.

(** [Lookup] returns exactly the cached translation, counts one hit or one
    miss, and changes no translation; [InvalidateProcess] forgets the
    translations of that process and keeps all others. *)
Theorem TLB_lookup_invalidate `{GoEnv} tlb p v h :
  TLB.wf tlb →
  (let '((r, tlb'), h') := TLB.Lookup p v tlb h in
   r = TLB.translate tlb p v ∧
   (∀ q w, TLB.translate tlb' q w = TLB.translate tlb q w) ∧
   (TLB.hits tlb', TLB.misses tlb') =
     if decide (r = None) then (TLB.hits tlb, i64 (TLB.misses tlb + 1))
     else (i64 (TLB.hits tlb + 1), TLB.misses tlb)) ∧
  ∀ q w, TLB.translate (TLB.InvalidateProcess p tlb) q w =
    if decide (q = p) then None else TLB.translate tlb q w.
Proof.
  intros Hwf. split; [|by apply InvalidateProcess_spec].
  pose proof (Lookup_spec tlb p v h Hwf) as Hl.
  destruct (TLB.Lookup p v tlb h) as [[r tlb'] h'] eqn:He.
  destruct Hl as (-> & _ & _ & _ & Ht). split_and!; [done|done|].
  revert He. unfold TLB.Lookup, TLB.translate, mbind, M_bind.
  destruct (TLB.entries tlb !! TLB.makeKey p v) as [e|]; [|by intros [= <- <-]].
  destruct (TLB.Valid e); [|by intros [= <- <-]]. simpl. by intros [= <- <-].
Qed.

(** *** Witnesses *)

Lemma TLB_insert_sound_witness :
  TLB.translate (@TLB.Insert first_env "P2" 7 3 (TLB.NewTLB 1) (mk_heap [] 0)).1 "P2" 7 = Some 3.
Proof.
  pose proof (@TLB_insert_sound first_env (TLB.NewTLB 1) "P2" 7 3 (mk_heap [] 0) (wf_NewTLB 1)) as Hw.
  destruct (TLB.Insert _ _ _ _ _) as [tlb' h']. exact (proj1 Hw).
Defined.

Lemma TLB_lookup_invalidate_witness :
  TLB.translate (TLB.InvalidateProcess "P2" (TLB.NewTLB 4)) "P2" 7 = None.
Proof.
  destruct (@TLB_lookup_invalidate first_env (TLB.NewTLB 4) "P2" 7%N (mk_heap [] 0) (wf_NewTLB 4))
    as [_ Hw].
  exact (Hw "P2" 7%N).
Defined.
