(* ===== verification/PageTable.v ===== *)
(** * A process's page table: [internal/memory/page_table.go]

    A map from virtual page numbers to pages.  The map owns its pages: a
    [*models.Page] the code holds on to is named by its key, and the methods
    below return the key's page.  [Clone] is the copy made by a fork. *)

From S2P Require Import Prelude Models Heap.
Local Open Scope Z_scope.

Module PageTable.
Record t := mk { ProcessID : string; Entries : gmap N Page.t }.
#[global] Instance eta_t : Eta t := λ r, mk (ProcessID r) (Entries r).

Definition NewPageTable (processID : string) : t :=
  {| ProcessID := processID; Entries := ∅ |}.

Definition GetPage (virtualPage : N) (pt : t) : res Page.t :=
  match Entries pt !! virtualPage with
  | Some page => Ok page
  | None => Err (ErrPageNotFound virtualPage)
  end.

(** [pt.Entries[virtualPage] = page] *)
Definition ReplaceEntry (virtualPage : N) (page : Page.t) (pt : t) : t :=
  pt <| Entries ::= <[virtualPage := page]> |>.

(** A write through a pointer to the page filed under [virtualPage]. *)
Definition update_page (virtualPage : N) (g : Page.t → Page.t) (pt : t) : t :=
  pt <| Entries ::= alter g virtualPage |>.

Definition UpdateFrame (virtualPage : N) (frameNum : Z) (pt : t) : res t :=
  match Entries pt !! virtualPage with
  | Some _ => Ok (update_page virtualPage (Page.SetFrame frameNum) pt)
  | None => Err (ErrPageNotFound virtualPage)
  end.

Definition RemovePage (virtualPage : N) (pt : t) : res t :=
  match Entries pt !! virtualPage with
  | Some _ => Ok (pt <| Entries ::= delete virtualPage |>)
  | None => Err (ErrPageNotFound virtualPage)
  end.

Section ops.
Context `{Env : GoEnv}.

(** [models.NewPage] reads the clock twice. *)
Definition NewPageNow (id : N) (processID : string) : M heap Page.t :=
  created ← time_now; accessed ← time_now;
  mret (Page.NewPage created accessed id processID).

(** [AddPage] and [GetOrCreatePage] have the same body. *)
Definition GetOrCreatePage (virtualPage : N) (pt : t) : M heap (Page.t * t) :=
  match Entries pt !! virtualPage with
  | Some page => mret (page, pt)
  | None =>
      page ← NewPageNow virtualPage (ProcessID pt);
      mret (page, ReplaceEntry virtualPage page pt)
  end.
Definition AddPage (virtualPage : N) (pt : t) : M heap (Page.t * t) :=
  GetOrCreatePage virtualPage pt.

(** The pages with their keys, in the order of [range]. *)
Definition GetAllPages (pt : t) : M heap (list (N * Page.t)) := range_map (Entries pt).
Definition GetPresentPages (pt : t) : M heap (list (N * Page.t)) :=
  l ← range_map (Entries pt); mret (filter (λ kp, Page.IsPresent kp.2 = true) l).
Definition GetSharedPages (pt : t) : M heap (list (N * Page.t)) :=
  l ← range_map (Entries pt); mret (filter (λ kp, Page.IsShared kp.2 = true) l).
End ops.

Definition Clear (pt : t) : t := pt <| Entries := ∅ |>.
Definition Size (pt : t) : Z := Z.of_nat (size (Entries pt)).

(** The child's copy of a page: same frame, shared and read-only, clean. *)
Definition clone_page (newProcessID : string) (page : Page.t) : Page.t :=
  {| Page.ID := Page.ID page; Page.ProcessID := newProcessID;
     Page.FrameNumber := Page.FrameNumber page; Page.State := Page.State page;
     Page.LastAccessed := Page.LastAccessed page; Page.AccessCount := 0;
     Page.ReferenceBit := Page.ReferenceBit page; Page.Shared := true;
     Page.RefCount := Page.RefCount page; Page.OriginalPage := Page.ID page;
     Page.Dirty := false; Page.Present := Page.Present page; Page.ReadOnly := true;
     Page.CreatedAt := Page.CreatedAt page |}.
Definition Clone (newProcessID : string) (pt : t) : t :=
  {| ProcessID := newProcessID; Entries := clone_page newProcessID <$> Entries pt |}.

Record PageTableStats := mk_stats {
  TotalPages : Z; PresentPages : Z; SharedPages : Z; DirtyPages : Z }.
#[global] Instance eta_stats : Eta PageTableStats := λ r,
  mk_stats (TotalPages r) (PresentPages r) (SharedPages r) (DirtyPages r).
Definition stats_step (page : Page.t) (s : PageTableStats) : PageTableStats :=
  let s := if Page.IsPresent page then s <| PresentPages ::= Z.succ |> else s in
  let s := if Page.IsShared page then s <| SharedPages ::= Z.succ |> else s in
  if Page.IsDirty page then s <| DirtyPages ::= Z.succ |> else s.
(** The counts do not depend on the order of the range. *)
Definition GetStats (pt : t) : PageTableStats :=
  map_fold (λ _, stats_step) (mk_stats (Z.of_nat (size (Entries pt))) 0 0 0) (Entries pt).

(** Every page is present exactly when it names a frame, below [n]. *)
Definition wf (n : Z) (pt : t) : Prop :=
  map_Forall (λ _ p, Page.wf p ∧ Page.FrameNumber p < n) (Entries pt).
End PageTable.

(** ** Lemmas *)

Section page_table.
Context `{Env : GoEnv}.
Implicit Types (pt : PageTable.t) (v w : N).
Import PageTable.

Lemma wf_NewPageTable n pid : wf n (NewPageTable pid).
Proof. apply map_Forall_empty. Qed.

Lemma wf_ReplaceEntry n v p pt :
  wf n pt → Page.wf p → Page.FrameNumber p < n → wf n (ReplaceEntry v p pt).
Proof. intros. by apply map_Forall_insert_2. Qed.

Lemma wf_update_page n v g pt :
  (∀ p, Page.wf p → Page.FrameNumber p < n → Page.wf (g p) ∧ Page.FrameNumber (g p) < n) →
  wf n pt → wf n (update_page v g pt).
Proof.
  intros Hg Hwf k p. simpl. rewrite lookup_alter_Some.
  intros [(-> & q & Hq & ->)|[_ Hp]]; [|by apply (Hwf k p)].
  destruct (Hwf _ _ Hq) as [??]. by apply Hg.
Qed.

Lemma wf_SetFrame n v f pt : f < n → wf n pt → wf n (update_page v (Page.SetFrame f) pt).
Proof.
  intros Hf. apply wf_update_page. intros p _ _. split; [apply page_wf_SetFrame|].
  unfold Page.SetFrame. by destruct (0 <=? f).
Qed.

Lemma wf_Clone n pid pt : wf n pt → wf n (Clone pid pt).
Proof.
  intros Hwf k p. simpl. rewrite lookup_fmap_Some. intros (q & <- & Hq).
  exact (Hwf _ _ Hq).
Qed.

(** [GetOrCreatePage] returns the page filed under the number, creating an
    absent one only when there is none. *)
Lemma GetOrCreatePage_spec v pt h :
  let '((p, pt'), h') := GetOrCreatePage v pt h in
  frames h' = frames h ∧ ProcessID pt' = ProcessID pt ∧ Entries pt' !! v = Some p ∧
  (∀ w, w ≠ v → Entries pt' !! w = Entries pt !! w) ∧
  (Entries pt !! v = Some p ∨
   Entries pt !! v = None ∧ Page.Present p = false ∧ Page.FrameNumber p = -1 ∧
   Page.ID p = v ∧ Page.ProcessID p = ProcessID pt ∧ Page.Shared p = false).
Proof.
  unfold GetOrCreatePage. destruct (Entries pt !! v) as [p|] eqn:Hv.
  - split_and!; [done..|by left].
  - unfold NewPageNow, mbind, M_bind; simpl. split_and!; [done|done| | |by right].
    + by rewrite lookup_insert_eq.
    + intros w Hw. by rewrite lookup_insert_ne.
Qed.

Lemma wf_GetOrCreatePage n v pt h :
  0 ≤ n → wf n pt → wf n (GetOrCreatePage v pt h).1.2.
Proof.
  intros Hn Hwf. unfold GetOrCreatePage. destruct (Entries pt !! v); [done|].
  apply wf_ReplaceEntry; [done|apply page_wf_new|simpl; lia].
Qed.

(** The counts of [GetStats] are the numbers of pages with each flag. *)
Definition count (P : Page.t → bool) (m : gmap N Page.t) : Z :=
  Z.of_nat (size (filter (λ kp, P kp.2 = true) m)).

Lemma count_insert P m k p :
  m !! k = None → count P (<[k:=p]> m) = (if P p then 1 else 0) + count P m.
Proof.
  intros Hk. unfold count. rewrite map_filter_insert. destruct (P p) eqn:HP.
  - rewrite decide_True by done. rewrite map_size_insert_None; [lia|].
    apply map_lookup_filter_None_2. by left.
  - rewrite decide_False by (simpl; congruence). rewrite delete_id by done. lia.
Qed.

Lemma GetStats_counts pt :
  GetStats pt = mk_stats (Z.of_nat (size (Entries pt))) (count Page.IsPresent (Entries pt))
    (count Page.IsShared (Entries pt)) (count Page.IsDirty (Entries pt)).
Proof.
  unfold GetStats. generalize (Z.of_nat (size (Entries pt))) as n. intros n.
  induction (Entries pt) as [|k p m Hk IH] using map_ind.
  - by rewrite map_fold_empty.
  - rewrite map_fold_insert_L; [|intros; unfold stats_step; by repeat case_match|done].
    rewrite IH, !count_insert by done. unfold stats_step.
    destruct (Page.IsPresent p), (Page.IsShared p), (Page.IsDirty p); simpl; f_equal; lia.
Qed.
End page_table.

(** ** Properties *)

(** [Clone] gives the child every page of the parent, at the same frame and
    with the same residency, shared, read-only and clean, and creates no other;
    and [GetStats] counts exactly the pages with each flag. *)
Theorem page_table_clone_and_stats pid pt :
  (∀ v, match PageTable.Entries pt !! v, PageTable.Entries (PageTable.Clone pid pt) !! v with
        | Some p, Some c =>
            Page.FrameNumber c = Page.FrameNumber p ∧ Page.Present c = Page.Present p ∧
            Page.ID c = Page.ID p ∧ Page.ProcessID c = pid ∧
            Page.Shared c = true ∧ Page.ReadOnly c = true ∧ Page.Dirty c = false
        | None, None => True
        | _, _ => False
        end) ∧
  PageTable.GetStats (PageTable.Clone pid pt) =
    let n := PageTable.Size pt in
    PageTable.mk_stats n (PageTable.PresentPages (PageTable.GetStats pt)) n 0.
Proof.
  split.
  - intros v. simpl. rewrite lookup_fmap. by destruct (PageTable.Entries pt !! v).
  - rewrite !GetStats_counts. unfold PageTable.Size; simpl.
    rewrite map_size_fmap. unfold count. f_equal.
    + rewrite map_filter_fmap. by rewrite map_size_fmap.
    + rewrite map_filter_fmap, map_size_fmap. f_equal. f_equal.
      apply map_filter_id. done.
    + rewrite map_filter_fmap, map_size_fmap.
      match goal with |- Z.of_nat ?n = 0 => enough (n = 0%nat) as ->; [done|] end.
      apply map_size_empty_iff, map_empty. intros k. apply map_lookup_filter_None_2. by right.
Qed.
