(* ===== verification/MultiLevel.v ===== *)
(** * The four-level page table: [internal/memory/multilevel_pt.go]

    Each level's array of 512 pointers is a finite map from indices: an absent
    key is a [nil] pointer (a [false] in [isHuge]).  The table translates the
    low 48 bits of an address, 9 bits per level over 4 KB pages, with 2 MB huge
    pages at level 2. *)

From S2P Require Import Prelude Models Heap.
Local Open Scope Z_scope.

Module MultiLevelPageTable.
Module PageTableEntry.
Record t := mk {
  FrameNumber : Z; Present : bool; Dirty : bool; HugePage : bool;
  ReadOnly : bool; UserAccess : bool }.
#[global] Instance eta_t : Eta t := λ r,
  mk (FrameNumber r) (Present r) (Dirty r) (HugePage r) (ReadOnly r) (UserAccess r).
End PageTableEntry.

Definition NewPageTableEntry : PageTableEntry.t :=
  PageTableEntry.mk (-1) false false false false true.

Record Level1Table := mk_l1 { l1_entries : gmap N PageTableEntry.t }.
#[global] Instance eta_l1 : Eta Level1Table := λ r, mk_l1 (l1_entries r).
Record Level2Table := mk_l2 {
  l2_entries : gmap N Level1Table;
  hugePageEntries : gmap N PageTableEntry.t;
  isHuge : gmap N bool }.
#[global] Instance eta_l2 : Eta Level2Table := λ r,
  mk_l2 (l2_entries r) (hugePageEntries r) (isHuge r).
Record Level3Table := mk_l3 { l3_entries : gmap N Level2Table }.
#[global] Instance eta_l3 : Eta Level3Table := λ r, mk_l3 (l3_entries r).
Record Level4Table := mk_l4 { l4_entries : gmap N Level3Table }.
#[global] Instance eta_l4 : Eta Level4Table := λ r, mk_l4 (l4_entries r).
Record t := mk { ProcessID : string; l4Table : Level4Table }.
#[global] Instance eta_t : Eta t := λ r, mk (ProcessID r) (l4Table r).

Definition empty_l1 := mk_l1 ∅.
Definition empty_l2 := mk_l2 ∅ ∅ ∅.
Definition empty_l3 := mk_l3 ∅.
Definition NewMultiLevelPageTable (processID : string) : t := mk processID (mk_l4 ∅).

Definition L4Shift : N := 39.
Definition L3Shift : N := 30.
Definition L2Shift : N := 21.
Definition L1Shift : N := 12.
Definition PTEntriesPerLevel : nat := 512.

Definition index (shift virtualAddr : N) : N := N.land (N.shiftr virtualAddr shift) 511.
Definition indices (virtualAddr : N) : N * N * N * N :=
  (index L4Shift virtualAddr, index L3Shift virtualAddr,
   index L2Shift virtualAddr, index L1Shift virtualAddr).

Definition huge_at (l2 : N) (tbl : Level2Table) : bool := default false (isHuge tbl !! l2).

Definition find_l2 (l4 l3 : N) (mlpt : t) : option Level2Table :=
  l3Table ← l4_entries (l4Table mlpt) !! l4; l3_entries l3Table !! l3.

Definition GetEntry (virtualAddr : N) (mlpt : t) : option PageTableEntry.t :=
  let '(l4, l3, l2, l1) := indices virtualAddr in
  l2Table ← find_l2 l4 l3 mlpt;
  if huge_at l2 l2Table then hugePageEntries l2Table !! l2
  else l1Table ← l2_entries l2Table !! l2; l1_entries l1Table !! l1.

(** A write to the level-2 table of an address, creating the missing levels. *)
Definition update_l2 (l4 l3 : N) (g : Level2Table → Level2Table) (mlpt : t) : t :=
  let l3Table := default empty_l3 (l4_entries (l4Table mlpt) !! l4) in
  let l2Table := default empty_l2 (l3_entries l3Table !! l3) in
  let l3Table := l3Table <| l3_entries ::= <[l3 := g l2Table]> |> in
  mlpt <| l4Table ::= λ tbl, tbl <| l4_entries ::= <[l4 := l3Table]> |> |>.

Definition set_huge (l2 : N) (frameNumber : Z) (tbl : Level2Table) : Level2Table :=
  let entry := default NewPageTableEntry (hugePageEntries tbl !! l2) in
  let entry := entry <| PageTableEntry.FrameNumber := frameNumber |>
                     <| PageTableEntry.Present := true |>
                     <| PageTableEntry.HugePage := true |> in
  tbl <| hugePageEntries ::= <[l2 := entry]> |> <| isHuge ::= <[l2 := true]> |>.

Definition set_regular (l2 l1 : N) (frameNumber : Z) (tbl : Level2Table) : Level2Table :=
  let tbl := tbl <| isHuge ::= <[l2 := false]> |> <| hugePageEntries ::= delete l2 |> in
  let l1Table := default empty_l1 (l2_entries tbl !! l2) in
  let entry := default NewPageTableEntry (l1_entries l1Table !! l1) in
  let entry := entry <| PageTableEntry.FrameNumber := frameNumber |>
                     <| PageTableEntry.Present := true |> in
  tbl <| l2_entries ::= <[l2 := l1Table <| l1_entries ::= <[l1 := entry]> |>]> |>.

Definition SetEntry (virtualAddr : N) (frameNumber : Z) (huge : bool) (mlpt : t) : t :=
  let '(l4, l3, l2, l1) := indices virtualAddr in
  update_l2 l4 l3 (if huge then set_huge l2 frameNumber else set_regular l2 l1 frameNumber) mlpt.

Definition clear_entry (e : PageTableEntry.t) : PageTableEntry.t :=
  e <| PageTableEntry.Present := false |> <| PageTableEntry.FrameNumber := -1 |>.

Definition invalidate_l2 (l2 l1 : N) (tbl : Level2Table) : Level2Table :=
  if huge_at l2 tbl then
    tbl <| hugePageEntries ::= alter clear_entry l2 |> <| isHuge ::= <[l2 := false]> |>
  else tbl <| l2_entries ::= alter (λ l1Table, l1Table <| l1_entries ::= alter clear_entry l1 |>) l2 |>.

Definition InvalidateEntry (virtualAddr : N) (mlpt : t) : t :=
  let '(l4, l3, l2, l1) := indices virtualAddr in
  match find_l2 l4 l3 mlpt with
  | None => mlpt
  | Some _ => update_l2 l4 l3 (invalidate_l2 l2 l1) mlpt
  end.

(** [WalkPages] calls its argument on the entries of this list, in this order. *)
Definition address (l4 l3 l2 l1 : N) : N :=
  N.lor (N.lor (N.lor (N.shiftl l4 L4Shift) (N.shiftl l3 L3Shift)) (N.shiftl l2 L2Shift))
        (N.shiftl l1 L1Shift).
Definition all_indices : list N := N.of_nat <$> seq 0 PTEntriesPerLevel.

Definition walk_l1 (l4 l3 l2 : N) (tbl : Level1Table) : list (N * PageTableEntry.t * bool) :=
  l1 ← all_indices;
  match l1_entries tbl !! l1 with
  | Some e => if PageTableEntry.Present e then [(address l4 l3 l2 l1, e, false)] else []
  | None => []
  end.
Definition walk_l2 (l4 l3 : N) (tbl : Level2Table) : list (N * PageTableEntry.t * bool) :=
  l2 ← all_indices;
  let regular := match l2_entries tbl !! l2 with
                 | Some l1Table => walk_l1 l4 l3 l2 l1Table
                 | None => []
                 end in
  match hugePageEntries tbl !! l2 with
  | Some e => if huge_at l2 tbl && PageTableEntry.Present e
              then [(address l4 l3 l2 0, e, true)] else regular
  | None => regular
  end.
Definition WalkPages (mlpt : t) : list (N * PageTableEntry.t * bool) :=
  l4 ← all_indices;
  match l4_entries (l4Table mlpt) !! l4 with
  | None => []
  | Some l3Table =>
      l3 ← all_indices;
      match l3_entries l3Table !! l3 with
      | None => []
      | Some l2Table => walk_l2 l4 l3 l2Table
      end
  end.

(** Invariant: a slot marked huge holds a present huge entry. *)
Definition l2_wf (tbl : Level2Table) : Prop :=
  ∀ l2, huge_at l2 tbl = true →
    ∃ e, hugePageEntries tbl !! l2 = Some e ∧ PageTableEntry.Present e = true.
Definition wf (mlpt : t) : Prop :=
  ∀ l4 l3 tbl, find_l2 l4 l3 mlpt = Some tbl → l2_wf tbl.
End MultiLevelPageTable.
Import MultiLevelPageTable.

#[local] Arguments index : simpl never.
#[local] Arguments indices : simpl never.
#[local] Arguments address : simpl never.

(** ** The level-2 table of an address *)

Section multilevel.
Implicit Types (mlpt : MultiLevelPageTable.t) (a l k : N).

Lemma find_update_l2 l4 l3 k4 k3 g mlpt :
  find_l2 k4 k3 (update_l2 l4 l3 g mlpt) =
    if decide (k4 = l4 ∧ k3 = l3)
    then Some (g (default empty_l2 (find_l2 l4 l3 mlpt))) else find_l2 k4 k3 mlpt.
Proof.
  unfold find_l2, update_l2; simpl.
  destruct (decide (k4 = l4)) as [->|H4].
  2:{ rewrite lookup_insert_ne by done. by rewrite decide_False by naive_solver. }
  rewrite lookup_insert_eq. simpl.
  destruct (decide (k3 = l3)) as [->|H3].
  - rewrite decide_True, lookup_insert_eq by done. f_equal. f_equal.
    by destruct (l4_entries _ !! l4).
  - rewrite decide_False, lookup_insert_ne by naive_solver.
    by destruct (l4_entries _ !! l4).
Qed.

(** What [GetEntry] reads in the level-2 table. *)
Definition read_l2 l2 l1 (tbl : Level2Table) : option PageTableEntry.t :=
  if huge_at l2 tbl then hugePageEntries tbl !! l2
  else l1Table ← l2_entries tbl !! l2; l1_entries l1Table !! l1.

(** What lies below the huge pages: the 4 KB entry. *)
Definition read_l1 l2 l1 (tbl : Level2Table) : option PageTableEntry.t :=
  l1Table ← l2_entries tbl !! l2; l1_entries l1Table !! l1.

Lemma read_small l2 l1 tbl : huge_at l2 tbl = false → read_l2 l2 l1 tbl = read_l1 l2 l1 tbl.
Proof. unfold read_l2. by intros ->. Qed.

Lemma GetEntry_read a mlpt :
  GetEntry a mlpt = find_l2 (index L4Shift a) (index L3Shift a) mlpt ≫=
                    read_l2 (index L2Shift a) (index L1Shift a).
Proof. done. Qed.

Lemma huge_at_insert k l2 b (h : gmap N bool) m es :
  huge_at k (mk_l2 es m (<[l2 := b]> h)) = if decide (k = l2) then b else huge_at k (mk_l2 es m h).
Proof.
  unfold huge_at; simpl. destruct (decide (k = l2)) as [->|].
  - by rewrite lookup_insert_eq.
  - by rewrite lookup_insert_ne.
Qed.

Lemma read_set_regular k2 k1 l2 l1 f tbl :
  read_l2 k2 k1 (set_regular l2 l1 f tbl) =
    if decide (k2 = l2)
    then if decide (k1 = l1)
         then Some ((default NewPageTableEntry (read_l1 l2 l1 tbl))
                      <| PageTableEntry.FrameNumber := f |> <| PageTableEntry.Present := true |>)
         else read_l1 k2 k1 tbl
    else read_l2 k2 k1 tbl.
Proof.
  unfold read_l2, read_l1, set_regular; simpl. rewrite huge_at_insert.
  destruct (decide (k2 = l2)) as [->|H2].
  - rewrite lookup_insert_eq. simpl. destruct (decide (k1 = l1)) as [->|H1].
    + rewrite lookup_insert_eq. by destruct (l2_entries tbl !! l2).
    + rewrite lookup_insert_ne by done. by destruct (l2_entries tbl !! l2).
  - fold (huge_at k2 tbl). by rewrite lookup_delete_ne, lookup_insert_ne by done.
Qed.

Lemma read_set_huge k2 k1 l2 f tbl :
  read_l2 k2 k1 (set_huge l2 f tbl) =
    if decide (k2 = l2)
    then Some ((default NewPageTableEntry (hugePageEntries tbl !! l2))
                 <| PageTableEntry.FrameNumber := f |> <| PageTableEntry.Present := true |>
                 <| PageTableEntry.HugePage := true |>)
    else read_l2 k2 k1 tbl.
Proof.
  unfold read_l2, set_huge; simpl. rewrite huge_at_insert.
  destruct (decide (k2 = l2)) as [->|H2].
  - by rewrite lookup_insert_eq.
  - by rewrite lookup_insert_ne.
Qed.
End multilevel.

(** ** Addresses *)

Section addresses.
Implicit Types (a i x : N).

Lemma index_lt s a : (index s a < 512)%N.
Proof. unfold index. change 511%N with (N.ones 9). rewrite N.land_ones. by apply N.mod_lt. Qed.

Lemma testbit_small i x : (x < 512)%N → (9 ≤ i)%N → N.testbit x i = false.
Proof.
  intros Hx Hi. destruct (decide (x = 0)%N) as [->|Hne]; [apply N.bits_0|].
  apply N.bits_above_log2. apply N.log2_lt_pow2; [lia|].
  eapply N.lt_le_trans; [exact Hx|]. change 512%N with (2 ^ 9)%N. by apply N.pow_le_mono_r.
Qed.

Lemma testbit_511 i : N.testbit 511 i = bool_decide (i < 9)%N.
Proof.
  change 511%N with (N.ones 9). destruct (decide (i < 9)%N) as [Hi|Hi].
  - rewrite bool_decide_true by done. by apply N.ones_spec_low.
  - rewrite bool_decide_false by done. apply N.ones_spec_high. lia.
Qed.

Lemma testbit_shiftl x s i :
  N.testbit (N.shiftl x s) i = bool_decide (s ≤ i)%N && N.testbit x (i - s).
Proof.
  destruct (decide (s ≤ i)%N) as [Hs|Hs].
  - rewrite bool_decide_true by done. by rewrite N.shiftl_spec_high'.
  - rewrite bool_decide_false by done. rewrite N.shiftl_spec_low by lia. done.
Qed.

(** Bit [i] of an address whose indices are below 512. *)
Lemma testbit_address l4 l3 l2 l1 i :
  (l3 < 512)%N → (l2 < 512)%N → (l1 < 512)%N →
  N.testbit (address l4 l3 l2 l1) i =
    if decide (39 ≤ i)%N then N.testbit l4 (i - 39)
    else if decide (30 ≤ i)%N then N.testbit l3 (i - 30)
    else if decide (21 ≤ i)%N then N.testbit l2 (i - 21)
    else if decide (12 ≤ i)%N then N.testbit l1 (i - 12) else false.
Proof.
  intros H3 H2 H1. unfold address, L4Shift, L3Shift, L2Shift, L1Shift.
  rewrite !N.lor_spec, !testbit_shiftl.
  destruct (decide (39 ≤ i)%N).
  { rewrite !bool_decide_true by lia. rewrite (testbit_small (i - 30)), (testbit_small (i - 21)),
      (testbit_small (i - 12)) by (done || lia). by rewrite !andb_false_r, !orb_false_r. }
  rewrite (bool_decide_false (39 ≤ i)%N) by done. simpl. destruct (decide (30 ≤ i)%N).
  { rewrite !bool_decide_true by lia. rewrite (testbit_small (i - 21)),
      (testbit_small (i - 12)) by (done || lia). by rewrite !andb_false_r, !orb_false_r. }
  rewrite (bool_decide_false (30 ≤ i)%N) by done. simpl. destruct (decide (21 ≤ i)%N).
  { rewrite !bool_decide_true by lia. rewrite (testbit_small (i - 12)) by (done || lia).
    by rewrite !andb_false_r, !orb_false_r. }
  rewrite (bool_decide_false (21 ≤ i)%N) by done. simpl. destruct (decide (12 ≤ i)%N).
  - by rewrite bool_decide_true.
  - by rewrite bool_decide_false.
Qed.

(** The indices of an address built from indices are those indices. *)
Lemma indices_address l4 l3 l2 l1 :
  (l4 < 512)%N → (l3 < 512)%N → (l2 < 512)%N → (l1 < 512)%N →
  indices (address l4 l3 l2 l1) = (l4, l3, l2, l1).
Proof.
  intros H4 H3 H2 H1.
  assert (∀ s x, (x < 512)%N →
    (∀ j, (j < 9)%N → N.testbit (address l4 l3 l2 l1) (j + s) = N.testbit x j) →
    index s (address l4 l3 l2 l1) = x) as Hidx.
  { intros s x Hx Hbits. apply N.bits_inj. intros j. unfold index.
    rewrite N.land_spec, N.shiftr_spec', testbit_511.
    destruct (decide (j < 9)%N).
    - rewrite bool_decide_true, andb_true_r by done. by apply Hbits.
    - rewrite bool_decide_false, andb_false_r by done. symmetry. apply testbit_small; [done|lia]. }
  unfold indices. f_equal; [f_equal; [f_equal|]|]; apply Hidx; try done; intros j Hj;
    rewrite testbit_address by done; unfold L4Shift, L3Shift, L2Shift, L1Shift;
    rewrite ?N.add_sub; repeat case_decide; done || lia.
Qed.
End addresses.

(** ** Operations *)

(** The 2 MB region an address lies in. *)
Definition region (a : N) : N * N * N := (index L4Shift a, index L3Shift a, index L2Shift a).

(** [region_huge a t]: the region is mapped by a huge page. *)
Definition region_huge (a : N) (mlpt : MultiLevelPageTable.t) : bool :=
  match find_l2 (index L4Shift a) (index L3Shift a) mlpt with
  | Some tbl => huge_at (index L2Shift a) tbl
  | None => false
  end.

(** The 4 KB entry filed for an address, which a huge page of its region hides. *)
Definition small_entry (a : N) (mlpt : MultiLevelPageTable.t) : option PageTableEntry.t :=
  find_l2 (index L4Shift a) (index L3Shift a) mlpt ≫= read_l1 (index L2Shift a) (index L1Shift a).

Section operations.
Implicit Types (mlpt : MultiLevelPageTable.t) (a b : N).

Lemma GetEntry_small b mlpt : region_huge b mlpt = false → GetEntry b mlpt = small_entry b mlpt.
Proof.
  rewrite GetEntry_read. unfold region_huge, small_entry. destruct (find_l2 _ _ mlpt); [|done]. simpl. apply read_small.
Qed.

Lemma read_l1_default l2 l1 (o : option Level2Table) :
  read_l1 l2 l1 (default empty_l2 o) = o ≫= read_l1 l2 l1.
Proof. by destruct o. Qed.

Lemma read_default l2 l1 (o : option Level2Table) :
  read_l2 l2 l1 (default empty_l2 o) = o ≫= read_l2 l2 l1.
Proof. by destruct o. Qed.

Lemma huge_default l2 (o : option Level2Table) :
  huge_at l2 (default empty_l2 o) = match o with Some tbl => huge_at l2 tbl | None => false end.
Proof. by destruct o. Qed.

Lemma GetEntry_update_l2 a b g mlpt :
  GetEntry b (update_l2 (index L4Shift a) (index L3Shift a) g mlpt) =
    if decide (index L4Shift b = index L4Shift a ∧ index L3Shift b = index L3Shift a)
    then read_l2 (index L2Shift b) (index L1Shift b)
           (g (default empty_l2 (find_l2 (index L4Shift a) (index L3Shift a) mlpt)))
    else GetEntry b mlpt.
Proof. rewrite !GetEntry_read, find_update_l2. by destruct (decide _). Qed.

Lemma wf_update_l2 l4 l3 g mlpt :
  (∀ tbl, l2_wf tbl → l2_wf (g tbl)) → wf mlpt → wf (update_l2 l4 l3 g mlpt).
Proof.
  intros Hg Hwf k4 k3 tbl. rewrite find_update_l2. destruct (decide _); [|apply Hwf].
  intros [= <-]. apply Hg. destruct (find_l2 l4 l3 mlpt) as [tbl'|] eqn:Hf; simpl.
  - by eapply Hwf.
  - intros k Hk. unfold huge_at in Hk; simpl in Hk. by rewrite lookup_empty in Hk.
Qed.

Lemma l2_wf_set_huge l2 f tbl : l2_wf tbl → l2_wf (set_huge l2 f tbl).
Proof.
  intros Hwf k. unfold set_huge; simpl. rewrite huge_at_insert.
  destruct (decide (k = l2)) as [->|Hne].
  - intros _. rewrite lookup_insert_eq. eauto.
  - rewrite lookup_insert_ne by done. apply Hwf.
Qed.

Lemma l2_wf_set_regular l2 l1 f tbl : l2_wf tbl → l2_wf (set_regular l2 l1 f tbl).
Proof.
  intros Hwf k. unfold set_regular; simpl. rewrite huge_at_insert.
  destruct (decide (k = l2)) as [->|Hne]; [done|].
  rewrite lookup_delete_ne by done. apply Hwf.
Qed.

Lemma l2_wf_invalidate l2 l1 tbl : l2_wf tbl → l2_wf (invalidate_l2 l2 l1 tbl).
Proof.
  intros Hwf k. unfold invalidate_l2. destruct (huge_at l2 tbl) eqn:Hh; [|apply Hwf].
  simpl. rewrite huge_at_insert. destruct (decide (k = l2)) as [->|Hne]; [done|].
  rewrite lookup_alter_ne by done. apply Hwf.
Qed.

Lemma wf_SetEntry a f huge mlpt : wf mlpt → wf (SetEntry a f huge mlpt).
Proof.
  apply wf_update_l2. intros tbl. destruct huge; [apply l2_wf_set_huge|apply l2_wf_set_regular].
Qed.

Lemma wf_InvalidateEntry a mlpt : wf mlpt → wf (InvalidateEntry a mlpt).
Proof.
  unfold InvalidateEntry, indices. destruct (find_l2 _ _ mlpt); [|done].
  apply wf_update_l2, l2_wf_invalidate.
Qed.

Lemma wf_NewMultiLevelPageTable pid : wf (NewMultiLevelPageTable pid).
Proof. intros l4 l3 tbl. unfold find_l2; simpl. by rewrite lookup_empty. Qed.

(** Mapping a 4 KB page: a huge page of its region is gone, and what it hid is
    read again. *)
Lemma GetEntry_SetEntry_regular a b f mlpt :
  GetEntry b (SetEntry a f false mlpt) =
    if decide (region b = region a)
    then if decide (indices b = indices a)
         then Some ((default NewPageTableEntry (small_entry a mlpt))
                      <| PageTableEntry.FrameNumber := f |> <| PageTableEntry.Present := true |>)
         else small_entry b mlpt
    else GetEntry b mlpt.
Proof.
  unfold SetEntry, small_entry. unfold indices, region. rewrite GetEntry_update_l2, GetEntry_read.
  destruct (decide (index L4Shift b = index L4Shift a ∧ _)) as [[-> ->]|Hne].
  2:{ rewrite decide_False; [done|]. intros [=]; naive_solver. }
  rewrite read_set_regular, !read_default, !read_l1_default.
  destruct (decide (index L2Shift b = _)) as [->|H2].
  - rewrite (decide_True (P := (_, _) = _)) by done. destruct (decide (index L1Shift b = _)) as [->|H1].
    + by rewrite decide_True.
    + rewrite decide_False; [done|]. intros [=]; done.
  - rewrite decide_False; [done|]. intros [=]; done.
Qed.

(** Mapping a 2 MB page: the whole region reads the huge entry. *)
Lemma GetEntry_SetEntry_huge a b f mlpt :
  if decide (region b = region a)
  then ∃ e, GetEntry b (SetEntry a f true mlpt) = Some e ∧ PageTableEntry.FrameNumber e = f ∧
         PageTableEntry.Present e = true ∧ PageTableEntry.HugePage e = true
  else GetEntry b (SetEntry a f true mlpt) = GetEntry b mlpt.
Proof.
  unfold SetEntry. unfold indices. rewrite GetEntry_update_l2. unfold region.
  destruct (decide (index L4Shift b = index L4Shift a ∧ _)) as [[H4 H3]|Hne].
  - rewrite read_set_huge. destruct (decide (index L2Shift b = _)) as [H2|H2].
    + rewrite decide_True by congruence. eauto.
    + rewrite decide_False by (intros [=]; done). rewrite read_default, GetEntry_read.
      by rewrite H4, H3.
  - rewrite decide_False; [done|]. intros [=]; naive_solver.
Qed.

Lemma some_bind {A B} (x : A) (g : A → option B) : Some x ≫= g = g x.
Proof. done. Qed.

Lemma small_entry_SetEntry_huge a b f mlpt : small_entry b (SetEntry a f true mlpt) = small_entry b mlpt.
Proof.
  unfold SetEntry, small_entry. unfold indices. rewrite find_update_l2.
  destruct (decide (index L4Shift b = index L4Shift a ∧ _)) as [[-> ->]|Hne]; [|done].
  rewrite some_bind. apply (read_l1_default _ _ (find_l2 _ _ mlpt)).
Qed.

Lemma read_invalidate k2 k1 l2 l1 tbl :
  read_l2 k2 k1 (invalidate_l2 l2 l1 tbl) =
    if decide (k2 = l2)
    then if huge_at l2 tbl then read_l1 k2 k1 tbl
         else if decide (k1 = l1) then clear_entry <$> read_l1 k2 k1 tbl else read_l1 k2 k1 tbl
    else read_l2 k2 k1 tbl.
Proof.
  unfold invalidate_l2. destruct (huge_at l2 tbl) eqn:Hh; unfold read_l2, read_l1; simpl.
  - rewrite huge_at_insert. destruct (decide (k2 = l2)) as [->|H2]; [done|].
    fold (huge_at k2 tbl). by rewrite lookup_alter_ne.
  - change (huge_at k2 (mk_l2 _ _ (isHuge tbl))) with (huge_at k2 tbl).
    destruct (decide (k2 = l2)) as [->|H2]; [|by rewrite lookup_alter_ne]. rewrite Hh, lookup_alter_eq.
    destruct (l2_entries tbl !! l2) as [t1|]; simpl; [|by destruct (decide _)].
    destruct (decide (k1 = l1)) as [->|H1]; [by rewrite lookup_alter_eq|by rewrite lookup_alter_ne].
Qed.

(** Unmapping: a huge page goes as a whole and what it hid is read again; a 4 KB
    page is cleared alone. *)
Lemma GetEntry_InvalidateEntry a b mlpt :
  GetEntry b (InvalidateEntry a mlpt) =
    if decide (region b = region a)
    then if region_huge a mlpt then small_entry b mlpt
         else if decide (indices b = indices a) then clear_entry <$> small_entry b mlpt else small_entry b mlpt
    else GetEntry b mlpt.
Proof.
  unfold InvalidateEntry, region_huge, small_entry. unfold indices, region.
  destruct (find_l2 (index L4Shift a) _ mlpt) as [tbl|] eqn:Hf.
  2:{ destruct (decide (_ = _)) as [[= H4 H3 H2]|]; [|done]. rewrite GetEntry_read, H4, H3, Hf. by destruct (decide _). }
  rewrite GetEntry_update_l2, Hf. change (default empty_l2 (Some tbl)) with tbl.
  destruct (decide (index L4Shift b = index L4Shift a ∧ _)) as [[H4 H3]|Hne].
  2:{ rewrite decide_False; [done|]. intros [=]; naive_solver. }
  rewrite GetEntry_read, H4, H3. clear H4 H3.
  rewrite Hf, !some_bind, read_invalidate. destruct (decide (index L2Shift b = _)) as [->|H2].
  - rewrite (decide_True (P := (_, _) = _)) by done. destruct (huge_at _ tbl); [done|].
    destruct (decide (index L1Shift b = _)) as [->|H1]; [by rewrite decide_True|].
    rewrite decide_False; [done|]. intros [=]; done.
  - rewrite decide_False; [done|]. intros [=]; done.
Qed.
End operations.

(** ** The walk *)

Section walk.
Implicit Types (mlpt : MultiLevelPageTable.t) (a : N).

Lemma elem_of_all_indices i : i ∈ all_indices ↔ (i < 512)%N.
Proof.
  unfold all_indices. rewrite list_elem_of_fmap. split.
  - intros (n & -> & Hn%elem_of_seq). unfold PTEntriesPerLevel in Hn. lia.
  - intros Hi. exists (N.to_nat i). split; [lia|]. apply elem_of_seq.
    unfold PTEntriesPerLevel. lia.
Qed.

Lemma elem_of_walk_l1 l4 l3 l2 tbl x :
  x ∈ walk_l1 l4 l3 l2 tbl ↔
    ∃ l1 e, (l1 < 512)%N ∧ l1_entries tbl !! l1 = Some e ∧ PageTableEntry.Present e = true ∧
            x = (address l4 l3 l2 l1, e, false).
Proof.
  unfold walk_l1. rewrite list_elem_of_bind. split.
  - intros (l1 & Hx & Hl%elem_of_all_indices).
    destruct (l1_entries tbl !! l1) as [e|] eqn:He; [|by apply elem_of_nil in Hx].
    destruct (PageTableEntry.Present e) eqn:Hp; [|by apply elem_of_nil in Hx].
    apply list_elem_of_singleton in Hx. eauto 10.
  - intros (l1 & e & Hl & He & Hp & ->). exists l1. rewrite He, Hp.
    split; [by apply list_elem_of_singleton|by apply elem_of_all_indices].
Qed.

(** What the walk of a level-2 table reports: per slot, the huge entry, or the
    present 4 KB entries. *)
Lemma elem_of_walk_l2 l4 l3 tbl x :
  l2_wf tbl →
  x ∈ walk_l2 l4 l3 tbl ↔
    ∃ l2 l1 e, (l2 < 512)%N ∧ (l1 < 512)%N ∧ read_l2 l2 l1 tbl = Some e ∧
      PageTableEntry.Present e = true ∧
      (if huge_at l2 tbl then l1 = 0%N else True) ∧
      x = (address l4 l3 l2 l1, e, huge_at l2 tbl).
Proof.
  intros Hwf. unfold walk_l2. rewrite list_elem_of_bind. unfold read_l2. split.
  - intros (l2 & Hx & Hl2%elem_of_all_indices). exists l2.
    destruct (huge_at l2 tbl) eqn:Hh.
    + destruct (Hwf l2 Hh) as (e & He & Hp). rewrite He, Hp in Hx. simpl in Hx.
      apply list_elem_of_singleton in Hx as ->. exists 0%N, e. by split_and!.
    + assert (x ∈ match l2_entries tbl !! l2 with
                  | Some l1Table => walk_l1 l4 l3 l2 l1Table | None => [] end) as Hx'.
      { by destruct (hugePageEntries tbl !! l2). }
      destruct (l2_entries tbl !! l2) as [t1|] eqn:Ht; [|by apply elem_of_nil in Hx'].
      apply elem_of_walk_l1 in Hx' as (l1 & e & Hl1 & He & Hp & ->). eauto 10.
  - intros (l2 & l1 & e & Hl2 & Hl1 & He & Hp & H0 & ->). exists l2.
    split; [|by apply elem_of_all_indices]. destruct (huge_at l2 tbl) eqn:Hh.
    + rewrite He, Hp. subst l1. simpl. by apply list_elem_of_singleton.
    + destruct (l2_entries tbl !! l2) as [t1|] eqn:Ht; [|done]. simpl in He.
      assert ((address l4 l3 l2 l1, e, false) ∈ walk_l1 l4 l3 l2 t1) as Hin
        by (apply elem_of_walk_l1; eauto 10).
      by destruct (hugePageEntries tbl !! l2).
Qed.

Lemma elem_of_WalkPages mlpt x :
  wf mlpt →
  x ∈ WalkPages mlpt ↔
    ∃ l4 l3 tbl, (l4 < 512)%N ∧ (l3 < 512)%N ∧ find_l2 l4 l3 mlpt = Some tbl ∧
                 x ∈ walk_l2 l4 l3 tbl.
Proof.
  intros Hwf. unfold WalkPages, find_l2. rewrite list_elem_of_bind. split.
  - intros (l4 & Hx & Hl4%elem_of_all_indices). exists l4.
    destruct (l4_entries _ !! l4) as [t3|]; [|by apply elem_of_nil in Hx].
    apply list_elem_of_bind in Hx as (l3 & Hx & Hl3%elem_of_all_indices). exists l3. simpl.
    destruct (l3_entries t3 !! l3) as [t2|]; [|by apply elem_of_nil in Hx]. eauto 10.
  - intros (l4 & l3 & tbl & Hl4 & Hl3 & Hf & Hx). exists l4.
    split; [|by apply elem_of_all_indices].
    destruct (l4_entries _ !! l4) as [t3|]; [|done]. simpl in Hf.
    apply list_elem_of_bind. exists l3. rewrite Hf. split; [done|by apply elem_of_all_indices].
Qed.
End walk.

(** ** Properties *)

(** C37: mapping and unmapping, huge pages included.  A 4 KB mapping is read back
    at its address with its frame; in its region it ends a huge page, after which
    the 4 KB entries that the huge page hid are read.  A 2 MB mapping is read back
    all over its region and keeps the 4 KB entries below it.  [InvalidateEntry]
    ends the huge page of the region, or else clears the one 4 KB entry.  None of
    them changes what is read outside the region. *)
Theorem multilevel_set_get a f mlpt b :
  GetEntry b (SetEntry a f false mlpt) =
    (if decide (region b = region a)
     then if decide (indices b = indices a)
          then Some ((default NewPageTableEntry (small_entry a mlpt))
                       <| PageTableEntry.FrameNumber := f |> <| PageTableEntry.Present := true |>)
          else small_entry b mlpt
     else GetEntry b mlpt) ∧
  (if decide (region b = region a)
   then ∃ e, GetEntry b (SetEntry a f true mlpt) = Some e ∧
      PageTableEntry.FrameNumber e = f ∧ PageTableEntry.Present e = true ∧
      PageTableEntry.HugePage e = true
   else GetEntry b (SetEntry a f true mlpt) = GetEntry b mlpt) ∧
  small_entry b (SetEntry a f true mlpt) = small_entry b mlpt ∧
  GetEntry b (InvalidateEntry a mlpt) =
    (if decide (region b = region a)
     then if region_huge a mlpt then small_entry b mlpt
          else if decide (indices b = indices a) then clear_entry <$> small_entry b mlpt
          else small_entry b mlpt
     else GetEntry b mlpt) ∧
  (region_huge b mlpt = false → GetEntry b mlpt = small_entry b mlpt).
Proof.
  split_and!; [apply GetEntry_SetEntry_regular|apply GetEntry_SetEntry_huge|apply small_entry_SetEntry_huge
    |apply GetEntry_InvalidateEntry|apply GetEntry_small].
Qed.

(** [WalkPages] visits exactly the mapped pages: in a table where every slot
    marked huge holds a present entry (which every operation preserves), it
    reports [(a, e, huge)] exactly when [a] is the first address of a page that
    [GetEntry] maps by the present entry [e], huge or not. *)
Theorem multilevel_walk_complete mlpt a e huge :
  wf mlpt →
  (a, e, huge) ∈ WalkPages mlpt ↔
    (let '(l4, l3, l2, l1) := indices a in a = address l4 l3 l2 l1 ∧ (huge = true → l1 = 0%N)) ∧
    GetEntry a mlpt = Some e ∧ PageTableEntry.Present e = true ∧ region_huge a mlpt = huge.
Proof.
  intros Hwf. rewrite elem_of_WalkPages by done. split.
  - intros (l4 & l3 & tbl & H4 & H3 & Hf & Hx).
    apply elem_of_walk_l2 in Hx as (l2 & l1 & e' & H2 & H1 & Hr & Hp & H0 & [= -> -> ->]);
      [|by eapply Hwf].
    rewrite GetEntry_read. unfold region_huge.
    pose proof (indices_address l4 l3 l2 l1 H4 H3 H2 H1) as Hidx.
    rewrite Hidx. unfold indices in Hidx. injection Hidx as -> -> -> ->. rewrite Hf. simpl.
    split_and!; [done| |done..]. intros Hh. by rewrite Hh in H0.
  - rewrite GetEntry_read. unfold region_huge, indices. intros ([Ha H0] & Hg & Hp & Hh).
    exists (index L4Shift a), (index L3Shift a).
    destruct (find_l2 _ _ mlpt) as [tbl|] eqn:Hf; [|done]. simpl in Hg. exists tbl.
    split_and!; [apply index_lt..|done|]. apply elem_of_walk_l2; [by eapply Hwf|].
    exists (index L2Shift a), (index L1Shift a), e.
    split_and!; [apply index_lt..|done|done| |by rewrite <-Ha, Hh].
    rewrite Hh. destruct huge; auto.
Qed.

(** *** Witnesses *)

(** A 4 KB page below a huge page is read again when the huge page goes. *)
Lemma multilevel_set_get_witness :
  let small := SetEntry 4096 3 false (NewMultiLevelPageTable "P2") in
  let huge := SetEntry 0 9 true small in
  GetEntry 4096 (InvalidateEntry 0 huge) = GetEntry 4096 small.
Proof.
  intros small huge.
  destruct (multilevel_set_get 0 9 small 4096) as (_ & _ & Hs & _ & Hg).
  destruct (multilevel_set_get 0 9 huge 4096) as (_ & _ & _ & Hi & _).
  assert (region_huge 4096 small = false) as Hsmall by (vm_compute; reflexivity).
  rewrite (Hg Hsmall), <- Hs. fold huge. exact Hi.
Defined.

Lemma multilevel_walk_complete_witness :
  (4096%N, PageTableEntry.mk 3 true false false false true, false) ∈
    WalkPages (SetEntry 4096 3 false (NewMultiLevelPageTable "P2")).
Proof.
  apply multilevel_walk_complete.
  - apply wf_SetEntry, wf_NewMultiLevelPageTable.
  - split; [split; [vm_compute; reflexivity|intros H; discriminate H]|].
    split; [vm_compute; reflexivity|]. split; vm_compute; reflexivity.
Defined.
