(* ===== verification/Advanced.v ===== *)
(** * NUMA placement, page clusters and compression: [internal/memory/advanced.go]

    Three independent stores of the memory manager.  The compression store's
    invariant ties its counters to its contents, and shows that a failed
    decompression is undone exactly. *)

From S2P Require Import Prelude Models Heap Tlb.
Local Open Scope Z_scope.

(** ** NUMA nodes *)
Module NumaManager.
Record t := mk { nodes : list NumaNode.t }.
#[global] Instance eta_t : Eta t := λ r, mk (nodes r).
Definition NewNumaManager : t := mk [].
Definition AddNode (node : NumaNode.t) (nm : t) : t := nm <| nodes ::= λ l, l ++ [node] |>.

Definition getNodeLocked (nodeID : Z) (nm : t) : option (nat * NumaNode.t) :=
  list_find (λ n, NumaNode.ID n = nodeID) (nodes nm).
Definition GetNode (nodeID : Z) (nm : t) : res NumaNode.t :=
  match getNodeLocked nodeID nm with
  | Some (_, n) => Ok n
  | None => Err (ErrNodeNotFound nodeID)
  end.

Definition estimateAccessCost (from to : NumaNode.t) : Z :=
  if NumaNode.ID from =? NumaNode.ID to then NumaNode.AccessCostNs to
  else i64 (NumaNode.AccessCostNs to * 2).

(** [for _, n := range nm.nodes { ... }] of [GetClosestNode]. *)
Definition closer (target : NumaNode.t) (targetID : Z) (best : NumaNode.t * Z)
    (n : NumaNode.t) : NumaNode.t * Z :=
  if NumaNode.ID n =? targetID then best
  else let cost := estimateAccessCost target n in
       if cost <? best.2 then (n, cost) else best.
Definition GetClosestNode (targetID : Z) (nm : t) : option NumaNode.t * Z :=
  match nodes nm with
  | [] => (None, 0)
  | n0 :: _ =>
      match getNodeLocked targetID nm with
      | None => (Some n0, 0)
      | Some (_, target) =>
          let '(best, cost) := foldl (closer target targetID)
            (target, NumaNode.AccessCostNs target) (nodes nm) in
          (Some best, cost)
      end
  end.

(** The frame is a fresh object outside every frame table. *)
Definition AllocateFrameOnNode `{GoEnv} (nodeID : Z) (pageID : N) (processID : string) (nm : t)
    : M heap (res ptr * t) :=
  match getNodeLocked nodeID nm with
  | None => mret (Err (ErrNodeNotFound nodeID), nm)
  | Some (i, node) =>
      if NumaNode.LocalFrames node <=? 0 then mret (Err (ErrNodeFull nodeID), nm)
      else
        let nm := nm <| nodes ::= alter (λ n, n <| NumaNode.LocalFrames ::= λ k, i32 (k - 1) |>) i |> in
        p ← new_frame (Frame.NewFrame (i32 (Z.of_N pageID)));
        now ← time_now;
        update p (Frame.AllocateNuma now pageID processID nodeID) ;;
        mret (Ok p, nm)
  end.

Definition GetNodes (nm : t) : list NumaNode.t := nodes nm.
End NumaManager.

(** ** Page clusters *)
Module PageClusterManager.
Record t := mk {
  clusters : gmap string PageCluster.t;
  minClusterSize : Z; maxClusterSize : Z; sequentialBoost : Z }.
#[global] Instance eta_t : Eta t := λ r,
  mk (clusters r) (minClusterSize r) (maxClusterSize r) (sequentialBoost r).
Definition NewPageClusterManager (minSize maxSize : Z) : t := mk ∅ minSize maxSize 8.

(** The same key as the TLB's. *)
Definition clusterKey (processID : string) (anchorPage : N) : string :=
  TLB.makeKey processID anchorPage.

(** [pages[i]-pages[i-1] == 1] in [uint64] for all consecutive pages. *)
Fixpoint consecutive (pages : list N) : bool :=
  match pages with
  | a :: (b :: _) as rest => (u64_sub b a =? 1)%N && consecutive rest
  | _ => true
  end.

Definition DetectSequential (processID : string) (pages : list N) (pcm : t)
    : option PageCluster.t * t :=
  match pages with
  | anchor :: _ :: _ :: _ =>
      if consecutive pages then
        let cluster := PageCluster.mk [] anchor (maxClusterSize pcm) true processID in
        (Some cluster, pcm <| clusters ::= <[clusterKey processID anchor := cluster]> |>)
      else (None, pcm)
  | _ => (None, pcm)
  end.

Definition GetPrefetchPages (processID : string) (anchorPage : N) (pcm : t) : list N :=
  match clusters pcm !! clusterKey processID anchorPage with
  | Some cluster =>
      if PageCluster.Sequential cluster
      then (λ i, u64_add (u64_add anchorPage (N.of_nat i)) 1)
             <$> seq 0 (Z.to_nat (PageCluster.ClusterSize cluster))
      else []
  | None => []
  end.

Definition ClearClusters (processID : string) (pcm : t) : t :=
  if String.eqb processID "" then pcm <| clusters := ∅ |>
  else pcm <| clusters ::= filter (λ kc, PageCluster.ProcessID kc.2 ≠ processID) |>.
End PageClusterManager.

(** ** Compressed pages *)
Module CompressionManager.
(** [Data] is only ever a zeroed slice of length [CompressedSize]. *)
Record CompressedPage := mk_page {
  PageID : N; OriginalSize : Z; CompressedSize : Z; CreatedAt : Z }.
Record t := mk {
  compressedPages : gmap N CompressedPage;
  totalOriginal : Z; totalCompressed : Z;
  pagesCompressed : Z; pagesDecompressed : Z;
  compressionRatio : f64; minRatio : f64 }.
#[global] Instance eta_t : Eta t := λ r,
  mk (compressedPages r) (totalOriginal r) (totalCompressed r) (pagesCompressed r)
     (pagesDecompressed r) (compressionRatio r) (minRatio r).

Definition zero : f64 := f64_of_Z 0.
Definition NewCompressionManager (minRatio : f64) : t := mk ∅ 0 0 0 0 zero minRatio.

Definition ShouldCompress (pageID : N) (cm : t) : bool :=
  bool_decide (compressedPages cm !! pageID = None).

(** [if cm.totalOriginal > 0 { cm.compressionRatio = ... }] *)
Definition update_ratio (cm : t) : t :=
  if 0 <? totalOriginal cm
  then cm <| compressionRatio :=
             f64_div (f64_of_Z (totalCompressed cm)) (f64_of_Z (totalOriginal cm)) |>
  else cm.

(** Filing a page with the two byte totals. *)
Definition file_page (cp : CompressedPage) (cm : t) : t :=
  cm <| compressedPages ::= <[PageID cp := cp]> |>
     <| totalOriginal ::= λ x, i64 (x + OriginalSize cp) |>
     <| totalCompressed ::= λ x, i64 (x + CompressedSize cp) |>.

(** [data] is given by its length, the only thing the code reads of it. *)
Definition CompressPage `{GoEnv} (pageID : N) (dataLen : Z) (cm : t)
    : M heap (option CompressedPage * t) :=
  if dataLen =? 0 then mret (None, cm)
  else
    let compressedSize := Z.quot dataLen 2 in
    if f64_leb (minRatio cm) (f64_div (f64_of_Z compressedSize) (f64_of_Z dataLen))
    then mret (None, cm)
    else
      now ← time_now;
      let cp := mk_page pageID dataLen compressedSize now in
      mret match compressedPages cm !! pageID with
           | Some _ => (None, cm)
           | None =>
               (Some cp, update_ratio ((file_page cp cm) <| pagesCompressed ::= λ x, i64 (x + 1) |>))
           end.

Definition RestoreCompressed (cp : CompressedPage) (cm : t) : t :=
  match compressedPages cm !! PageID cp with
  | Some _ => cm
  | None => update_ratio ((file_page cp cm) <| pagesDecompressed ::= λ x, i64 (x - 1) |>)
  end.

Definition DecompressPage (pageID : N) (cm : t) : option CompressedPage * t :=
  match compressedPages cm !! pageID with
  | None => (None, cm)
  | Some cp =>
      let cm := cm <| compressedPages ::= delete pageID |>
                   <| totalOriginal ::= λ x, i64 (x - OriginalSize cp) |>
                   <| totalCompressed ::= λ x, i64 (x - CompressedSize cp) |>
                   <| pagesDecompressed ::= λ x, i64 (x + 1) |> in
      (Some cp, if 0 <? totalOriginal cm then update_ratio cm
                else cm <| compressionRatio := zero |>)
  end.

Definition GetStats (cm : t) : CompressionStats.t :=
  CompressionStats.mk (totalOriginal cm) (totalCompressed cm) (compressionRatio cm)
    (pagesCompressed cm) (pagesDecompressed cm).

Definition Reset (cm : t) : t :=
  cm <| compressedPages := ∅ |> <| totalOriginal := 0 |> <| totalCompressed := 0 |>
     <| pagesCompressed := 0 |> <| pagesDecompressed := 0 |> <| compressionRatio := zero |>.

(** The totals of a store's contents. *)
Definition total (size_of : CompressedPage → Z) (m : gmap N CompressedPage) : Z :=
  map_fold (λ _ cp acc, size_of cp + acc) 0 m.

(** The ratio the two totals give. *)
Definition ratio_of (cm : t) : f64 :=
  if 0 <? totalOriginal cm
  then f64_div (f64_of_Z (totalCompressed cm)) (f64_of_Z (totalOriginal cm)) else zero.

(** Counters describe the contents; every entry is a non-empty page filed under
    its own ID; the bytes fit in an [int64]. *)
Record wf (cm : t) : Prop := {
  wf_key k cp : compressedPages cm !! k = Some cp → PageID cp = k ∧ 0 < OriginalSize cp;
  wf_original : totalOriginal cm = i64 (total OriginalSize (compressedPages cm));
  wf_compressed : totalCompressed cm = i64 (total CompressedSize (compressedPages cm));
  wf_stored : i64 (pagesCompressed cm - pagesDecompressed cm) =
              i64 (Z.of_nat (size (compressedPages cm)));
  wf_decompressed : i64 (pagesDecompressed cm) = pagesDecompressed cm;
  wf_ratio : compressionRatio cm = ratio_of cm;
}.
End CompressionManager.

(** ** Compression: lemmas *)

Section compression.
Import CompressionManager.
Implicit Types (cm : CompressionManager.t) (cp : CompressedPage).

Lemma total_insert s m k cp :
  m !! k = None → total s (<[k := cp]> m) = s cp + total s m.
Proof. intros Hk. unfold total. rewrite map_fold_insert_L; [done|lia|done]. Qed.

Lemma total_delete s m k cp :
  m !! k = Some cp → total s m = s cp + total s (delete k m).
Proof.
  intros Hk. rewrite <-(insert_delete_id m k cp) at 1 by done.
  apply total_insert, lookup_delete_eq.
Qed.

Lemma total_nonneg s m :
  map_Forall (λ _ cp, 0 ≤ s cp) m → 0 ≤ total s m.
Proof.
  induction m as [|k cp m Hk IH] using map_ind; intros Hall; [done|].
  rewrite total_insert by done. apply map_Forall_insert in Hall as [? ?]; [|done].
  specialize (IH H0). lia.
Qed.

Lemma i64_idem x : i64 (i64 x) = i64 x.
Proof. apply i64_small, i64_range. Qed.

Lemma i64_add_sub x y : i64 (i64 (x + y) - y) = i64 x.
Proof. rewrite i64_sub_l. f_equal. lia. Qed.

Lemma i64_sub_add x y : i64 (i64 (x - y) + y) = i64 x.
Proof. rewrite i64_add_l. f_equal. lia. Qed.

(** The size a page contributes is part of a total that fits. *)
Lemma stored_fits cm k cp :
  wf cm → total OriginalSize (compressedPages cm) < 2 ^ 63 → compressedPages cm !! k = Some cp →
  0 < total OriginalSize (compressedPages cm) ∧
  totalOriginal cm = total OriginalSize (compressedPages cm).
Proof.
  intros Hwf Hfit Hk. pose proof (total_delete OriginalSize _ _ _ Hk) as Ht.
  assert (0 ≤ total OriginalSize (delete k (compressedPages cm))).
  { apply total_nonneg. intros j c [_ Hc]%lookup_delete_Some. apply (wf_key _ Hwf) in Hc. lia. }
  destruct (wf_key _ Hwf _ _ Hk) as [_ Hpos].
  rewrite (wf_original _ Hwf), i64_small; lia.
Qed.

Lemma wf_NewCompressionManager r : wf (NewCompressionManager r).
Proof. constructor; try done. Qed.

Lemma restore_decompress cm k cp cm' :
  wf cm → total OriginalSize (compressedPages cm) < 2 ^ 63 →
  DecompressPage k cm = (Some cp, cm') → RestoreCompressed cp cm' = cm.
Proof.
  intros Hwf Hfit. unfold DecompressPage.
  destruct (compressedPages cm !! k) as [cp'|] eqn:Hk; [|done]. intros [= -> Hcm'].
  destruct (wf_key _ Hwf _ _ Hk) as [Hid _].
  destruct (stored_fits _ _ _ Hwf Hfit Hk) as [Hpos Hto].
  assert (compressedPages cm' = delete k (compressedPages cm) ∧
    totalOriginal cm' = i64 (totalOriginal cm - OriginalSize cp) ∧
    totalCompressed cm' = i64 (totalCompressed cm - CompressedSize cp) ∧
    pagesCompressed cm' = pagesCompressed cm ∧
    pagesDecompressed cm' = i64 (pagesDecompressed cm + 1) ∧
    minRatio cm' = minRatio cm) as (H1 & H2 & H3 & H4 & H5 & H6).
  { subst cm'. unfold update_ratio. simpl. by destruct (0 <? _). }
  unfold RestoreCompressed. rewrite H1, Hid, lookup_delete_eq.
  unfold update_ratio, file_page; simpl. rewrite H1, H2, H3, H4, H5, H6, Hid, insert_delete_id by done.
  rewrite !i64_sub_add, i64_add_sub, (wf_decompressed _ Hwf).
  rewrite (wf_original _ Hwf), (wf_compressed _ Hwf), !i64_idem.
  rewrite <-(wf_original _ Hwf), <-(wf_compressed _ Hwf).
  pose proof (wf_ratio _ Hwf) as Hr. unfold ratio_of in Hr. revert Hr.
  rewrite (proj2 (Z.ltb_lt 0 (totalOriginal cm))) by lia. intros <-. by destruct cm.
Qed.

Lemma wf_CompressPage `{GoEnv} cm k n h :
  wf cm → 0 < n → total OriginalSize (compressedPages cm) + n < 2 ^ 63 →
  wf (CompressPage k n cm h).1.2.
Proof.
  intros Hwf Hn Hfit. unfold CompressPage. destruct (n =? 0); [done|].
  destruct (f64_leb _ _); [done|]. unfold mbind, M_bind; simpl.
  destruct (compressedPages cm !! k) as [cp|] eqn:Hk; [done|]. simpl.
  assert (0 ≤ total OriginalSize (compressedPages cm)) as Hnn.
  { apply total_nonneg. intros j c Hc. apply (wf_key _ Hwf) in Hc. lia. }
  unfold update_ratio, file_page; simpl.
  rewrite (wf_original _ Hwf), (wf_compressed _ Hwf), !i64_add_l.
  rewrite (i64_small (_ + n)) by lia. rewrite (proj2 (Z.ltb_lt 0 (_ + n))) by lia.
  constructor; simpl.
  - intros j c [[<- <-]|[_ Hc]]%lookup_insert_Some; [done|]. by apply Hwf.
  - rewrite total_insert by done. simpl. rewrite i64_small; [lia|lia].
  - rewrite total_insert by done. simpl. f_equal. lia.
  - rewrite map_size_insert_None by done. rewrite i64_sub_l.
    pose proof (wf_stored _ Hwf) as Hs.
    replace (pagesCompressed cm + 1 - pagesDecompressed cm)
      with (pagesCompressed cm - pagesDecompressed cm + 1) by lia.
    rewrite <-i64_add_l, Hs, i64_add_l. f_equal. lia.
  - apply Hwf.
  - unfold ratio_of; simpl. by rewrite (proj2 (Z.ltb_lt 0 (_ + n))) by lia.
Qed.

Lemma wf_DecompressPage cm k :
  wf cm → total OriginalSize (compressedPages cm) < 2 ^ 63 → wf (DecompressPage k cm).2.
Proof.
  intros Hwf Hfit. unfold DecompressPage.
  destruct (compressedPages cm !! k) as [cp|] eqn:Hk; [|done].
  pose proof (total_delete OriginalSize _ _ _ Hk) as Ho.
  pose proof (total_delete CompressedSize _ _ _ Hk) as Hc.
  unfold update_ratio; simpl.
  match goal with |- wf (if _ then _ else ?b) => set (y := b) end.
  assert (∀ r, r = ratio_of (y <| compressionRatio := r |>) →
    wf (y <| compressionRatio := r |>)) as Hy.
  { intros r Hr. constructor; [| | | | |exact Hr]; unfold y; simpl.
    - intros j c [_ Hj]%lookup_delete_Some. by apply Hwf.
    - rewrite (wf_original _ Hwf), i64_sub_l. f_equal. lia.
    - rewrite (wf_compressed _ Hwf), i64_sub_l. f_equal. lia.
    - rewrite map_size_delete_Some by (by rewrite Hk).
      assert (size (compressedPages cm) ≠ 0)%nat.
      { intros Hz%map_size_empty_iff. by rewrite Hz, lookup_empty in Hk. }
      pose proof (wf_stored _ Hwf) as Hs.
      rewrite <-(Z.add_opp_r _ (i64 _)), Z.add_comm.
      replace (- i64 (pagesDecompressed cm + 1) + pagesCompressed cm)
        with (pagesCompressed cm - i64 (pagesDecompressed cm + 1)) by lia.
      rewrite i64_sub_r. replace (pagesCompressed cm - (pagesDecompressed cm + 1))
        with (pagesCompressed cm - pagesDecompressed cm - 1) by lia.
      rewrite <-i64_sub_l, Hs, i64_sub_l. f_equal. lia.
    - apply i64_idem. }
  destruct (0 <? i64 (totalOriginal cm - OriginalSize cp)) eqn:Hlt.
  - apply (Hy (f64_div _ _)). unfold ratio_of, y; simpl. by rewrite Hlt.
  - apply (Hy zero). unfold ratio_of, y; simpl. by rewrite Hlt.
Qed.

Lemma update_ratio_pages cm : compressedPages (update_ratio cm) = compressedPages cm.
Proof. unfold update_ratio. by destruct (0 <? _). Qed.

(** Whether a page of [n] bytes is refused for compressing too little. *)
Definition poor (n : Z) cm : bool :=
  f64_leb (minRatio cm) (f64_div (f64_of_Z (Z.quot n 2)) (f64_of_Z n)).

(** A page is stored unless it compresses too little or is stored already. *)
Lemma CompressPage_stores `{GoEnv} cm k n h :
  0 < n →
  let '((r, cm1), h1) := CompressPage k n cm h in
  if poor n cm || negb (ShouldCompress k cm) then r = None ∧ cm1 = cm
  else ∃ time, r = Some (mk_page k n (Z.quot n 2) time) ∧
    compressedPages cm1 = <[k := mk_page k n (Z.quot n 2) time]> (compressedPages cm).
Proof.
  intros Hn. unfold CompressPage, poor, ShouldCompress.
  destruct (Z.eqb_spec n 0); [lia|]. destruct (f64_leb _ _); [done|]. unfold mbind, M_bind; simpl.
  destruct (compressedPages cm !! k) as [cp|] eqn:Hk; simpl.
  - done.
  - eexists. split; [reflexivity|]. by rewrite update_ratio_pages.
Qed.

(** A stored page is taken out once. *)
Lemma DecompressPage_takes cm k cp :
  compressedPages cm !! k = Some cp →
  ∃ cm', DecompressPage k cm = (Some cp, cm') ∧ compressedPages cm' = delete k (compressedPages cm) ∧
    DecompressPage k cm' = (None, cm').
Proof.
  intros Hk. unfold DecompressPage at 1. rewrite Hk. eexists. split; [reflexivity|].
  match goal with |- compressedPages ?c = _ ∧ _ => set (cm' := c) end.
  assert (compressedPages cm' = delete k (compressedPages cm)) as Hc.
  { unfold cm'. destruct (0 <? _); [by rewrite update_ratio_pages|done]. }
  split; [exact Hc|]. unfold DecompressPage. by rewrite Hc, lookup_delete_eq.
Qed.
End compression.

(** ** Properties *)

(** C40: the compression store.  Its counters describe its contents, through every
    compression and decompression whose byte total fits in an [int64].  A page is
    stored unless half its size is not below the least ratio or it is stored
    already (then nothing changes); a stored page is found once, with its sizes,
    and taking it out leaves the contents from before.  Restoring a page after a
    failed allocation undoes its decompression exactly, statistics included. *)
Theorem compression_store `{GoEnv} cm k n h :
  CompressionManager.wf cm → 0 < n →
  CompressionManager.total CompressionManager.OriginalSize
    (CompressionManager.compressedPages cm) + n < 2 ^ 63 →
  (let '((r, cm1), h1) := CompressionManager.CompressPage k n cm h in
   CompressionManager.wf cm1 ∧
   if poor n cm || negb (CompressionManager.ShouldCompress k cm) then r = None ∧ cm1 = cm
   else ∃ time cm2,
     let cp := CompressionManager.mk_page k n (Z.quot n 2) time in
     r = Some cp ∧
     CompressionManager.compressedPages cm1 = <[k := cp]> (CompressionManager.compressedPages cm) ∧
     CompressionManager.DecompressPage k cm1 = (Some cp, cm2) ∧
     CompressionManager.compressedPages cm2 = CompressionManager.compressedPages cm ∧
     CompressionManager.DecompressPage k cm2 = (None, cm2)) ∧
  CompressionManager.wf (CompressionManager.DecompressPage k cm).2 ∧
  match CompressionManager.DecompressPage k cm with
  | (Some cp, cm') => CompressionManager.RestoreCompressed cp cm' = cm
  | (None, cm') => cm' = cm ∧ CompressionManager.ShouldCompress k cm = true
  end.
Proof.
  intros Hwf Hn Hfit. split_and!; [|apply wf_DecompressPage; [done|lia]|].
  - pose proof (wf_CompressPage cm k n h Hwf Hn Hfit) as Hw. pose proof (CompressPage_stores cm k n h Hn) as Hs.
    destruct (CompressionManager.CompressPage k n cm h) as [[r cm1] h1]. split; [done|].
    destruct (poor n cm || _) eqn:Hpoor; [done|]. destruct Hs as (time & -> & Hc).
    destruct (DecompressPage_takes cm1 k (CompressionManager.mk_page k n (Z.quot n 2) time)) as (cm2 & Hd & Hc2 & Hno);
      [by rewrite Hc, lookup_insert_eq|].
    exists time, cm2. split_and!; [done|done|done| |done]. rewrite Hc2, Hc. apply delete_insert_id.
    apply orb_false_iff in Hpoor as [_ Hnew%negb_false_iff]. by apply bool_decide_eq_true in Hnew.
  - destruct (CompressionManager.DecompressPage k cm) as [[cp|] cm'] eqn:Hd.
    + eapply restore_decompress; [done| |exact Hd]. lia.
    + revert Hd. unfold CompressionManager.DecompressPage, CompressionManager.ShouldCompress.
      destruct (_ !! k); [by intros [=]|]. by intros [= <-].
Qed.

(** The scan of [GetClosestNode]: the cost never grows, bounds every node
    scanned, and belongs to the node it comes with. *)
Lemma closer_spec target targetID l best :
  let r := foldl (NumaManager.closer target targetID) best l in
  r.2 ≤ best.2 ∧
  (∀ n, n ∈ l → NumaNode.ID n ≠ targetID → r.2 ≤ NumaManager.estimateAccessCost target n) ∧
  (r = best ∨ ∃ n, n ∈ l ∧ r = (n, NumaManager.estimateAccessCost target n)).
Proof.
  revert best. induction l as [|x l IH]; intros best r.
  { subst r; simpl. split_and!; [lia|by intros ? ?%elem_of_nil|by left]. }
  destruct (IH (NumaManager.closer target targetID best x)) as (H1 & H2 & H3).
  assert (r = foldl (NumaManager.closer target targetID)
    (NumaManager.closer target targetID best x) l) as -> by done.
  revert H1 H2 H3. set (r := foldl _ _ l). unfold NumaManager.closer. intros H1 H2 H3.
  destruct (Z.eqb_spec (NumaNode.ID x) targetID) as [Heq|Hne].
  - split_and!; [done| |set_solver]. intros n [->|Hn]%elem_of_cons ?; [done|auto].
  - destruct (Z.ltb_spec (NumaManager.estimateAccessCost target x) best.2) as [Hlt|Hge];
      simpl in *; (split_and!; [lia| |]).
    1,3: intros n [->|Hn]%elem_of_cons ?; [lia|auto].
    + destruct H3 as [->|(n & Hn & ->)]; right; [exists x|exists n]; set_solver.
    + destruct H3 as [->|(n & Hn & ->)]; [by left|right; exists n; set_solver].
Qed.

(** [GetClosestNode] answers with a node of the table whose access cost from
    the target, local cost for itself and twice its cost for a remote node, is
    the reported one, and no node is cheaper. *)
Theorem closest_node_cheapest nm targetID target i :
  NumaManager.getNodeLocked targetID nm = Some (i, target) →
  ∃ best cost, NumaManager.GetClosestNode targetID nm = (Some best, cost) ∧
    best ∈ NumaManager.nodes nm ∧
    cost ≤ NumaNode.AccessCostNs target ∧
    (∀ n, n ∈ NumaManager.nodes nm → NumaNode.ID n ≠ targetID →
       cost ≤ NumaManager.estimateAccessCost target n) ∧
    (best = target ∧ cost = NumaNode.AccessCostNs target ∨
     cost = NumaManager.estimateAccessCost target best).
Proof.
  intros Ht. pose proof Ht as (Hi & Hid & _)%list_find_Some.
  assert (target ∈ NumaManager.nodes nm) as Hin by (by eapply list_elem_of_lookup_2).
  unfold NumaManager.GetClosestNode. rewrite Ht.
  destruct (NumaManager.nodes nm) as [|n0 l] eqn:Hn; [by apply elem_of_nil in Hin|].
  rewrite <-Hn in *. clear Hn n0 l.
  pose proof (closer_spec target targetID (NumaManager.nodes nm)
    (target, NumaNode.AccessCostNs target)) as (H1 & H2 & H3).
  destruct (foldl _ _ _) as [best cost]. simpl in *.
  exists best, cost. split_and!; [done| |done|done|].
  - destruct H3 as [[= -> ->]|(n & Hnin & [= -> ->])]; done.
  - destruct H3 as [[= -> ->]|(n & Hnin & [= -> ->])]; auto.
Qed.

(** *** Witnesses *)

Lemma compression_store_witness :
  ∃ cp cm2, (CompressionManager.DecompressPage 7
    (@CompressionManager.CompressPage first_env 7 4096
       (CompressionManager.NewCompressionManager (f64_lit 8 10)) (mk_heap [] 0)).1.2) = (Some cp, cm2) ∧
    CompressionManager.CompressedSize cp = 2048.
Proof.
  pose proof (@compression_store first_env (CompressionManager.NewCompressionManager (f64_lit 8 10)) 7 4096
    (mk_heap [] 0) (wf_NewCompressionManager _) ltac:(lia) eq_refl) as [Hs _].
  destruct (CompressionManager.CompressPage _ _ _ _) as [[r cm1] h1]. destruct Hs as [_ Hs].
  assert (poor 4096 (CompressionManager.NewCompressionManager (f64_lit 8 10)) = false) as Hp
    by (vm_compute; reflexivity).
  rewrite Hp in Hs. destruct Hs as (time & cm2 & _ & _ & Hd & _).
  eexists _, cm2. split; [exact Hd|reflexivity].
Defined.

Lemma closest_node_cheapest_witness :
  ∃ best cost, NumaManager.GetClosestNode 1
    (NumaManager.mk [NumaNode.NewNumaNode 0 "Node-0" 100 4; NumaNode.NewNumaNode 1 "Node-1" 150 4])
    = (Some best, cost) ∧ cost ≤ 150.
Proof.
  destruct (closest_node_cheapest
    (NumaManager.mk [NumaNode.NewNumaNode 0 "Node-0" 100 4; NumaNode.NewNumaNode 1 "Node-1" 150 4])
    1 (NumaNode.NewNumaNode 1 "Node-1" 150 4) 1 eq_refl) as (best & cost & Heq & _ & Hc & _).
  exists best, cost. split; [exact Heq|exact Hc].
Defined.
