(* ===== verification/Cow.v ===== *)
(** * Copy-on-write bookkeeping: [internal/cow/{cow,reference_counter}.go]

    Which processes share which page, and how many references that makes.  The
    same count is kept three times (the size of the sharer set, [RefCount], and
    the separate [ReferenceCounter] with its total); the invariant [wf] says
    that they agree.  The set is a Go map from names to [true]. *)

From S2P Require Import Prelude Models Heap.
Local Open Scope Z_scope.

Module ReferenceCounter.
Record t := mk { counts : gmap N Z; totalRefs : Z }.
#[global] Instance eta_t : Eta t := λ r, mk (counts r) (totalRefs r).
Definition NewReferenceCounter : t := mk ∅ 0.

Definition Increment (pageID : N) (rc : t) : Z * t :=
  let newCount := i32 (default 0 (counts rc !! pageID) + 1) in
  (newCount, rc <| counts ::= <[pageID := newCount]> |> <| totalRefs ::= λ x, i64 (x + 1) |>).

Definition Decrement (pageID : N) (rc : t) : Z * t :=
  match counts rc !! pageID with
  | None => (0, rc)
  | Some count =>
      let newCount := i32 (count - 1) in
      let rc := rc <| counts ::= <[pageID := newCount]> |> <| totalRefs ::= λ x, i64 (x - 1) |> in
      (newCount, if newCount <=? 0 then rc <| counts ::= delete pageID |> else rc)
  end.

Definition Get (pageID : N) (rc : t) : Z := default 0 (counts rc !! pageID).
Definition GetTotalRefs (rc : t) : Z := totalRefs rc.
Definition Clear (rc : t) : t := mk ∅ 0.
Definition GetAllRefs (rc : t) : gmap N Z := counts rc.
End ReferenceCounter.

Module CopyOnWrite.
Record SharedPage := mk_shared {
  PageID : N; FrameNumber : Z; Processes : gset string; RefCount : Z }.
#[global] Instance eta_shared : Eta SharedPage := λ r,
  mk_shared (PageID r) (FrameNumber r) (Processes r) (RefCount r).

Record t := mk {
  sharedPages : gmap N SharedPage;
  refCounter : ReferenceCounter.t;
  nextPageID : N;
  copiesCreated : Z;
  copiesAvoided : Z }.
#[global] Instance eta_t : Eta t := λ r,
  mk (sharedPages r) (refCounter r) (nextPageID r) (copiesCreated r) (copiesAvoided r).

Definition NewCopyOnWrite : t := mk ∅ ReferenceCounter.NewReferenceCounter 1000000 0 0.

Definition increment (pageID : N) (cow : t) : t :=
  cow <| refCounter ::= λ rc, (ReferenceCounter.Increment pageID rc).2 |>.
Definition decrement (pageID : N) (cow : t) : t :=
  cow <| refCounter ::= λ rc, (ReferenceCounter.Decrement pageID rc).2 |>.
Definition avoid (cow : t) : t := cow <| copiesAvoided ::= λ x, i64 (x + 1) |>.

(** The shared page of an ID, created empty if there is none. *)
Definition get_or_create (pageID : N) (frameNumber : Z) (cow : t) : t :=
  match sharedPages cow !! pageID with
  | Some _ => cow
  | None => cow <| sharedPages ::= <[pageID := mk_shared pageID frameNumber ∅ 0]> |>
  end.

(** [if !sharedPage.Processes[pid] { ... = true; RefCount.Add(1); Increment }] *)
Definition add_sharer (pageID : N) (pid : string) (cow : t) : t :=
  match sharedPages cow !! pageID with
  | None => cow
  | Some sp =>
      if decide (pid ∈ Processes sp) then cow
      else increment pageID
             (cow <| sharedPages ::= <[pageID := sp <| Processes ::= λ s, {[pid]} ∪ s |>
                                                    <| RefCount ::= λ c, i32 (c + 1) |>]> |>)
  end.

Definition SharePage (pageID : N) (frameNumber : Z) (processIDs : list string) (cow : t)
    : res unit * t :=
  match processIDs with
  | [] => (Err (ErrNoProcessIDs pageID), cow)
  | _ => (Ok (), foldl (λ cow pid, add_sharer pageID pid cow)
                       (get_or_create pageID frameNumber cow) processIDs)
  end.

(** Dropping a registered sharer, and the page with its last one. *)
Definition drop_sharer (pageID : N) (pid : string) (sp : SharedPage) (cow : t) : t :=
  let sp := sp <| Processes ::= λ s, s ∖ {[pid]} |> <| RefCount ::= λ c, i32 (c - 1) |> in
  let cow := decrement pageID (cow <| sharedPages ::= <[pageID := sp]> |>) in
  if RefCount sp <=? 0 then cow <| sharedPages ::= delete pageID |> else cow.

(** The write check: (needs a copy, the copy's page ID), the page with its
    flags, and the bookkeeping. *)
Definition HandleWrite (pageID : N) (processID : string) (page : Page.t) (cow : t)
    : (bool * N) * Page.t * t :=
  match sharedPages cow !! pageID with
  | None => ((false, 0%N), page, avoid cow)
  | Some sp =>
      if negb (Page.IsShared page) then ((false, 0%N), page, avoid cow)
      else if RefCount sp <=? 1 then
        let cow := if decide (processID ∈ Processes sp)
                   then drop_sharer pageID processID sp cow else cow in
        ((false, 0%N), page <| Page.Shared := false |> <| Page.ReadOnly := false |>, avoid cow)
      else if decide (processID ∈ Processes sp) then
        let cow := drop_sharer pageID processID sp cow in
        let newPageID := u64_add (nextPageID cow) 1 in
        ((true, newPageID), page, cow <| nextPageID := newPageID |>)
      else ((false, 0%N), page, avoid cow)
  end.

(** [decrementRefCount], and its exported name. *)
Definition decrementRefCount (pageID : N) (processID : string) (cow : t) : t :=
  match sharedPages cow !! pageID with
  | None => cow
  | Some sp => if decide (processID ∈ Processes sp) then drop_sharer pageID processID sp cow
               else cow
  end.
Definition UnsharePage (pageID : N) (processID : string) (cow : t) : t :=
  decrementRefCount pageID processID cow.

Definition GetRefCount (pageID : N) (cow : t) : Z :=
  match sharedPages cow !! pageID with Some sp => RefCount sp | None => 0 end.
Definition IsShared (pageID : N) (cow : t) : bool :=
  match sharedPages cow !! pageID with Some sp => 1 <? RefCount sp | None => false end.
Definition GetSharedPages `{GoEnv} (cow : t) : M heap (list N) :=
  l ← range_map (sharedPages cow); mret (l.*1).

(** One page of a fork. *)
Definition fork_page (parentID childID : string) (cow : t) (page : Page.t) : t :=
  if Page.IsPresent page then
    let pageID := Page.ID page in
    add_sharer pageID childID
      (add_sharer pageID parentID (get_or_create pageID (Page.GetFrame page) cow))
  else cow.
Definition ForkProcess (parentID childID : string) (pages : list Page.t) (cow : t)
    : list Page.t * t :=
  ((λ p, if Page.IsPresent p then Page.MakeShared p else p) <$> pages,
   foldl (fork_page parentID childID) cow pages).

(** The code leaves the pages whose count reaches 0 in the map until the loop
    over it has ended; only the visited page is touched in each round, so the
    deletions commute with the rounds. *)
Definition RemoveProcess `{GoEnv} (processID : string) (cow : t) : M heap t :=
  l ← range_map (sharedPages cow);
  mret (foldl (λ cow kv, decrementRefCount kv.1 processID cow) cow l).

Record CoWStats := mk_stats {
  SharedPages : Z; CopiesCreated : Z; CopiesAvoided : Z; TotalRefs : Z }.
Definition GetStats (cow : t) : CoWStats :=
  mk_stats (Z.of_nat (size (sharedPages cow))) (copiesCreated cow) (copiesAvoided cow)
    (ReferenceCounter.GetTotalRefs (refCounter cow)).

(** [nextPageID] is not reset. *)
Definition Reset (cow : t) : t :=
  cow <| sharedPages := ∅ |> <| refCounter := ReferenceCounter.NewReferenceCounter |>
      <| copiesCreated := 0 |> <| copiesAvoided := 0 |>.

Definition CopyPage `{GoEnv} (originalPage : Page.t) (newPageID : N) (processID : string) (cow : t)
    : M heap (Page.t * t) :=
  created ← time_now; accessed ← time_now;
  let newPage := Page.NewPage created accessed newPageID processID in
  let newPage := newPage <| Page.OriginalPage := Page.ID originalPage |>
                         <| Page.LastAccessed := Page.LastAccessed originalPage |>
                         <| Page.Shared := false |> <| Page.ReadOnly := false |>
                         <| Page.RefCount := 1 |> in
  mret (newPage, cow <| copiesCreated ::= λ x, i64 (x + 1) |>).

(** ** The invariant *)

Definition total_refs (m : gmap N SharedPage) : Z :=
  map_fold (λ _ sp acc, RefCount sp + acc) 0 m.

(** Sharers come from the processes [U] of the run. *)
Record page_wf (U : gset string) (k : N) (sp : SharedPage) : Prop := {
  page_wf_id : PageID sp = k;
  page_wf_sharers : Processes sp ⊆ U;
  page_wf_count : RefCount sp = Z.of_nat (size (Processes sp));
}.
Record wf (U : gset string) (cow : t) : Prop := {
  wf_pages k sp : sharedPages cow !! k = Some sp → page_wf U k sp ∧ 0 < RefCount sp;
  wf_counts : ReferenceCounter.counts (refCounter cow) = RefCount <$> sharedPages cow;
  wf_total : ReferenceCounter.totalRefs (refCounter cow) = i64 (total_refs (sharedPages cow));
}.
End CopyOnWrite.

(** ** Lemmas *)

Section cow_lemmas.
Import CopyOnWrite.
Context (U : gset string).
Hypothesis few : Z.of_nat (size U) < 2 ^ 31 - 1.
Implicit Types (c : CopyOnWrite.t) (sp : SharedPage) (k j : N).

Lemma total_refs_insert m k sp :
  m !! k = None → total_refs (<[k := sp]> m) = RefCount sp + total_refs m.
Proof. intros Hk. unfold total_refs. rewrite map_fold_insert_L; [done|lia|done]. Qed.

Lemma total_refs_delete m k sp :
  m !! k = Some sp → total_refs m = RefCount sp + total_refs (delete k m).
Proof.
  intros Hk. rewrite <-(insert_delete_id m k sp) at 1 by done.
  apply total_refs_insert, lookup_delete_eq.
Qed.

Lemma total_refs_update m k sp sp' :
  m !! k = Some sp → total_refs (<[k := sp']> m) = total_refs m - RefCount sp + RefCount sp'.
Proof.
  intros Hk. rewrite <-insert_delete_eq, total_refs_insert by apply lookup_delete_eq.
  rewrite (total_refs_delete m k sp Hk). lia.
Qed.

Lemma sharers_few k sp : page_wf U k sp → 0 ≤ RefCount sp < 2 ^ 31 - 1.
Proof. intros [_ Hsub ->]. pose proof (subseteq_size _ _ Hsub). lia. Qed.

(** [wf] but for page [k], which may have no sharer yet. *)
Record wf_except (k : N) c : Prop := {
  except_pages j sp : sharedPages c !! j = Some sp → page_wf U j sp ∧ (j ≠ k → 0 < RefCount sp);
  except_counts j : ReferenceCounter.counts (refCounter c) !! j =
    match sharedPages c !! j with
    | Some sp => if decide (0 < RefCount sp) then Some (RefCount sp) else None
    | None => None
    end;
  except_total : ReferenceCounter.totalRefs (refCounter c) = i64 (total_refs (sharedPages c));
}.

Lemma wf_wf_except k c : wf U c → wf_except k c.
Proof.
  intros [Hp Hc Ht]. constructor; [|intros j|done].
  - intros j sp Hj. destruct (Hp _ _ Hj). done.
  - rewrite Hc, lookup_fmap. destruct (sharedPages c !! j) as [sp|] eqn:Hj; [|done].
    simpl. destruct (Hp _ _ Hj). by rewrite decide_True.
Qed.

Lemma wf_except_wf k c :
  wf_except k c → (∀ sp, sharedPages c !! k = Some sp → 0 < RefCount sp) → wf U c.
Proof.
  intros [Hp Hc Ht] Hk.
  assert (∀ j sp, sharedPages c !! j = Some sp → page_wf U j sp ∧ 0 < RefCount sp) as Hall.
  { intros j sp Hj. destruct (Hp _ _ Hj) as [? Hpos]. split; [done|].
    destruct (decide (j = k)) as [->|]; auto. }
  constructor; [exact Hall| |done].
  apply map_eq. intros j. rewrite Hc, lookup_fmap.
  destruct (sharedPages c !! j) as [sp|] eqn:Hj; [|done]. simpl.
  by rewrite decide_True by (by apply (Hall j)).
Qed.

Lemma get_or_create_except k f c :
  wf U c → wf_except k (get_or_create k f c) ∧ is_Some (sharedPages (get_or_create k f c) !! k).
Proof.
  intros Hwf. pose proof (wf_wf_except k c Hwf) as He. unfold get_or_create.
  destruct (sharedPages c !! k) as [sp|] eqn:Hk; [by split|]. simpl.
  split; [|by rewrite lookup_insert_eq]. destruct He as [Hp Hc Ht]. constructor; simpl.
  - intros j sp [[<- <-]|[_ Hj]]%lookup_insert_Some; [|by apply Hp].
    split; [|done]. by constructor.
  - intros j. rewrite Hc. destruct (decide (j = k)) as [->|Hne].
    + by rewrite Hk, lookup_insert_eq.
    + by rewrite lookup_insert_ne.
  - rewrite total_refs_insert by done. by rewrite Ht.
Qed.

Lemma add_sharer_wf k pid c :
  pid ∈ U → wf_except k c → is_Some (sharedPages c !! k) →
  wf U (add_sharer k pid c) ∧
  ∃ sp, sharedPages (add_sharer k pid c) !! k = Some sp ∧ pid ∈ Processes sp.
Proof.
  intros Hpid [Hp Hc Ht] [sp Hk]. unfold add_sharer. rewrite Hk.
  destruct (Hp _ _ Hk) as [Hsp _]. pose proof (sharers_few _ _ Hsp) as Hfew.
  destruct Hsp as [Hid Hsub Hcnt].
  destruct (decide (pid ∈ Processes sp)) as [Hin|Hnin].
  { split; [|by eauto]. apply (wf_except_wf k); [by constructor|].
    intros sp' Hk'. rewrite Hk in Hk'. injection Hk' as <-. rewrite Hcnt.
    assert (size (Processes sp) ≠ 0)%nat; [|lia].
    intros Hz%size_empty_inv. set_solver. }
  assert (default 0 (ReferenceCounter.counts (refCounter c) !! k) = RefCount sp) as Hd.
  { rewrite Hc, Hk. destruct (decide _); simpl; lia. }
  unfold increment, ReferenceCounter.Increment; simpl.
  split; [|rewrite lookup_insert_eq; eexists; split; [done|simpl; set_solver]].
  apply (wf_except_wf k); [constructor; simpl|].
  - intros j sp' [[<- <-]|[_ Hj]]%lookup_insert_Some; [|by apply Hp].
    split; [|done]. constructor; simpl; [done|set_solver|].
    rewrite i32_small by lia. rewrite size_union, size_singleton by set_solver. lia.
  - intros j. rewrite Hd, i32_small by lia. destruct (decide (j = k)) as [->|Hne].
    + rewrite !lookup_insert_eq. simpl. by rewrite decide_True by lia.
    + rewrite !lookup_insert_ne by done. apply Hc.
  - rewrite (total_refs_update _ _ sp) by done. simpl. rewrite Ht, i64_add_l, i32_small by lia.
    f_equal. lia.
  - intros sp'. simpl. rewrite lookup_insert_eq. intros [= <-]. simpl. rewrite i32_small by lia. lia.
Qed.

(** A registered sharer leaves; the page leaves with its last sharer. *)
Lemma drop_sharer_wf k pid sp c :
  wf U c → sharedPages c !! k = Some sp → pid ∈ Processes sp →
  wf U (drop_sharer k pid sp c) ∧
  (∀ j, j ≠ k → sharedPages (drop_sharer k pid sp c) !! j = sharedPages c !! j) ∧
  (if decide (Processes sp = {[pid]}) then sharedPages (drop_sharer k pid sp c) !! k = None
   else ∃ sp', sharedPages (drop_sharer k pid sp c) !! k = Some sp' ∧
          Processes sp' = Processes sp ∖ {[pid]} ∧ RefCount sp' = RefCount sp - 1).
Proof.
  intros Hwf Hk Hin. pose proof (wf_pages _ _ Hwf _ _ Hk) as [Hsp Hpos].
  pose proof (sharers_few _ _ Hsp) as Hfew. destruct Hsp as [Hid Hsub Hcnt].
  assert (size (Processes sp ∖ {[pid]}) = size (Processes sp) - 1)%nat as Hsz.
  { rewrite size_difference by set_solver. by rewrite size_singleton. }
  assert (ReferenceCounter.counts (refCounter c) !! k = Some (RefCount sp)) as Hck.
  { by rewrite (wf_counts _ _ Hwf), lookup_fmap, Hk. }
  unfold drop_sharer, decrement, ReferenceCounter.Decrement; simpl. rewrite Hck.
  rewrite (i32_small (RefCount sp - 1)) by lia. simpl.
  destruct (Z.leb_spec (RefCount sp - 1) 0) as [Hlast|Hmore]; simpl.
  - assert (Processes sp = {[pid]}) as Hone.
    { symmetry. apply set_eq. intros q. split; [set_solver|]. intros Hq.
      destruct (decide (q = pid)) as [->|Hne]; [set_solver|].
      assert (size (Processes sp ∖ {[pid]}) = 0)%nat as Hz%size_empty_inv by lia. set_solver. }
    rewrite decide_True by done. rewrite !delete_insert_eq.
    split_and!; [|intros j Hj; by rewrite lookup_delete_ne|by rewrite lookup_delete_eq].
    constructor; simpl.
    + intros j sp' [_ Hj]%lookup_delete_Some. by apply Hwf.
    + by rewrite (wf_counts _ _ Hwf), fmap_delete.
    + rewrite (wf_total _ _ Hwf), i64_sub_l, (total_refs_delete _ _ _ Hk). f_equal. lia.
  - rewrite decide_False.
    2:{ intros Hone. rewrite Hone, size_singleton in Hcnt. lia. }
    split_and!; [|intros j Hj; by rewrite lookup_insert_ne|].
    2:{ rewrite lookup_insert_eq. eexists. by split_and!. }
    constructor; simpl.
    + intros j sp' [[<- <-]|[_ Hj]]%lookup_insert_Some; [|by apply Hwf].
      split; [|simpl; lia]. constructor; simpl; [done|set_solver|lia].
    + by rewrite fmap_insert, (wf_counts _ _ Hwf).
    + rewrite (wf_total _ _ Hwf), i64_sub_l, (total_refs_update _ _ sp) by done. f_equal. simpl. lia.
Qed.

Lemma decrement_wf k pid c : wf U c → wf U (decrementRefCount k pid c).
Proof.
  intros Hwf. unfold decrementRefCount. destruct (sharedPages c !! k) as [sp|] eqn:Hk; [|done].
  destruct (decide _); [|done]. by apply drop_sharer_wf.
Qed.

Lemma wf_congr c c' :
  sharedPages c' = sharedPages c → refCounter c' = refCounter c → wf U c → wf U c'.
Proof. intros Hs Hr [H1 H2 H3]. constructor; rewrite ?Hs, ?Hr; done. Qed.

Lemma HandleWrite_wf k pid page c : wf U c → wf U (HandleWrite k pid page c).2.
Proof.
  intros Hwf. unfold HandleWrite. destruct (sharedPages c !! k) as [sp|] eqn:Hk;
    [|by apply (wf_congr c)].
  destruct (negb _); [by apply (wf_congr c)|].
  destruct (_ <=? 1); destruct (decide _); simpl.
  - apply (wf_congr (drop_sharer k pid sp c)); [done|done|]. by apply drop_sharer_wf.
  - by apply (wf_congr c).
  - apply (wf_congr (drop_sharer k pid sp c)); [done|done|]. by apply drop_sharer_wf.
  - by apply (wf_congr c).
Qed.

Lemma fork_page_wf parent child c page :
  parent ∈ U → child ∈ U → wf U c → wf U (fork_page parent child c page).
Proof.
  intros Hp Hc Hwf. unfold fork_page. destruct (Page.IsPresent page); [|done].
  destruct (get_or_create_except (Page.ID page) (Page.GetFrame page) c Hwf) as [He Hsome].
  destruct (add_sharer_wf _ _ _ Hp He Hsome) as [Hwf1 (sp & Hsp & _)].
  apply add_sharer_wf; [done|by apply wf_wf_except|by rewrite Hsp].
Qed.

Lemma SharePage_wf k f pids c :
  (∀ pid, pid ∈ pids → pid ∈ U) → wf U c → wf U (SharePage k f pids c).2.
Proof.
  intros HU Hwf. unfold SharePage. destruct pids as [|pid pids]; [done|]. simpl.
  destruct (get_or_create_except k f c Hwf) as [He Hsome].
  destruct (add_sharer_wf k pid _ (HU pid ltac:(set_solver)) He Hsome) as [Hwf1 (sp & Hsp & _)].
  assert (is_Some (sharedPages (add_sharer k pid (get_or_create k f c)) !! k)) as Hsome1 by eauto.
  assert (∀ q, q ∈ pids → q ∈ U) as HU' by set_solver.
  clear -few HU' Hwf1 Hsome1.
  revert Hwf1 Hsome1. generalize (add_sharer k pid (get_or_create k f c)).
  induction pids as [|q pids IH]; intros c1 Hwf1 Hsome1; [done|]. simpl.
  destruct (add_sharer_wf k q c1 (HU' q ltac:(set_solver)) (wf_wf_except k c1 Hwf1) Hsome1)
    as [Hwf2 (sp & Hsp & _)].
  apply IH; [set_solver|done|by rewrite Hsp].
Qed.

Lemma foldl_wf {A} (g : CopyOnWrite.t → A → CopyOnWrite.t) l c :
  (∀ c x, wf U c → wf U (g c x)) → wf U c → wf U (foldl g c l).
Proof. intros Hg. revert c. induction l as [|x l IH]; intros c Hc; [done|]. apply IH, Hg, Hc. Qed.

Lemma wf_NewCopyOnWrite : wf U NewCopyOnWrite.
Proof. constructor; simpl; [by intros k sp ?%lookup_empty_Some|by rewrite fmap_empty|done]. Qed.
End cow_lemmas.

(** ** Runs *)

Inductive cow_call : Type :=
| CallShare (pageID : N) (frame : Z) (pids : list string)
| CallFork (parent child : string) (pages : list Page.t)
| CallWrite (pageID : N) (pid : string) (page : Page.t)
| CallUnshare (pageID : N) (pid : string)
| CallRemove (pid : string)
| CallCowReset.

Definition cow_step `{GoEnv} (op : cow_call) (cow : CopyOnWrite.t) : M heap CopyOnWrite.t :=
  match op with
  | CallShare k f pids => mret (CopyOnWrite.SharePage k f pids cow).2
  | CallFork parent child pages => mret (CopyOnWrite.ForkProcess parent child pages cow).2
  | CallWrite k pid page => mret (CopyOnWrite.HandleWrite k pid page cow).2
  | CallUnshare k pid => mret (CopyOnWrite.UnsharePage k pid cow)
  | CallRemove pid => CopyOnWrite.RemoveProcess pid cow
  | CallCowReset => mret (CopyOnWrite.Reset cow)
  end.

Fixpoint cow_run `{GoEnv} (ops : list cow_call) (cow : CopyOnWrite.t) : M heap CopyOnWrite.t :=
  match ops with
  | [] => mret cow
  | op :: ops => cow ← cow_step op cow; cow_run ops cow
  end.

(** The processes an operation can register. *)
Definition registers (op : cow_call) : list string :=
  match op with
  | CallShare _ _ pids => pids
  | CallFork parent child _ => [parent; child]
  | _ => []
  end.

Lemma cow_step_wf `{GoEnv} U op cow h :
  Z.of_nat (size U) < 2 ^ 31 - 1 → (∀ pid, pid ∈ registers op → pid ∈ U) →
  CopyOnWrite.wf U cow → CopyOnWrite.wf U (cow_step op cow h).1.
Proof.
  intros Hfew Hreg Hwf. destruct op as [k f pids|parent child pages|k pid page|k pid|pid|]; simpl in *.
  - by apply SharePage_wf.
  - apply foldl_wf; [|done]. intros c p. apply fork_page_wf; [done|apply Hreg; set_solver..].
  - by apply HandleWrite_wf.
  - by apply decrement_wf.
  - unfold CopyOnWrite.RemoveProcess, mbind, M_bind; simpl.
    apply foldl_wf; [|done]. intros c [k sp]. by apply decrement_wf.
  - apply (wf_congr U CopyOnWrite.NewCopyOnWrite); [done..|apply wf_NewCopyOnWrite].
Qed.

Lemma cow_run_wf `{GoEnv} U ops cow h :
  Z.of_nat (size U) < 2 ^ 31 - 1 → (∀ op pid, op ∈ ops → pid ∈ registers op → pid ∈ U) →
  CopyOnWrite.wf U cow → CopyOnWrite.wf U (cow_run ops cow h).1.
Proof.
  intros Hfew. revert cow h. induction ops as [|op ops IH]; intros cow h Hreg Hwf; [done|].
  apply IH; [set_solver|]. apply cow_step_wf; [done|set_solver|done].
Qed.

(** The writes of the sharers of a page, each with its own page object, one after
    the other: what each write answers (whether a copy is needed and its page ID),
    the page object it leaves, and the bookkeeping. *)
Fixpoint write_all (k : N) (writers : list (string * Page.t)) (cow : CopyOnWrite.t)
    : list (bool * N * Page.t) * CopyOnWrite.t :=
  match writers with
  | [] => ([], cow)
  | (pid, page) :: writers =>
      let '(answer, page, cow) := CopyOnWrite.HandleWrite k pid page cow in
      let '(l, cow) := write_all k writers cow in ((answer, page) :: l, cow)
  end.

(** A page object that its process has for itself. *)
Definition private (page : Page.t) : Page.t := page <| Page.Shared := false |> <| Page.ReadOnly := false |>.

(** Writer [i] of [n], with the last page ID given out so far. *)
Definition answer_of (n : nat) (last : N) (i : nat) (w : string * Page.t) : bool * N * Page.t :=
  if decide (S i = n) then ((false, 0%N), private w.2) else ((true, u64 (last + N.of_nat i + 1)), w.2).

Lemma drop_sharer_next k pid sp cow :
  CopyOnWrite.nextPageID (CopyOnWrite.drop_sharer k pid sp cow) = CopyOnWrite.nextPageID cow.
Proof. unfold CopyOnWrite.drop_sharer. simpl. by destruct (_ <=? _). Qed.

Lemma u64_add_l a b : u64 (u64 a + b) = u64 (a + b).
Proof. unfold u64. by rewrite N.Div0.add_mod_idemp_l. Qed.

(** The later writers answer as they would without the first. *)
Lemma answer_shift n last i w : answer_of n (u64_add last 1) i w = answer_of (S n) last (S i) w.
Proof.
  unfold answer_of. destruct (decide (S i = n)) as [->|Hne]; [by rewrite decide_True|].
  rewrite decide_False by congruence. unfold u64_add. rewrite <-N.add_assoc, u64_add_l.
  do 3 f_equal. lia.
Qed.

(** ** Properties *)

(** C38: through any sequence of shares, forks, writes, removals and resets by
    fewer than [2^31 - 1] processes, the three reference counts agree: every
    tracked page has as many references as sharers, at least one, the reference
    counter holds exactly those counts, and its total is their sum. *)
Theorem CoW_counts_agree `{GoEnv} (U : gset string) ops h :
  Z.of_nat (size U) < 2 ^ 31 - 1 → (∀ op pid, op ∈ ops → pid ∈ registers op → pid ∈ U) →
  let cow := (cow_run ops CopyOnWrite.NewCopyOnWrite h).1 in
  (∀ k, ReferenceCounter.Get k (CopyOnWrite.refCounter cow) = CopyOnWrite.GetRefCount k cow) ∧
  (∀ k sp, CopyOnWrite.sharedPages cow !! k = Some sp →
     CopyOnWrite.RefCount sp = Z.of_nat (size (CopyOnWrite.Processes sp)) ∧
     0 < CopyOnWrite.RefCount sp) ∧
  CopyOnWrite.TotalRefs (CopyOnWrite.GetStats cow) =
    i64 (CopyOnWrite.total_refs (CopyOnWrite.sharedPages cow)).
Proof.
  intros Hfew Hreg cow.
  destruct (cow_run_wf U ops CopyOnWrite.NewCopyOnWrite h Hfew Hreg (wf_NewCopyOnWrite U)) as [Hp Hc Ht].
  fold cow in Hp, Hc, Ht. split_and!; [| |exact Ht].
  - intros k. unfold ReferenceCounter.Get, CopyOnWrite.GetRefCount.
    rewrite Hc, lookup_fmap. by destruct (_ !! k).
  - intros k sp Hk. destruct (Hp k sp Hk) as [[_ _ Hcnt] Hpos]. done.
Qed.

(** C39: of the [n] processes that share a page, the first [n - 1] to write are told
    to copy it, under consecutive new page IDs, and keep their page object as it
    is; the last one takes the page over without a copy, its page object no longer
    shared nor read-only; then the page is no longer tracked. *)
Theorem CoW_copies_all_but_one U cow k sp writers :
  Z.of_nat (size U) < 2 ^ 31 - 1 → CopyOnWrite.wf U cow →
  (∀ w, w ∈ writers → Page.IsShared w.2 = true) →
  CopyOnWrite.sharedPages cow !! k = Some sp →
  NoDup writers.*1 → list_to_set writers.*1 = CopyOnWrite.Processes sp →
  let '(l, cow') := write_all k writers cow in
  l = imap (answer_of (length writers) (CopyOnWrite.nextPageID cow)) writers ∧
  CopyOnWrite.sharedPages cow' !! k = None.
Proof.
  intros Hfew. revert cow sp. induction writers as [|[pid page] writers IH]; intros cow sp Hwf Hsh Hk Hnd Hset.
  { destruct (CopyOnWrite.wf_pages _ _ Hwf _ _ Hk) as [[_ _ Hcnt] Hpos].
    rewrite <-Hset in Hcnt. replace (size _) with 0%nat in Hcnt by reflexivity. lia. }
  simpl in Hnd, Hset. apply NoDup_cons in Hnd as [Hpid Hnd].
  assert (pid ∈ CopyOnWrite.Processes sp) as Hin by set_solver.
  destruct (CopyOnWrite.wf_pages _ _ Hwf _ _ Hk) as [[_ _ Hcnt] Hpos].
  assert (size (CopyOnWrite.Processes sp) = S (length writers)) as Hsz.
  { rewrite <-Hset, size_union, size_singleton, size_list_to_set, length_fmap by set_solver. done. }
  destruct (drop_sharer_wf U Hfew k pid sp cow Hwf Hk Hin) as (Hwf' & _ & Hk').
  assert (Page.IsShared page = true) as Hpage by (apply (Hsh (pid, page)); by left).
  cbn [write_all]. unfold CopyOnWrite.HandleWrite. rewrite Hk, Hpage. cbn [negb].
  destruct (Z.leb_spec (CopyOnWrite.RefCount sp) 1) as [Hone|Hmany].
  - assert (writers = []) as -> by (apply length_zero_iff_nil; lia).
    rewrite decide_True by done. rewrite decide_True in Hk' by set_solver. split; [done|exact Hk'].
  - rewrite decide_True by done.
    assert (writers ≠ []) as Hne by (intros ->; simpl in *; lia).
    rewrite decide_False in Hk'.
    2:{ intros Hsing. rewrite Hsing, size_singleton in Hsz. destruct writers; simpl in *; [done|lia]. }
    destruct Hk' as (sp' & Hk' & Hproc & _). set (cow' := _ <| CopyOnWrite.nextPageID := _ |>).
    specialize (IH cow' sp'
      (wf_congr U (CopyOnWrite.drop_sharer k pid sp cow) cow' eq_refl eq_refl Hwf')
      ltac:(intros w Hw; apply Hsh; by right) Hk' Hnd ltac:(rewrite Hproc, <-Hset; set_solver)).
    destruct (write_all k writers cow') as [l cow'']. destruct IH as [-> IH]. split; [|exact IH].
    assert (CopyOnWrite.nextPageID cow' = u64_add (CopyOnWrite.nextPageID cow) 1) as Hnext
      by (unfold cow'; simpl; by rewrite drop_sharer_next).
    rewrite imap_cons. f_equal.
    + unfold answer_of. rewrite decide_False by (destruct writers; simpl; done || lia).
      cbn [length snd]. by rewrite drop_sharer_next, N.add_0_r.
    + apply imap_ext. intros i w _. unfold answer_of, compose. cbn [length]. rewrite Hnext. apply answer_shift.
Qed.

(** *** Witnesses *)

Lemma CoW_counts_agree_witness :
  CopyOnWrite.GetRefCount 7
    (@cow_run first_env [CallShare 7 3 ["P2"; "P3"; "P2"]] CopyOnWrite.NewCopyOnWrite
       (mk_heap [] 0)).1 = 2 ∧
  ReferenceCounter.Get 7 (CopyOnWrite.refCounter
    (@cow_run first_env [CallShare 7 3 ["P2"; "P3"; "P2"]] CopyOnWrite.NewCopyOnWrite
       (mk_heap [] 0)).1) = 2.
Proof.
  assert (CopyOnWrite.GetRefCount 7
    (@cow_run first_env [CallShare 7 3 ["P2"; "P3"; "P2"]] CopyOnWrite.NewCopyOnWrite
       (mk_heap [] 0)).1 = 2) as Hr by (vm_compute; reflexivity).
  split; [exact Hr|]. rewrite <-Hr.
  apply (@CoW_counts_agree first_env ({["P2"; "P3"]} : gset string)).
  - vm_compute. reflexivity.
  - intros op pid Hop%list_elem_of_singleton. subst op. simpl. set_solver.
Defined.

Definition shared_twice : CopyOnWrite.t := (CopyOnWrite.SharePage 7 3 ["P2"; "P3"] CopyOnWrite.NewCopyOnWrite).2.
Definition shared_page (pid : string) : Page.t := Page.MakeShared (Page.NewPage 0 0 7 pid).

Lemma CoW_copies_all_but_one_witness :
  (write_all 7 [("P2", shared_page "P2"); ("P3", shared_page "P3")] shared_twice).1 =
    [((true, 1000001%N), shared_page "P2"); ((false, 0%N), private (shared_page "P3"))].
Proof.
  pose proof (CoW_copies_all_but_one ({["P2"; "P3"]} : gset string) shared_twice 7
    (CopyOnWrite.mk_shared 7 3 ({["P2"; "P3"]} : gset string) 2)
    [("P2", shared_page "P2"); ("P3", shared_page "P3")]) as H.
  destruct (write_all _ _ _) as [l cow']. destruct H as [-> _]; [|..|vm_compute; reflexivity].
  - vm_compute. reflexivity.
  - apply (SharePage_wf ({["P2"; "P3"]} : gset string)); [vm_compute; reflexivity|set_solver|apply wf_NewCopyOnWrite].
  - intros w [->|[->|Hw]%elem_of_cons]%elem_of_cons; [reflexivity..|by apply elem_of_nil in Hw].
  - vm_compute. reflexivity.
  - apply (bool_decide_unpack (NoDup ["P2"; "P3"])). vm_compute. exact I.
  - vm_compute. reflexivity.
Defined.
