(* ===== verification/DemandPaging.v ===== *)
(** * Demand paging, abstractly

    The contract of the memory manager without its data structures: frames hold
    pages, pages are resident in frames, and an access of a page that is not
    resident brings it into a free frame, or, when there is none, into the frame
    of one other page, which is no longer resident.  Which frame is taken is not
    determined.  The manager refines this machine ([ManagerProps]). *)

From S2P Require Import Prelude.

Section demand_paging.
Context {X : Type} `{Countable X}.
Implicit Types (x y : X) (n p q : nat).

Record machine := {
  holds : nat → option X;
  resident : X → option Z;
}.
Implicit Types m : machine.

(** One access of [x]: [true] for a hit. *)
Inductive demand_step n x : bool → relation machine :=
| demand_hit m m' :
    is_Some (resident m x) →
    (∀ p, holds m' p = holds m p) → (∀ y, resident m' y = resident m y) →
    demand_step n x true m m'
| demand_fault p m m' :
    resident m x = None → p < n →
    (holds m p = None ∨ ∀ q, q < n → is_Some (holds m q)) →
    (∀ q, holds m' q = if decide (q = p) then Some x else holds m q) →
    (∀ y, resident m' y = if decide (y = x) then Some (Z.of_nat p)
                          else if decide (holds m p = Some y) then None else resident m y) →
    demand_step n x false m m'.

(** A run of accesses, with its hits and its faults. *)
Inductive demand_run n : list X → nat → nat → relation machine :=
| demand_done m : demand_run n [] 0 0 m m
| demand_next x xs hit hits faults m1 m2 m3 :
    demand_step n x hit m1 m2 → demand_run n xs hits faults m2 m3 →
    demand_run n (x :: xs) (if hit then S hits else hits) (if hit then faults else S faults) m1 m3.

Lemma demand_run_length n xs hits faults m m' :
  demand_run n xs hits faults m m' → hits + faults = length xs.
Proof. induction 1 as [|x xs [] hits faults m1 m2 m3 _ _ IH]; simpl; lia. Qed.

(** ** Runs that fit in memory *)

(** The machine that has seen the pages of [seen] and evicted none. *)
Record fits n (seen : gset X) m : Prop := {
  fits_holds p x : p < n → holds m p = Some x → resident m x = Some (Z.of_nat p);
  fits_seen x : is_Some (resident m x) ↔ x ∈ seen;
}.

(** With every frame used, at least [n] pages were seen. *)
Lemma fits_full n seen m :
  fits n seen m → (∀ q, q < n → is_Some (holds m q)) → n ≤ size seen.
Proof.
  intros [Hh Hs] Hfull.
  set (l := omap (holds m) (seq 0 n)).
  assert (∀ k j, j + k ≤ n → length (omap (holds m) (seq j k)) = k) as Hlen.
  { induction k as [|k IH]; intros j Hj; [done|]. cbn [seq omap list_omap].
    destruct (Hfull j) as [y Hy]; [lia|]. rewrite Hy. simpl. f_equal. apply IH. lia. }
  assert (NoDup l) as Hnd.
  { unfold l. assert (∀ k j, j + k ≤ n → NoDup (omap (holds m) (seq j k))) as Hk; [|by apply Hk].
    induction k as [|k IH]; intros j Hj; [constructor|]. cbn [seq omap list_omap].
    destruct (holds m j) as [y|] eqn:Hy; [|apply IH; lia]. constructor; [|apply IH; lia].
    intros (q & Hq & Hqy)%list_elem_of_omap. apply elem_of_seq in Hq.
    pose proof (Hh j y ltac:(lia) Hy) as E1. pose proof (Hh q y ltac:(lia) Hqy) as E2.
    rewrite E1 in E2. injection E2. lia. }
  assert (list_to_set l ⊆ seen) as Hsub.
  { intros y (q & Hq & Hqy)%elem_of_list_to_set%list_elem_of_omap. apply elem_of_seq in Hq.
    apply Hs. rewrite (Hh q y ltac:(lia) Hqy). eauto. }
  apply subseteq_size in Hsub. rewrite size_list_to_set in Hsub by done.
  unfold l in Hsub. rewrite Hlen in Hsub by lia. done.
Qed.

Lemma fits_hit n seen m m' x : fits n seen m → demand_step n x true m m' → x ∈ seen ∧ fits n seen m'.
Proof.
  intros [Hh Hs] Hst. inversion Hst as [? ? Hx Ho Hr|]; subst. split; [by apply Hs|].
  constructor; [intros p y|intros y]; rewrite ?Ho, ?Hr; eauto.
Qed.

Lemma fits_fault n seen m m' x :
  fits n seen m → size seen < n → demand_step n x false m m' → (x ∉ seen) ∧ fits n ({[x]} ∪ seen) m'.
Proof.
  intros Hf Hlt Hst. inversion Hst as [|p ? ? Hx Hp Hfree Ho Hr]; subst.
  assert (holds m p = None) as Hnone.
  { destruct Hfree as [|Hfull]; [done|]. pose proof (fits_full _ _ _ Hf Hfull). lia. }
  destruct Hf as [Hh Hs]. assert (x ∉ seen) as Hnot by (rewrite <-Hs, Hx; by intros []).
  split; [done|]. constructor.
  - intros q y Hq. rewrite Ho, Hr. destruct (decide (q = p)) as [->|Hne].
    + intros [= <-]. by rewrite decide_True.
    + intros Hy. pose proof (Hh q y Hq Hy) as E. rewrite decide_False; [|intros ->; congruence].
      rewrite decide_False; [done|]. rewrite Hnone. done.
  - intros y. rewrite Hr, Hnone. rewrite (decide_False (P := None = Some y)) by done.
    rewrite elem_of_union, elem_of_singleton, <-Hs.
    destruct (decide (y = x)) as [->|]; [split; [by left|eauto]|].
    split; [by right|by intros [|]].
Qed.

(** As long as the pages fit, the faults are the first accesses. *)
Lemma fits_run n xs hits faults seen m m' :
  fits n seen m → size (seen ∪ list_to_set xs) ≤ n → demand_run n xs hits faults m m' →
  faults + size seen = size (seen ∪ list_to_set xs) ∧ fits n (seen ∪ list_to_set xs) m'.
Proof.
  intros Hf Hsz Hrun. revert seen Hf Hsz.
  induction Hrun as [m|x xs [] hits faults m1 m2 m3 Hst Hrun IH]; intros seen Hf Hsz.
  - simpl in *. rewrite union_empty_r_L. done.
  - destruct (fits_hit _ _ _ _ _ Hf Hst) as [Hx Hf2].
    assert (seen ∪ list_to_set (x :: xs) = seen ∪ list_to_set xs) as E by set_solver.
    rewrite E in *. by apply IH.
  - assert (seen ∪ list_to_set (x :: xs) = ({[x]} ∪ seen) ∪ list_to_set xs) as E by set_solver.
    rewrite E in *.
    assert (size seen < n) as Hlt.
    { destruct (decide (x ∈ seen)) as [Hin|Hnot].
      - exfalso. inversion Hst as [|p ? ? Hx]; subst. apply (fits_seen _ _ _ Hf) in Hin as [? Hin]. congruence.
      - assert (size ({[x]} ∪ seen) ≤ size ({[x]} ∪ seen ∪ list_to_set xs)) by (apply subseteq_size; set_solver).
        rewrite size_union, size_singleton in H0 by set_solver. lia. }
    destruct (fits_fault _ _ _ _ _ Hf Hlt Hst) as [Hnot Hf2].
    destruct (IH _ Hf2 Hsz) as [IH1 IH2]. split; [|done].
    rewrite size_union, size_singleton in IH1 by set_solver. simpl. lia.
Qed.

Lemma fits_empty n m :
  (∀ p, p < n → holds m p = None) → (∀ x, resident m x = None) → fits n ∅ m.
Proof.
  intros Hh Hr. constructor.
  - intros p x Hp. by rewrite Hh.
  - intros x. rewrite Hr. split; [by intros []|set_solver].
Qed.
End demand_paging.
Arguments machine : clear implicits.
