(* ===== verification/Manager.v ===== *)
(** * The memory manager: [internal/memory/manager.go]

    [MM.t] is the [MemoryManager] struct with the objects it points to: the frame
    heap and the processes ([procs], shared by pointer with the process manager).
    Every exported method holds [mm.mu] for its whole body and is one step of the
    state monad, except [AccessMemory], whose two critical sections are
    [access_fast] (under the read lock) and [access_locked] (under the write
    lock).  A page pointer is the pair of its process and its page-table key. *)

From S2P Require Import Prelude Models Heap FrameTable Policy Policies Algorithms Tlb PageTable MultiLevel Advanced Cow.
Local Open Scope Z_scope.

Module MM.
(** The messages of [emitEvent], with their data. *)
Inductive event : Type :=
| EvProcessCreated (processID name : string)
| EvProcessRemoved (processID : string)
| EvMemoryAccess (processID : string) (virtualPage : N) (write hit : bool) (latencyNs : Z)
| EvPageFault (processID : string) (virtualPage : N) (write : bool) (latencyNs : Z)
| EvCowCopy (processID : string) (originalPage newPage : N) (originalFrame newFrame : Z)
| EvPageEviction (processID : string) (pageID : N) (frameID : Z) (dirty : bool)
| EvProcessForked (parentID childID : string) (pages : Z)
| EvSystemReset
| EvHugePageMapped (processID : string) (hugePageIdx : N) (frameID : Z) (virtualAddr : N).

Record t := mk {
  hp : heap;
  frameTable : FrameTable.t;
  numFrames : Z;
  pageTables : gmap string PageTable.t;
  multiLevelPT : gmap string MultiLevelPageTable.t;
  tlb : TLB.t;
  algorithm : Algorithms.algorithm;
  cowManager : CopyOnWrite.t;
  metrics : Metrics.t;
  procs : list Process.t;
  processes : gmap string nat;
  eventCallback : bool;
  eventCh : list event;
  closed : bool;
  numaManager : NumaManager.t;
  compressionManager : CompressionManager.t;
  clusterManager : PageClusterManager.t;
  recentAccesses : gmap string (list N);
  numaEnabled : bool;
  compressionEnabled : bool;
  clusteringEnabled : bool;
  hugePages : gmap string (gmap N Z);
  workingSetWindow : Z;
  workingSetAccesses : gmap string (list N);
}.
#[global] Instance eta_t : Eta t := λ r,
  mk (hp r) (frameTable r) (numFrames r) (pageTables r) (multiLevelPT r) (tlb r) (algorithm r)
     (cowManager r) (metrics r) (procs r) (processes r) (eventCallback r) (eventCh r) (closed r)
     (numaManager r) (compressionManager r) (clusterManager r) (recentAccesses r)
     (numaEnabled r) (compressionEnabled r) (clusteringEnabled r) (hugePages r)
     (workingSetWindow r) (workingSetAccesses r).

(** ** Access to the parts *)

Definition on_heap {A} (m : M heap A) : M t A :=
  λ s, let '(a, h) := m (hp s) in (a, s <| hp := h |>).
Definition on_tlb {A} (m : TLB.t → M heap (A * TLB.t)) : M t A :=
  λ s, let '((a, tlb'), h) := m (tlb s) (hp s) in (a, s <| hp := h |> <| tlb := tlb' |>).
Definition on_metrics (g : Metrics.t → Metrics.t) : M t unit := modify (λ s, s <| metrics ::= g |>).

(** A write through a process pointer. *)
Definition on_process (p : nat) (g : Process.t → Process.t) : M t unit :=
  modify (λ s, s <| procs ::= alter g p |>).

(** Reading and writing through the page pointer [(pid, key)]. *)
Definition lookup_page (pid : string) (key : N) (s : t) : option Page.t :=
  match pageTables s !! pid with
  | Some pt => PageTable.Entries pt !! key
  | None => None
  end.
Definition page_at (pid : string) (key : N) : M t Page.t :=
  gets (λ s, default (Page.NewPage 0 0 key pid) (lookup_page pid key s)).
Definition on_page (pid : string) (key : N) (g : Page.t → Page.t) : M t unit :=
  modify (λ s, s <| pageTables ::= alter (PageTable.update_page key g) pid |>).

(** [if mpt, ok := mm.multiLevelPT[pid]; ok { ... }] *)
Definition on_mpt (pid : string) (g : MultiLevelPageTable.t → MultiLevelPageTable.t) : M t unit :=
  modify (λ s, s <| multiLevelPT ::= alter g pid |>).

Section ops.
Context `{Env : GoEnv}.

Definition now : M t Z := on_heap time_now.

(** Calls through the algorithm interface. *)
Definition alg_select (ps : list ptr) : M t (res ptr) :=
  λ s, let '((r, a), h) := SelectVictim (algorithm s) ps (hp s) in
       (r, s <| hp := h |> <| algorithm := a |>).
Definition alg_access (p : ptr) (write : bool) : M t unit :=
  λ s, let '(a, h) := OnPageAccess (algorithm s) p write (hp s) in
       ((), s <| hp := h |> <| algorithm := a |>).
Definition alg_fault (p : ptr) : M t unit :=
  λ s, let '(a, h) := OnPageFault (algorithm s) p (hp s) in
       ((), s <| hp := h |> <| algorithm := a |>).
Definition alg_eviction (p : ptr) : M t unit :=
  λ s, let '(a, h) := OnPageEviction (algorithm s) p (hp s) in
       ((), s <| hp := h |> <| algorithm := a |>).

Definition tlb_insert (pid : string) (virtualPage : N) (frame : Z) : M t unit :=
  on_tlb (λ tlb h, let '(tlb', h') := TLB.Insert pid virtualPage frame tlb h in (((), tlb'), h')).

(** ** Events *)

(** A send on a closed channel panics and is recovered: nothing happens. *)
Definition emitEvent (e : event) : M t unit :=
  modify (λ s,
    if negb (eventCallback s) then s
    else if closed s then s
    else if decide (length (eventCh s) < 256)%nat then s <| eventCh ::= λ q, q ++ [e] |>
    else s <| metrics ::= λ m, m <| Metrics.DroppedEvents ::= λ c, i64 (c + 1) |> |>).
Definition SetEventCallback (callback : bool) : M t unit :=
  modify (λ s, s <| eventCallback := callback |>).
Definition Close : M t unit := modify (λ s, s <| closed := true |>).

(** One round of [eventWorker]: the message received, and whether the
    callback is called with it. *)
Definition eventWorker_step : M t (option (event * bool)) :=
  λ s, match eventCh s with
       | [] => (None, s)
       | e :: q => (Some (e, eventCallback s), s <| eventCh := q |>)
       end.

(** ** Configuration *)

Definition NewMemoryManager (numFrames tlbSize : Z) (algType : AlgorithmType) (t0 : nat) : t :=
  let '(ft, h) := FrameTable.NewFrameTable numFrames (mk_heap [] t0) in
  let '(start, h) := time_now h in
  {| hp := h; frameTable := ft; numFrames := numFrames; pageTables := ∅; multiLevelPT := ∅;
     tlb := TLB.NewTLB tlbSize; algorithm := new_algorithm numFrames algType;
     cowManager := CopyOnWrite.NewCopyOnWrite; metrics := Metrics.NewMetrics start numFrames;
     procs := []; processes := ∅; eventCallback := false; eventCh := []; closed := false;
     numaManager := NumaManager.NewNumaManager;
     compressionManager := CompressionManager.NewCompressionManager (f64_lit 8 10);
     clusterManager := PageClusterManager.NewPageClusterManager 4 16;
     recentAccesses := ∅; numaEnabled := false; compressionEnabled := false;
     clusteringEnabled := false; hugePages := ∅; workingSetWindow := 10;
     workingSetAccesses := ∅ |}.

Definition EnableNuma (enabled : bool) : M t unit :=
  modify (λ s,
    let s := s <| numaEnabled := enabled |> in
    if enabled && bool_decide (NumaManager.GetNodes (numaManager s) = [])
    then s <| numaManager ::= NumaManager.AddNode
                (NumaNode.NewNumaNode 0 "Node-0" 100 (Z.quot (numFrames s) 2)) |>
           <| numaManager ::= NumaManager.AddNode
                (NumaNode.NewNumaNode 1 "Node-1" 150 (Z.quot (numFrames s) 2)) |>
    else s).
Definition EnableCompression (enabled : bool) : M t unit :=
  modify (λ s, s <| compressionEnabled := enabled |>).
Definition EnableClustering (enabled : bool) : M t unit :=
  modify (λ s, s <| clusteringEnabled := enabled |>).
Definition SetAlgorithm (algType : AlgorithmType) : M t unit :=
  modify (λ s, s <| algorithm := new_algorithm (numFrames s) algType |>).
Definition SetFutureAccesses (accesses : list N) : M t unit :=
  modify (λ s, match algorithm s with
               | AlgOptimal opt => s <| algorithm := AlgOptimal (Optimal.SetFutureAccesses accesses opt) |>
               | AlgOptPlus op => s <| algorithm := AlgOptPlus (OptPlus.SetFutureAccesses accesses op) |>
               | _ => s
               end).

(** ** Frame allocation *)

(** [h = h*31 + s[i]] over the bytes, in [uint64]. *)
Fixpoint hash_from (h : N) (s : string) : N :=
  match s with
  | EmptyString => h
  | String c s => hash_from (u64_add (u64_mul h 31) (Ascii.N_of_ascii c)) s
  end.
Definition hashString (s : string) : N := hash_from 0 s.
Definition selectLocalNode (processID : string) : Z := Z.of_N (hashString processID mod 2).

Definition allocateFrameForPage (pageID : N) (processID : string) : M t (res ptr) :=
  s ← get_st;
  let global := on_heap (FrameTable.AllocateFrame (frameTable s) pageID processID) in
  if numaEnabled s then
    let nodeID := selectLocalNode processID in
    let node0End := Z.quot (numFrames s) 2 in
    let '(start, end_) := if nodeID =? 0 then (0, node0End) else (node0End, numFrames s) in
    r ← on_heap (FrameTable.AllocateFrameInRange (frameTable s) start end_ pageID processID);
    match r with
    | Ok p => on_heap (update p (Frame.SetNumaNodeID nodeID)) ;; mret (Ok p)
    | Err _ => global
    end
  else global.

(** [mm.frameTable.GetUsedFrames()] *)
Definition used_frames : M t (list ptr) :=
  gets (λ s, FrameTable.GetUsedFrames (frameTable s) (hp s)).

(** ** Eviction *)

(** [mm.compressionManager.CompressPage(pageID, make([]byte, 4096))] *)
Definition compress_page (pageID : N) : M t unit :=
  λ s, let '((_, cm), h) :=
         CompressionManager.CompressPage pageID 4096 (compressionManager s) (hp s) in
       ((), s <| hp := h |> <| compressionManager := cm |>).

(** The page is no longer present, when it is found and was. *)
Definition unmap_page (processID : string) (pageID : N) : M t unit :=
  s ← get_st;
  match lookup_page processID pageID s with
  | Some page => when (Page.IsPresent page) (on_page processID pageID (Page.SetFrame (-1)))
  | None => mret ()
  end.

Definition evictPage (frame : ptr) : M t (res unit) :=
  f ← on_heap (load frame);
  let pageID := Frame.GetPageID f in
  let processID := Frame.GetProcessID f in
  s ← get_st;
  when (compressionEnabled s && Frame.IsModified f) (compress_page pageID) ;;
  unmap_page processID pageID ;;
  modify (λ s, s <| tlb ::= TLB.Invalidate processID pageID |>) ;;
  on_mpt processID (MultiLevelPageTable.InvalidateEntry (u64_shl pageID 12)) ;;
  alg_eviction frame ;;
  f ← on_heap (load frame);
  on_metrics (Metrics.RecordEviction (Frame.IsModified f)) ;;
  emitEvent (EvPageEviction processID pageID (Frame.ID f) (Frame.IsModified f)) ;;
  on_heap (frame_Release frame) ;;
  mret (Ok ()).

(** The frame a page was given: page table, multi-level table, algorithm, TLB. *)
Definition install (processID : string) (key : N) (frame : ptr) : M t unit :=
  f ← on_heap (load frame);
  on_page processID key (Page.SetFrame (Frame.ID f)) ;;
  page ← page_at processID key;
  on_mpt processID (MultiLevelPageTable.SetEntry (u64_shl (Page.ID page) 12) (Frame.ID f) false) ;;
  alg_fault frame ;;
  tlb_insert processID (Page.ID page) (Frame.ID f).

Definition set_local_node (processID : string) (frame : ptr) : M t unit :=
  s ← get_st;
  when (numaEnabled s)
    (on_heap (update frame (Frame.SetNumaNodeID (selectLocalNode processID)))).

(** [fmt.Errorf("ctx: %w", err)] around a call's error. *)
Definition wrap_err {A} (ctx : string) (m : M t (res A)) : M t (res A) :=
  r ← m; mret match r with Ok a => Ok a | Err e => Err (ErrWrap ctx e) end.

(** Evicting the victim and taking its frame for [pageID]. *)
Definition take_frame (select : M t (res ptr)) (evict : ptr → M t (res unit))
    (pageID : N) (processID : string) : M t (res ptr) :=
  victim <-? select;
  _ <-? evict victim;
  on_heap (frame_Allocate victim pageID processID) ;;
  mret (Ok victim).
Definition select_used : M t (res ptr) := ps ← used_frames; alg_select ps.

Definition atomicEvictAndAlloc (processID : string) (key : N) : M t (res unit) :=
  page ← page_at processID key;
  frame <-? take_frame (wrap_err "no evictable frame" select_used)
              (λ victim, wrap_err "eviction failed" (evictPage victim))
              (Page.ID page) processID;
  set_local_node processID frame ;;
  install processID key frame ;;
  mret (Ok ()).

(** ** Copy-on-write *)

Definition copy_page (page : Page.t) (newPageID : N) (processID : string) : M t Page.t :=
  λ s, let '((p, cow), h) :=
         CopyOnWrite.CopyPage page newPageID processID (cowManager s) (hp s) in
       (p, s <| hp := h |> <| cowManager := cow |>).

Definition handleCoW (processID : string) (key : N) (frame : ptr) : M t (res unit) :=
  page ← page_at processID key;
  let pageID := Page.ID page in
  s ← get_st;
  let '((needsCopy, newPageID), page', cow) :=
    CopyOnWrite.HandleWrite pageID processID page (cowManager s) in
  modify (λ s, s <| cowManager := cow |>) ;;
  on_page processID key (λ _, page') ;;
  if negb needsCopy then
    on_page processID key (λ p, p <| Page.Shared := false |> <| Page.ReadOnly := false |>) ;;
    mret (Ok ())
  else
    page ← page_at processID key;
    newPage ← copy_page page newPageID processID;
    r ← (s ← get_st; on_heap (FrameTable.AllocateFrame (frameTable s) newPageID processID));
    newFrame <-? match r with
                 | Ok p => mret (Ok p)
                 | Err _ => take_frame select_used evictPage newPageID processID
                 end;
    set_local_node processID newFrame ;;
    alg_fault newFrame ;;
    nf ← on_heap (load newFrame);
    let newPage := Page.SetFrame (Frame.ID nf) newPage in
    modify (λ s, s <| pageTables ::= alter (PageTable.ReplaceEntry pageID newPage) processID |>) ;;
    modify (λ s, s <| tlb ::= TLB.Invalidate processID pageID |>) ;;
    tlb_insert processID pageID (Frame.ID nf) ;;
    on_metrics Metrics.RecordCoWCopy ;;
    s ← get_st;
    match processes s !! processID with
    | Some p => on_process p Process.RecordCoWCopy
    | None => mret ()
    end ;;
    f ← on_heap (load frame);
    emitEvent (EvCowCopy processID pageID newPageID (Frame.ID f) (Frame.ID nf)) ;;
    mret (Ok ()).

(** The write check at the end of both branches of [handlePageFault]. *)
Definition cow_if_shared (processID : string) (key : N) (write : bool) : M t (res unit) :=
  page ← page_at processID key;
  if write && Page.IsShared page then
    s ← get_st;
    match FrameTable.GetFrame (frameTable s) (Page.GetFrame page) with
    | Ok f => handleCoW processID key f
    | Err _ => mret (Ok ())
    end
  else mret (Ok ()).

(** A free frame, or the frame of a victim. *)
Definition bring_in (processID : string) (key : N) : M t (res unit) :=
  page ← page_at processID key;
  r ← allocateFrameForPage (Page.ID page) processID;
  match r with
  | Ok frame => install processID key frame ;; mret (Ok ())
  | Err _ => atomicEvictAndAlloc processID key
  end.

Definition decompress (processID : string) (key : N) : M t (option CompressionManager.CompressedPage) :=
  page ← page_at processID key;
  s ← get_st;
  if compressionEnabled s then
    let '(cp, cm) := CompressionManager.DecompressPage (Page.ID page) (compressionManager s) in
    modify (λ s, s <| compressionManager := cm |>) ;; mret cp
  else mret None.

Definition handlePageFault (processID : string) (key : N) (write : bool) : M t (res unit) :=
  cp ← decompress processID key;
  match cp with
  | Some cp =>
      r ← bring_in processID key;
      match r with
      | Err e =>
          modify (λ s, s <| compressionManager ::= CompressionManager.RestoreCompressed cp |>) ;;
          mret (Err (ErrWrap "handlePageFault (compressed)" e))
      | Ok _ => cow_if_shared processID key write
      end
  | None =>
      _ <-? wrap_err "handlePageFault" (bring_in processID key);
      cow_if_shared processID key write
  end.
(** ** Access tracking *)

(** [ws = ws[len(ws)-window:]] when the slice is longer than the window. *)
Definition last_n (n : nat) (l : list N) : list N := drop (length l - n) l.

(** The quadratic count of distinct pages. *)
Fixpoint count_unique (before : list N) (ws : list N) : Z :=
  match ws with
  | [] => 0
  | p :: ws => (if decide (p ∈ before) then 0 else 1) + count_unique (before ++ [p]) ws
  end.

Definition updateWorkingSet (processID : string) (virtualPage : N) : M t unit :=
  s ← get_st;
  match workingSetAccesses s !! processID with
  | None => mret ()
  | Some ws =>
      let ws := last_n (Z.to_nat (workingSetWindow s)) (ws ++ [virtualPage]) in
      modify (λ s, s <| workingSetAccesses ::= <[processID := ws]> |>) ;;
      match processes s !! processID with
      | Some p => on_process p (Process.UpdateWorkingSetSize (i32 (count_unique [] ws)))
      | None => mret ()
      end
  end.

Definition trackAccess (processID : string) (virtualPage : N) : M t unit :=
  s ← get_st;
  match recentAccesses s !! processID with
  | None => mret ()
  | Some accesses =>
      let accesses := accesses ++ [virtualPage] in
      let accesses := if (16 <? Z.of_nat (length accesses)) then tail accesses else accesses in
      modify (λ s, s <| recentAccesses ::= <[processID := accesses]> |>) ;;
      when (3 <=? Z.of_nat (length accesses))
        (modify (λ s, s <| clusterManager ::=
           λ pcm, (PageClusterManager.DetectSequential processID (last_n 3 accesses) pcm).2 |>))
  end.

(** [pageTable.GetOrCreatePage(virtualPage)] *)
Definition get_or_create_page (processID : string) (virtualPage : N) : M t Page.t :=
  s ← get_st;
  match pageTables s !! processID with
  | None => mret (Page.NewPage 0 0 virtualPage processID)
  | Some pt =>
      '(page, pt) ← on_heap (PageTable.GetOrCreatePage virtualPage pt);
      modify (λ s, s <| pageTables ::= <[processID := pt]> |>) ;;
      mret page
  end.

(** The prefetch loop: at most [budget] pages are brought in. *)
Fixpoint prefetch (processID : string) (pages : list N) (budget : nat) : M t unit :=
  match pages, budget with
  | [], _ | _, O => mret ()
  | v :: pages, S budget =>
      p ← get_or_create_page processID v;
      if Page.IsPresent p then prefetch processID pages (S budget)
      else
        r ← allocateFrameForPage (Page.ID p) processID;
        match r with
        | Err _ => mret ()
        | Ok frame => install processID v frame ;; prefetch processID pages budget
        end
  end.

Definition tryPrefetch (processID : string) : M t unit :=
  s ← get_st;
  let pages := default [] (recentAccesses s !! processID) in
  if Z.of_nat (length pages) <? 3 then mret ()
  else
    let anchor := hd 0%N (last_n 3 pages) in
    let prefetchPages := PageClusterManager.GetPrefetchPages processID anchor (clusterManager s) in
    match pageTables s !! processID with
    | None => mret ()
    | Some _ => prefetch processID prefetchPages 2
    end.

(** ** PFF's resident-set enforcement *)

(** The slice without the first frame of the victim's ID. *)
Fixpoint remove_frame (h : heap) (id : Z) (ps : list ptr) : list ptr :=
  match ps with
  | [] => []
  | p :: ps => if Frame.ID (frame_of h p) =? id then ps else p :: remove_frame h id ps
  end.

Fixpoint enforce_loop (fuel : nat) (target : Z) (usedFrames : list ptr) : M t (option unit) :=
  if i32 (Z.of_nat (length usedFrames)) <=? target then mret (Some ())
  else match fuel with
       | O => mret None
       | S fuel =>
           r ← alg_select usedFrames;
           match r with
           | Err _ => mret (Some ())
           | Ok victim =>
               e ← evictPage victim;
               match e with
               | Err _ => mret (Some ())
               | Ok _ =>
                   s ← get_st;
                   enforce_loop fuel target
                     (remove_frame (hp s) (Frame.ID (frame_of (hp s) victim)) usedFrames)
               end
           end
       end.

(** Each round removes a frame, so the number of used frames is enough fuel
    ([enforce_terminates]). *)
Definition enforcePFFResident (target : Z) : M t unit :=
  if target <=? 0 then mret ()
  else
    usedFrames ← used_frames;
    _ ← enforce_loop (length usedFrames) target usedFrames;
    mret ().

(** ** [AccessMemory] *)

(** The section under the read lock: the process, and whether the access was
    served by the TLB. *)
Inductive fast_result := FastDone (r : res unit) | FastContinue (start : Z) (process : nat).

(** [if frameNum, hit := mm.tlb.Lookup(...); hit { ... }] *)
Definition serve_from_tlb (processID : string) (virtualPage : N) (start : Z) (process : nat)
    : M t fast_result :=
  hit ← on_tlb (TLB.Lookup processID virtualPage);
  match hit with
  | None => mret (FastContinue start process)
  | Some frameNum =>
      s ← get_st;
      match FrameTable.GetFrame (frameTable s) frameNum with
      | Err _ => mret (FastContinue start process)
      | Ok frame =>
          alg_access frame false ;;
          on_process process Process.RecordPageHit ;;
          on_metrics Metrics.RecordPageHit ;;
          stop ← now;
          emitEvent (EvMemoryAccess processID virtualPage false true (stop - start)) ;;
          mret (FastDone (Ok ()))
      end
  end.

Definition access_fast (processID : string) (virtualPage : N) (write : bool) : M t fast_result :=
  start ← now;
  s ← get_st;
  match processes s !! processID with
  | None => mret (FastDone (Err (ErrProcessNotFound processID)))
  | Some process =>
      on_process process Process.RecordMemoryAccess ;;
      if write then mret (FastContinue start process)
      else serve_from_tlb processID virtualPage start process
  end.

(** The hit branch under the write lock. *)
Definition access_hit (processID : string) (virtualPage : N) (write : bool)
    (start : Z) (process : nat) (page : Page.t) (frame : ptr) : M t (res unit) :=
  alg_access frame write ;;
  tlb_insert processID virtualPage (Page.GetFrame page) ;;
  on_process process Process.RecordPageHit ;;
  on_metrics Metrics.RecordPageHit ;;
  _ <-? (if write && Page.IsShared page then handleCoW processID virtualPage frame
         else mret (Ok ()));
  stop ← now;
  emitEvent (EvMemoryAccess processID virtualPage write true (stop - start)) ;;
  mret (Ok ()).

(** The type assertion to [PFF], and its branch. *)
Definition enforce_if_pff : M t unit :=
  s ← get_st;
  match algorithm s with
  | AlgPFF pff => enforcePFFResident (PFF.GetTargetResidentSet pff)
  | _ => mret ()
  end.
(** [if mm.clusteringEnabled { ... }], around [tryPrefetch] and [trackAccess] *)
Definition prefetch_if_enabled (processID : string) : M t unit :=
  s ← get_st; when (clusteringEnabled s) (tryPrefetch processID).
Definition track_if_enabled (processID : string) (virtualPage : N) : M t unit :=
  s ← get_st; when (clusteringEnabled s) (trackAccess processID virtualPage).

(** The fault branch. *)
Definition access_fault (processID : string) (virtualPage : N) (write : bool)
    (start : Z) (process : nat) : M t (res unit) :=
  _ <-? handlePageFault processID virtualPage write;
  on_process process Process.RecordPageFault ;;
  on_metrics Metrics.RecordPageFault ;;
  enforce_if_pff ;;
  stop ← now;
  emitEvent (EvPageFault processID virtualPage write (stop - start)) ;;
  prefetch_if_enabled processID ;;
  mret (Ok ()).

(** The section under the write lock. *)
Definition access_locked (processID : string) (virtualPage : N) (write : bool)
    (start : Z) (process : nat) : M t (res unit) :=
  updateWorkingSet processID virtualPage ;;
  track_if_enabled processID virtualPage ;;
  s ← get_st;
  match pageTables s !! processID with
  | None => mret (Err (ErrPageTableNotFound processID))
  | Some _ =>
      page ← get_or_create_page processID virtualPage;
      match (if Page.IsPresent page
             then FrameTable.GetFrame (frameTable s) (Page.GetFrame page)
             else Err ErrNilFrame) with
      | Ok frame => access_hit processID virtualPage write start process page frame
      | Err _ => access_fault processID virtualPage write start process
      end
  end.

Definition AccessMemory (processID : string) (virtualPage : N) (write : bool) : M t (res unit) :=
  r ← access_fast processID virtualPage write;
  match r with
  | FastDone r => mret r
  | FastContinue start process => access_locked processID virtualPage write start process
  end.

(** ** Processes *)

Definition new_windows (pid : string) : M t unit :=
  modify (λ s, s <| multiLevelPT ::= <[pid := MultiLevelPageTable.NewMultiLevelPageTable pid]> |>
                 <| recentAccesses ::= <[pid := []]> |>
                 <| hugePages ::= <[pid := ∅]> |>
                 <| workingSetAccesses ::= <[pid := []]> |>).
Definition count_process : M t unit :=
  on_metrics (λ m, m <| Metrics.TotalProcesses ::= λ c, i32 (c + 1) |>
                     <| Metrics.ActiveProcesses ::= λ c, i32 (c + 1) |>).

(** [p] points to the process. *)
Definition CreateProcess (p : nat) : M t (res unit) :=
  s ← get_st;
  match procs s !! p with
  | None => mret (Err ErrNilPage)                (* a nil process: a Go panic *)
  | Some process =>
      let pid := Process.ID process in
      match processes s !! pid with
      | Some _ => mret (Err (ErrProcessExists pid))
      | None =>
          modify (λ s, s <| processes ::= <[pid := p]> |>
                         <| pageTables ::= <[pid := PageTable.NewPageTable pid]> |>) ;;
          new_windows pid ;;
          count_process ;;
          emitEvent (EvProcessCreated pid (Process.Name process)) ;;
          mret (Ok ())
      end
  end.

(** One page of a removed process. *)
Definition remove_page (processID : string) (page : Page.t) : M t unit :=
  s ← get_st;
  when (Page.IsPresent page && (0 <=? Page.GetFrame page))
    (_ ← on_heap (FrameTable.ReleaseFrame (frameTable s) (Page.GetFrame page)); mret ()) ;;
  when (Page.IsShared page)
    (modify (λ s, s <| cowManager ::= CopyOnWrite.UnsharePage (Page.ID page) processID |>)).

(** [mm.cowManager.RemoveProcess(processID)] *)
Definition cow_remove_process (processID : string) : M t unit :=
  λ s, let '(cow, h) := CopyOnWrite.RemoveProcess processID (cowManager s) (hp s) in
       ((), s <| hp := h |> <| cowManager := cow |>).

Definition RemoveProcess (processID : string) : M t (res unit) :=
  s ← get_st;
  match pageTables s !! processID with
  | None => mret (Err (ErrProcessNotFound processID))
  | Some pageTable =>
      pages ← on_heap (PageTable.GetAllPages pageTable);
      for_each (λ kp, remove_page processID kp.2) pages ;;
      cow_remove_process processID ;;
      modify (λ s, s <| tlb ::= TLB.InvalidateProcess processID |>
                     <| clusterManager ::= PageClusterManager.ClearClusters processID |>
                     <| pageTables ::= delete processID |>
                     <| multiLevelPT ::= delete processID |>
                     <| processes ::= delete processID |>
                     <| recentAccesses ::= delete processID |>
                     <| hugePages ::= delete processID |>
                     <| workingSetAccesses ::= delete processID |>
                     <| metrics ::= λ m, m <| Metrics.ActiveProcesses ::= λ c, i32 (c - 1) |> |>) ;;
      emitEvent (EvProcessRemoved processID) ;;
      mret (Ok ())
  end.

Definition share_page (pt : PageTable.t) (key : N) : PageTable.t :=
  PageTable.update_page key Page.MakeShared pt.

(** The child's table is stored after the parent's marked pages: when the two
    IDs are the same the old table is unreachable. *)
Definition ForkProcess (parentID childID : string) (childProcess : nat) : M t (res unit) :=
  s ← get_st;
  match pageTables s !! parentID with
  | None => mret (Err (ErrParentNotFound parentID))
  | Some parentTable =>
      let childTable := PageTable.Clone childID parentTable in
      modify (λ s, s <| pageTables ::= <[childID := childTable]> |>) ;;
      new_windows childID ;;
      modify (λ s, s <| processes ::= <[childID := childProcess]> |>) ;;
      parentPages ← on_heap (PageTable.GetPresentPages parentTable);
      childPages ← on_heap (PageTable.GetPresentPages childTable);
      modify (λ s, s <| cowManager ::=
        λ cow, (CopyOnWrite.ForkProcess parentID childID parentPages.*2 cow).2 |>) ;;
      modify (λ s, s <| pageTables ::=
        λ pts, <[childID := foldl share_page childTable childPages.*1]>
                 (<[parentID := foldl share_page parentTable parentPages.*1]> pts) |>) ;;
      count_process ;;
      emitEvent (EvProcessForked parentID childID (Z.of_nat (length parentPages))) ;;
      mret (Ok ())
  end.

(** ** Huge pages *)

Definition MapHugePage (processID : string) (hugePageIdx : N) : M t (Z * option error) :=
  if decide (2 ^ 43 - 1 < hugePageIdx)%N then mret (-1, Some (ErrHugePageRange hugePageIdx))
  else
    s ← get_st;
    match pageTables s !! processID with
    | None => mret (-1, Some (ErrProcessNotFound processID))
    | Some _ =>
        let syntheticID := u64_add (2 ^ 32) hugePageIdx in
        r ← allocateFrameForPage syntheticID processID;
        r ← match r with
            | Ok p => mret (Ok p)
            | Err _ => take_frame (wrap_err "no frames available for huge page" select_used)
                         evictPage syntheticID processID
            end;
        match r with
        | Err e => mret (-1, Some e)
        | Ok frame =>
            f ← on_heap (load frame);
            let virtualAddr := u64_shl hugePageIdx 21 in
            on_mpt processID (MultiLevelPageTable.SetEntry virtualAddr (Frame.ID f) true) ;;
            modify (λ s, s <| hugePages ::= alter (insert hugePageIdx (Frame.ID f)) processID |>) ;;
            alg_fault frame ;;
            on_metrics Metrics.RecordPageFault ;;
            emitEvent (EvHugePageMapped processID hugePageIdx (Frame.ID f) virtualAddr) ;;
            mret (Frame.ID f, None)
        end
    end.

(** (index, frame, virtual address, size in bytes) of each mapping. *)
Definition GetHugePages (processID : string) : M t (res (list (N * Z * N * Z))) :=
  s ← get_st;
  match hugePages s !! processID with
  | None => mret (Err (ErrProcessNotFound processID))
  | Some m =>
      l ← on_heap (range_map m);
      mret (Ok ((λ kv, (kv.1, kv.2, u64_shl kv.1 21, 2 ^ 21)) <$> l))
  end.

(** ** Queries and reset *)

Definition page_counts (pts : gmap string PageTable.t) : Z * Z * Z :=
  map_fold (λ _ pt '(a, b, c),
    let st := PageTable.GetStats pt in
    (i32 (a + PageTable.PresentPages st), i32 (b + PageTable.SharedPages st),
     i32 (c + PageTable.DirtyPages st))) (0, 0, 0) pts.

Definition GetMetrics : M t MetricsSnapshot.t :=
  time ← now;
  gets (λ s,
    let st := FrameTable.GetStats (frameTable s) (hp s) in
    let '(pagesInMemory, sharedPages, dirtyPages) := page_counts (pageTables s) in
    MetricsSnapshot.GetSnapshotWithStats time (FrameTable.Stats.UsedFrames st)
      (FrameTable.Stats.FreeFrames st) (FrameTable.Stats.PinnedFrames st)
      pagesInMemory sharedPages dirtyPages (metrics s)).

Definition GetProcess (processID : string) (s : t) : res nat :=
  match processes s !! processID with
  | Some p => Ok p
  | None => Err (ErrProcessNotFound processID)
  end.
Definition GetPageTable (processID : string) (s : t) : res PageTable.t :=
  match pageTables s !! processID with
  | Some pt => Ok pt
  | None => Err (ErrPageTableNotFound processID)
  end.
Definition GetMultiLevelPageTable (processID : string) (s : t) : res MultiLevelPageTable.t :=
  match multiLevelPT s !! processID with
  | Some mpt => Ok mpt
  | None => Err (ErrMultiLevelNotFound processID)
  end.
Definition GetAllProcesses : M t (list nat) :=
  s ← get_st; l ← on_heap (range_map (processes s)); mret (l.*2).
(** (working-set size, window size) *)
Definition GetWorkingSetInfo (processID : string) (s : t) : res (Z * Z) :=
  match processes s !! processID with
  | None => Err (ErrProcessNotFound processID)
  | Some p => Ok (match procs s !! p with Some pr => Process.GetWorkingSetSize pr | None => 0 end,
                  workingSetWindow s)
  end.

Definition Reset : M t unit :=
  s ← get_st;
  on_heap (FrameTable.Clear (frameTable s)) ;;
  time ← now;
  modify (λ s, s <| tlb ::= TLB.Clear |> <| cowManager ::= CopyOnWrite.Reset |>
                 <| compressionManager ::= CompressionManager.Reset |>
                 <| clusterManager ::= PageClusterManager.ClearClusters "" |>
                 <| pageTables := ∅ |> <| multiLevelPT := ∅ |> <| processes := ∅ |>
                 <| recentAccesses := ∅ |> <| hugePages := ∅ |> <| workingSetAccesses := ∅ |>
                 <| metrics ::= Metrics.Reset time |>
                 <| algorithm ::= Policy.Reset |>) ;;
  emitEvent EvSystemReset.
End ops.
End MM.
