(* ===== verification/ManagerInv.v ===== *)
(** * The memory manager's invariant

    [wf n s]: what every reachable state of a manager of [n] frames satisfies,
    forks and copy-on-write included.  [keeps n Φ m]: from a well-formed state,
    [m] ends in one, with a result that satisfies [Φ].  The lemmas follow the
    code bottom-up; [mm_keeps] runs them along a method's body. *)

From S2P Require Import Prelude Models Heap FrameTable Policy Policies PoliciesSpec Algorithms Tlb PageTable MultiLevel Advanced Cow Manager.
Local Open Scope Z_scope.
Import MM.

(** Heaps whose frames are the same objects (ID and pin). *)
Definition same_frames (h h' : heap) : Prop :=
  Forall2 (λ f g, Frame.ID f = Frame.ID g ∧ Frame.Pinned f = Frame.Pinned g) (frames h) (frames h').

#[global] Instance same_frames_preorder : PreOrder same_frames.
Proof.
  unfold same_frames. split.
  - intros h. apply Forall2_same_length_lookup. split; [done|]. naive_solver.
  - intros h1 h2 h3. generalize (frames h1) (frames h2) (frames h3). intros l1 l2 l3 H1.
    revert l3. induction H1 as [|f g l1 l2 Hfg _ IH]; intros l3 H2; inversion_clear H2; constructor;
      [intuition congruence|auto].
Qed.

Lemma same_bindings_frames_rel h h' : same_bindings h h' → same_frames h h'.
Proof. intros H. eapply Forall2_impl; [exact H|]. intros f g (? & _ & _ & _ & _ & ?). done. Qed.

Lemma same_frames_eq h h' : frames h = frames h' → same_frames h h'.
Proof. unfold same_frames. intros ->. by apply (reflexivity (R:=same_frames) h'). Qed.

Lemma same_frames_update p g :
  (∀ f, Frame.ID (g f) = Frame.ID f ∧ Frame.Pinned (g f) = Frame.Pinned f) →
  related same_frames (update p g).
Proof.
  intros Hg h. apply Forall2_same_length_lookup_2; [simpl; by rewrite length_alter|].
  intros i f f' Hf Hf'.
  assert (frames (update p g h).2 !! i = if decide (p = i) then g <$> frames h !! i else frames h !! i)
    as E by apply frames_update.
  rewrite E, Hf in Hf'. destruct (decide (p = i)); injection Hf' as <-; [|done].
  destruct (Hg f). done.
Qed.

Section invariant.
Context `{Env : GoEnv}.

(** The frame table of [n] frames, and the bounds of the histories. *)
Definition the_table (n : Z) : FrameTable.t := FrameTable.mk (seq 0 (Z.to_nat n)) n.

Record heap_wf (n : Z) (h : heap) : Prop := {
  heap_wf_table : FrameTable.wf (the_table n) h;
  heap_wf_unpinned p f : frames h !! p = Some f → Frame.Pinned f = false;
}.

Definition windows_wf (s : MM.t) : Prop :=
  map_Forall (λ _ ws, (length ws ≤ Z.to_nat (workingSetWindow s))%nat) (workingSetAccesses s) ∧
  map_Forall (λ _ l, (length l ≤ 16)%nat) (recentAccesses s).

Definition domains_wf (s : MM.t) : Prop :=
  dom (pageTables s) = dom (processes s) ∧ dom (multiLevelPT s) = dom (processes s) ∧
  dom (recentAccesses s) = dom (processes s) ∧ dom (hugePages s) = dom (processes s) ∧
  dom (workingSetAccesses s) = dom (processes s).

Record wf (n : Z) (s : MM.t) : Prop := {
  wf_n : 0 ≤ n < 2 ^ 30;
  wf_numFrames : numFrames s = n;
  wf_table : frameTable s = the_table n;
  wf_heap : heap_wf n (hp s);
  wf_alg : algorithm_inv (algorithm s);
  wf_tlb : TLB.wf (tlb s);
  wf_tlb_range pid v f : TLB.translate (tlb s) pid v = Some f → 0 ≤ f < n;
  wf_pages : map_Forall (λ _ pt, PageTable.wf n pt) (pageTables s);
  wf_mpts : map_Forall (λ _ mpt, MultiLevelPageTable.wf mpt) (multiLevelPT s);
  wf_metrics : Metrics.accounted (metrics s);
  wf_domains : domains_wf s;
  wf_windows : windows_wf s;
  wf_window : workingSetWindow s = 10;
  wf_events : (length (eventCh s) ≤ 256)%nat;
}.

(** Running a first step on the heap. *)
Lemma run_on_heap {A B} (m : M heap B) (k : B → M MM.t A) s :
  (on_heap m ≫= k) s = let '(b, h) := m (hp s) in k b (s <| hp := h |>).
Proof. unfold on_heap, mbind, M_bind. by destruct (m (hp s)). Qed.

(** Changing parts. *)
Lemma heap_wf_same n h h' : same_frames h h' → heap_wf n h → heap_wf n h'.
Proof.
  intros Hsame [[H1 [H2 H3]] Hpin]. constructor.
  - split_and!; [done|done|]. intros p Hp. destruct (H3 p Hp) as (f & Hf & Hid).
    destruct (Forall2_lookup_l _ _ _ _ _ Hsame Hf) as (g & Hg & Hgid & _).
    exists g. split; [done|]. congruence.
  - intros p g Hg. destruct (Forall2_lookup_r _ _ _ _ _ Hsame Hg) as (f & Hf & _ & <-).
    by eapply Hpin.
Qed.

Lemma wf_with_heap n s h : heap_wf n h → wf n s → wf n (s <| hp := h |>).
Proof. intros Hh []. by constructor. Qed.

Lemma wf_with_tlb n s tlb' :
  TLB.wf tlb' → (∀ pid v f, TLB.translate tlb' pid v = Some f → 0 ≤ f < n) →
  wf n s → wf n (s <| tlb := tlb' |>).
Proof. intros Ht Hr []. by constructor. Qed.

Lemma wf_with_alg n s a : algorithm_inv a → wf n s → wf n (s <| algorithm := a |>).
Proof. intros Ha []. by constructor. Qed.

Lemma wf_with_metrics n s g :
  (∀ m, Metrics.accounted m → Metrics.accounted (g m)) → wf n s → wf n (s <| metrics ::= g |>).
Proof. intros Hg []. constructor; simpl; auto. Qed.

(** The parts the invariant says nothing about. *)
Lemma wf_with_cow n s g : wf n s → wf n (s <| cowManager ::= g |>).
Proof. intros []. by constructor. Qed.
Lemma wf_with_procs n s g : wf n s → wf n (s <| procs ::= g |>).
Proof. intros []. by constructor. Qed.
Lemma wf_with_compression n s g : wf n s → wf n (s <| compressionManager ::= g |>).
Proof. intros []. by constructor. Qed.
Lemma wf_with_clusters n s g : wf n s → wf n (s <| clusterManager ::= g |>).
Proof. intros []. by constructor. Qed.

Lemma wf_with_page_tables n s g :
  (∀ pts, map_Forall (λ _ pt, PageTable.wf n pt) pts →
     map_Forall (λ _ pt, PageTable.wf n pt) (g pts) ∧ dom (g pts) = dom pts) →
  wf n s → wf n (s <| pageTables ::= g |>).
Proof.
  intros Hg Hwf. destruct (Hg (pageTables s) (wf_pages _ _ Hwf)) as [Hp Hd].
  destruct Hwf. constructor; try done. destruct wf_domains0. split; [simpl; congruence|done].
Qed.

(** ** Totality with a result *)

Definition keeps {A} (n : Z) (Φ : A → Prop) (m : M MM.t A) : Prop :=
  triple (wf n) m (λ a s, wf n s ∧ Φ a).

Lemma keeps_ret {A} n (Φ : A → Prop) a : Φ a → keeps n Φ (mret a).
Proof. intros Ha s Hs. done. Qed.

Lemma keeps_bind {A B} n (Φ : A → Prop) (Ψ : B → Prop) (m : M MM.t A) k :
  keeps n Φ m → (∀ a, Φ a → keeps n Ψ (k a)) → keeps n Ψ (m ≫= k).
Proof. intros Hm Hk s Hs. destruct (Hm s Hs) as [Hs' Ha]. by apply Hk. Qed.

Lemma keeps_seq {B} n (Ψ : B → Prop) (m : M MM.t unit) k :
  keeps n (λ _, True) m → keeps n Ψ k → keeps n Ψ (m ;; k).
Proof. intros Hm Hk. eapply keeps_bind; [exact Hm|]. by intros [] _. Qed.

Lemma keeps_bind_ok {A B} n (Φ : res A → Prop) (Ψ : res B → Prop) (m : M MM.t (res A)) k :
  keeps n Φ m → (∀ a, Φ (Ok a) → keeps n Ψ (k a)) → (∀ e, Φ (Err e) → Ψ (Err e)) →
  keeps n Ψ (bind_ok m k).
Proof.
  intros Hm Hk He. eapply keeps_bind; [exact Hm|]. intros [a|e] Ha; [by apply Hk|].
  apply keeps_ret. auto.
Qed.

Lemma keeps_when n c m : keeps n (λ _, True) m → keeps n (λ _, True) (when c m).
Proof. destruct c; [done|]. intros _. by apply keeps_ret. Qed.

Lemma keeps_weaken {A} n (Φ Ψ : A → Prop) m :
  (∀ a, Φ a → Ψ a) → keeps n Φ m → keeps n Ψ m.
Proof. intros HΦ Hm s Hs. destruct (Hm s Hs). auto. Qed.

Lemma keeps_get_st n : keeps n (wf n) get_st.
Proof. intros s Hs. done. Qed.

Lemma keeps_gets {A} n (f : MM.t → A) (Φ : A → Prop) :
  (∀ s, wf n s → Φ (f s)) → keeps n Φ (gets f).
Proof. intros Hf s Hs. simpl. auto. Qed.

Lemma keeps_modify n g : (∀ s, wf n s → wf n (g s)) → keeps n (λ _, True) (modify g).
Proof. intros Hg s Hs. simpl. auto. Qed.

Lemma keeps_for_each {A} n (f : A → M MM.t unit) l :
  (∀ x, keeps n (λ _, True) (f x)) → keeps n (λ _, True) (for_each f l).
Proof.
  intros Hf. induction l as [|x l IH]; simpl; [by apply keeps_ret|].
  eapply keeps_bind; [apply Hf|]. by intros [] _.
Qed.

Lemma keeps_on_heap {A} n (m : M heap A) :
  related same_frames m → keeps n (λ _, True) (on_heap m).
Proof.
  intros Hm s Hs. specialize (Hm (hp s)). unfold on_heap. destruct (m (hp s)) as [a h].
  split; [|done]. apply wf_with_heap; [|done]. eapply heap_wf_same; [exact Hm|apply Hs].
Qed.

Lemma related_same {A} (m : M heap A) : related same_bindings m → related same_frames m.
Proof. intros Hm h. apply same_bindings_frames_rel, Hm. Qed.

Lemma related_range_map {K V} `{Countable K} (m : gmap K V) : related same_frames (range_map m).
Proof. intros h. by apply same_frames_eq. Qed.

Lemma related_frame_Allocate p pageID pid : related same_frames (frame_Allocate p pageID pid).
Proof.
  apply related_bind; [apply _|apply related_same, related_time_now|].
  intros t. by apply same_frames_update.
Qed.
Lemma related_frame_Release p : related same_frames (frame_Release p).
Proof. by apply same_frames_update. Qed.

(** Loading an existing frame gives the frame of that number. *)
Lemma keeps_load n p :
  Z.of_nat p < n → keeps n (λ f, Frame.ID f = Z.of_nat p) (on_heap (load p)).
Proof.
  intros Hp s Hs. destruct (wf_heap _ _ Hs) as [(H1 & _ & H3) _].
  destruct (H3 p) as (f & Hf & Hid); [simpl; lia|].
  unfold on_heap. rewrite (load_spec _ _ _ Hf). split; [|done].
  apply wf_with_heap; [apply Hs|done].
Qed.
End invariant.

Create HintDb mm discriminated.
#[export] Hint Constants Opaque : mm.
#[export] Hint Resolve keeps_get_st : mm.
#[export] Hint Resolve related_frame_Allocate related_frame_Release related_range_map : mm.

(** Follow a method's body; the leaves are left to the [mm] hints. *)
Ltac mm_step :=
  lazymatch goal with
  | |- keeps _ _ (mret _) => apply keeps_ret; by auto
  | |- keeps _ _ (when _ _) => apply keeps_when
  | |- keeps _ _ (mbind (λ _, _ ) _) =>
      first
      [ eapply keeps_seq; [solve [eauto 3 with mm]|]
      | eapply keeps_bind; [solve [eauto 3 with mm]|cbv beta; intros ? ?]
      | eapply keeps_seq ]
  | |- keeps _ _ (match ?x with _ => _ end) => destruct x eqn:?
  | |- keeps _ _ _ => solve [eauto 3 with mm]
  end.
Ltac mm_keeps := repeat mm_step.

(** ** The primitives *)

(** A frame of the table, as a result: an error is only possible without frames. *)
Definition res_frame (n : Z) (r : res ptr) : Prop :=
  match r with Ok p => Z.of_nat p < n | Err _ => n = 0 end.
Definition res_done {A} (n : Z) (r : res A) : Prop :=
  match r with Ok _ => True | Err _ => n = 0 end.

Section primitives.
Context `{Env : GoEnv}.
Implicit Types (n : Z) (s : MM.t) (pid : string) (v : N).

Lemma keeps_now n : keeps n (λ _, True) now.
Proof. apply keeps_on_heap, related_same, related_time_now. Qed.

Lemma keeps_on_metrics n g :
  (∀ m, Metrics.accounted m → Metrics.accounted (g m)) → keeps n (λ _, True) (on_metrics g).
Proof. intros Hg. apply keeps_modify. intros s. by apply wf_with_metrics. Qed.

Lemma keeps_on_process n p g : keeps n (λ _, True) (on_process p g).
Proof. apply keeps_modify. intros s. apply wf_with_procs. Qed.

Lemma keeps_on_page n pid key g :
  (∀ p, Page.wf p → Page.FrameNumber p < n → Page.wf (g p) ∧ Page.FrameNumber (g p) < n) →
  keeps n (λ _, True) (on_page pid key g).
Proof.
  intros Hg. apply keeps_modify. intros s. apply wf_with_page_tables. intros pts Hp.
  split; [|apply dom_alter_L]. intros k pt. rewrite lookup_alter_Some.
  intros [(-> & pt' & Hpt & ->)|[_ Hpt]]; [|by eapply Hp].
  apply wf_update_page; [done|by eapply Hp].
Qed.

Lemma keeps_SetFrame n pid key f : f < n → keeps n (λ _, True) (on_page pid key (Page.SetFrame f)).
Proof.
  intros Hf. apply keeps_on_page. intros p _ _. split; [apply page_wf_SetFrame|].
  unfold Page.SetFrame. by destruct (0 <=? f).
Qed.

Lemma keeps_on_mpt n pid g :
  (∀ mpt, MultiLevelPageTable.wf mpt → MultiLevelPageTable.wf (g mpt)) →
  keeps n (λ _, True) (on_mpt pid g).
Proof.
  intros Hg. apply keeps_modify. intros s [].
  constructor; try done; simpl.
  - intros k mpt. rewrite lookup_alter_Some.
    intros [(-> & mpt' & Hm & ->)|[_ Hm]]; [|by eapply wf_mpts0].
    apply Hg. by eapply wf_mpts0.
  - destruct wf_domains0 as (H1 & H2 & H3). split_and!; simpl; [done|by rewrite dom_alter_L|apply H3..].
Qed.

Lemma keeps_emitEvent n e : keeps n (λ _, True) (emitEvent e).
Proof.
  apply keeps_modify. intros s Hs. destruct (negb _); [done|]. destruct (closed s); [done|].
  destruct (decide _).
  - destruct Hs. constructor; try done. simpl. rewrite length_app. simpl. lia.
  - by apply wf_with_metrics.
Qed.

(** The algorithm interface. *)
Lemma keeps_alg_access n p w : keeps n (λ _, True) (alg_access p w).
Proof.
  intros s Hs. unfold alg_access.
  destruct (algorithm_access (algorithm s) p w (hp s) (wf_alg _ _ Hs)) as [Hb Hi].
  destruct (OnPageAccess _ _ _ _) as [a h]. split; [|done].
  apply wf_with_alg; [done|]. apply wf_with_heap; [|done].
  eapply heap_wf_same; [by apply same_bindings_frames_rel|apply Hs].
Qed.
Lemma keeps_alg_fault n p : keeps n (λ _, True) (alg_fault p).
Proof.
  intros s Hs. unfold alg_fault.
  destruct (algorithm_fault (algorithm s) p (hp s) (wf_alg _ _ Hs)) as [Hb Hi].
  destruct (OnPageFault _ _ _) as [a h]. split; [|done].
  apply wf_with_alg; [done|]. apply wf_with_heap; [|done].
  eapply heap_wf_same; [by apply same_bindings_frames_rel|apply Hs].
Qed.
Lemma keeps_alg_eviction n p : keeps n (λ _, True) (alg_eviction p).
Proof.
  intros s Hs. unfold alg_eviction.
  destruct (algorithm_eviction (algorithm s) p (hp s) (wf_alg _ _ Hs)) as [Hb Hi].
  destruct (OnPageEviction _ _ _) as [a h]. split; [|done].
  apply wf_with_alg; [done|]. apply wf_with_heap; [|done].
  eapply heap_wf_same; [by apply same_bindings_frames_rel|apply Hs].
Qed.

(** Lists of distinct frames of the table. *)
Definition table_frames (n : Z) (ps : list ptr) : Prop :=
  (∀ p, p ∈ ps → Z.of_nat p < n) ∧ NoDup ps.

Lemma table_frames_candidates n s ps :
  wf n s → table_frames n ps → candidates (hp s) ps.
Proof.
  intros Hs [Hps Hnd]. destruct (wf_heap _ _ Hs) as [(_ & _ & H3) _]. pose proof (wf_n _ _ Hs).
  split.
  - intros p Hp. specialize (Hps p Hp). destruct (H3 p) as (f & Hf & _); [simpl; lia|]. eauto.
  - assert (ps ⊆+ seq 0 (Z.to_nat n)) as Hsub%submseteq_length.
    { apply NoDup_submseteq; [done|]. intros p Hp. apply elem_of_seq. specialize (Hps p Hp). lia. }
    rewrite length_seq in Hsub. lia.
Qed.

(** The frame of the table behind a pointer. *)
Lemma table_frame n s p :
  wf n s → Z.of_nat p < n →
  ∃ f, frames (hp s) !! p = Some f ∧ Frame.ID f = Z.of_nat p ∧ Frame.Pinned f = false.
Proof.
  intros Hs Hp. destruct (wf_heap _ _ Hs) as [(_ & _ & H3) Hpin].
  destruct (H3 p) as (f & Hf & Hid); [simpl; lia|]. eauto.
Qed.

Lemma used_evictable n s p :
  wf n s → Z.of_nat p < n → Frame.IsFree (frame_of (hp s) p) = false → evictable_at (hp s) p.
Proof.
  intros Hs Hp Hu. destruct (table_frame n s p Hs Hp) as (f & Hf & _ & Hpin).
  rewrite (frame_of_spec _ _ _ Hf) in Hu. exists f. split; [done|].
  unfold Frame.evictable, Frame.IsPinned. by rewrite Hu, Hpin.
Qed.

(** A victim search: a candidate, or an error when none is used. *)
Lemma alg_select_spec n ps s :
  table_frames n ps → wf n s →
  let '(r, s') := alg_select ps s in
  wf n s' ∧ (∃ h a, s' = s <| hp := h |> <| algorithm := a |> ∧ same_bindings (hp s) h) ∧
  match r with
  | Ok p => p ∈ ps ∧ Frame.IsFree (frame_of (hp s) p) = false
  | Err _ => ∀ p, p ∈ ps → Frame.IsFree (frame_of (hp s) p) = true
  end.
Proof.
  intros Hps Hs. unfold alg_select.
  destruct (algorithm_select (algorithm s) ps (hp s) (wf_alg _ _ Hs)) as (Hv & Hb & Hi).
  { by eapply table_frames_candidates. }
  destruct (SelectVictim _ _ _) as [[r a] h]. cbn [fst snd] in *.
  split_and!; [|eauto|].
  - apply wf_with_alg; [done|]. apply wf_with_heap; [|done].
    eapply heap_wf_same; [by apply same_bindings_frames_rel|apply Hs].
  - destruct r as [p|e].
    + destruct Hv as [Hp Hev]. split; [done|].
      apply evictable_at_frame_of in Hev. unfold Frame.evictable in Hev.
      by destruct (Frame.IsFree _).
    + destruct Hv as [_ Hno]. intros p Hp.
      destruct (Frame.IsFree (frame_of (hp s) p)) eqn:Hf; [done|]. exfalso. apply (Hno p Hp).
      apply (used_evictable n _ p Hs); [by apply Hps|exact Hf].
Qed.

Lemma keeps_tlb_insert n pid v f : 0 ≤ f < n → keeps n (λ _, True) (tlb_insert pid v f).
Proof.
  intros Hf s Hs. unfold tlb_insert, on_tlb.
  pose proof (Insert_spec (tlb s) pid v f (hp s) (wf_tlb _ _ Hs)) as Hi.
  destruct (TLB.Insert pid v f (tlb s) (hp s)) as [tlb' h].
  destruct Hi as (Hw & _ & Hh & Hv & Ho). split; [|done].
  apply wf_with_tlb; [done| |].
  - intros q w g Hg. destruct (decide ((q, w) = (pid, v))) as [[= -> ->]|Hne].
    + rewrite Hv in Hg. by simplify_eq.
    + eapply (wf_tlb_range _ _ Hs), Ho; done.
  - apply wf_with_heap; [|done]. eapply heap_wf_same; [by apply same_frames_eq|apply Hs].
Qed.

Lemma keeps_tlb_Lookup n pid v :
  keeps n (λ r, ∀ f, r = Some f → 0 ≤ f < n) (on_tlb (TLB.Lookup pid v)).
Proof.
  intros s Hs. unfold on_tlb.
  pose proof (Lookup_spec (tlb s) pid v (hp s) (wf_tlb _ _ Hs)) as Hl.
  destruct (TLB.Lookup pid v (tlb s) (hp s)) as [[r tlb'] h].
  destruct Hl as (-> & Hw & _ & Hh & Ht). split; [|apply (wf_tlb_range _ _ Hs)].
  apply wf_with_tlb; [done| |].
  - intros q w g. rewrite Ht. apply (wf_tlb_range _ _ Hs).
  - apply wf_with_heap; [|done]. eapply heap_wf_same; [by apply same_frames_eq|apply Hs].
Qed.

Lemma wf_tlb_sub n s g :
  (∀ tlb, TLB.wf tlb → TLB.wf (g tlb) ∧
     ∀ q w f, TLB.translate (g tlb) q w = Some f → TLB.translate tlb q w = Some f) →
  wf n s → wf n (s <| tlb ::= g |>).
Proof.
  intros Hg Hs. destruct (Hg (tlb s) (wf_tlb _ _ Hs)) as [Hw Hsub].
  apply (wf_with_tlb n s (g (tlb s))); [done| |done].
  intros q w f Hf. by eapply (wf_tlb_range _ _ Hs), Hsub.
Qed.

Lemma wf_tlb_Invalidate n s pid v : wf n s → wf n (s <| tlb ::= TLB.Invalidate pid v |>).
Proof.
  apply wf_tlb_sub. intros tlb Hw. destruct (Invalidate_spec tlb pid v Hw) as (H1 & _ & H2 & H3).
  split; [done|]. intros q w f. destruct (decide ((q, w) = (pid, v))) as [[= -> ->]|Hne].
  - by rewrite H2.
  - by rewrite H3.
Qed.

(** ** Allocation *)

Definition all_used (n : Z) (s : MM.t) : Prop :=
  ∀ p, Z.of_nat p < n → Frame.IsFree (frame_of (hp s) p) = false.

Lemma related_allocate_first ps pageID pid : related same_frames (FrameTable.allocate_first ps pageID pid).
Proof.
  induction ps as [|p ps IH]; simpl; [apply related_ret, _|].
  apply related_bind; [apply _|apply related_same, related_load|]. intros f.
  destruct (Frame.IsFree f); [|exact IH].
  apply related_bind; [apply _|apply related_frame_Allocate|]. intros []. apply related_ret, _.
Qed.

Lemma allocate_slots n s ps pageID pid :
  wf n s → table_frames n ps →
  let '(r, h) := FrameTable.allocate_first ps pageID pid (hp s) in
  wf n (s <| hp := h |>) ∧
  match r with
  | Some p => p ∈ ps
  | None => h = hp s ∧ ∀ p, p ∈ ps → Frame.IsFree (frame_of h p) = false
  end.
Proof.
  intros Hs Hps. destruct (table_frames_candidates n s ps Hs Hps) as [Hsome _].
  pose proof (FrameTable.allocate_first_spec ps pageID pid (hp s) Hsome) as Ha.
  pose proof (related_allocate_first ps pageID pid (hp s)) as Hr.
  destruct (FrameTable.allocate_first ps pageID pid (hp s)) as [[p|] h]; simpl in *.
  - split; [|apply Ha]. apply wf_with_heap; [|done]. eapply heap_wf_same; [exact Hr|apply Hs].
  - destruct Ha as [-> Ha]. split; [|done]. by apply wf_with_heap; [apply Hs|].
Qed.

Lemma table_frames_all n : 0 ≤ n → table_frames n (seq 0 (Z.to_nat n)).
Proof. intros Hn. split; [|apply NoDup_seq]. intros p Hp%elem_of_seq. lia. Qed.

Lemma table_frames_range n i j :
  0 ≤ n → table_frames n (take i (drop j (seq 0 (Z.to_nat n)))).
Proof.
  intros Hn. destruct (table_frames_all n Hn) as [Hlt Hnd].
  assert (take i (drop j (seq 0 (Z.to_nat n))) `sublist_of` seq 0 (Z.to_nat n)) as Hsub.
  { trans (drop j (seq 0 (Z.to_nat n))); [apply sublist_take|apply sublist_drop]. }
  split; [|by eapply sublist_NoDup; [apply NoDup_seq|apply Hsub]].
  intros p Hp. apply Hlt. eapply elem_of_submseteq; [done|by apply sublist_submseteq].
Qed.

Lemma AllocateFrame_spec n pageID pid :
  triple (wf n) (on_heap (FrameTable.AllocateFrame (the_table n) pageID pid)) (λ r s, wf n s ∧
    match r with Ok p => Z.of_nat p < n | Err _ => all_used n s end).
Proof.
  intros s Hs. pose proof (wf_n _ _ Hs).
  destruct (table_frames_all n) as [Hlt Hnd]; [lia|].
  pose proof (allocate_slots n s _ pageID pid Hs (conj Hlt Hnd)) as Ha.
  unfold on_heap, FrameTable.AllocateFrame, mbind, M_bind; simpl.
  destruct (FrameTable.allocate_first _ _ _ _) as [[p|] h]; simpl in *; destruct Ha as [Hw Ha].
  - split; [done|]. by apply Hlt.
  - split; [done|]. intros p Hp. apply Ha, elem_of_seq. lia.
Qed.

Lemma keeps_AllocateFrameInRange n lo hi pageID pid :
  keeps n (λ r, ∀ p, r = Ok p → Z.of_nat p < n)
    (on_heap (FrameTable.AllocateFrameInRange (the_table n) lo hi pageID pid)).
Proof.
  intros s Hs. pose proof (wf_n _ _ Hs). destruct (table_frames_all n) as [Hlt Hnd]; [lia|].
  unfold on_heap, FrameTable.AllocateFrameInRange, mbind, M_bind; simpl.
  set (ps := take _ _).
  assert (table_frames n ps) as Hps by (apply table_frames_range; lia).
  pose proof (allocate_slots n s ps pageID pid Hs Hps) as Ha.
  destruct (FrameTable.allocate_first _ _ _ _) as [[p|] h]; simpl in *; destruct Ha as [Hw Ha].
  - split; [done|]. intros ? [= <-]. by apply Hps.
  - split; done.
Qed.

Lemma keeps_SetNuma n p node :
  keeps n (λ _, True) (on_heap (update p (Frame.SetNumaNodeID node))).
Proof. apply keeps_on_heap. by apply same_frames_update. Qed.

Lemma allocateFrameForPage_spec n pageID pid :
  triple (wf n) (allocateFrameForPage pageID pid) (λ r s, wf n s ∧
    match r with Ok p => Z.of_nat p < n | Err _ => all_used n s end).
Proof.
  apply triple_get_st. intros s0 Hs0. eapply triple_start; [exact Hs0|].
  rewrite (wf_table _ _ Hs0). destruct (numaEnabled s0); [|apply AllocateFrame_spec].
  cbv zeta. match goal with |- context [if ?c then (?a, ?b) else ?d] => destruct (if c then (a, b) else d) as [lo hi] end.
  eapply triple_bind; [apply keeps_AllocateFrameInRange|].
  intros [p|e].
  - eapply (triple_seq _ _ _ (λ s, wf n s ∧ Z.of_nat p < n)).
    + intros s [Hs Hp]. split; [by apply keeps_SetNuma|by apply Hp].
    + apply triple_ret. done.
  - intros s [Hs _]. by apply AllocateFrame_spec.
Qed.
End primitives.

#[export] Hint Resolve keeps_now keeps_on_process keeps_emitEvent keeps_alg_access keeps_alg_fault
  keeps_alg_eviction keeps_SetNuma : mm.
