(* ===== verification/ManagerOps.v ===== *)
(** * The memory manager's operations keep its invariant

    Bottom-up along [internal/memory/manager.go]: each method, from any
    well-formed state, ends in a well-formed state, and answers with an error
    only in the cases stated here.  In particular a page fault fails only on a
    manager without frames. *)

From S2P Require Import Prelude Models Heap FrameTable Policy Policies PoliciesSpec Algorithms.
From S2P Require Import Tlb PageTable MultiLevel Advanced Cow Manager ManagerInv.
Local Open Scope Z_scope.
Import MM.

Section eviction.
Context `{Env : GoEnv}.
Implicit Types (n : Z) (s : MM.t) (pid : string) (v : N).

Lemma related_compress pageID len cm : related same_bindings (CompressionManager.CompressPage pageID len cm).
Proof. unfold CompressionManager.CompressPage. solve_related. Qed.

Lemma keeps_compress n pageID : keeps n (λ _, True) (compress_page pageID).
Proof.
  intros s Hs. unfold compress_page. pose proof (related_compress pageID 4096 (compressionManager s) (hp s)) as Hr.
  destruct (CompressionManager.CompressPage _ _ _ _) as [[o cm] h]. split; [|done].
  apply (wf_with_compression n _ (λ _, cm)), wf_with_heap; [|done].
  eapply heap_wf_same; [by apply same_bindings_frames_rel|apply Hs].
Qed.

Lemma keeps_invalidate n pid v :
  keeps n (λ _, True) (modify (λ s, s <| tlb ::= TLB.Invalidate pid v |>)).
Proof. apply keeps_modify. intros s. apply wf_tlb_Invalidate. Qed.

Lemma keeps_mpt_invalidate n pid a : keeps n (λ _, True) (on_mpt pid (MultiLevelPageTable.InvalidateEntry a)).
Proof. apply keeps_on_mpt. intros mpt. apply wf_InvalidateEntry. Qed.

Lemma keeps_mpt_set n pid a f huge : keeps n (λ _, True) (on_mpt pid (MultiLevelPageTable.SetEntry a f huge)).
Proof. apply keeps_on_mpt. intros mpt. apply wf_SetEntry. Qed.

Lemma keeps_metrics_eviction n d : keeps n (λ _, True) (on_metrics (Metrics.RecordEviction d)).
Proof. apply keeps_on_metrics. intros m. by destruct d; apply accounted_frame. Qed.

Lemma keeps_metrics_hit n : keeps n (λ _, True) (on_metrics Metrics.RecordPageHit).
Proof. apply keeps_on_metrics, accounted_hit. Qed.

Lemma keeps_metrics_fault n : keeps n (λ _, True) (on_metrics Metrics.RecordPageFault).
Proof. apply keeps_on_metrics, accounted_fault. Qed.

Lemma keeps_metrics_cow n : keeps n (λ _, True) (on_metrics Metrics.RecordCoWCopy).
Proof. apply keeps_on_metrics. intros m. by apply accounted_frame. Qed.

Lemma keeps_release n p : keeps n (λ _, True) (on_heap (frame_Release p)).
Proof. apply keeps_on_heap, related_frame_Release. Qed.

Lemma keeps_allocate n p pageID pid : keeps n (λ _, True) (on_heap (frame_Allocate p pageID pid)).
Proof. apply keeps_on_heap, related_frame_Allocate. Qed.

Lemma keeps_unmap n pid v : 0 ≤ n → keeps n (λ _, True) (on_page pid v (Page.SetFrame (-1))).
Proof. intros Hn. apply keeps_SetFrame. lia. Qed.
End eviction.

#[export] Hint Resolve keeps_compress keeps_invalidate keeps_mpt_invalidate keeps_mpt_set
  keeps_metrics_eviction keeps_metrics_hit keeps_metrics_fault keeps_metrics_cow keeps_release
  keeps_allocate keeps_unmap keeps_load : mm.

Section faults.
Context `{Env : GoEnv}.
Implicit Types (n : Z) (s : MM.t) (pid : string) (v : N).

Lemma keeps_unmap_page n pid v : 0 ≤ n → keeps n (λ _, True) (unmap_page pid v).
Proof. intros Hn. unfold unmap_page. mm_keeps. Qed.
#[local] Hint Resolve keeps_unmap_page : mm.

Lemma keeps_evictPage n p : Z.of_nat p < n → keeps n (λ r, r = Ok ()) (evictPage p).
Proof.
  intros Hp. assert (0 ≤ n) by lia. unfold evictPage. mm_keeps.
Qed.

(** A page as the invariant sees it. *)
Definition page_ok n (p : Page.t) : Prop := Page.wf p ∧ Page.FrameNumber p < n.

Lemma keeps_page_at n pid key : keeps n (page_ok n) (page_at pid key).
Proof.
  apply keeps_gets. intros s Hs. pose proof (wf_n _ _ Hs). unfold lookup_page.
  destruct (pageTables s !! pid) as [pt|] eqn:Hpt; [|split; [apply page_wf_new|simpl; lia]].
  destruct (PageTable.Entries pt !! key) as [p|] eqn:Hp; [|split; [apply page_wf_new|simpl; lia]].
  exact (wf_pages _ _ Hs _ _ Hpt _ _ Hp).
Qed.

Lemma keeps_set_local_node n pid p : keeps n (λ _, True) (set_local_node pid p).
Proof. unfold set_local_node. mm_keeps. Qed.

Lemma keeps_install n pid key p : Z.of_nat p < n → keeps n (λ _, True) (install pid key p).
Proof.
  intros Hp. unfold install. eapply keeps_bind; [by apply keeps_load|]. cbv beta. intros f Hf.
  apply keeps_seq; [apply keeps_SetFrame; lia|].
  eapply keeps_bind; [apply keeps_page_at|]. intros page _.
  mm_keeps. apply keeps_tlb_insert. lia.
Qed.

Lemma table_frames_used n s : wf n s → table_frames n (FrameTable.GetUsedFrames (frameTable s) (hp s)).
Proof.
  intros Hs. pose proof (wf_n _ _ Hs). rewrite (wf_table _ _ Hs).
  destruct (table_frames_all n) as [Hlt Hnd]; [lia|]. split.
  - intros p [_ Hp]%FrameTable.elem_of_GetUsedFrames. by apply Hlt.
  - by apply NoDup_filter.
Qed.

(** Choosing a victim among the used frames, when every frame is used: it fails
    only without frames. *)
Lemma select_used_spec n :
  triple (λ s, wf n s ∧ all_used n s) select_used (λ r s, wf n s ∧ res_frame n r).
Proof.
  intros s [Hs Hu]. pose proof (wf_n _ _ Hs).
  pose proof (table_frames_used n s Hs) as Hps.
  unfold select_used, used_frames, mbind, M_bind. cbn [fst snd gets].
  pose proof (alg_select_spec n _ s Hps Hs) as Hsel.
  destruct (alg_select _ s) as [[p|e] s']; simpl; destruct Hsel as (Hs' & _ & Hr); (split; [done|]).
  - destruct Hps as [Hlt _]. simpl. apply Hlt, Hr.
  - destruct (decide (n = 0)) as [|Hn]; [done|]. exfalso.
    assert (Frame.IsFree (frame_of (hp s) 0%nat) = false) as Hfree by (apply Hu; lia).
    rewrite Hr in Hfree; [done|]. apply FrameTable.elem_of_GetUsedFrames. split; [done|].
    rewrite (wf_table _ _ Hs). apply elem_of_seq. lia.
Qed.

(** Taking a victim's frame. *)
Lemma take_frame_spec n select evict pageID pid :
  triple (λ s, wf n s ∧ all_used n s) select (λ r s, wf n s ∧ res_frame n r) →
  (∀ p, Z.of_nat p < n → keeps n (λ r, r = Ok ()) (evict p)) →
  triple (λ s, wf n s ∧ all_used n s) (take_frame select evict pageID pid)
    (λ r s, wf n s ∧ res_frame n r).
Proof.
  intros Hsel Hev. eapply triple_bind_ok; [exact Hsel| |done]. intros p s [Hs Hp].
  revert s Hs. fold (keeps n (res_frame n)
    (_ <-? evict p; on_heap (frame_Allocate p pageID pid) ;; mret (Ok p))).
  eapply keeps_bind_ok; [by apply Hev| |done]. intros _ _. mm_keeps.
Qed.

Lemma wrap_err_spec {A} (P : MM.t → Prop) ctx (m : M MM.t (res A)) (Q : res A → MM.t → Prop) :
  triple P m Q → (∀ e s, Q (Err e) s → Q (Err (ErrWrap ctx e)) s) → triple P (wrap_err ctx m) Q.
Proof.
  intros Hm He. eapply triple_bind; [exact Hm|]. intros [a|e]; apply triple_ret; [done|].
  intros s. apply He.
Qed.

Lemma atomicEvictAndAlloc_spec n pid key :
  triple (λ s, wf n s ∧ all_used n s) (atomicEvictAndAlloc pid key) (λ r s, wf n s ∧ res_done n r).
Proof.
  unfold atomicEvictAndAlloc, page_at.
  eapply (triple_bind _ _ _ (λ _ s, wf n s ∧ all_used n s)); [by apply triple_gets|]. intros page.
  eapply (triple_bind_ok _ _ _ (λ r s, wf n s ∧ res_frame n r)); [| |done].
  - apply take_frame_spec.
    + apply wrap_err_spec; [apply select_used_spec|done].
    + intros p Hp. apply wrap_err_spec; [by apply keeps_evictPage|]. by intros e s' [_ ?].
  - intros p s' [Hs' Hp]. revert s' Hs'. simpl in Hp.
    fold (keeps n (res_done n) (set_local_node pid p ;; install pid key p ;; mret (Ok ()))).
    apply keeps_seq; [apply keeps_set_local_node|]. apply keeps_seq; [by apply keeps_install|].
    by apply keeps_ret.
Qed.

Lemma keeps_bring_in n pid key : keeps n (res_done n) (bring_in pid key).
Proof.
  unfold bring_in. eapply keeps_bind; [apply keeps_page_at|]. intros page _.
  eapply triple_bind; [apply allocateFrameForPage_spec|]. intros [p|e] s [Hs Hp].
  - revert s Hs. fold (keeps n (res_done n) (install pid key p ;; mret (Ok ()))).
    apply keeps_seq; [by apply keeps_install|]. by apply keeps_ret.
  - by apply atomicEvictAndAlloc_spec.
Qed.

(** ** Copy-on-write *)

Lemma HandleWrite_page k pid page cow :
  let page' := (CopyOnWrite.HandleWrite k pid page cow).1.2 in
  page' = page ∨ page' = page <| Page.Shared := false |> <| Page.ReadOnly := false |>.
Proof. unfold CopyOnWrite.HandleWrite. repeat case_match; auto. Qed.

Lemma keeps_HandleWrite n (page' : Page.t) (cow : CopyOnWrite.t) pid key :
  page_ok n page' →
  keeps n (λ _, True) (modify (λ s, s <| cowManager := cow |>)) ∧
  keeps n (λ _, True) (on_page pid key (λ _, page')).
Proof.
  intros Hp. split.
  - apply keeps_modify. intros s. apply (wf_with_cow n s (λ _, cow)).
  - by apply keeps_on_page.
Qed.

Lemma keeps_own_page n pid key :
  keeps n (λ _, True) (on_page pid key (λ p, p <| Page.Shared := false |> <| Page.ReadOnly := false |>)).
Proof. by apply keeps_on_page. Qed.

Lemma keeps_CopyPage n page k pid : keeps n (λ _, True) (copy_page page k pid).
Proof.
  intros s Hs. split; [|done]. unfold copy_page.
  assert (same_frames (hp s) (CopyOnWrite.CopyPage page k pid (cowManager s) (hp s)).2) as Hf
    by by apply same_frames_eq.
  destruct (CopyOnWrite.CopyPage _ _ _ _ _) as [[p cow] h]. simpl in Hf.
  apply (wf_with_cow n _ (λ _, cow)), wf_with_heap; [|done].
  eapply heap_wf_same; [exact Hf|apply Hs].
Qed.

Lemma AllocateFrame_any n pageID pid :
  triple (wf n)
    (s ← get_st; on_heap (FrameTable.AllocateFrame (frameTable s) pageID pid)) (λ r s, wf n s ∧
    match r with Ok p => Z.of_nat p < n | Err _ => all_used n s end).
Proof.
  apply triple_get_st. intros s Hs. eapply triple_start; [exact Hs|].
  rewrite (wf_table _ _ Hs). apply AllocateFrame_spec.
Qed.

Lemma keeps_replace_entry n pid k page :
  page_ok n page →
  keeps n (λ _, True) (modify (λ s, s <| pageTables ::= alter (PageTable.ReplaceEntry k page) pid |>)).
Proof.
  intros [Hw Hf]. apply keeps_modify. intros s. apply wf_with_page_tables. intros pts Hp.
  split; [|apply dom_alter_L]. intros q pt. rewrite lookup_alter_Some.
  intros [(-> & pt' & Hpt & ->)|[_ Hpt]]; [|by eapply Hp].
  apply wf_ReplaceEntry; [by eapply Hp|done..].
Qed.

Lemma keeps_load_any n p : keeps n (λ _, True) (on_heap (load p)).
Proof. apply keeps_on_heap, related_same, related_load. Qed.

(** The tail of [handleCoW]: the copy is filed and cached. *)
Lemma keeps_cow_tail n pid key newPageID frame (newFrame : ptr) newPage :
  Z.of_nat newFrame < n →
  keeps n (res_done n)
    (set_local_node pid newFrame ;;
     alg_fault newFrame ;;
     nf ← on_heap (load newFrame);
     let newPage := Page.SetFrame (Frame.ID nf) newPage in
     modify (λ s, s <| pageTables ::= alter (PageTable.ReplaceEntry key newPage) pid |>) ;;
     modify (λ s, s <| tlb ::= TLB.Invalidate pid key |>) ;;
     tlb_insert pid key (Frame.ID nf) ;;
     on_metrics Metrics.RecordCoWCopy ;;
     s ← get_st;
     match processes s !! pid with
     | Some p => on_process p Process.RecordCoWCopy
     | None => mret ()
     end ;;
     f ← on_heap (load frame);
     emitEvent (EvCowCopy pid key newPageID (Frame.ID f) (Frame.ID nf)) ;;
     mret (Ok ())).
Proof.
  intros Hp. apply keeps_seq; [apply keeps_set_local_node|]. apply keeps_seq; [apply keeps_alg_fault|].
  eapply keeps_bind; [by apply keeps_load|]. cbv beta zeta. intros nf Hnf.
  apply keeps_seq.
  { apply keeps_replace_entry. split; [apply page_wf_SetFrame|].
    unfold Page.SetFrame. destruct (0 <=? Frame.ID nf); simpl; lia. }
  apply keeps_seq; [apply keeps_invalidate|]. apply keeps_seq; [apply keeps_tlb_insert; lia|].
  apply keeps_seq; [apply keeps_metrics_cow|]. eapply keeps_bind; [apply keeps_get_st|]. intros s _.
  apply keeps_seq; [mm_keeps|]. eapply keeps_bind; [apply keeps_load_any|]. intros f _. mm_keeps.
Qed.

Lemma keeps_handleCoW n pid key frame : keeps n (res_done n) (handleCoW pid key frame).
Proof.
  unfold handleCoW. eapply keeps_bind; [apply keeps_page_at|]. intros page Hpage.
  eapply keeps_bind; [apply keeps_get_st|]. intros s0 _. cbv zeta.
  pose proof (HandleWrite_page (Page.ID page) pid page (cowManager s0)) as Hw.
  destruct (CopyOnWrite.HandleWrite _ _ _ _) as [[[needsCopy newPageID] page'] cow]. simpl in Hw.
  assert (page_ok n page') as Hpage' by (by destruct Hw as [->| ->]).
  destruct (keeps_HandleWrite n page' cow pid key Hpage') as [Hk1 Hk2].
  apply keeps_seq; [exact Hk1|]. apply keeps_seq; [exact Hk2|].
  destruct needsCopy; cbn [negb].
  2:{ apply keeps_seq; [apply keeps_own_page|]. by apply keeps_ret. }
  eapply keeps_bind; [apply keeps_page_at|]. intros page2 _.
  eapply keeps_bind; [apply keeps_CopyPage|]. intros newPage _.
  eapply triple_bind; [apply AllocateFrame_any|]. intros r.
  eapply (triple_bind_ok _ _ _ (λ r s, wf n s ∧ res_frame n r)).
  - destruct r as [p|e]; [by apply triple_ret|].
    apply take_frame_spec; [apply select_used_spec|apply keeps_evictPage].
  - intros p s [Hs Hp]. by apply keeps_cow_tail.
  - done.
Qed.

Lemma keeps_cow_if_shared n pid key w : keeps n (res_done n) (cow_if_shared pid key w).
Proof.
  unfold cow_if_shared. eapply keeps_bind; [apply keeps_page_at|]. intros page _.
  destruct (w && _); [|by apply keeps_ret]. eapply keeps_bind; [apply keeps_get_st|]. intros s _.
  destruct (FrameTable.GetFrame _ _); [apply keeps_handleCoW|by apply keeps_ret].
Qed.

(** ** Page faults *)

Lemma keeps_decompress n pid key : keeps n (λ _, True) (decompress pid key).
Proof.
  unfold decompress. eapply keeps_bind; [apply keeps_page_at|]. intros page _.
  eapply keeps_bind; [apply keeps_get_st|]. intros s _.
  destruct (compressionEnabled s); [|by apply keeps_ret].
  destruct (CompressionManager.DecompressPage _ _) as [cp cm].
  apply keeps_seq; [|by apply keeps_ret]. apply keeps_modify. intros s'.
  apply (wf_with_compression n s' (λ _, cm)).
Qed.

(** A page fault is served, and fails only on a manager without frames. *)
Lemma keeps_handlePageFault n pid key w : keeps n (res_done n) (handlePageFault pid key w).
Proof.
  unfold handlePageFault. eapply keeps_bind; [apply keeps_decompress|]. intros [cp|] _.
  - eapply keeps_bind; [apply keeps_bring_in|]. intros [u|e] He.
    + apply keeps_cow_if_shared.
    + apply keeps_seq; [|by apply keeps_ret]. apply keeps_modify. intros s.
      apply wf_with_compression.
  - eapply keeps_bind_ok; [|intros ? _; apply keeps_cow_if_shared|done].
    apply wrap_err_spec; [apply keeps_bring_in|]. by intros e s [? ?].
Qed.
End faults.

(** ** The access histories *)

Section histories.
Context `{Env : GoEnv}.
Implicit Types (n : Z) (s : MM.t) (pid : string) (v : N).

Lemma length_last_n k l : (length (last_n k l) ≤ k)%nat.
Proof. unfold last_n. rewrite length_drop. lia. Qed.

Lemma dom_insert_known {V} (m : gmap string V) k x y :
  m !! k = Some x → dom (<[k := y]> m) = dom m.
Proof. intros Hk. apply dom_insert_lookup_L. eauto. Qed.

Lemma wf_with_working_set n s pid ws :
  is_Some (workingSetAccesses s !! pid) → (length ws ≤ Z.to_nat (workingSetWindow s))%nat →
  wf n s → wf n (s <| workingSetAccesses ::= <[pid := ws]> |>).
Proof.
  intros [x Hx] Hlen Hs. destruct (wf_domains _ _ Hs) as (? & ? & ? & ? & Hd).
  destruct (wf_windows _ _ Hs) as [Hw1 Hw2]. destruct Hs. constructor; try done.
  - split_and!; simpl; try done. rewrite <-Hd. by eapply dom_insert_known.
  - split; [|done]. by apply map_Forall_insert_2.
Qed.

Lemma wf_with_recent n s pid l :
  is_Some (recentAccesses s !! pid) → (length l ≤ 16)%nat →
  wf n s → wf n (s <| recentAccesses ::= <[pid := l]> |>).
Proof.
  intros [x Hx] Hlen Hs. destruct (wf_domains _ _ Hs) as (? & ? & Hd & ? & ?).
  destruct (wf_windows _ _ Hs) as [Hw1 Hw2]. destruct Hs. constructor; try done.
  - split_and!; simpl; try done. rewrite <-Hd. by eapply dom_insert_known.
  - split; [done|]. by apply map_Forall_insert_2.
Qed.

Lemma wf_with_page_table n s pid pt :
  is_Some (pageTables s !! pid) → PageTable.wf n pt →
  wf n s → wf n (s <| pageTables ::= <[pid := pt]> |>).
Proof.
  intros [x Hx] Hpt Hs. destruct (wf_domains _ _ Hs) as (Hd & ? & ? & ? & ?).
  pose proof (wf_pages _ _ Hs). destruct Hs. constructor; try done.
  - by apply map_Forall_insert_2.
  - split_and!; simpl; try done. rewrite <-Hd. by eapply dom_insert_known.
Qed.

Lemma keeps_updateWorkingSet n pid v : keeps n (λ _, True) (updateWorkingSet pid v).
Proof.
  intros s Hs. split; [|done]. unfold updateWorkingSet, get_st, mbind, M_bind. cbn [fst snd].
  destruct (workingSetAccesses s !! pid) as [ws|] eqn:Hws; [|done].
  cbn [fst snd modify]. set (l := last_n _ _).
  assert (wf n (s <| workingSetAccesses ::= <[pid := l]> |>)) as Hs'.
  { apply wf_with_working_set; [eauto|apply length_last_n|done]. }
  destruct (processes s !! pid); [by apply wf_with_procs|exact Hs'].
Qed.

Lemma keeps_trackAccess n pid v : keeps n (λ _, True) (trackAccess pid v).
Proof.
  intros s Hs. split; [|done]. unfold trackAccess, get_st, mbind, M_bind. cbn [fst snd].
  destruct (recentAccesses s !! pid) as [l|] eqn:Hl; [|done].
  destruct (wf_windows _ _ Hs) as [_ Hrec]. specialize (Hrec _ _ Hl). simpl in Hrec.
  cbn [fst snd modify]. set (l' := if _ <? _ then _ else _).
  assert (length l' ≤ 16)%nat as Hlen.
  { unfold l'. destruct (Z.ltb_spec 16 (Z.of_nat (length (l ++ [v])))); [|lia].
    destruct l; simpl in *; [lia|]. rewrite length_app in *. simpl in *. lia. }
  assert (wf n (s <| recentAccesses ::= <[pid := l']> |>)) as Hs'.
  { apply wf_with_recent; [eauto|done|done]. }
  destruct (3 <=? _); [by apply wf_with_clusters|exact Hs'].
Qed.

(** ** Prefetching *)

Lemma keeps_get_or_create n pid v : keeps n (page_ok n) (get_or_create_page pid v).
Proof.
  intros s Hs. pose proof (wf_n _ _ Hs) as Hn. unfold get_or_create_page, get_st, mbind, M_bind.
  cbn [fst snd]. destruct (pageTables s !! pid) as [pt|] eqn:Hpt; cbn [fst snd].
  2:{ split; [done|]. split; [apply page_wf_new|simpl; lia]. }
  pose proof (wf_GetOrCreatePage n v pt (hp s) (proj1 Hn) (wf_pages _ _ Hs _ _ Hpt)) as Hwf.
  pose proof (GetOrCreatePage_spec v pt (hp s)) as Hspec. unfold on_heap.
  destruct (PageTable.GetOrCreatePage v pt (hp s)) as [[p pt'] h]. simpl in Hwf.
  destruct Hspec as (Hh & _ & Hp & _). cbn [fst snd modify]. split; [|exact (Hwf _ _ Hp)].
  apply wf_with_page_table; [eauto|done|]. apply wf_with_heap; [|done].
  eapply heap_wf_same; [by apply same_frames_eq|apply Hs].
Qed.

Lemma keeps_prefetch n pid pages budget : keeps n (λ _, True) (prefetch pid pages budget).
Proof.
  revert budget. induction pages as [|v pages IH]; intros [|budget]; try by apply keeps_ret.
  cbn [prefetch]. eapply keeps_bind; [apply keeps_get_or_create|]. intros p _.
  destruct (Page.IsPresent p); [apply IH|].
  eapply triple_bind; [apply allocateFrameForPage_spec|]. intros [f|e] s [Hs Hf]; [|done].
  refine ((_ : keeps n (λ _, True) (install pid v f ;; prefetch pid pages budget)) s Hs).
  apply keeps_seq; [by apply keeps_install|apply IH].
Qed.

Lemma keeps_tryPrefetch n pid : keeps n (λ _, True) (tryPrefetch pid).
Proof.
  unfold tryPrefetch. eapply keeps_bind; [apply keeps_get_st|]. intros s _. cbv zeta.
  destruct (_ <? 3); [by apply keeps_ret|]. destruct (pageTables s !! pid); [|by apply keeps_ret].
  apply keeps_prefetch.
Qed.
End histories.

(** ** PFF's enforcement *)

Section enforcement.
Context `{Env : GoEnv}.
Implicit Types (n : Z) (s : MM.t) (pid : string) (v : N).

(** The victim, and only it, leaves the slice. *)
Lemma remove_frame_spec n s ps p :
  wf n s → table_frames n ps → p ∈ ps →
  let ps' := remove_frame (hp s) (Frame.ID (frame_of (hp s) p)) ps in
  ps ≡ₚ p :: ps' ∧ table_frames n ps'.
Proof.
  intros Hs Hps Hp. cbv zeta.
  assert (∀ q, Z.of_nat q < n → Frame.ID (frame_of (hp s) q) = Z.of_nat q) as Hid.
  { intros q Hq. destruct (table_frame n s q Hs Hq) as (f & Hf & Hid & _).
    by rewrite (frame_of_spec _ _ _ Hf). }
  assert (ps ≡ₚ p :: remove_frame (hp s) (Frame.ID (frame_of (hp s) p)) ps) as Hperm.
  { destruct Hps as [Hlt _]. rewrite (Hid p) by auto.
    clear Hs. induction ps as [|q ps IH]; [set_solver|]. cbn [remove_frame].
    rewrite (Hid q) by (apply Hlt; set_solver). destruct (Z.eqb_spec (Z.of_nat q) (Z.of_nat p)).
    - replace q with p by lia. done.
    - rewrite Permutation_swap. f_equiv. assert (q ≠ p) by lia. apply IH; set_solver. }
  split; [exact Hperm|]. destruct Hps as [Hlt Hnd]. rewrite Hperm in Hnd.
  apply NoDup_cons in Hnd as [_ Hnd]. split; [|done]. intros q Hq. apply Hlt. rewrite Hperm. set_solver.
Qed.

(** The loop ends within one round per used frame. *)
Lemma enforce_loop_spec n fuel target ps :
  table_frames n ps → (length ps ≤ fuel)%nat → 0 ≤ target →
  keeps n (λ r, r = Some ()) (enforce_loop fuel target ps).
Proof.
  intros Hps Hlen Ht. revert ps Hps Hlen. induction fuel as [|fuel IH]; intros ps Hps Hlen; cbn [enforce_loop].
  - replace (length ps) with 0%nat by lia. destruct (Z.leb_spec (i32 (Z.of_nat 0)) target) as [|Hlt].
    + by apply keeps_ret.
    + change (i32 (Z.of_nat 0)) with 0 in Hlt. lia.
  - destruct (_ <=? target); [by apply keeps_ret|].
    intros s Hs. unfold mbind, M_bind.
    pose proof (alg_select_spec n ps s Hps Hs) as Hsel.
    destruct (alg_select ps s) as [[p|e] s1]; destruct Hsel as (Hs1 & _ & Hr); [|done].
    cbn [fst snd]. destruct Hr as [Hp _].
    destruct (keeps_evictPage n p) with (s := s1) as [Hs2 ->]; [by apply Hps|done|].
    destruct (remove_frame_spec n (evictPage p s1).2 ps p Hs2 Hps Hp) as [Hperm Hps'].
    cbn [fst snd get_st]. apply IH; [exact Hps'| |exact Hs2].
    apply Permutation_length in Hperm. cbn [length] in Hperm. apply le_S_n. by rewrite <-Hperm.
Qed.

Lemma keeps_enforce n target : keeps n (λ _, True) (enforcePFFResident target).
Proof.
  unfold enforcePFFResident. destruct (Z.leb_spec target 0); [by apply keeps_ret|].
  eapply (keeps_bind _ (table_frames n)).
  { apply keeps_gets. intros s. apply table_frames_used. }
  intros ps Hps. eapply keeps_bind; [apply (enforce_loop_spec n); [exact Hps|done|lia]|]. intros r _. by apply keeps_ret.
Qed.
End enforcement.

#[export] Hint Resolve keeps_updateWorkingSet keeps_trackAccess keeps_tryPrefetch keeps_enforce
  keeps_get_or_create : mm.

(** ** Memory accesses *)

Section accesses.
Context `{Env : GoEnv}.
Implicit Types (n : Z) (s : MM.t) (pid : string) (v : N).

Lemma GetFrame_table n s f p : wf n s → FrameTable.GetFrame (frameTable s) f = Ok p → 0 ≤ f < n ∧ p = Z.to_nat f.
Proof.
  intros Hs Hg. rewrite (wf_table _ _ Hs) in Hg.
  apply (FrameTable.GetFrame_Ok (the_table n) (hp s)) in Hg; [done|]. apply (wf_heap _ _ Hs).
Qed.

Lemma keeps_serve_from_tlb n pid v start p : keeps n (λ _, True) (serve_from_tlb pid v start p).
Proof.
  unfold serve_from_tlb. eapply keeps_bind; [apply keeps_tlb_Lookup|]. intros [f|] Hf; [|by apply keeps_ret].
  eapply keeps_bind; [apply keeps_get_st|]. intros s _.
  destruct (FrameTable.GetFrame _ _) as [q|e]; [|by apply keeps_ret]. mm_keeps.
Qed.

Lemma keeps_access_fast n pid v w : keeps n (λ _, True) (access_fast pid v w).
Proof.
  unfold access_fast. eapply keeps_bind; [apply keeps_now|]. intros start _.
  eapply keeps_bind; [apply keeps_get_st|]. intros s Hs.
  destruct (processes s !! pid); [|by apply keeps_ret].
  apply keeps_seq; [apply keeps_on_process|]. destruct w; [by apply keeps_ret|apply keeps_serve_from_tlb].
Qed.

Lemma keeps_access_hit n pid v w start pr page p :
  0 ≤ Page.GetFrame page < n →
  keeps n (res_done n) (access_hit pid v w start pr page p).
Proof.
  intros Hf. unfold access_hit. apply keeps_seq; [apply keeps_alg_access|].
  apply keeps_seq; [by apply keeps_tlb_insert|]. apply keeps_seq; [apply keeps_on_process|].
  apply keeps_seq; [apply keeps_metrics_hit|].
  eapply (keeps_bind_ok _ (res_done n)); [|intros _ _; mm_keeps|done].
  destruct (w && _); [apply keeps_handleCoW|by apply keeps_ret].
Qed.

Lemma keeps_enforce_if_pff n : keeps n (λ _, True) enforce_if_pff.
Proof.
  unfold enforce_if_pff. eapply keeps_bind; [apply keeps_get_st|]. intros s _.
  destruct (algorithm s); mm_keeps.
Qed.
Lemma keeps_prefetch_if_enabled n pid : keeps n (λ _, True) (prefetch_if_enabled pid).
Proof. unfold prefetch_if_enabled. mm_keeps. Qed.
Lemma keeps_track_if_enabled n pid v : keeps n (λ _, True) (track_if_enabled pid v).
Proof. unfold track_if_enabled. mm_keeps. Qed.

Lemma keeps_access_fault n pid v w start pr : keeps n (res_done n) (access_fault pid v w start pr).
Proof.
  unfold access_fault. eapply keeps_bind_ok; [apply keeps_handlePageFault| |done]. intros _ _.
  apply keeps_seq; [apply keeps_on_process|]. apply keeps_seq; [apply keeps_metrics_fault|].
  apply keeps_seq; [apply keeps_enforce_if_pff|]. eapply keeps_bind; [apply keeps_now|]. intros stop _.
  apply keeps_seq; [apply keeps_emitEvent|]. apply keeps_seq; [apply keeps_prefetch_if_enabled|].
  by apply keeps_ret.
Qed.

Lemma keeps_access_locked n pid v w start pr :
  keeps n (λ _, True) (access_locked pid v w start pr).
Proof.
  unfold access_locked. apply keeps_seq; [apply keeps_updateWorkingSet|].
  apply keeps_seq; [apply keeps_track_if_enabled|].
  eapply keeps_bind; [apply keeps_get_st|]. intros s2 Hs2.
  destruct (pageTables s2 !! pid); [|by apply keeps_ret].
  eapply keeps_bind; [apply keeps_get_or_create|]. intros page Hpage.
  destruct (if Page.IsPresent page then _ else _) as [p|e] eqn:Hg.
  - eapply keeps_weaken; [done|]. apply keeps_access_hit.
    destruct (Page.IsPresent page); [|done]. by destruct (GetFrame_table n s2 _ _ Hs2 Hg).
  - eapply keeps_weaken; [done|]. apply keeps_access_fault.
Qed.

Lemma keeps_AccessMemory n pid v w : keeps n (λ _, True) (AccessMemory pid v w).
Proof.
  unfold AccessMemory. eapply keeps_bind; [apply keeps_access_fast|].
  intros [r|start pr] _; [by apply keeps_ret|apply keeps_access_locked].
Qed.
End accesses.
