(* ===== verification/ManagerSteps.v ===== *)
(** * The memory manager's reachable states

    The remaining exported methods, and the runs of the manager: [op] is a call
    of an exported method, with the two critical sections of [AccessMemory] as
    calls of their own, so that a list of [op]s is any interleaving of any number
    of goroutines at the granularity of the manager's lock. *)

From S2P Require Import Prelude Models Heap FrameTable Policy Policies PoliciesSpec Algorithms.
From S2P Require Import Tlb PageTable MultiLevel Advanced Cow Manager ManagerInv ManagerOps.
Local Open Scope Z_scope.
Import MM.

(** ** Processes *)

Section processes.
Context `{Env : GoEnv}.
Implicit Types (n : Z) (s : MM.t) (pid : string) (v : N).

(** Registering a process: its five tables together. *)
Definition registered (pid : string) (p : nat) (pt : PageTable.t) (s : MM.t) : MM.t :=
  s <| processes ::= <[pid := p]> |> <| pageTables ::= <[pid := pt]> |>
    <| multiLevelPT ::= <[pid := MultiLevelPageTable.NewMultiLevelPageTable pid]> |>
    <| recentAccesses ::= <[pid := []]> |> <| hugePages ::= <[pid := ∅]> |>
    <| workingSetAccesses ::= <[pid := []]> |>.

Lemma wf_registered n s pid p pt : PageTable.wf n pt → wf n s → wf n (registered pid p pt s).
Proof.
  intros Hpt Hs. destruct (wf_domains _ _ Hs) as (H1 & H2 & H3 & H4 & H5).
  destruct (wf_windows _ _ Hs) as [Hw1 Hw2]. pose proof (wf_pages _ _ Hs). pose proof (wf_mpts _ _ Hs).
  destruct Hs. constructor; try done; simpl.
  - by apply map_Forall_insert_2.
  - apply map_Forall_insert_2; [apply wf_NewMultiLevelPageTable|done].
  - unfold domains_wf; simpl. rewrite !dom_insert_L. split_and!; congruence.
  - split; simpl; (apply map_Forall_insert_2; [simpl; lia|done]).
Qed.

Lemma wf_unregistered n s pid :
  wf n s →
  wf n (s <| pageTables ::= delete pid |> <| multiLevelPT ::= delete pid |>
          <| processes ::= delete pid |> <| recentAccesses ::= delete pid |>
          <| hugePages ::= delete pid |> <| workingSetAccesses ::= delete pid |>).
Proof.
  intros Hs. destruct (wf_domains _ _ Hs) as (H1 & H2 & H3 & H4 & H5).
  destruct (wf_windows _ _ Hs) as [Hw1 Hw2]. pose proof (wf_pages _ _ Hs). pose proof (wf_mpts _ _ Hs).
  destruct Hs. constructor; try done; simpl.
  - by apply map_Forall_delete.
  - by apply map_Forall_delete.
  - unfold domains_wf; simpl. rewrite !dom_delete_L. split_and!; congruence.
  - split; simpl; by apply map_Forall_delete.
Qed.

Lemma keeps_count_process n : keeps n (λ _, True) count_process.
Proof. apply keeps_on_metrics. intros m. by apply accounted_frame. Qed.

Lemma keeps_register {A} n (Φ : A → Prop) pid p pt k :
  PageTable.wf n pt → keeps n Φ k →
  keeps n Φ (modify (λ s, s <| processes ::= <[pid := p]> |> <| pageTables ::= <[pid := pt]> |>) ;;
             new_windows pid ;; k).
Proof. intros Hpt Hk s Hs. exact (Hk _ (wf_registered n s pid p pt Hpt Hs)). Qed.

Lemma keeps_CreateProcess n p : keeps n (λ _, True) (CreateProcess p).
Proof.
  unfold CreateProcess. eapply keeps_bind; [apply keeps_get_st|]. intros s0 _.
  destruct (procs s0 !! p) as [pr|]; [|by apply keeps_ret]. cbv zeta.
  destruct (processes s0 !! _); [by apply keeps_ret|].
  apply keeps_register; [apply wf_NewPageTable|].
  apply keeps_seq; [apply keeps_count_process|]. mm_keeps.
Qed.

Lemma related_ReleaseFrame ft f : related same_frames (FrameTable.ReleaseFrame ft f).
Proof.
  unfold FrameTable.ReleaseFrame. destruct (FrameTable.GetFrame ft f); [|apply related_ret, _].
  apply related_bind; [apply _|apply related_frame_Release|]. intros []. apply related_ret, _.
Qed.

Lemma keeps_remove_page n pid page : keeps n (λ _, True) (remove_page pid page).
Proof.
  unfold remove_page. eapply keeps_bind; [apply keeps_get_st|]. intros s _.
  apply keeps_seq; [apply keeps_when|apply keeps_when].
  - eapply keeps_bind; [apply keeps_on_heap, related_ReleaseFrame|]. intros r _. by apply keeps_ret.
  - apply keeps_modify. intros s'. apply wf_with_cow.
Qed.

Lemma keeps_cow_remove n pid : keeps n (λ _, True) (cow_remove_process pid).
Proof.
  intros s Hs. split; [|done]. unfold cow_remove_process.
  assert (same_frames (hp s) (CopyOnWrite.RemoveProcess pid (cowManager s) (hp s)).2) as Hf
    by by apply same_frames_eq.
  destruct (CopyOnWrite.RemoveProcess _ _ _) as [cow h]. cbn [snd] in Hf.
  apply (wf_with_cow n _ (λ _, cow)), wf_with_heap; [|done].
  eapply heap_wf_same; [exact Hf|apply Hs].
Qed.

Lemma wf_tlb_InvalidateProcess n s pid : wf n s → wf n (s <| tlb ::= TLB.InvalidateProcess pid |>).
Proof.
  apply wf_tlb_sub. intros tlb Hw. destruct (InvalidateProcess_spec tlb pid Hw) as (H1 & _ & H2).
  split; [done|]. intros q w f. rewrite H2. by destruct (decide (q = pid)).
Qed.

Lemma keeps_RemoveProcess n pid : keeps n (λ _, True) (RemoveProcess pid).
Proof.
  unfold RemoveProcess. eapply keeps_bind; [apply keeps_get_st|]. intros s0 _.
  destruct (pageTables s0 !! pid) as [pt|]; [|by apply keeps_ret].
  eapply keeps_bind; [apply keeps_on_heap, related_range_map|]. intros pages _.
  apply keeps_seq; [apply keeps_for_each; intros kp; apply keeps_remove_page|].
  apply keeps_seq; [apply keeps_cow_remove|].
  apply keeps_seq; [|mm_keeps]. apply keeps_modify. intros s Hs.
  apply wf_with_metrics; [intros m; by apply accounted_frame|].
  apply wf_unregistered, wf_with_clusters, wf_tlb_InvalidateProcess, Hs.
Qed.

(** ** Fork *)

(** Both processes of a fork have a page table. *)
Definition with_tables (n : Z) (pid1 pid2 : string) (s : MM.t) : Prop :=
  wf n s ∧ is_Some (pageTables s !! pid1) ∧ is_Some (pageTables s !! pid2).

Lemma with_tables_on_heap {A} n pid1 pid2 (m : M heap A) :
  related same_frames m →
  triple (with_tables n pid1 pid2) (on_heap m) (λ _, with_tables n pid1 pid2).
Proof.
  intros Hm s (Hs & H1 & H2). pose proof (keeps_on_heap n m Hm s Hs) as [Hs' _].
  unfold on_heap in *. destruct (m (hp s)) as [a h]. done.
Qed.

Lemma related_GetPresentPages pt : related same_frames (PageTable.GetPresentPages pt).
Proof.
  unfold PageTable.GetPresentPages. apply related_bind; [apply _|apply related_range_map|].
  intros l. apply related_ret, _.
Qed.

Lemma wf_share_pages n pt keys : PageTable.wf n pt → PageTable.wf n (foldl share_page pt keys).
Proof.
  revert pt. induction keys as [|k keys IH]; intros pt Hpt; simpl; [done|].
  apply IH, wf_update_page; [|done]. intros p Hp Hf. by split; [apply page_wf_MakeShared|].
Qed.

Lemma wf_marked n s pid1 pid2 pt1 pt2 :
  PageTable.wf n pt1 → PageTable.wf n pt2 → with_tables n pid1 pid2 s →
  wf n (s <| pageTables ::= λ pts, <[pid2 := pt2]> (<[pid1 := pt1]> pts) |>).
Proof.
  intros Hp1 Hp2 (Hs & [x1 H1] & [x2 H2]).
  pose proof (wf_with_page_table n s pid1 pt1 (mk_is_Some _ _ H1) Hp1 Hs) as Hs1.
  refine (wf_with_page_table n _ pid2 pt2 _ Hp2 Hs1). simpl.
  destruct (decide (pid1 = pid2)) as [->|Hne]; [rewrite lookup_insert_eq|rewrite lookup_insert_ne by done]; eauto.
Qed.

Lemma keeps_fork_register {A} n (Φ : A → Prop) pid p pt k parentID :
  PageTable.wf n pt →
  triple (with_tables n parentID pid) k (λ a s, wf n s ∧ Φ a) →
  triple (λ s, wf n s ∧ is_Some (pageTables s !! parentID))
    (modify (λ s, s <| pageTables ::= <[pid := pt]> |>) ;; new_windows pid ;;
     modify (λ s, s <| processes ::= <[pid := p]> |>) ;; k) (λ a s, wf n s ∧ Φ a).
Proof.
  intros Hpt Hk s [Hs [x Hx]]. pose proof (wf_registered n s pid p pt Hpt Hs) as Hr.
  refine (Hk _ (conj Hr (conj _ _))); simpl; [|rewrite lookup_insert_eq; eauto].
  destruct (decide (pid = parentID)) as [->|Hne]; [rewrite lookup_insert_eq|rewrite lookup_insert_ne by done]; eauto.
Qed.

Lemma keeps_ForkProcess n parentID childID p : keeps n (λ _, True) (ForkProcess parentID childID p).
Proof.
  unfold ForkProcess. apply triple_get_st. intros s0 Hs0.
  destruct (pageTables s0 !! parentID) as [pt|] eqn:Hpt.
  2:{ eapply triple_start; [exact Hs0|]. by apply (keeps_ret n (λ _, True)). }
  cbv zeta. pose proof (wf_pages _ _ Hs0 _ _ Hpt) as Hwpt. simpl in Hwpt.
  eapply triple_start; [|apply keeps_fork_register]; [by eauto|by apply wf_Clone|].
  eapply triple_bind; [apply with_tables_on_heap, related_GetPresentPages|]. intros parentPages.
  eapply triple_bind; [apply with_tables_on_heap, related_GetPresentPages|]. intros childPages.
  eapply (triple_seq _ _ _ (with_tables n parentID childID)).
  { apply triple_modify. intros s (Hs & H1 & H2). split_and!; [|done|done]. by apply wf_with_cow. }
  eapply (triple_seq _ _ _ (wf n)).
  { apply triple_modify. intros s Hs.
    apply wf_marked; [by apply wf_share_pages|by apply wf_share_pages, wf_Clone|done]. }
  apply keeps_seq; [apply keeps_count_process|]. apply keeps_seq; [apply keeps_emitEvent|].
  by apply keeps_ret.
Qed.

(** ** Huge pages *)

Lemma wf_with_huge n s pid idx f :
  wf n s → wf n (s <| hugePages ::= alter (insert idx f) pid |>).
Proof.
  intros Hs. destruct (wf_domains _ _ Hs) as (H1 & H2 & H3 & H4 & H5).
  destruct Hs. constructor; try done. split_and!; simpl; try done. by rewrite dom_alter_L.
Qed.

Definition huge_result (n : Z) (r : Z * option error) : Prop :=
  match r.2 with None => 0 ≤ r.1 < n | Some _ => r.1 = -1 end.

Lemma keeps_huge_tail n pid idx addr (p : ptr) :
  Z.of_nat p < n →
  keeps n (huge_result n)
    (f ← on_heap (load p);
     on_mpt pid (MultiLevelPageTable.SetEntry addr (Frame.ID f) true) ;;
     modify (λ s, s <| hugePages ::= alter (insert idx (Frame.ID f)) pid |>) ;;
     alg_fault p ;;
     on_metrics Metrics.RecordPageFault ;;
     emitEvent (EvHugePageMapped pid idx (Frame.ID f) addr) ;;
     mret (Frame.ID f, None)).
Proof.
  intros Hp. eapply keeps_bind; [by apply keeps_load|]. cbv beta. intros f Hf.
  apply keeps_seq; [apply keeps_mpt_set|]. apply keeps_seq.
  { apply keeps_modify. intros s. apply wf_with_huge. }
  apply keeps_seq; [apply keeps_alg_fault|]. apply keeps_seq; [apply keeps_metrics_fault|].
  apply keeps_seq; [apply keeps_emitEvent|]. apply keeps_ret. unfold huge_result. simpl. lia.
Qed.

Lemma keeps_MapHugePage n pid idx :
  keeps n (huge_result n) (MapHugePage pid idx).
Proof.
  unfold MapHugePage. destruct (decide _); [by apply keeps_ret|].
  eapply keeps_bind; [apply keeps_get_st|]. intros s0 _.
  destruct (pageTables s0 !! pid); [|by apply keeps_ret]. cbv zeta.
  eapply triple_bind; [apply allocateFrameForPage_spec|]. intros r.
  eapply (triple_bind _ _ _ (λ r s, wf n s ∧ res_frame n r)).
  - destruct r as [p|e]; [by apply triple_ret|].
    apply take_frame_spec; [apply wrap_err_spec; [apply select_used_spec|done]|apply keeps_evictPage].
  - clear r. intros [p|e] s [Hs Hp]; [|done]. by apply keeps_huge_tail.
Qed.
End processes.

(** ** Configuration, queries and reset *)

Section configuration.
Context `{Env : GoEnv}.
Implicit Types (n : Z) (s : MM.t) (pid : string) (v : N).

(** A field the invariant does not mention. *)
Ltac unmentioned := apply keeps_modify; intros s []; by constructor.

Lemma keeps_EnableNuma n b : keeps n (λ _, True) (EnableNuma b).
Proof.
  apply keeps_modify. intros s Hs.
  cbv zeta. match goal with |- wf n (if ?c then _ else _) => destruct c end; destruct Hs; by constructor.
Qed.
Lemma keeps_EnableCompression n b : keeps n (λ _, True) (EnableCompression b).
Proof. unmentioned. Qed.
Lemma keeps_EnableClustering n b : keeps n (λ _, True) (EnableClustering b).
Proof. unmentioned. Qed.
Lemma keeps_SetEventCallback n b : keeps n (λ _, True) (SetEventCallback b).
Proof. unmentioned. Qed.
Lemma keeps_Close n : keeps n (λ _, True) Close.
Proof. unmentioned. Qed.

Lemma keeps_SetAlgorithm n ty : keeps n (λ _, True) (SetAlgorithm ty).
Proof.
  apply keeps_modify. intros s Hs. pose proof (wf_n _ _ Hs). rewrite (wf_numFrames _ _ Hs).
  apply wf_with_alg; [apply new_algorithm_inv; lia|done].
Qed.

Lemma keeps_SetFutureAccesses n accs : keeps n (λ _, True) (SetFutureAccesses accs).
Proof.
  apply keeps_modify. intros s Hs. destruct (algorithm s) eqn:Ha; try done.
  - by apply (wf_with_alg n s (AlgOptimal _)).
  - by apply (wf_with_alg n s (AlgOptPlus _)).
Qed.

Lemma keeps_eventWorker n : keeps n (λ _, True) eventWorker_step.
Proof.
  intros s Hs. unfold eventWorker_step. split; [|done].
  destruct (eventCh s) as [|e q] eqn:Hq; [done|]. cbn [snd].
  pose proof (wf_events _ _ Hs) as Hlen. rewrite Hq in Hlen. simpl in Hlen.
  destruct Hs. constructor; try done. simpl. lia.
Qed.

Lemma keeps_GetMetrics n : keeps n (λ _, True) GetMetrics.
Proof.
  unfold GetMetrics. eapply keeps_bind; [apply keeps_now|]. intros t _. by apply keeps_gets.
Qed.

Lemma keeps_GetHugePages n pid : keeps n (λ _, True) (GetHugePages pid).
Proof.
  unfold GetHugePages. eapply keeps_bind; [apply keeps_get_st|]. intros s _.
  destruct (hugePages s !! pid); [|by apply keeps_ret].
  eapply keeps_bind; [apply keeps_on_heap, related_range_map|]. intros l _. by apply keeps_ret.
Qed.

Lemma keeps_GetAllProcesses n : keeps n (λ _, True) GetAllProcesses.
Proof.
  unfold GetAllProcesses. eapply keeps_bind; [apply keeps_get_st|]. intros s _.
  eapply keeps_bind; [apply keeps_on_heap, related_range_map|]. intros l _. by apply keeps_ret.
Qed.

Lemma related_Clear ft : related same_frames (FrameTable.Clear ft).
Proof. apply related_for_each; [apply _|]. intros p. apply related_frame_Release. Qed.

Lemma algorithm_reset_inv a : algorithm_inv a → algorithm_inv (Policy.Reset a).
Proof. exact (reset_lawful (LawfulPolicy := algorithm_lawful) a). Qed.

Lemma keeps_Reset n : keeps n (λ _, True) MM.Reset.
Proof.
  unfold MM.Reset. eapply keeps_bind; [apply keeps_get_st|]. intros s0 _.
  eapply (keeps_bind _ (λ _, True)); [apply keeps_on_heap, related_Clear|]. intros [] _.
  eapply keeps_bind; [apply keeps_now|]. intros time _.
  apply keeps_seq; [|apply keeps_emitEvent]. apply keeps_modify. intros s Hs.
  pose proof (algorithm_reset_inv _ (wf_alg _ _ Hs)) as Ha.
  destruct (Clear_spec (tlb s)) as [Ht1 Ht2].
  destruct Hs. constructor; try done; simpl.
Qed.

Lemma wf_NewMemoryManager numFrames tlbSize ty t0 :
  0 ≤ numFrames < 2 ^ 30 → wf numFrames (NewMemoryManager numFrames tlbSize ty t0).
Proof.
  intros Hn. pose proof (FrameTable.wf_NewFrameTable numFrames t0 (proj1 Hn)) as Hft.
  pose proof (FrameTable.new_frames_spec 0 (Z.to_nat numFrames) (mk_heap [] t0)) as (Hfr & _ & _).
  unfold NewMemoryManager, FrameTable.NewFrameTable, mbind, M_bind in *. simpl in *.
  destruct Hft as (Hw & _ & Hpin). rewrite Hfr in *. constructor; try done; simpl.
  - constructor; [exact Hw|]. intros p f Hf. by apply (Hpin p f Hf).
  - apply new_algorithm_inv. lia.
  - apply wf_NewTLB.
  - lia.
Qed.
End configuration.

(** ** Runs *)

(** A call of an exported method, by any goroutine.  [OpProcess] is the caller
    allocating a process object; [OpFast] and [OpLocked] are the critical sections
    of [AccessMemory] on their own: between them, other goroutines' calls.
    [OpWorker] is one round of the event worker. *)
Inductive op : Type :=
| OpProcess (p : Process.t)
| OpCreate (p : nat)
| OpRemove (pid : string)
| OpFork (parentID childID : string) (p : nat)
| OpAccess (pid : string) (v : N) (w : bool)
| OpFast (pid : string) (v : N) (w : bool)
| OpLocked (pid : string) (v : N) (w : bool) (start : Z) (p : nat)
| OpMapHuge (pid : string) (idx : N)
| OpSetAlgorithm (ty : AlgorithmType)
| OpSetFuture (accs : list N)
| OpNuma (b : bool) | OpCompression (b : bool) | OpClustering (b : bool)
| OpCallback (b : bool)
| OpWorker
| OpMetrics
| OpClose
| OpReset.

Section runs.
Context `{Env : GoEnv}.

(** A call whose result is not looked at. *)
Definition ignore {A} (m : M MM.t A) : M MM.t unit := _ ← m; mret ().

Definition op_run (o : op) : M MM.t unit :=
  match o with
  | OpProcess p => modify (λ s, s <| procs ::= λ l, l ++ [p] |>)
  | OpCreate p => ignore (CreateProcess p)
  | OpRemove pid => ignore (RemoveProcess pid)
  | OpFork parentID childID p => ignore (ForkProcess parentID childID p)
  | OpAccess pid v w => ignore (AccessMemory pid v w)
  | OpFast pid v w => ignore (access_fast pid v w)
  | OpLocked pid v w start p => ignore (access_locked pid v w start p)
  | OpMapHuge pid idx => ignore (MapHugePage pid idx)
  | OpSetAlgorithm ty => SetAlgorithm ty
  | OpSetFuture accs => SetFutureAccesses accs
  | OpNuma b => EnableNuma b
  | OpCompression b => EnableCompression b
  | OpClustering b => EnableClustering b
  | OpCallback b => SetEventCallback b
  | OpWorker => ignore eventWorker_step
  | OpMetrics => ignore GetMetrics
  | OpClose => Close
  | OpReset => MM.Reset
  end.
Definition ops_run (ops : list op) (s : MM.t) : MM.t := run (for_each op_run ops) s.

Lemma keeps_ignore {A} n (Φ : A → Prop) m : keeps n Φ m → keeps n (λ _, True) (ignore m).
Proof. intros Hm. eapply keeps_bind; [exact Hm|]. intros a _. by apply keeps_ret. Qed.

Lemma keeps_op n o : keeps n (λ _, True) (op_run o).
Proof.
  destruct o; cbn [op_run].
  - apply keeps_modify. intros s. apply wf_with_procs.
  - eapply keeps_ignore, keeps_CreateProcess.
  - eapply keeps_ignore, keeps_RemoveProcess.
  - eapply keeps_ignore, keeps_ForkProcess.
  - eapply keeps_ignore, keeps_AccessMemory.
  - eapply keeps_ignore, keeps_access_fast.
  - eapply keeps_ignore, keeps_access_locked.
  - eapply keeps_ignore, keeps_MapHugePage.
  - apply keeps_SetAlgorithm.
  - apply keeps_SetFutureAccesses.
  - apply keeps_EnableNuma.
  - apply keeps_EnableCompression.
  - apply keeps_EnableClustering.
  - apply keeps_SetEventCallback.
  - eapply keeps_ignore, keeps_eventWorker.
  - eapply keeps_ignore, keeps_GetMetrics.
  - apply keeps_Close.
  - apply keeps_Reset.
Qed.

Lemma wf_ops_run n ops s : wf n s → wf n (ops_run ops s).
Proof.
  intros Hs. assert (keeps n (λ _, True) (for_each op_run ops)) as Hk
    by apply keeps_for_each, keeps_op. exact (proj1 (Hk s Hs)).
Qed.
End runs.
