(* ===== verification/ManagerCounts.v ===== *)
(** * What an access counts

    Only [AccessMemory] and [MapHugePage] count faults, and only [AccessMemory]
    hits: every step below them leaves both counters, and the table of processes,
    alone.  An access of a registered process then counts exactly one of the two. *)

From S2P Require Import Prelude Models Heap FrameTable Policy Policies PoliciesSpec Algorithms.
From S2P Require Import Tlb PageTable MultiLevel Advanced Cow Manager ManagerInv ManagerOps ManagerSteps.
Local Open Scope Z_scope.
Import MM.

Definition same_counts (s s' : MM.t) : Prop :=
  processes s' = processes s ∧
  Metrics.PageFaults (metrics s') = Metrics.PageFaults (metrics s) ∧
  Metrics.PageHits (metrics s') = Metrics.PageHits (metrics s).

#[global] Instance same_counts_preorder : PreOrder same_counts.
Proof. unfold same_counts. split; [done|]. intros s1 s2 s3. intuition congruence. Qed.

Create HintDb counts discriminated.
#[export] Hint Constants Opaque : counts.

Section leaves.
Context `{Env : GoEnv}.

Lemma counts_ret {A} (a : A) : related same_counts (mret a).
Proof. apply related_ret, _. Qed.
Lemma counts_gets {A} (f : MM.t → A) : related same_counts (gets f).
Proof. apply related_gets, _. Qed.
Lemma counts_get_st : related same_counts get_st.
Proof. by intros s. Qed.
Lemma counts_on_heap {A} (m : M heap A) : related same_counts (on_heap m).
Proof. intros s. unfold on_heap. by destruct (m (hp s)). Qed.
Lemma counts_on_tlb {A} (m : TLB.t → M heap (A * TLB.t)) : related same_counts (on_tlb m).
Proof. intros s. unfold on_tlb. by destruct (m (tlb s) (hp s)) as [[? ?] ?]. Qed.
Lemma counts_on_page pid k g : related same_counts (on_page pid k g).
Proof. by intros s. Qed.
Lemma counts_page_at pid k : related same_counts (page_at pid k).
Proof. by intros s. Qed.
Lemma counts_on_mpt pid g : related same_counts (on_mpt pid g).
Proof. by intros s. Qed.
Lemma counts_on_process p g : related same_counts (on_process p g).
Proof. by intros s. Qed.
Lemma counts_now : related same_counts now.
Proof. apply counts_on_heap. Qed.
Lemma counts_alg_select ps : related same_counts (alg_select ps).
Proof. intros s. unfold alg_select. by destruct (SelectVictim _ _ _) as [[? ?] ?]. Qed.
Lemma counts_alg_access p w : related same_counts (alg_access p w).
Proof. intros s. unfold alg_access. by destruct (OnPageAccess _ _ _ _) as [? ?]. Qed.
Lemma counts_alg_fault p : related same_counts (alg_fault p).
Proof. intros s. unfold alg_fault. by destruct (OnPageFault _ _ _) as [? ?]. Qed.
Lemma counts_alg_eviction p : related same_counts (alg_eviction p).
Proof. intros s. unfold alg_eviction. by destruct (OnPageEviction _ _ _) as [? ?]. Qed.
Lemma counts_emitEvent e : related same_counts (emitEvent e).
Proof. intros s. unfold emitEvent, modify. cbn [snd]. by repeat case_match. Qed.
Lemma counts_compress k : related same_counts (compress_page k).
Proof. intros s. unfold compress_page. by destruct (CompressionManager.CompressPage _ _ _ _) as [[? ?] ?]. Qed.
Lemma counts_copy_page page k pid : related same_counts (copy_page page k pid).
Proof. intros s. unfold copy_page. by destruct (CopyOnWrite.CopyPage _ _ _ _ _) as [[? ?] ?]. Qed.
Lemma counts_eviction d : related same_counts (on_metrics (Metrics.RecordEviction d)).
Proof. intros s. by destruct d. Qed.
Lemma counts_cow : related same_counts (on_metrics Metrics.RecordCoWCopy).
Proof. by intros s. Qed.
Lemma counts_used_frames : related same_counts used_frames.
Proof. by intros s. Qed.

(** Updates of fields the relation does not mention. *)
Lemma counts_set_tlb g : related same_counts (modify (λ s, s <| tlb ::= g |>)).
Proof. by intros s. Qed.
Lemma counts_set_cow g : related same_counts (modify (λ s, s <| cowManager ::= g |>)).
Proof. by intros s. Qed.
Lemma counts_set_cow' c : related same_counts (modify (λ s, s <| cowManager := c |>)).
Proof. by intros s. Qed.
Lemma counts_set_compression g : related same_counts (modify (λ s, s <| compressionManager ::= g |>)).
Proof. by intros s. Qed.
Lemma counts_set_compression' c : related same_counts (modify (λ s, s <| compressionManager := c |>)).
Proof. by intros s. Qed.
Lemma counts_set_clusters g : related same_counts (modify (λ s, s <| clusterManager ::= g |>)).
Proof. by intros s. Qed.
Lemma counts_set_pages g : related same_counts (modify (λ s, s <| pageTables ::= g |>)).
Proof. by intros s. Qed.
Lemma counts_set_recent g : related same_counts (modify (λ s, s <| recentAccesses ::= g |>)).
Proof. by intros s. Qed.
Lemma counts_set_working g : related same_counts (modify (λ s, s <| workingSetAccesses ::= g |>)).
Proof. by intros s. Qed.
End leaves.

#[export] Hint Resolve counts_ret counts_gets counts_get_st counts_on_heap counts_on_tlb counts_on_page
  counts_page_at counts_on_mpt counts_on_process counts_now counts_alg_select counts_alg_access
  counts_alg_fault counts_alg_eviction counts_emitEvent counts_compress counts_copy_page
  counts_eviction counts_cow counts_used_frames counts_set_tlb counts_set_cow counts_set_cow'
  counts_set_compression counts_set_compression' counts_set_clusters counts_set_pages
  counts_set_recent counts_set_working : counts.

(** Follow a method's body. *)
Ltac counts_step :=
  cbv zeta;
  lazymatch goal with
  | |- ∀ _, related _ _ => intros ?
  | |- related _ (mbind _ _) => apply related_bind; [apply _| |]
  | |- related _ (bind_ok _ _) => apply related_bind_ok; [apply _|apply _| |]
  | |- related _ (when _ _) => apply related_when; [apply _|]
  | |- related _ (match ?x with _ => _ end) => destruct x
  | |- related _ _ => solve [eauto 2 with counts]
  end.
Ltac counts := repeat counts_step.

Section counts.
Context `{Env : GoEnv}.

Lemma counts_evictPage p : related same_counts (evictPage p).
Proof. unfold evictPage, unmap_page. counts. Qed.
Lemma counts_tlb_insert pid v f : related same_counts (tlb_insert pid v f).
Proof. apply counts_on_tlb. Qed.
Lemma counts_allocate pageID pid : related same_counts (allocateFrameForPage pageID pid).
Proof. unfold allocateFrameForPage. counts. Qed.
Lemma counts_local_node pid p : related same_counts (set_local_node pid p).
Proof. unfold set_local_node. counts. Qed.
#[local] Hint Resolve counts_evictPage counts_tlb_insert counts_allocate counts_local_node : counts.

Lemma counts_install pid k p : related same_counts (install pid k p).
Proof. unfold install. counts. Qed.
Lemma counts_wrap {A} ctx (m : M MM.t (res A)) : related same_counts m → related same_counts (wrap_err ctx m).
Proof. intros Hm. unfold wrap_err. apply related_bind; [apply _|exact Hm|]. counts. Qed.
Lemma counts_select_used : related same_counts select_used.
Proof. unfold select_used. counts. Qed.
Lemma counts_take_frame sel ev pageID pid :
  related same_counts sel → (∀ p, related same_counts (ev p)) →
  related same_counts (take_frame sel ev pageID pid).
Proof.
  intros Hs He. unfold take_frame. apply related_bind_ok; [apply _|apply _|exact Hs|]. intros p.
  apply related_bind_ok; [apply _|apply _|apply He|]. counts.
Qed.
#[local] Hint Resolve counts_install counts_wrap counts_select_used counts_take_frame : counts.

Lemma counts_bring_in pid k : related same_counts (bring_in pid k).
Proof.
  unfold bring_in, atomicEvictAndAlloc. counts; apply counts_take_frame; auto with counts.
Qed.
Lemma counts_handleCoW pid k p : related same_counts (handleCoW pid k p).
Proof. unfold handleCoW. counts. Qed.
#[local] Hint Resolve counts_bring_in counts_handleCoW : counts.

Lemma counts_handlePageFault pid k w : related same_counts (handlePageFault pid k w).
Proof. unfold handlePageFault, decompress, cow_if_shared. counts. Qed.
#[local] Hint Resolve counts_handlePageFault : counts.

(** The histories, prefetching and PFF's enforcement. *)
Lemma counts_updateWorkingSet pid v : related same_counts (updateWorkingSet pid v).
Proof. unfold updateWorkingSet. counts. Qed.
Lemma counts_trackAccess pid v : related same_counts (trackAccess pid v).
Proof. unfold trackAccess. counts. Qed.
Lemma counts_get_or_create pid v : related same_counts (get_or_create_page pid v).
Proof. unfold get_or_create_page. counts. Qed.
#[local] Hint Resolve counts_updateWorkingSet counts_trackAccess counts_get_or_create : counts.

Lemma counts_prefetch pid pages budget : related same_counts (prefetch pid pages budget).
Proof.
  revert budget. induction pages as [|v pages IH]; intros [|budget]; cbn [prefetch]; counts.
Qed.
Lemma counts_tryPrefetch pid : related same_counts (tryPrefetch pid).
Proof. unfold tryPrefetch. counts. apply counts_prefetch. Qed.
Lemma counts_enforce_loop fuel target ps : related same_counts (enforce_loop fuel target ps).
Proof. revert ps. induction fuel as [|fuel IH]; intros ps; cbn [enforce_loop]; counts. Qed.
Lemma counts_enforce target : related same_counts (enforcePFFResident target).
Proof. unfold enforcePFFResident. counts. apply counts_enforce_loop. Qed.
#[local] Hint Resolve counts_tryPrefetch counts_enforce : counts.
Lemma counts_enforce_if_pff : related same_counts enforce_if_pff.
Proof. unfold enforce_if_pff. counts. Qed.
Lemma counts_prefetch_if_enabled pid : related same_counts (prefetch_if_enabled pid).
Proof. unfold prefetch_if_enabled. counts. Qed.
Lemma counts_track_if_enabled pid v : related same_counts (track_if_enabled pid v).
Proof. unfold track_if_enabled. counts. Qed.
#[local] Hint Resolve counts_enforce_if_pff counts_prefetch_if_enabled counts_track_if_enabled : counts.

(** One hit, or one fault. *)
Definition one_hit (s s' : MM.t) : Prop :=
  processes s' = processes s ∧
  Metrics.PageFaults (metrics s') = Metrics.PageFaults (metrics s) ∧
  Metrics.PageHits (metrics s') = i64 (Metrics.PageHits (metrics s) + 1).
Definition one_fault (s s' : MM.t) : Prop :=
  processes s' = processes s ∧
  Metrics.PageFaults (metrics s') = i64 (Metrics.PageFaults (metrics s) + 1) ∧
  Metrics.PageHits (metrics s') = Metrics.PageHits (metrics s).

Lemma same_then_hit s1 s2 s3 : same_counts s1 s2 → one_hit s2 s3 → one_hit s1 s3.
Proof. intros (? & ? & ?) (? & ? & ?). split_and!; congruence. Qed.
Lemma hit_then_same s1 s2 s3 : one_hit s1 s2 → same_counts s2 s3 → one_hit s1 s3.
Proof. intros (? & ? & ?) (? & ? & ?). split_and!; congruence. Qed.
Lemma same_then_fault s1 s2 s3 : same_counts s1 s2 → one_fault s2 s3 → one_fault s1 s3.
Proof. intros (? & ? & ?) (? & ? & ?). split_and!; congruence. Qed.
Lemma fault_then_same s1 s2 s3 : one_fault s1 s2 → same_counts s2 s3 → one_fault s1 s3.
Proof. intros (? & ? & ?) (? & ? & ?). split_and!; congruence. Qed.

Lemma related_then {A B} (R1 R2 R3 : relation MM.t) (m : M MM.t A) (k : A → M MM.t B) :
  (∀ s1 s2 s3, R1 s1 s2 → R2 s2 s3 → R3 s1 s3) →
  related R1 m → (∀ a, related R2 (k a)) → related R3 (m ≫= k).
Proof. intros HR Hm Hk s. eapply HR; [apply Hm|apply Hk]. Qed.

Lemma hit_counted : related one_hit (on_metrics Metrics.RecordPageHit).
Proof. by intros s. Qed.
Lemma fault_counted : related one_fault (on_metrics Metrics.RecordPageFault).
Proof. by intros s. Qed.

Lemma access_hit_counts pid v w start p page f : related one_hit (access_hit pid v w start p page f).
Proof.
  unfold access_hit.
  eapply related_then; [apply same_then_hit|apply counts_alg_access|]. intros _.
  eapply related_then; [apply same_then_hit|apply counts_tlb_insert|]. intros _.
  eapply related_then; [apply same_then_hit|apply counts_on_process|]. intros _.
  eapply related_then; [apply hit_then_same|apply hit_counted|]. intros _. counts.
Qed.

(** The fast path: served by the TLB and counted as a hit, or left to the slow path. *)
Lemma serve_from_tlb_counts pid v start p s :
  let '(r, s') := serve_from_tlb pid v start p s in
  match r with
  | FastDone r => r = Ok () ∧ one_hit s s'
  | FastContinue start' p' => start' = start ∧ p' = p ∧ same_counts s s'
  end.
Proof.
  unfold serve_from_tlb. unfold mbind at 1, M_bind at 1.
  pose proof (counts_on_tlb (TLB.Lookup pid v) s) as Hl.
  destruct (on_tlb (TLB.Lookup pid v) s) as [[f|] s1]; [|done]. cbn [fst snd] in *.
  unfold get_st. unfold mbind at 1, M_bind at 1. cbn [fst snd].
  destruct (FrameTable.GetFrame _ f) as [q|e]; [|done].
  match goal with |- let '(_, _) := ?m s1 in _ => enough (related one_hit m ∧ (m s1).1 = FastDone (Ok ())) as [Hm Hr] end.
  { specialize (Hm s1). match goal with |- let '(_, _) := ?x in _ => destruct x as [r s2] end.
    cbn [fst snd] in *. subst r. split; [done|]. by eapply same_then_hit. }
  split; [|done].
  eapply related_then; [apply same_then_hit|apply counts_alg_access|]. intros _.
  eapply related_then; [apply same_then_hit|apply counts_on_process|]. intros _.
  eapply related_then; [apply hit_then_same|apply hit_counted|]. intros _. counts.
Qed.

Lemma access_fast_counts pid v w s p :
  processes s !! pid = Some p →
  let '(r, s') := access_fast pid v w s in
  match r with
  | FastDone r => r = Ok () ∧ one_hit s s'
  | FastContinue _ p' => p' = p ∧ same_counts s s'
  end.
Proof.
  intros Hp. unfold access_fast, get_st. unfold mbind at 1 2, M_bind at 1 2. cbn [fst snd].
  pose proof (counts_now s) as Hn. destruct (now s) as [start s1]. cbn [fst snd] in *.
  pose proof Hn as (Hpr & _). rewrite Hpr, Hp.
  unfold mbind, M_bind. cbn [fst snd].
  assert (same_counts s (on_process p Process.RecordMemoryAccess s1).2) as H2.
  { etrans; [exact Hn|apply counts_on_process]. }
  destruct w; [done|].
  pose proof (serve_from_tlb_counts pid v start p (on_process p Process.RecordMemoryAccess s1).2) as Ht.
  destruct (serve_from_tlb _ _ _ _ _) as [[r|start' p'] s3].
  - destruct Ht as [-> Ht]. split; [done|]. by eapply same_then_hit.
  - destruct Ht as (-> & -> & Ht). split; [done|]. by etrans.
Qed.

Lemma access_fault_counts pid v w start p s :
  let '(r, s') := access_fault pid v w start p s in r = Ok () → one_fault s s'.
Proof.
  unfold access_fault, bind_ok. unfold mbind at 1, M_bind at 1.
  pose proof (counts_handlePageFault pid v w s) as Hf.
  destruct (handlePageFault pid v w s) as [[u|e] s1]; cbn [fst snd] in *; [|done].
  match goal with |- let '(_, _) := ?m s1 in _ => enough (related one_fault m) as Hm end.
  { specialize (Hm s1). match goal with |- let '(_, _) := ?x in _ => destruct x as [r s2] end.
    intros _. by eapply same_then_fault. }
  eapply related_then; [apply same_then_fault|apply counts_on_process|]. intros _.
  eapply related_then; [apply fault_then_same|apply fault_counted|]. intros _. counts.
Qed.

(** An access counts exactly one hit or one fault. *)
Definition one_access (s s' : MM.t) : Prop := one_hit s s' ∨ one_fault s s'.

Lemma same_then_access s1 s2 s3 : same_counts s1 s2 → one_access s2 s3 → one_access s1 s3.
Proof.
  intros H [Hh|Hf]; [left; by eapply same_then_hit|right; by eapply same_then_fault].
Qed.

Lemma wf_process_table n s pid :
  wf n s → is_Some (processes s !! pid) → is_Some (pageTables s !! pid).
Proof.
  intros Hs Hp. destruct (wf_domains _ _ Hs) as [Hd _].
  apply elem_of_dom. rewrite Hd. by apply elem_of_dom.
Qed.

Lemma access_locked_ok n pid v w start p :
  triple (λ s, wf n s ∧ is_Some (processes s !! pid)) (access_locked pid v w start p)
    (λ r s, wf n s ∧ res_done n r).
Proof.
  unfold access_locked.
  eapply (triple_seq _ _ _ (λ s, wf n s ∧ is_Some (processes s !! pid))).
  { intros s [Hs Hp]. destruct (counts_updateWorkingSet pid v s) as [-> _].
    split; [by apply keeps_updateWorkingSet|done]. }
  eapply (triple_seq _ _ _ (λ s, wf n s ∧ is_Some (processes s !! pid))).
  { intros s [Hs Hp]. destruct (counts_track_if_enabled pid v s) as [-> _].
    split; [by apply keeps_track_if_enabled|done]. }
  apply triple_get_st. intros s2 [Hs2 Hp2].
  destruct (wf_process_table n s2 pid Hs2 Hp2) as [pt Hpt]. rewrite Hpt.
  eapply triple_start; [exact Hs2|].
  eapply keeps_bind; [apply keeps_get_or_create|]. intros page Hpage.
  destruct (if Page.IsPresent page then _ else _) as [q|e] eqn:Hg.
  - apply keeps_access_hit.
    destruct (Page.IsPresent page); [|done]. by destruct (GetFrame_table n s2 _ _ Hs2 Hg).
  - apply keeps_access_fault.
Qed.

Lemma access_locked_counts pid v w start p s :
  let '(r, s') := access_locked pid v w start p s in r = Ok () → one_access s s'.
Proof.
  unfold access_locked. unfold mbind at 1, M_bind at 1.
  pose proof (counts_updateWorkingSet pid v s) as H1.
  destruct (updateWorkingSet pid v s) as [[] s1]. cbn [fst snd] in *.
  unfold mbind at 1, M_bind at 1. pose proof (counts_track_if_enabled pid v s1) as H2.
  destruct (track_if_enabled pid v s1) as [[] s2]. cbn [fst snd] in *. unfold get_st.
  unfold mbind at 1, M_bind at 1. cbn [fst snd].
  destruct (pageTables s2 !! pid); [|done]. unfold mbind at 1, M_bind at 1.
  pose proof (counts_get_or_create pid v s2) as H3.
  destruct (get_or_create_page pid v s2) as [page s3]. cbn [fst snd] in *.
  assert (same_counts s s3) as H by (etrans; [exact H1|]; by etrans).
  destruct (if Page.IsPresent page then _ else _) as [q|e].
  - pose proof (access_hit_counts pid v w start p page q s3) as Hh.
    destruct (access_hit _ _ _ _ _ _ _ s3) as [r s4]. intros _. eapply same_then_access; [exact H|by left].
  - pose proof (access_fault_counts pid v w start p s3) as Hh.
    destruct (access_fault _ _ _ _ _ s3) as [r s4]. intros Hr. eapply same_then_access; [exact H|right; auto].
Qed.

(** An access of a registered process, on a manager with frames, succeeds and is
    counted once. *)
Lemma AccessMemory_counted n pid v w s :
  0 < n → wf n s → is_Some (processes s !! pid) →
  let '(r, s') := AccessMemory pid v w s in r = Ok () ∧ one_access s s' ∧ wf n s'.
Proof.
  intros Hn Hs [p Hp]. unfold AccessMemory, mbind, M_bind.
  pose proof (access_fast_counts pid v w s p Hp) as Hf.
  pose proof (keeps_access_fast n pid v w s Hs) as [Hs1 _].
  destruct (access_fast pid v w s) as [[r|start q] s1]; cbn [fst snd] in *.
  - destruct Hf as [-> Hf]. split_and!; [done|by left|done].
  - destruct Hf as [-> Hf]. pose proof (access_locked_counts pid v w start p s1) as Hl.
    pose proof (access_locked_ok n pid v w start p s1) as Ho.
    destruct (access_locked pid v w start p s1) as [r s2]. cbn [fst snd] in *.
    destruct Ho as [Hs2 Hr]; [split; [done|]; destruct Hf as [-> _]; eauto|].
    destruct r as [[]|e]; [|simpl in Hr; lia]. split_and!; [done| |done].
    eapply same_then_access; [exact Hf|by apply Hl].
Qed.
End counts.
