(* ===== verification/ManagerEffects.v ===== *)
(** * What each step does to the mapping

    The manager's state seen as three partial functions: which (process, page)
    a frame holds ([owner]), which frame a page is present in ([mapping]), and
    what the TLB would answer ([cached]).  [effect dO dM dT]: a step changes
    them exactly where the finite overlays [dO], [dM] and [dT] say (the TLB may
    in addition forget).  Overlays compose, so a method's effect is computed
    from its steps. *)

From S2P Require Import Prelude Models Heap FrameTable Policy Policies PoliciesSpec Algorithms.
From S2P Require Import Tlb PageTable MultiLevel Advanced Cow Manager ManagerInv ManagerOps ManagerSteps.
Local Open Scope Z_scope.
Import MM.

Abbreviation vpage := (string * N)%type.

(** ** The three functions *)

Definition owner (s : MM.t) (p : ptr) : option vpage :=
  let f := frame_of (hp s) p in
  if Frame.IsFree f then None else Some (Frame.ProcessID f, Frame.PageID f).
Definition page_of (s : MM.t) (x : vpage) : option Page.t := lookup_page x.1 x.2 s.
Definition mapping (s : MM.t) (x : vpage) : option Z :=
  match page_of s x with
  | Some p => if Page.Present p then Some (Page.FrameNumber p) else None
  | None => None
  end.
Definition cached (s : MM.t) (x : vpage) : option Z := TLB.translate (tlb s) x.1 x.2.

(** No page was ever shared: every page is filed under its own number. *)
Definition plain (s : MM.t) : Prop :=
  ∀ x p, page_of s x = Some p → Page.ID p = x.2 ∧ Page.Shared p = false.

Definition is_pff (s : MM.t) : bool := match algorithm s with AlgPFF _ => true | _ => false end.

(** ** Overlays *)

Section overlays.
Context {K V : Type} `{EqDecision K}.
Implicit Types d : K → option V.

Definition over d (base : K → V) (k : K) : V := default (base k) (d k).
Definition none : K → option V := λ _, None.
Definition at_ (k : K) (v : V) : K → option V := λ k', if decide (k' = k) then Some v else None.
Definition then_ (d2 d1 : K → option V) : K → option V :=
  λ k, match d2 k with Some v => Some v | None => d1 k end.

Lemma over_none b k : over none b k = b k.
Proof. done. Qed.
Lemma over_at k v b k' : over (at_ k v) b k' = if decide (k' = k) then v else b k'.
Proof. unfold over, at_. by destruct (decide _). Qed.
Lemma over_then d2 d1 b k : over (then_ d2 d1) b k = over d2 (over d1 b) k.
Proof. unfold over, then_. by destruct (d2 k). Qed.
End overlays.

Abbreviation d_owner := (ptr → option (option vpage)).
Abbreviation d_map := (vpage → option (option Z)).

(** What no step below [SetAlgorithm] and the switches changes, and what only grows. *)
Record steady (s s' : MM.t) : Prop := {
  steady_pff : is_pff s' = is_pff s;
  steady_clustering : clusteringEnabled s' = clusteringEnabled s;
  steady_plain : plain s → plain s';
  steady_pages x : is_Some (page_of s x) → is_Some (page_of s' x);
  steady_cow : plain s → CopyOnWrite.sharedPages (cowManager s') = CopyOnWrite.sharedPages (cowManager s);
}.

#[global] Instance steady_preorder : PreOrder steady.
Proof. split; [done|]. intros s1 s2 s3 [P1 C1 H1 G1 W1] [P2 C2 H2 G2 W2].
  constructor; [congruence|congruence|auto|auto|]. intros Hp. rewrite (W2 (H1 Hp)). auto. Qed.

Record effect (dO : d_owner) (dM dT : d_map) (s s' : MM.t) : Prop := {
  effect_owner p : owner s' p = over dO (owner s) p;
  effect_mapping x : mapping s' x = over dM (mapping s) x;
  effect_cached x f : cached s' x = Some f → over dT (cached s) x = Some f;
  effect_steady : steady s s';
}.
Abbreviation quiet := (effect none none none).

Lemma effect_then dO1 dM1 dT1 dO2 dM2 dT2 s1 s2 s3 :
  effect dO1 dM1 dT1 s1 s2 → effect dO2 dM2 dT2 s2 s3 →
  effect (then_ dO2 dO1) (then_ dM2 dM1) (then_ dT2 dT1) s1 s3.
Proof.
  intros [O1 M1 T1 S1] [O2 M2 T2 S2]. constructor.
  - intros p. rewrite O2, over_then. unfold over at 1 2. by rewrite O1.
  - intros x. rewrite M2, over_then. unfold over at 1 2. by rewrite M1.
  - intros x f Hf. specialize (T2 _ _ Hf). rewrite over_then. unfold over at 1 in T2.
    unfold over at 1. destruct (dT2 x); [done|]. simpl in *. auto.
  - by trans s2.
Qed.

Lemma effect_quiet_l dO dM dT s1 s2 s3 : quiet s1 s2 → effect dO dM dT s2 s3 → effect dO dM dT s1 s3.
Proof.
  intros H1 H2. pose proof (effect_then _ _ _ _ _ _ _ _ _ H1 H2) as [O M T S].
  constructor; [intros p|intros x|intros x f Hf|done].
  - rewrite O, over_then. unfold over. by destruct (dO p).
  - rewrite M, over_then. unfold over. by destruct (dM x).
  - specialize (T _ _ Hf). rewrite over_then in T. unfold over in *. by destruct (dT x).
Qed.

Lemma effect_quiet_r dO dM dT s1 s2 s3 : effect dO dM dT s1 s2 → quiet s2 s3 → effect dO dM dT s1 s3.
Proof.
  intros H1 H2. pose proof (effect_then _ _ _ _ _ _ _ _ _ H1 H2) as [O M T S].
  constructor; [intros p|intros x|intros x f Hf|done].
  - by rewrite O, over_then.
  - by rewrite M, over_then.
  - specialize (T _ _ Hf). by rewrite over_then in T.
Qed.

#[global] Instance quiet_preorder : PreOrder quiet.
Proof. split; [by constructor|]. intros s1 s2 s3. apply effect_quiet_l. Qed.

(** ** Steps with an effect

    [moves n R Φ m]: from a well-formed state, [m] ends in one related to it by
    [R], with a result that satisfies [Φ]. *)

Definition moves `{GoEnv} {A} (n : Z) (R : relation MM.t) (Φ : A → Prop) (m : M MM.t A) : Prop :=
  ∀ s, wf n s → wf n (m s).2 ∧ R s (m s).2 ∧ Φ (m s).1.

Section moves.
Context `{Env : GoEnv} {B : Type}.
Implicit Types (n : Z) (Ψ : B → Prop).

Lemma moves_intro {A} n R (Φ : A → Prop) m :
  keeps n Φ m → (∀ s, wf n s → R s (m s).2) → moves n R Φ m.
Proof. intros Hk Hr s Hs. destruct (Hk s Hs). auto. Qed.

Lemma moves_ret n R `{!Reflexive R} Ψ b : Ψ b → moves n R Ψ (mret b).
Proof. intros Hb s Hs. split_and!; [done|simpl; reflexivity|done]. Qed.

Lemma moves_quiet_l {A} n dO dM dT (Φ : A → Prop) Ψ m k :
  moves n quiet Φ m → (∀ a, Φ a → moves n (effect dO dM dT) Ψ (k a)) →
  moves n (effect dO dM dT) Ψ (m ≫= k).
Proof.
  intros Hm Hk s Hs. destruct (Hm s Hs) as (Hs1 & Hr1 & Ha).
  destruct (Hk _ Ha _ Hs1) as (Hs2 & Hr2 & Hb). split_and!; [done| |done].
  by eapply effect_quiet_l.
Qed.

Lemma moves_quiet_r {A} n dO dM dT (Φ : A → Prop) Ψ m k :
  moves n (effect dO dM dT) Φ m → (∀ a, Φ a → moves n quiet Ψ (k a)) →
  moves n (effect dO dM dT) Ψ (m ≫= k).
Proof.
  intros Hm Hk s Hs. destruct (Hm s Hs) as (Hs1 & Hr1 & Ha).
  destruct (Hk _ Ha _ Hs1) as (Hs2 & Hr2 & Hb). split_and!; [done| |done].
  by eapply effect_quiet_r.
Qed.

Lemma moves_then {A} n R1 R2 R3 (Φ : A → Prop) Ψ m k :
  (∀ s1 s2 s3, R1 s1 s2 → R2 s2 s3 → R3 s1 s3) →
  moves n R1 Φ m → (∀ a, Φ a → moves n R2 Ψ (k a)) → moves n R3 Ψ (m ≫= k).
Proof.
  intros HR Hm Hk s Hs. destruct (Hm s Hs) as (Hs1 & Hr1 & Ha).
  destruct (Hk _ Ha _ Hs1) as (Hs2 & Hr2 & Hb). split_and!; [done|by eapply HR|done].
Qed.

Lemma moves_weaken n R (Φ Ψ : B → Prop) m :
  (∀ b, Φ b → Ψ b) → moves n R Φ m → moves n R Ψ m.
Proof. intros H Hm s Hs. destruct (Hm s Hs) as (?&?&?). auto. Qed.
End moves.

Lemma moves_when `{GoEnv} n R `{!Reflexive R} c m :
  moves n R (λ _, True) m → moves n R (λ _, True) (when c m).
Proof. destruct c; [done|]. intros _. by apply moves_ret. Qed.

(** ** The quiet steps *)

Create HintDb quiet discriminated.
#[export] Hint Constants Opaque : quiet.

Section quiet_steps.
Context `{Env : GoEnv}.
Implicit Types (n : Z) (s : MM.t) (pid : string) (v : N).

(** The objects a step may change quietly. *)
Lemma frame_of_same h h' p :
  same_bindings h h' → Frame.same_binding (frame_of h p) (frame_of h' p).
Proof.
  intros Hb. unfold frame_of.
  destruct (frames h !! p) as [f|] eqn:Hf, (frames h' !! p) as [g|] eqn:Hg; simpl; [| | |done].
  - by destruct (Forall2_lookup_lr _ _ _ _ _ _ Hb Hf Hg).
  - apply lookup_ge_None in Hg. rewrite <-(same_bindings_length _ _ Hb) in Hg.
    apply lookup_lt_Some in Hf. lia.
  - apply lookup_ge_None in Hf. rewrite (same_bindings_length _ _ Hb) in Hf.
    apply lookup_lt_Some in Hg. lia.
Qed.

Lemma owner_same_bindings s h p : same_bindings (hp s) h → owner (s <| hp := h |>) p = owner s p.
Proof.
  intros Hb. destruct (frame_of_same _ _ p Hb) as (_ & Hpg & Hpr & _ & Hfree & _).
  unfold owner, Frame.IsFree; cbn [hp]. simpl. by rewrite <-Hfree, <-Hpg, <-Hpr.
Qed.

Lemma quiet_intro s s' :
  (∀ p, owner s' p = owner s p) → pageTables s' = pageTables s →
  (∀ x f, cached s' x = Some f → cached s x = Some f) →
  is_pff s' = is_pff s → clusteringEnabled s' = clusteringEnabled s →
  CopyOnWrite.sharedPages (cowManager s') = CopyOnWrite.sharedPages (cowManager s) → quiet s s'.
Proof.
  intros Ho Hp Hc Ha Hcl Hcow. assert (∀ x, page_of s' x = page_of s x) as Hpage.
  { intros x. unfold page_of, lookup_page. by rewrite Hp. }
  constructor; [exact Ho| |exact Hc|constructor; try done].
  - intros x. unfold mapping. by rewrite Hpage.
  - intros Hs x p. rewrite Hpage. apply Hs.
  - intros x. by rewrite Hpage.
Qed.

Lemma quiet_on_heap {A} n (m : M heap A) :
  related same_bindings m → moves n quiet (λ _, True) (on_heap m).
Proof.
  intros Hm. apply moves_intro; [apply keeps_on_heap, related_same, Hm|].
  intros s Hs. specialize (Hm (hp s)). unfold on_heap. destruct (m (hp s)) as [a h].
  apply quiet_intro; try done. intros p. by apply owner_same_bindings.
Qed.

Lemma quiet_now n : moves n quiet (λ _, True) now.
Proof. apply quiet_on_heap, related_time_now. Qed.

Lemma quiet_load n p :
  Z.of_nat p < n → moves n quiet (λ f, Frame.ID f = Z.of_nat p) (on_heap (load p)).
Proof.
  intros Hp. apply moves_intro; [by apply keeps_load|]. intros s Hs.
  by apply (quiet_on_heap n (load p) (related_load p)).
Qed.

Lemma quiet_SetNuma n p node : moves n quiet (λ _, True) (on_heap (update p (Frame.SetNumaNodeID node))).
Proof.
  apply moves_intro; [apply keeps_SetNuma|]. intros s Hs. apply quiet_intro; try done. intros q.
  unfold owner, frame_of, on_heap; simpl.
  assert (frames (update p (Frame.SetNumaNodeID node) (hp s)).2 !! q =
    if decide (p = q) then Frame.SetNumaNodeID node <$> frames (hp s) !! q else frames (hp s) !! q)
    as E by apply frames_update.
  simpl in E. rewrite E. destruct (decide (p = q)); [|done]. by destruct (frames (hp s) !! q).
Qed.

Lemma quiet_get_st n : moves n quiet (wf n) get_st.
Proof. intros s Hs. done. Qed.

Lemma quiet_page_at n pid k : moves n quiet (page_ok n) (page_at pid k).
Proof. apply moves_intro; [apply keeps_page_at|]. by intros s Hs. Qed.

Lemma quiet_on_process n p g : moves n quiet (λ _, True) (on_process p g).
Proof. apply moves_intro; [apply keeps_on_process|]. intros s Hs. by apply quiet_intro. Qed.

Lemma emitEvent_quiet e s : quiet s (emitEvent e s).2.
Proof. unfold emitEvent, modify; cbn [snd]. by repeat case_match; apply quiet_intro. Qed.
Lemma quiet_emitEvent n e : moves n quiet (λ _, True) (emitEvent e).
Proof. apply moves_intro; [apply keeps_emitEvent|]. intros s _. apply emitEvent_quiet. Qed.

Lemma quiet_modify n g :
  (∀ s, wf n s → wf n (g s)) → (∀ s, quiet s (g s)) → moves n quiet (λ _, True) (modify g).
Proof. intros Hw Hq. apply moves_intro; [by apply keeps_modify|]. intros s Hs. apply Hq. Qed.

Lemma quiet_on_metrics n g :
  (∀ m, Metrics.accounted m → Metrics.accounted (g m)) → moves n quiet (λ _, True) (on_metrics g).
Proof. intros Hg. apply moves_intro; [by apply keeps_on_metrics|]. intros s Hs. by apply quiet_intro. Qed.
Lemma quiet_metrics_hit n : moves n quiet (λ _, True) (on_metrics Metrics.RecordPageHit).
Proof. apply quiet_on_metrics, accounted_hit. Qed.
Lemma quiet_metrics_fault n : moves n quiet (λ _, True) (on_metrics Metrics.RecordPageFault).
Proof. apply quiet_on_metrics, accounted_fault. Qed.
Lemma quiet_metrics_eviction n d : moves n quiet (λ _, True) (on_metrics (Metrics.RecordEviction d)).
Proof. apply quiet_on_metrics. intros m. by destruct d; apply accounted_frame. Qed.

Lemma quiet_mpt_set n pid a f huge : moves n quiet (λ _, True) (on_mpt pid (MultiLevelPageTable.SetEntry a f huge)).
Proof. apply moves_intro; [apply keeps_mpt_set|]. intros s Hs. by apply quiet_intro. Qed.
Lemma quiet_mpt_invalidate n pid a : moves n quiet (λ _, True) (on_mpt pid (MultiLevelPageTable.InvalidateEntry a)).
Proof. apply moves_intro; [apply keeps_mpt_invalidate|]. intros s Hs. by apply quiet_intro. Qed.

Lemma quiet_compress n k : moves n quiet (λ _, True) (compress_page k).
Proof.
  apply moves_intro; [apply keeps_compress|]. intros s Hs. unfold compress_page.
  pose proof (related_compress k 4096 (compressionManager s) (hp s)) as Hb.
  destruct (CompressionManager.CompressPage _ _ _ _) as [[o cm] h]. cbn [snd] in *.
  apply quiet_intro; try done. intros p. exact (owner_same_bindings s h p Hb).
Qed.
End quiet_steps.

#[export] Hint Resolve quiet_now quiet_load quiet_SetNuma quiet_get_st quiet_page_at quiet_on_process
  quiet_emitEvent quiet_metrics_hit quiet_metrics_fault quiet_metrics_eviction quiet_mpt_set
  quiet_mpt_invalidate quiet_compress : quiet.

(** ** The algorithm's calls *)

Section algorithm_calls.
Context `{Env : GoEnv}.
Implicit Types (n : Z) (s : MM.t) (pid : string) (v : N).

Definition pff_algorithm (a : Algorithms.algorithm) : bool := match a with AlgPFF _ => true | _ => false end.

Lemma quiet_algorithm n s a h :
  same_bindings (hp s) h → pff_algorithm a = pff_algorithm (algorithm s) →
  quiet s (s <| hp := h |> <| algorithm := a |>).
Proof. intros Hb Ha. apply quiet_intro; try done. intros p. exact (owner_same_bindings s h p Hb). Qed.

Lemma quiet_alg_access n p w : moves n quiet (λ _, True) (alg_access p w).
Proof.
  apply moves_intro; [apply keeps_alg_access|]. intros s Hs. unfold alg_access.
  destruct (algorithm_access (algorithm s) p w (hp s) (wf_alg _ _ Hs)) as [Hb _].
  assert (pff_algorithm (OnPageAccess (algorithm s) p w (hp s)).1 = pff_algorithm (algorithm s)) as Ha
    by by destruct (algorithm s).
  destruct (OnPageAccess _ _ _ _) as [a h]. by apply (quiet_algorithm n).
Qed.

Lemma quiet_alg_fault n p : moves n quiet (λ _, True) (alg_fault p).
Proof.
  apply moves_intro; [apply keeps_alg_fault|]. intros s Hs. unfold alg_fault.
  destruct (algorithm_fault (algorithm s) p (hp s) (wf_alg _ _ Hs)) as [Hb _].
  assert (pff_algorithm (OnPageFault (algorithm s) p (hp s)).1 = pff_algorithm (algorithm s)) as Ha
    by by destruct (algorithm s).
  destruct (OnPageFault _ _ _) as [a h]. by apply (quiet_algorithm n).
Qed.

Lemma quiet_alg_eviction n p : moves n quiet (λ _, True) (alg_eviction p).
Proof.
  apply moves_intro; [apply keeps_alg_eviction|]. intros s Hs. unfold alg_eviction.
  destruct (algorithm_eviction (algorithm s) p (hp s) (wf_alg _ _ Hs)) as [Hb _].
  assert (pff_algorithm (OnPageEviction (algorithm s) p (hp s)).1 = pff_algorithm (algorithm s)) as Ha
    by by destruct (algorithm s).
  destruct (OnPageEviction _ _ _) as [a h]. by apply (quiet_algorithm n).
Qed.

Lemma owner_free s p : owner s p = None ↔ Frame.IsFree (frame_of (hp s) p) = true.
Proof. unfold owner. by destruct (Frame.IsFree _). Qed.
Lemma owner_used s p : is_Some (owner s p) ↔ Frame.IsFree (frame_of (hp s) p) = false.
Proof. unfold owner. destruct (Frame.IsFree _); split; [by intros []|done|done|eauto]. Qed.

(** A victim search, and what its answer means. *)
Lemma quiet_alg_select n ps s :
  table_frames n ps → wf n s →
  let '(r, s') := alg_select ps s in
  wf n s' ∧ quiet s s' ∧
  match r with Ok p => p ∈ ps ∧ is_Some (owner s p) | Err _ => ∀ p, p ∈ ps → owner s p = None end.
Proof.
  intros Hps Hs. pose proof (alg_select_spec n ps s Hps Hs) as Hsel.
  assert (pff_algorithm (SelectVictim (algorithm s) ps (hp s)).1.2 = pff_algorithm (algorithm s)) as Ha
    by by destruct (algorithm s).
  unfold alg_select in *. destruct (SelectVictim _ _ _) as [[r a] h]. cbn [fst snd] in *.
  destruct Hsel as (Hs' & (h' & a' & Heq & Hb) & Hr). split_and!; [done| |].
  - apply (quiet_algorithm n); [|done].
    assert (hp (s <| hp := h |> <| algorithm := a |>) = hp (s <| hp := h' |> <| algorithm := a' |>))
      as Hh by by rewrite Heq. simpl in Hh. by rewrite Hh.
  - destruct r as [p|e].
    + destruct Hr as [Hp Hu]. split; [done|]. by apply owner_used.
    + intros p Hp. by apply owner_free, Hr.
Qed.
End algorithm_calls.

#[export] Hint Resolve quiet_alg_access quiet_alg_fault quiet_alg_eviction : quiet.

(** ** The steps with an effect *)

Section effects.
Context `{Env : GoEnv}.
Implicit Types (n : Z) (s : MM.t) (pid : string) (v : N).

Lemma owner_hp s h p :
  owner (s <| hp := h |>) p =
    if Frame.IsFree (frame_of h p) then None
    else Some (Frame.ProcessID (frame_of h p), Frame.PageID (frame_of h p)).
Proof. done. Qed.

Lemma effect_frame n s h p o :
  (∀ q, frame_of h q = if decide (q = p) then frame_of h p else frame_of (hp s) q) →
  owner (s <| hp := h |>) p = o → effect (at_ p o) none none s (s <| hp := h |>).
Proof.
  intros Hf Ho. constructor; [|done|done|by constructor]. intros q. rewrite over_at.
  destruct (decide (q = p)) as [->|Hne]; [exact Ho|].
  unfold owner; simpl. rewrite Hf, decide_False by done. done.
Qed.

Lemma frame_of_update p g h q :
  frame_of (update p g h).2 q =
    if decide (q = p) then match frames h !! p with Some f => g f | None => Frame.NewFrame 0 end
    else frame_of h q.
Proof.
  unfold frame_of.
  assert (frames (update p g h).2 !! q = if decide (p = q) then g <$> frames h !! q else frames h !! q)
    as -> by apply frames_update.
  destruct (decide (p = q)) as [->|Hne]; [rewrite decide_True by done|by rewrite decide_False by congruence].
  by destruct (frames h !! q).
Qed.

Lemma moves_release n p : moves n (effect (at_ p None) none none) (λ _, True) (on_heap (frame_Release p)).
Proof.
  apply moves_intro; [apply keeps_release|]. intros s Hs.
  apply (effect_frame n s (frame_Release p (hp s)).2).
  - intros q. unfold frame_Release. rewrite !frame_of_update. by repeat case_decide.
  - rewrite owner_hp. unfold frame_Release. rewrite frame_of_update, decide_True by done.
    by destruct (frames (hp s) !! p).
Qed.

Lemma moves_allocate n p pageID pid :
  Z.of_nat p < n →
  moves n (effect (at_ p (Some (pid, pageID))) none none) (λ _, True) (on_heap (frame_Allocate p pageID pid)).
Proof.
  intros Hp. apply moves_intro; [apply keeps_allocate|]. intros s Hs.
  destruct (table_frame n s p Hs Hp) as (f & Hf & _).
  apply (effect_frame n s (frame_Allocate p pageID pid (hp s)).2).
  - intros q. unfold frame_Allocate, mbind, M_bind, time_now. cbn [fst snd].
    rewrite !frame_of_update. by repeat case_decide.
  - rewrite owner_hp. unfold frame_Allocate, mbind, M_bind, time_now. cbn [fst snd].
    rewrite frame_of_update, decide_True by done. cbn [frames].
    assert (frames ((hp s) <| tick ::= S |>) !! (p : ptr) = Some f) as -> by exact Hf. done.
Qed.

Lemma moves_invalidate n pid v :
  moves n (effect none none (at_ (pid, v) None)) (λ _, True) (modify (λ s, s <| tlb ::= TLB.Invalidate pid v |>)).
Proof.
  apply moves_intro; [apply keeps_invalidate|]. intros s Hs. constructor; [done|done| |by constructor].
  intros [q w] f. rewrite over_at. unfold cached; simpl.
  destruct (Invalidate_spec (tlb s) pid v (wf_tlb _ _ Hs)) as (_ & _ & H2 & H3).
  destruct (decide _) as [[= -> ->]|Hne]; [by rewrite H2|]. by rewrite H3.
Qed.

Lemma moves_tlb_insert n pid v f :
  0 ≤ f < n → moves n (effect none none (at_ (pid, v) (Some f))) (λ _, True) (tlb_insert pid v f).
Proof.
  intros Hf. apply moves_intro; [by apply keeps_tlb_insert|]. intros s Hs.
  unfold tlb_insert, on_tlb. pose proof (Insert_spec (tlb s) pid v f (hp s) (wf_tlb _ _ Hs)) as Hi.
  destruct (TLB.Insert pid v f (tlb s) (hp s)) as [tlb' h]. destruct Hi as (_ & _ & Hh & Hv & Ho).
  constructor; [|done| |by constructor].
  - intros p. exact (owner_same_bindings s h p (same_bindings_frames _ _ (eq_sym Hh))).
  - intros [q w] g. rewrite over_at. unfold cached; simpl.
    destruct (decide _) as [[= -> ->]|Hne]; [congruence|]. apply Ho. congruence.
Qed.

(** Writing a page's frame number. *)
Lemma page_of_on_page s pid k g x :
  page_of (on_page pid k g s).2 x = if decide (x = (pid, k)) then g <$> page_of s x else page_of s x.
Proof.
  destruct x as [q w]. unfold page_of, lookup_page, on_page, modify; simpl.
  destruct (decide ((q, w) = (pid, k))) as [[= -> ->]|Hne].
  - rewrite lookup_alter_eq. destruct (pageTables s !! pid) as [pt|]; [|done]. simpl.
    by rewrite lookup_alter_eq.
  - destruct (decide (q = pid)) as [->|Hq].
    + rewrite lookup_alter_eq. destruct (pageTables s !! pid) as [pt|]; [|done]. simpl.
      rewrite lookup_alter_ne; [done|]. congruence.
    + by rewrite lookup_alter_ne.
Qed.

Lemma effect_SetFrame s pid k f :
  (0 ≤ f → is_Some (page_of s (pid, k))) →
  effect none (at_ (pid, k) (if 0 <=? f then Some f else None)) none s (on_page pid k (Page.SetFrame f) s).2.
Proof.
  intros Hpage. constructor; [done| |done|constructor; [done|done| | |done]].
  - intros x. rewrite over_at. unfold mapping. rewrite page_of_on_page.
    destruct (decide (x = (pid, k))) as [->|]; [|done].
    destruct (page_of s (pid, k)) as [p|]; simpl.
    + unfold Page.SetFrame. by destruct (0 <=? f).
    + destruct (Z.leb_spec 0 f); [|done]. by destruct Hpage.
  - intros Hs x p. rewrite page_of_on_page. destruct (decide _); [|apply Hs].
    intros (p' & Hp & ->)%fmap_Some. destruct (Hs _ _ Hp) as [H1 H2].
    unfold Page.SetFrame. by destruct (0 <=? f).
  - intros x Hx. rewrite page_of_on_page. destruct (decide _); [|done]. by apply fmap_is_Some.
Qed.

Lemma moves_unmap n pid v :
  0 ≤ n → moves n (effect none (at_ (pid, v) None) none) (λ _, True) (unmap_page pid v).
Proof.
  intros Hn. apply moves_intro; [by apply keeps_unmap_page|]. intros s Hs.
  unfold unmap_page, get_st, mbind, M_bind. cbn [fst snd].
  assert (mapping s (pid, v) = None → effect none (at_ (pid, v) None) none s s) as Habsent.
  { intros Hno. constructor; [done| |done|done]. intros x. rewrite over_at.
    by destruct (decide _) as [->|]. }
  unfold mapping, page_of in Habsent. cbn [fst snd] in Habsent.
  destruct (lookup_page pid v s) as [p|] eqn:Hp; [|by apply Habsent].
  unfold when, Page.IsPresent. destruct (Page.Present p); [|by apply Habsent].
  by apply (effect_SetFrame s pid v (-1)).
Qed.

(** Composing two effects into a given one. *)
Lemma effect_join dO1 dM1 dT1 dO2 dM2 dT2 dO dM dT s1 s2 s3 :
  (∀ p, then_ dO2 dO1 p = dO p) → (∀ x, then_ dM2 dM1 x = dM x) → (∀ x, then_ dT2 dT1 x = dT x) →
  effect dO1 dM1 dT1 s1 s2 → effect dO2 dM2 dT2 s2 s3 → effect dO dM dT s1 s3.
Proof.
  intros HO HM HT H1 H2. destruct (effect_then _ _ _ _ _ _ _ _ _ H1 H2) as [O M T S].
  constructor; [intros p|intros x|intros x f Hf|done]; unfold over in *.
  - by rewrite O, HO.
  - by rewrite M, HM.
  - rewrite <-HT. auto.
Qed.
End effects.

Ltac overlay := intros ?; unfold then_, none, at_; by repeat case_match.
Ltac join := intros ? ? ?; apply effect_join; overlay.
(** A quiet step of the method, and a step with an effect. *)
Ltac quietly := eapply moves_quiet_l; [solve [eauto 3 with quiet]|cbv beta; intros ? ?].

Section evictions.
Context `{Env : GoEnv}.
Implicit Types (n : Z) (s : MM.t) (pid : string) (v : N) (x : vpage).

(** An eviction: the frame is free, its page is nowhere. *)
Definition evicted (p : ptr) x : relation MM.t := effect (at_ p None) (at_ x None) (at_ x None).

Lemma moves_evict_tail n p pid v (modified : bool) :
  Z.of_nat p < n →
  moves n (evicted p (pid, v)) (λ r, r = Ok ())
    (s ← get_st;
     when (compressionEnabled s && modified) (compress_page v) ;;
     unmap_page pid v ;;
     modify (λ s, s <| tlb ::= TLB.Invalidate pid v |>) ;;
     on_mpt pid (MultiLevelPageTable.InvalidateEntry (u64_shl v 12)) ;;
     alg_eviction p ;;
     f ← on_heap (load p);
     on_metrics (Metrics.RecordEviction (Frame.IsModified f)) ;;
     emitEvent (EvPageEviction pid v (Frame.ID f) (Frame.IsModified f)) ;;
     on_heap (frame_Release p) ;;
     mret (Ok ())).
Proof.
  intros Hp. quietly.
  eapply moves_quiet_l; [apply (moves_when n quiet); auto with quiet|]. intros _ _.
  eapply (moves_then n _ (effect (at_ p None) none (at_ (pid, v) None)));
    [|apply moves_unmap; lia|intros _ _]; [unfold evicted; join|].
  eapply (moves_then n _ (effect (at_ p None) none none)); [|apply moves_invalidate|intros _ _]; [join|].
  quietly. quietly. quietly. quietly. quietly.
  eapply moves_quiet_r; [apply moves_release|]. intros _ _. by apply moves_ret.
Qed.

Lemma evict_effect n p x s :
  Z.of_nat p < n → wf n s → owner s p = Some x →
  let '(r, s') := evictPage p s in wf n s' ∧ evicted p x s s' ∧ r = Ok ().
Proof.
  intros Hp Hs Ho. unfold evictPage. unfold mbind at 1, M_bind at 1.
  assert ((on_heap (load p) s) = (frame_of (hp s) p, s)) as ->.
  { unfold on_heap, load, gets. cbn [fst snd]. f_equal. by destruct s. }
  cbn [fst snd]. revert Ho. unfold owner. destruct (Frame.IsFree _); [done|]. intros [= <-].
  pose proof (moves_evict_tail n p (Frame.GetProcessID (frame_of (hp s) p))
    (Frame.GetPageID (frame_of (hp s) p)) (Frame.IsModified (frame_of (hp s) p)) Hp s Hs) as Ht.
  match goal with |- let '(_, _) := ?m s in _ => change (wf n (m s).2 ∧
    evicted p (Frame.GetProcessID (frame_of (hp s) p), Frame.GetPageID (frame_of (hp s) p)) s (m s).2 ∧
    (m s).1 = Ok ()) in Ht; destruct (m s) end. exact Ht.
Qed.
End evictions.

(** ** Allocation *)

Section allocation.
Context `{Env : GoEnv}.
Implicit Types (n : Z) (s : MM.t) (pid : string) (v : N) (x : vpage).

(** The frame was free and now holds the page. *)
Definition taken_free n (p : ptr) x s s' : Prop :=
  Z.of_nat p < n ∧ owner s p = None ∧ effect (at_ p (Some x)) none none s s'.

Definition every_owner n s : Prop := ∀ p, Z.of_nat p < n → is_Some (owner s p).

Lemma every_owner_used n s : every_owner n s ↔ all_used n s.
Proof. split; intros H p Hp; apply owner_used; auto. Qed.

Lemma allocate_first_effect n s ps k pid :
  wf n s → table_frames n ps →
  let '(r, h) := FrameTable.allocate_first ps k pid (hp s) in
  wf n (s <| hp := h |>) ∧
  match r with
  | Some p => taken_free n p (pid, k) s (s <| hp := h |>)
  | None => h = hp s ∧ ∀ p, p ∈ ps → is_Some (owner s p)
  end.
Proof.
  intros Hs Hps. destruct (table_frames_candidates n s ps Hs Hps) as [Hsome _].
  pose proof (allocate_slots n s ps k pid Hs Hps) as Hw.
  pose proof (FrameTable.allocate_first_spec ps k pid (hp s) Hsome) as Ha.
  destruct (FrameTable.allocate_first ps k pid (hp s)) as [[p|] h]; cbn [fst snd] in *.
  - destruct Hw as [Hw _]. split; [done|]. destruct Ha as (Hp & f & t & Hf & Hfree & Hh).
    assert (∀ q, frame_of h q = if decide (q = p) then Frame.Allocate t k pid f else frame_of (hp s) q) as Hfr.
    { intros q. unfold frame_of. rewrite Hh. destruct (decide (q = p)) as [->|Hne].
      - rewrite list_lookup_insert_eq; [done|]. by eapply lookup_lt_Some.
      - by rewrite list_lookup_insert_ne by done. }
    split_and!; [by apply Hps| |].
    + apply owner_free. by rewrite (frame_of_spec _ _ _ Hf).
    + apply (effect_frame n).
      * intros q. rewrite !Hfr. rewrite (decide_True (P := p = p)) by done. done.
      * rewrite owner_hp, Hfr, decide_True by done. done.
  - destruct Hw as [Hw _], Ha as [-> Ha]. split_and!; [done|done|].
    intros p Hp. by apply owner_used, Ha.
Qed.

Definition alloc_outcome n x s (r : res ptr) s' : Prop :=
  match r with
  | Ok p => taken_free n p x s s'
  | Err _ => every_owner n s ∧ quiet s s'
  end.

Lemma quiet_same_heap s : quiet s (s <| hp := hp s |>).
Proof. by apply quiet_intro. Qed.

Lemma AllocateFrame_effect n k pid s :
  wf n s →
  let '(r, s') := on_heap (FrameTable.AllocateFrame (the_table n) k pid) s in
  wf n s' ∧ alloc_outcome n (pid, k) s r s'.
Proof.
  intros Hs. pose proof (wf_n _ _ Hs).
  pose proof (allocate_first_effect n s _ k pid Hs (table_frames_all n ltac:(lia))) as Ha.
  unfold on_heap, FrameTable.AllocateFrame, mbind, M_bind; cbn [FrameTable.Frames the_table].
  destruct (FrameTable.allocate_first _ _ _ _) as [[p|] h]; cbn [fst snd mret M_ret]; destruct Ha as [Hw Ha].
  - split; [exact Hw|exact Ha].
  - split; [exact Hw|]. destruct Ha as [-> Ha]. split; [|apply quiet_same_heap].
    intros p Hp. apply Ha, elem_of_seq. lia.
Qed.

Lemma AllocateFrameInRange_effect n lo hi k pid s :
  wf n s →
  let '(r, s') := on_heap (FrameTable.AllocateFrameInRange (the_table n) lo hi k pid) s in
  wf n s' ∧ match r with Ok p => taken_free n p (pid, k) s s' | Err _ => quiet s s' end.
Proof.
  intros Hs. pose proof (wf_n _ _ Hs). destruct (table_frames_all n) as [Hlt Hnd]; [lia|].
  unfold on_heap, FrameTable.AllocateFrameInRange, mbind, M_bind; cbn [FrameTable.Frames the_table].
  set (ps := take _ _).
  assert (table_frames n ps) as Hps by (apply table_frames_range; lia).
  pose proof (allocate_first_effect n s ps k pid Hs Hps) as Ha.
  destruct (FrameTable.allocate_first _ _ _ _) as [[p|] h]; cbn [fst snd mret M_ret]; destruct Ha as [Hw Ha].
  - split; [exact Hw|exact Ha].
  - split; [exact Hw|]. destruct Ha as [-> _]. apply quiet_same_heap.
Qed.

Lemma taken_free_quiet n p x s1 s2 s3 : taken_free n p x s1 s2 → quiet s2 s3 → taken_free n p x s1 s3.
Proof. intros (H1 & H2 & H3) Hq. split_and!; [done|done|]. by eapply effect_quiet_r. Qed.

Lemma allocateFrameForPage_effect n k pid s :
  wf n s →
  let '(r, s') := allocateFrameForPage k pid s in wf n s' ∧ alloc_outcome n (pid, k) s r s'.
Proof.
  intros Hs. unfold allocateFrameForPage, get_st. unfold mbind at 1, M_bind at 1. cbn [fst snd].
  cbv zeta. rewrite (wf_table _ _ Hs). destruct (numaEnabled s); [|by apply AllocateFrame_effect].
  match goal with |- context [if ?c then (?a, ?b) else ?d] => destruct (if c then (a, b) else d) as [lo hi] end.
  unfold mbind at 1, M_bind at 1.
  pose proof (AllocateFrameInRange_effect n lo hi k pid s Hs) as Hr.
  destruct (on_heap _ s) as [[p|e] s1]; cbn [fst snd]; destruct Hr as [Hs1 Hr].
  - unfold mbind, M_bind. destruct (quiet_SetNuma n p (selectLocalNode pid) s1 Hs1) as (Hs2 & Hq & _).
    split; [exact Hs2|]. by eapply taken_free_quiet.
  - pose proof (AllocateFrame_effect n k pid s1 Hs1) as Ha.
    destruct (on_heap _ s1) as [[p|e'] s2]; destruct Ha as [Hs2 Ha]; (split; [done|]).
    + destruct Ha as (H1 & H2 & H3). split_and!; [done| |by eapply effect_quiet_l].
      pose proof (effect_owner _ _ _ _ _ Hr p) as Ho. by rewrite H2 in Ho.
    + destruct Ha as [H1 H2]. split; [|by etrans]. intros p Hp.
      pose proof (effect_owner _ _ _ _ _ Hr p) as Ho. rewrite over_none in Ho. rewrite <-Ho. by apply H1.
Qed.
End allocation.

(** ** Bringing a page in *)

Section bringing.
Context `{Env : GoEnv}.
Implicit Types (n : Z) (s : MM.t) (pid : string) (v : N) (x : vpage).

Definition selects n s (r : res ptr) s' : Prop :=
  wf n s' ∧ quiet s s' ∧
  match r with Ok p => Z.of_nat p < n ∧ is_Some (owner s' p) | Err _ => n = 0 end.

Lemma select_used_effect n s :
  wf n s → every_owner n s → let '(r, s') := select_used s in selects n s r s'.
Proof.
  intros Hs Ho. unfold select_used, used_frames, gets. unfold mbind, M_bind. cbn [fst snd].
  pose proof (table_frames_used n s Hs) as Hps.
  pose proof (quiet_alg_select n _ s Hps Hs) as Hsel.
  destruct (alg_select _ s) as [[p|e] s']; destruct Hsel as (Hs' & Hq & Hr); (split; [done|]; split; [done|]).
  - destruct Hr as [Hp Hu]. split; [by apply Hps|].
    pose proof (effect_owner _ _ _ _ _ Hq p) as E. rewrite over_none in E. by rewrite E.
  - pose proof (wf_n _ _ Hs). destruct (decide (n = 0)) as [|Hn]; [done|]. exfalso.
    destruct (Ho 0%nat) as [y Hy]; [lia|].
    rewrite (Hr 0%nat) in Hy; [done|]. apply FrameTable.elem_of_GetUsedFrames. split.
    + apply owner_used. eauto.
    + rewrite (wf_table _ _ Hs). apply elem_of_seq. lia.
Qed.

Lemma wrap_err_run {A} ctx (m : M MM.t (res A)) s :
  wrap_err ctx m s =
    (match (m s).1 with Ok a => Ok a | Err e => Err (ErrWrap ctx e) end, (m s).2).
Proof. done. Qed.

Lemma select_wrapped_effect n ctx s :
  wf n s → every_owner n s → let '(r, s') := wrap_err ctx select_used s in selects n s r s'.
Proof.
  intros Hs Ho. pose proof (select_used_effect n s Hs Ho) as Hsel. rewrite wrap_err_run.
  destruct (select_used s) as [[p|e] s']; exact Hsel.
Qed.

(** The victim's page gave up the frame to [x]. *)
Definition taken_victim n (p : ptr) x s s' : Prop :=
  Z.of_nat p < n ∧ ∃ y, owner s p = Some y ∧ effect (at_ p (Some x)) (at_ y None) (at_ y None) s s'.

Definition evicts n (ev : ptr → M MM.t (res unit)) : Prop :=
  ∀ p y s, Z.of_nat p < n → wf n s → owner s p = Some y →
    let '(r, s') := ev p s in wf n s' ∧ evicted p y s s' ∧ r = Ok ().

Lemma evictPage_evicts n : evicts n evictPage.
Proof. intros p y s. apply evict_effect. Qed.
Lemma wrapped_evicts n ctx : evicts n (λ p, wrap_err ctx (evictPage p)).
Proof.
  intros p y s Hp Hs Ho. pose proof (evict_effect n p y s Hp Hs Ho) as He. rewrite wrap_err_run.
  destruct (evictPage p s) as [r s']. destruct He as (H1 & H2 & ->). done.
Qed.

Lemma take_frame_effect n sel ev k pid s :
  (let '(r, s') := sel s in selects n s r s') → evicts n ev →
  let '(r, s') := take_frame sel ev k pid s in
  wf n s' ∧ match r with Ok p => taken_victim n p (pid, k) s s' | Err _ => n = 0 end.
Proof.
  intros Hsel Hev. unfold take_frame, bind_ok. unfold mbind at 1, M_bind at 1.
  destruct (sel s) as [[p|e] s1]; cbn [fst snd]; destruct Hsel as (Hs1 & Hq & Hr); [|done].
  destruct Hr as [Hp [y Hy]]. unfold mbind at 1, M_bind at 1.
  pose proof (Hev p y s1 Hp Hs1 Hy) as He. destruct (ev p s1) as [r s2]. cbn [fst snd].
  destruct He as (Hs2 & He & ->). unfold mbind, M_bind.
  destruct (moves_allocate n p k pid Hp s2 Hs2) as (Hs3 & Ha & _).
  split; [exact Hs3|]. split; [done|]. exists y. split.
  - pose proof (effect_owner _ _ _ _ _ Hq p) as E. rewrite over_none in E. by rewrite <-E.
  - eapply effect_quiet_l; [exact Hq|]. eapply effect_join; [| | |exact He|exact Ha]; overlay.
Qed.

(** The frame goes to the page table, the multi-level table, the algorithm and the TLB. *)
Lemma install_effect n pid k p s :
  Z.of_nat p < n → wf n s → plain s → is_Some (page_of s (pid, k)) →
  let d : d_map := at_ (pid, k) (Some (Z.of_nat p)) in
  wf n (install pid k p s).2 ∧ effect none d d s (install pid k p s).2.
Proof.
  intros Hp Hs Hplain Hpage. cbv zeta. split; [by apply keeps_install|].
  unfold install. unfold mbind at 1, M_bind at 1.
  destruct (quiet_load n p Hp s Hs) as (Hs1 & Hq1 & Hid).
  destruct (on_heap (load p) s) as [f s1]. cbn [fst snd] in *.
  unfold mbind at 1, M_bind at 1.
  pose proof (effect_SetFrame s1 pid k (Frame.ID f)
    (λ _, steady_pages _ _ (effect_steady _ _ _ _ _ Hq1) _ Hpage)) as Hset.
  assert (wf n (on_page pid k (Page.SetFrame (Frame.ID f)) s1).2) as Hs2
    by (apply keeps_SetFrame; [lia|done]).
  destruct (on_page _ _ _ s1) as [[] s2]. cbn [fst snd] in *.
  rewrite Hid in Hset. destruct (Z.leb_spec 0 (Z.of_nat p)); [|lia].
  assert (plain s2) as Hplain2 by by apply (effect_steady _ _ _ _ _ Hset), (effect_steady _ _ _ _ _ Hq1).
  assert (is_Some (page_of s2 (pid, k))) as [page Hpg]
    by by apply (effect_steady _ _ _ _ _ Hset), (effect_steady _ _ _ _ _ Hq1).
  unfold page_at, gets. unfold mbind at 1, M_bind at 1. cbn [fst snd].
  unfold page_of in Hpg. cbn [fst snd] in Hpg. rewrite Hpg. cbn [default]. unfold id.
  destruct (Hplain2 (pid, k) page Hpg) as [-> _]. cbn [snd].
  assert (moves n (effect none none (at_ (pid, k) (Some (Z.of_nat p)))) (λ _, True)
    (on_mpt pid (MultiLevelPageTable.SetEntry (u64_shl k 12) (Frame.ID f) false) ;;
     alg_fault p ;; tlb_insert pid k (Frame.ID f))) as Hm.
  { quietly. quietly. rewrite Hid. apply moves_tlb_insert. lia. }
  destruct (Hm s2 Hs2) as (_ & Hm2 & _). eapply effect_quiet_l; [exact Hq1|].
  eapply effect_join; [| | |exact Hset|exact Hm2]; overlay.
Qed.

(** What a page fault does: the page gets a frame; the page that held it loses it. *)
Definition unown s (p : ptr) : d_map := match owner s p with Some y => at_ y None | None => none end.
Definition gets_frame s (p : ptr) x : relation MM.t :=
  let d := then_ (at_ x (Some (Z.of_nat p))) (unown s p) in effect (at_ p (Some x)) d d.
Definition brought n x s s' : Prop :=
  ∃ p, Z.of_nat p < n ∧ gets_frame s p x s s' ∧ (owner s p = None ∨ every_owner n s).

Lemma brought_free n p x s1 s2 s3 :
  taken_free n p x s1 s2 →
  effect none (at_ x (Some (Z.of_nat p))) (at_ x (Some (Z.of_nat p))) s2 s3 → brought n x s1 s3.
Proof.
  intros (Hp & Ho & He) Hi. exists p. split_and!; [done| |by left]. unfold gets_frame, unown. rewrite Ho.
  eapply effect_join; [| | |exact He|exact Hi]; overlay.
Qed.

Lemma brought_victim n p x s1 s2 s3 :
  every_owner n s1 → taken_victim n p x s1 s2 →
  effect none (at_ x (Some (Z.of_nat p))) (at_ x (Some (Z.of_nat p))) s2 s3 → brought n x s1 s3.
Proof.
  intros He (Hp & y & Ho & Ht) Hi. exists p. split_and!; [done| |by right]. unfold gets_frame, unown. rewrite Ho.
  eapply effect_join; [| | |exact Ht|exact Hi]; overlay.
Qed.

Lemma brought_quiet_l n x s1 s2 s3 : quiet s1 s2 → brought n x s2 s3 → brought n x s1 s3.
Proof.
  intros Hq (p & Hp & Hg & Ho). exists p. assert (∀ q, owner s2 q = owner s1 q) as E.
  { intros q. apply (effect_owner _ _ _ _ _ Hq). }
  split_and!; [done| |].
  - unfold gets_frame, unown in *. rewrite E in Hg. by eapply effect_quiet_l.
  - rewrite E in Ho. destruct Ho as [|Ho]; [by left|right]. intros q Hq'. rewrite <-E. by apply Ho.
Qed.
Lemma brought_quiet_r n x s1 s2 s3 : brought n x s1 s2 → quiet s2 s3 → brought n x s1 s3.
Proof.
  intros (p & Hp & Hg & Ho) Hq. exists p. split_and!; [done| |done].
  unfold gets_frame in *. by eapply effect_quiet_r.
Qed.
End bringing.

(** ** Page faults *)

Section page_faults.
Context `{Env : GoEnv}.
Implicit Types (n : Z) (s : MM.t) (pid : string) (v : N) (x : vpage).

(** A page table of a process that never shared: the page exists. *)
Definition has_page s x : Prop := plain s ∧ is_Some (page_of s x).

Lemma has_page_effect dO dM dT s s' x : effect dO dM dT s s' → has_page s x → has_page s' x.
Proof. intros He [Hp Hx]. split; by apply (effect_steady _ _ _ _ _ He). Qed.

Lemma page_at_run s pid k :
  has_page s (pid, k) →
  ∃ page, page_at pid k s = (page, s) ∧ page_of s (pid, k) = Some page ∧
    Page.ID page = k ∧ Page.Shared page = false.
Proof.
  intros [Hplain [page Hp]]. exists page. destruct (Hplain _ _ Hp) as [H1 H2].
  unfold page_of in *; cbn [fst snd] in *. split_and!; try done.
  unfold page_at, gets. by rewrite Hp.
Qed.

Definition fault_outcome n x s (r : res unit) s' : Prop :=
  wf n s' ∧ match r with Ok _ => brought n x s s' | Err _ => n = 0 end.

Lemma atomicEvictAndAlloc_effect n pid k s :
  wf n s → every_owner n s → has_page s (pid, k) →
  let '(r, s') := atomicEvictAndAlloc pid k s in fault_outcome n (pid, k) s r s'.
Proof.
  intros Hs Ho Hx. unfold atomicEvictAndAlloc. destruct (page_at_run s pid k Hx) as (page & Hrun & _ & Hid & _).
  unfold mbind at 1, M_bind at 1. rewrite Hrun. cbn [fst snd]. rewrite Hid.
  unfold bind_ok. unfold mbind at 1, M_bind at 1.
  pose proof (take_frame_effect n (wrap_err "no evictable frame" select_used)
    (λ victim, wrap_err "eviction failed" (evictPage victim)) k pid s
    (select_wrapped_effect n _ s Hs Ho) (wrapped_evicts n _)) as Ht.
  destruct (take_frame _ _ k pid s) as [[p|e] s1]; cbn [fst snd]; destruct Ht as [Hs1 Ht]; [|done].
  unfold mbind at 1, M_bind at 1.
  assert (moves n quiet (λ _, True) (set_local_node pid p)) as Hn.
  { unfold set_local_node. quietly. apply (moves_when n quiet). apply quiet_SetNuma. }
  destruct (Hn s1 Hs1) as (Hs2 & Hq2 & _). destruct (set_local_node pid p s1) as [[] s2].
  cbn [fst snd] in *. unfold mbind, M_bind.
  pose proof Ht as (Hp & y & Hy & He).
  destruct (has_page_effect _ _ _ _ _ _ He Hx) as [Hpl Hpg].
  destruct (has_page_effect _ _ _ _ _ _ Hq2 (conj Hpl Hpg)) as [Hpl2 Hpg2].
  destruct (install_effect n pid k p s2 Hp Hs2 Hpl2 Hpg2) as [Hs3 Hi].
  split; [exact Hs3|]. eapply brought_victim; [done|exact Ht|]. by eapply effect_quiet_l.
Qed.

Lemma bring_in_effect n pid k s :
  wf n s → has_page s (pid, k) →
  let '(r, s') := bring_in pid k s in fault_outcome n (pid, k) s r s'.
Proof.
  intros Hs Hx. unfold bring_in. destruct (page_at_run s pid k Hx) as (page & Hrun & _ & Hid & _).
  unfold mbind at 1, M_bind at 1. rewrite Hrun. cbn [fst snd]. rewrite Hid.
  unfold mbind at 1, M_bind at 1.
  pose proof (allocateFrameForPage_effect n k pid s Hs) as Ha.
  destruct (allocateFrameForPage k pid s) as [[p|e] s1]; cbn [fst snd]; destruct Ha as [Hs1 Ha].
  - unfold mbind, M_bind. pose proof Ha as (Hp & _ & He).
    destruct (has_page_effect _ _ _ _ _ _ He Hx) as [Hpl Hpg].
    destruct (install_effect n pid k p s1 Hp Hs1 Hpl Hpg) as [Hs2 Hi].
    split; [exact Hs2|]. by eapply brought_free.
  - destruct Ha as [Ho Hq]. pose proof (has_page_effect _ _ _ _ _ _ Hq Hx) as Hx1.
    assert (every_owner n s1) as Ho1.
    { intros p Hp. pose proof (effect_owner _ _ _ _ _ Hq p) as E. rewrite over_none in E.
      rewrite E. by apply Ho. }
    pose proof (atomicEvictAndAlloc_effect n pid k s1 Hs1 Ho1 Hx1) as Hr.
    destruct (atomicEvictAndAlloc pid k s1) as [r s2]. destruct Hr as [Hs2 Hr].
    split; [done|]. destruct r; [|done]. by eapply brought_quiet_l.
Qed.

Lemma quiet_decompress n pid k : moves n quiet (λ _, True) (decompress pid k).
Proof.
  apply moves_intro; [apply keeps_decompress|]. intros s Hs.
  unfold decompress, page_at, gets, get_st, mbind, M_bind. cbn [fst snd].
  destruct (compressionEnabled s); [|done].
  destruct (CompressionManager.DecompressPage _ _) as [cp cm]. by apply quiet_intro.
Qed.

Lemma cow_if_shared_run s pid k w : has_page s (pid, k) → cow_if_shared pid k w s = (Ok (), s).
Proof.
  intros Hx. unfold cow_if_shared. destruct (page_at_run s pid k Hx) as (page & Hrun & _ & _ & Hsh).
  unfold mbind at 1, M_bind at 1. rewrite Hrun. cbn [fst snd]. unfold Page.IsShared. rewrite Hsh.
  by rewrite andb_false_r.
Qed.

Lemma brought_has_page n x y s s' : brought n x s s' → has_page s y → has_page s' y.
Proof. intros (p & _ & Hg & _). by eapply has_page_effect. Qed.

Lemma handlePageFault_effect n pid k w s :
  wf n s → has_page s (pid, k) →
  let '(r, s') := handlePageFault pid k w s in fault_outcome n (pid, k) s r s'.
Proof.
  intros Hs Hx. unfold handlePageFault. unfold mbind at 1, M_bind at 1.
  destruct (quiet_decompress n pid k s Hs) as (Hs1 & Hq & _).
  destruct (decompress pid k s) as [cp s1]. cbn [fst snd] in *.
  pose proof (bring_in_effect n pid k s1 Hs1 (has_page_effect _ _ _ _ _ _ Hq Hx)) as Hb.
  destruct cp as [cp|].
  - unfold mbind, M_bind. pose proof (keeps_bring_in n pid k s1 Hs1) as [_ Hok].
    destruct (bring_in pid k s1) as [[u|e] s2]; cbn [fst snd] in *; destruct Hb as [Hs2 Hb].
    + rewrite cow_if_shared_run.
      * split; [done|]. by eapply brought_quiet_l.
      * eapply brought_has_page; [exact Hb|]. by eapply has_page_effect.
    + split; [by apply wf_with_compression|done].
  - unfold bind_ok, mbind, M_bind. rewrite wrap_err_run. cbn [fst snd].
    destruct (bring_in pid k s1) as [[u|e] s2]; cbn [fst snd] in *; destruct Hb as [Hs2 Hb]; [|done].
    rewrite cow_if_shared_run.
    + split; [done|]. by eapply brought_quiet_l.
    + eapply brought_has_page; [exact Hb|]. by eapply has_page_effect.
Qed.
End page_faults.
