(* ===== verification/ManagerCoherence.v ===== *)
(** * Coherence of the mapping, without forks

    [coherent]: a page that is present is in a frame that holds it, and the TLB
    only repeats the page tables.  It follows that no two pages share a frame.
    The lemmas follow an access: its fast path, its hit, its fault with the
    eviction, PFF's enforcement and prefetching; then the other methods. *)

From S2P Require Import Prelude Models Heap FrameTable Policy Policies PoliciesSpec Algorithms.
From S2P Require Import Tlb PageTable MultiLevel Advanced Cow Manager ManagerInv ManagerOps ManagerSteps.
From S2P Require Import ManagerCounts ManagerEffects.
Local Open Scope Z_scope.
Import MM.

Record coherent (s : MM.t) : Prop := {
  coh_plain : plain s;
  coh_cow : CopyOnWrite.sharedPages (cowManager s) = ∅;
  coh_owner x f : mapping s x = Some f → 0 ≤ f ∧ owner s (Z.to_nat f) = Some x;
  coh_cached x f : cached s x = Some f → mapping s x = Some f;
}.

(** ** Effects that keep coherence *)

Section coherent_effects.
Context `{Env : GoEnv}.
Implicit Types (n : Z) (s : MM.t) (x : vpage).

Lemma coherent_quiet s s' : quiet s s' → coherent s → coherent s'.
Proof.
  intros [O M T S] [H1 W H2 H3]. constructor.
  - by apply S.
  - by rewrite (steady_cow _ _ S H1).
  - intros x f. rewrite M, O. apply H2.
  - intros x f Hf. rewrite M. apply H3. by apply T.
Qed.

Lemma coherent_evicted s s' p x : owner s p = Some x → evicted p x s s' → coherent s → coherent s'.
Proof.
  intros Ho [O M T S] [H1 W H2 H3]. constructor.
  - by apply S.
  - by rewrite (steady_cow _ _ S H1).
  - intros y f. rewrite M, O, !over_at. destruct (decide (y = x)) as [->|Hne]; [done|].
    intros Hf. destruct (H2 _ _ Hf) as [H0 Hy]. split; [done|].
    rewrite decide_False; [done|]. intros Heq. rewrite Heq in Hy. congruence.
  - intros y f Hf%T. rewrite M. rewrite over_at in *. destruct (decide (y = x)); [done|]. by apply H3.
Qed.

Lemma coherent_taken_free n s s' p x : taken_free n p x s s' → coherent s → coherent s'.
Proof.
  intros (_ & Ho & [O M T S]) [H1 W H2 H3]. constructor.
  - by apply S.
  - by rewrite (steady_cow _ _ S H1).
  - intros y f. rewrite M, O, over_at. intros Hf. destruct (H2 _ _ Hf) as [H0 Hy]. split; [done|].
    rewrite decide_False; [done|]. intros Heq. rewrite Heq in Hy. congruence.
  - intros y f Hf%T. rewrite M. by apply H3.
Qed.

Lemma coherent_taken_victim n s s' p x : taken_victim n p x s s' → coherent s → coherent s'.
Proof.
  intros (_ & z & Ho & [O M T S]) [H1 W H2 H3]. constructor.
  - by apply S.
  - by rewrite (steady_cow _ _ S H1).
  - intros y f. rewrite M, O, !over_at. destruct (decide (y = z)) as [->|Hne]; [done|].
    intros Hf. destruct (H2 _ _ Hf) as [H0 Hy]. split; [done|].
    rewrite decide_False; [done|]. intros Heq. rewrite Heq in Hy. congruence.
  - intros y f Hf%T. rewrite M. rewrite over_at in *. destruct (decide (y = z)); [done|]. by apply H3.
Qed.

(** The mapping after a page fault. *)
Lemma mapping_gets_frame s s' p x y :
  gets_frame s p x s s' →
  mapping s' y = if decide (y = x) then Some (Z.of_nat p)
                 else if decide (owner s p = Some y) then None else mapping s y.
Proof.
  intros [O M T S]. rewrite M. unfold over, then_, at_, unown.
  destruct (decide (y = x)); [done|]. destruct (owner s p) as [z|]; simpl; [unfold at_|].
  - destruct (decide (y = z)) as [->|Hne]; [by rewrite decide_True|].
    by rewrite decide_False by congruence.
  - done.
Qed.

Lemma coherent_gets_frame s s' p x : gets_frame s p x s s' → coherent s → coherent s'.
Proof.
  intros Hg [H1 W H2 H3]. pose proof (mapping_gets_frame s s' p x) as HM. destruct Hg as [O M T S].
  constructor.
  - by apply S.
  - by rewrite (steady_cow _ _ S H1).
  - intros y f. rewrite HM by by constructor. rewrite O, over_at. destruct (decide (y = x)) as [->|Hne].
    + intros [= <-]. split; [lia|]. by rewrite Nat2Z.id, decide_True.
    + destruct (decide (owner s p = Some y)) as [|Hno]; [done|]. intros Hf.
      destruct (H2 _ _ Hf) as [H0 Hy]. split; [done|]. rewrite decide_False; [done|].
      intros Heq. rewrite Heq in Hy. congruence.
  - intros y f Hf%T. rewrite HM by by constructor. revert Hf. unfold over, then_, at_, unown.
    destruct (decide (y = x)); [done|]. destruct (owner s p) as [z|]; simpl; [unfold at_|].
    + destruct (decide (y = z)) as [->|Hne]; [done|]. rewrite decide_False by congruence. apply H3.
    + apply H3.
Qed.

Lemma coherent_brought n s s' x : brought n x s s' → coherent s → coherent s'.
Proof. intros (p & _ & Hg & _). by apply (coherent_gets_frame s s' p x). Qed.

(** A cached translation that repeats the page table. *)
Lemma coherent_cache s s' x f :
  mapping s x = Some f → effect none none (at_ x (Some f)) s s' → coherent s → coherent s'.
Proof.
  intros Hx [O M T S] [H1 W H2 H3]. constructor.
  - by apply S.
  - by rewrite (steady_cow _ _ S H1).
  - intros y g. rewrite M, O. apply H2.
  - intros y g Hg%T. rewrite M, over_none. rewrite over_at in Hg. destruct (decide (y = x)) as [->|]; [congruence|].
    by apply H3.
Qed.

(** No two pages share a frame. *)
Lemma coherent_isolated s x y f : coherent s → mapping s x = Some f → mapping s y = Some f → x = y.
Proof.
  intros Hc Hx Hy. destruct (coh_owner _ Hc _ _ Hx) as [_ H1], (coh_owner _ Hc _ _ Hy) as [_ H2].
  congruence.
Qed.
End coherent_effects.

(** ** The quiet parts of an access *)

Section access_parts.
Context `{Env : GoEnv}.
Implicit Types (n : Z) (s : MM.t) (pid : string) (v : N) (x : vpage).

Lemma quiet_tlb_Lookup n pid v s :
  wf n s →
  let '(r, s') := on_tlb (TLB.Lookup pid v) s in
  wf n s' ∧ quiet s s' ∧ r = cached s (pid, v).
Proof.
  intros Hs. pose proof (keeps_tlb_Lookup n pid v s Hs) as [Hs' _].
  unfold on_tlb in *. pose proof (Lookup_spec (tlb s) pid v (hp s) (wf_tlb _ _ Hs)) as Hl.
  destruct (TLB.Lookup pid v (tlb s) (hp s)) as [[r tlb'] h]. destruct Hl as (-> & _ & _ & Hh & Ht).
  split_and!; [exact Hs'| |done]. apply quiet_intro; try done.
  - intros p. exact (owner_same_bindings s h p (same_bindings_frames _ _ (eq_sym Hh))).
  - intros [q w] f. unfold cached; simpl. by rewrite Ht.
Qed.

Lemma quiet_updateWorkingSet n pid v : moves n quiet (λ _, True) (updateWorkingSet pid v).
Proof.
  apply moves_intro; [apply keeps_updateWorkingSet|]. intros s Hs.
  unfold updateWorkingSet, get_st, mbind, M_bind. cbn [fst snd].
  destruct (workingSetAccesses s !! pid); [|done]. cbn [fst snd modify].
  destruct (processes s !! pid); by apply quiet_intro.
Qed.

Lemma quiet_trackAccess n pid v : moves n quiet (λ _, True) (trackAccess pid v).
Proof.
  apply moves_intro; [apply keeps_trackAccess|]. intros s Hs.
  unfold trackAccess, get_st, mbind, M_bind. cbn [fst snd].
  destruct (recentAccesses s !! pid); [|done]. cbn [fst snd modify].
  destruct (3 <=? _); by apply quiet_intro.
Qed.

Lemma get_or_create_effect n pid v s :
  wf n s → is_Some (pageTables s !! pid) →
  let '(page, s') := get_or_create_page pid v s in
  wf n s' ∧ quiet s s' ∧ page_of s' (pid, v) = Some page.
Proof.
  intros Hs [pt Hpt]. pose proof (keeps_get_or_create n pid v s Hs) as [Hs' _].
  unfold get_or_create_page, get_st, mbind, M_bind in *. cbn [fst snd] in *. rewrite Hpt in *.
  cbn [fst snd] in *. unfold on_heap in *.
  pose proof (GetOrCreatePage_spec v pt (hp s)) as Hspec.
  destruct (PageTable.GetOrCreatePage v pt (hp s)) as [[p pt'] h]. cbn [fst snd modify mret M_ret] in *.
  destruct Hspec as (Hh & _ & Hp & Hother & Hcase). split; [exact Hs'|].
  assert (∀ y, page_of (s <| hp := h |> <| pageTables ::= <[pid := pt']> |>) y =
    if decide (y = (pid, v)) then Some p else page_of s y) as Hpages.
  { intros [q w]. unfold page_of, lookup_page; simpl. destruct (decide (q = pid)) as [->|Hq].
    - rewrite lookup_insert_eq, Hpt. destruct (decide (w = v)) as [->|Hw].
      + by rewrite decide_True.
      + rewrite decide_False by congruence. by apply Hother.
    - rewrite lookup_insert_ne by done. by rewrite decide_False by congruence. }
  assert (page_of s (pid, v) = PageTable.Entries pt !! v) as Hold
    by by unfold page_of, lookup_page; simpl; rewrite Hpt.
  split; [|by rewrite Hpages, decide_True].
  constructor; [| |done|constructor; try done].
  - intros q. exact (owner_same_bindings s h q (same_bindings_frames _ _ (eq_sym Hh))).
  - intros y. unfold mapping. rewrite Hpages, over_none. destruct (decide (y = (pid, v))) as [->|]; [|done].
    rewrite Hold. destruct Hcase as [->|(-> & Hpres & _)]; [done|by rewrite Hpres].
  - intros Hpl y q. rewrite Hpages. destruct (decide (y = (pid, v))) as [->|]; [|apply Hpl].
    intros [= <-]. destruct Hcase as [Hin|(_ & _ & _ & Hid & _ & Hsh)]; [|done].
    apply (Hpl (pid, v)). by rewrite Hold.
  - intros y Hy. rewrite Hpages. destruct (decide (y = (pid, v))); eauto.
Qed.

(** The frame of a present page is a frame of the table. *)
Lemma mapping_range n s x f : wf n s → mapping s x = Some f → 0 ≤ f < n.
Proof.
  intros Hs. unfold mapping, page_of, lookup_page.
  destruct (pageTables s !! x.1) as [pt|] eqn:Hpt; [|done].
  destruct (PageTable.Entries pt !! x.2) as [p|] eqn:Hp; [|done].
  destruct (wf_pages _ _ Hs _ _ Hpt _ _ Hp) as [Hw Hn]. simpl in Hw.
  destruct (Page.Present p) eqn:Hpres; [|done]. intros [= <-]. split; [by apply Hw|done].
Qed.

Lemma GetFrame_present n s f : wf n s → 0 ≤ f < n → FrameTable.GetFrame (frameTable s) f = Ok (Z.to_nat f).
Proof.
  intros Hs Hf. rewrite (wf_table _ _ Hs).
  by apply (FrameTable.GetFrame_spec (the_table n) (hp s) f (heap_wf_table _ _ (wf_heap _ _ Hs)) Hf).
Qed.
End access_parts.

(** ** After a fault: PFF's enforcement and prefetching *)

Section aftermath.
Context `{Env : GoEnv}.
Implicit Types (n : Z) (s : MM.t) (pid : string) (v : N) (x : vpage).

(** The frames of the slice are exactly the used frames. *)
Definition used_slice n s (ps : list ptr) : Prop :=
  table_frames n ps ∧ ∀ p, Z.of_nat p < n → p ∈ ps ↔ is_Some (owner s p).

Lemma used_slice_GetUsedFrames n s :
  wf n s → used_slice n s (FrameTable.GetUsedFrames (frameTable s) (hp s)).
Proof.
  intros Hs. split; [by apply table_frames_used|]. intros p Hp.
  rewrite FrameTable.elem_of_GetUsedFrames, owner_used, (wf_table _ _ Hs). simpl. rewrite elem_of_seq.
  split; [by intros [? _]|]. intros. split; [done|lia].
Qed.

Lemma used_slice_unique n s ps ps' : used_slice n s ps → used_slice n s ps' → ps ≡ₚ ps'.
Proof.
  intros [[Hlt Hnd] H] [[Hlt' Hnd'] H']. apply NoDup_Permutation; [done..|]. intros p. split; intros Hp.
  - apply H'; [by apply Hlt|]. by apply H; [apply Hlt|].
  - apply H; [by apply Hlt'|]. by apply H'; [apply Hlt'|].
Qed.

Definition enforced n (target : Z) s s' : Prop :=
  (coherent s → coherent s') ∧ ∃ ps', used_slice n s' ps' ∧ Z.of_nat (length ps') ≤ target.

(** The enforcement loop: coherence is kept and at most [target] frames remain used. *)
Lemma enforce_loop_effect n fuel target ps s :
  wf n s → used_slice n s ps → (length ps ≤ fuel)%nat → 0 < target →
  enforced n target s (enforce_loop fuel target ps s).2.
Proof.
  intros Hs Hps Hlen Ht. revert s ps Hs Hps Hlen.
  induction fuel as [|fuel IH]; intros s ps Hs Hps Hlen; cbn [enforce_loop].
  - assert (length ps = 0%nat) as -> by lia. change (i32 (Z.of_nat 0)) with 0.
    rewrite (proj2 (Z.leb_le 0 target)) by lia. cbn [snd mret M_ret]. split; [done|].
    exists ps. split; [done|]. lia.
  - assert (i32 (Z.of_nat (length ps)) = Z.of_nat (length ps)) as Hi.
    { apply i32_small. pose proof (wf_n _ _ Hs).
      destruct (table_frames_candidates n s ps Hs (proj1 Hps)) as [_ Hc]. lia. }
    rewrite Hi. destruct (Z.leb_spec (Z.of_nat (length ps)) target) as [Hle|Hgt].
    { cbn [snd mret M_ret]. split; [done|]. by exists ps. }
    unfold mbind at 1, M_bind at 1.
    pose proof (quiet_alg_select n ps s (proj1 Hps) Hs) as Hsel.
    destruct (alg_select ps s) as [[p|e] s1]; cbn [fst snd]; destruct Hsel as (Hs1 & Hq & Hr).
    2:{ exfalso. destruct ps as [|p ps]; [simpl in *; lia|]. destruct Hps as [[Hlt _] Hu].
        assert (is_Some (owner s p)) as [y Hy] by (apply Hu; [apply Hlt; set_solver|set_solver]).
        rewrite (Hr p) in Hy by set_solver. done. }
    destruct Hr as [Hp [x Hx]]. assert (Z.of_nat p < n) as Hpn by by apply Hps.
    assert (owner s1 p = Some x) as Hx1.
    { pose proof (effect_owner _ _ _ _ _ Hq p) as E. by rewrite E. }
    pose proof (evict_effect n p x s1 Hpn Hs1 Hx1) as He.
    unfold mbind at 1, M_bind at 1.
    destruct (evictPage p s1) as [r s2]. cbn [fst snd]. destruct He as (Hs2 & He & ->).
    unfold get_st. unfold mbind at 1, M_bind at 1. cbn [fst snd].
    destruct (remove_frame_spec n s2 ps p Hs2 (proj1 Hps) Hp) as [Hperm Hps'].
    set (ps' := remove_frame _ _ _) in *.
    assert (used_slice n s2 ps') as Hu'.
    { split; [exact Hps'|]. intros q Hqn. destruct Hps as [[_ Hnd] Hu].
      rewrite (effect_owner _ _ _ _ _ He), over_at, (effect_owner _ _ _ _ _ Hq), over_none.
      rewrite Hperm in Hnd. apply NoDup_cons in Hnd as [Hnotin _].
      assert (q ∈ ps ↔ q = p ∨ q ∈ ps') as Hin by (rewrite Hperm; set_solver).
      destruct (decide (q = p)) as [->|Hne].
      - rewrite decide_True by done. split; [intros Hin'; by destruct Hnotin|by intros []].
      - rewrite decide_False by done. rewrite <-(Hu q Hqn), Hin. naive_solver. }
    assert (length ps = S (length ps')) as Hl by by rewrite Hperm.
    destruct (IH s2 ps' Hs2 Hu' ltac:(lia)) as [Hc Hex]. split; [|exact Hex].
    intros Hcoh. apply Hc. eapply coherent_evicted; [exact Hx1|exact He|]. by eapply coherent_quiet.
Qed.

Lemma enforce_effect n target s :
  wf n s → 0 < target →
  let s' := (enforcePFFResident target s).2 in
  (coherent s → coherent s') ∧
  Z.of_nat (length (FrameTable.GetUsedFrames (frameTable s') (hp s'))) ≤ target.
Proof.
  intros Hs Ht. cbv zeta. pose proof (proj1 (keeps_enforce n target s Hs)) as Hs'.
  unfold enforcePFFResident in *. destruct (Z.leb_spec target 0); [lia|].
  unfold used_frames, gets in *. unfold mbind, M_bind in *. cbn [fst snd mret M_ret] in *.
  pose proof (used_slice_GetUsedFrames n s Hs) as Hu.
  destruct (enforce_loop_effect n _ target _ s Hs Hu ltac:(done) Ht) as (Hc & ps' & Hu' & Hle).
  split; [exact Hc|]. pose proof (used_slice_GetUsedFrames n _ Hs') as Hu''.
  by rewrite (used_slice_unique _ _ _ _ Hu'' Hu').
Qed.

Lemma coherent_enforce n target s :
  wf n s → coherent s → coherent (enforcePFFResident target s).2.
Proof.
  intros Hs Hc. destruct (Z.leb_spec target 0) as [Hle|Hgt].
  - unfold enforcePFFResident. by rewrite (proj2 (Z.leb_le _ _) Hle).
  - by apply (enforce_effect n).
Qed.

(** Prefetching takes free frames only. *)
Lemma coherent_prefetch n pid pages budget s :
  wf n s → is_Some (pageTables s !! pid) → coherent s → coherent (prefetch pid pages budget s).2.
Proof.
  revert budget s. induction pages as [|v pages IH]; intros [|budget] s Hs Hpt Hc; try done.
  cbn [prefetch]. unfold mbind at 1, M_bind at 1.
  pose proof (get_or_create_effect n pid v s Hs Hpt) as Hg.
  destruct (get_or_create_page pid v s) as [p s1]. cbn [fst snd]. destruct Hg as (Hs1 & Hq1 & Hp).
  pose proof (coherent_quiet _ _ Hq1 Hc) as Hc1.
  assert (is_Some (pageTables s1 !! pid)) as Hpt1.
  { unfold page_of, lookup_page in Hp. cbn [fst snd] in Hp. destruct (pageTables s1 !! pid); [eauto|done]. }
  destruct (Page.IsPresent p); [by apply IH|]. unfold mbind at 1, M_bind at 1.
  destruct (coh_plain _ Hc1 (pid, v) p Hp) as [Hid _]. rewrite Hid. cbn [snd].
  pose proof (allocateFrameForPage_effect n v pid s1 Hs1) as Ha.
  destruct (allocateFrameForPage v pid s1) as [[f|e] s2]; cbn [fst snd]; destruct Ha as [Hs2 Ha].
  2:{ destruct Ha as [_ Hq2]. by eapply coherent_quiet. }
  pose proof (coherent_taken_free n _ _ _ _ Ha Hc1) as Hc2. pose proof Ha as (Hf & _ & He).
  destruct (has_page_effect _ _ _ _ _ (pid, v) He (conj (coh_plain _ Hc1) (mk_is_Some _ _ Hp))) as [Hpl2 Hpg2].
  unfold mbind, M_bind. destruct (install_effect n pid v f s2 Hf Hs2 Hpl2 Hpg2) as [Hs3 Hi].
  apply IH; [done| |].
  - destruct (steady_pages _ _ (effect_steady _ _ _ _ _ Hi) _ Hpg2) as [q Hq].
    unfold page_of, lookup_page in Hq. cbn [fst snd] in Hq.
    by destruct (pageTables (install pid v f s2).2 !! pid); [eauto|].
  - eapply coherent_brought; [|exact Hc1]. by eapply brought_free.
Qed.

Lemma coherent_tryPrefetch n pid s : wf n s → coherent s → coherent (tryPrefetch pid s).2.
Proof.
  intros Hs Hc. unfold tryPrefetch, get_st. unfold mbind, M_bind. cbn [fst snd]. cbv zeta.
  destruct (_ <? 3); [done|]. destruct (pageTables s !! pid) as [pt|] eqn:Hpt; [|done].
  apply (coherent_prefetch n); eauto.
Qed.
End aftermath.

(** ** An access, refined *)

Section access.
Context `{Env : GoEnv}.
Implicit Types (n : Z) (s : MM.t) (pid : string) (v : N) (x : vpage).

Lemma serve_from_tlb_effect n pid v start p s :
  wf n s →
  let '(r, s') := serve_from_tlb pid v start p s in
  wf n s' ∧ quiet s s' ∧ match r with FastDone _ => is_Some (cached s (pid, v)) | _ => True end.
Proof.
  intros Hs. unfold serve_from_tlb. unfold mbind at 1, M_bind at 1.
  pose proof (quiet_tlb_Lookup n pid v s Hs) as Hl.
  destruct (on_tlb _ s) as [[f|] s1]; cbn [fst snd]; destruct Hl as (Hs1 & Hq1 & Hr); [|done].
  unfold get_st. unfold mbind at 1, M_bind at 1. cbn [fst snd].
  destruct (FrameTable.GetFrame _ _) as [q|e]; [|done].
  match goal with |- let '(_, _) := ?m s1 in _ => assert (moves n quiet (λ _, True) m) as Hm end.
  { quietly. quietly. quietly. quietly. quietly. by apply moves_ret. }
  destruct (Hm s1 Hs1) as (Hs2 & Hq2 & _).
  match goal with |- let '(_, _) := ?x in _ => destruct x as [r s2] end. cbn [fst snd] in *.
  split_and!; [done|by etrans|]. destruct r; [|done]. rewrite <-Hr. eauto.
Qed.

Lemma access_fast_effect n pid v w s :
  wf n s → is_Some (processes s !! pid) →
  let '(r, s') := access_fast pid v w s in
  wf n s' ∧ quiet s s' ∧ match r with FastDone _ => is_Some (cached s (pid, v)) | _ => True end.
Proof.
  intros Hs [p Hp]. unfold access_fast. unfold mbind at 1, M_bind at 1.
  pose proof (counts_now s) as (Hpr & _). destruct (quiet_now n s Hs) as (Hs1 & Hq1 & _).
  assert (∀ x, cached (now s).2 x = cached s x) as Hc1 by done.
  destruct (now s) as [start s1]. cbn [fst snd] in *.
  unfold get_st. unfold mbind at 1, M_bind at 1. cbn [fst snd]. rewrite Hpr, Hp.
  unfold mbind at 1, M_bind at 1.
  destruct (quiet_on_process n p Process.RecordMemoryAccess s1 Hs1) as (Hs2 & Hq2 & _).
  assert (∀ x, cached (on_process p Process.RecordMemoryAccess s1).2 x = cached s1 x) as Hc2 by done.
  destruct (on_process _ _ s1) as [[] s2]. cbn [fst snd] in *.
  destruct w; [split_and!; [done|by etrans|done]|].
  pose proof (serve_from_tlb_effect n pid v start p s2 Hs2) as Ht.
  destruct (serve_from_tlb _ _ _ _ s2) as [r s3]. destruct Ht as (Hs3 & Hq3 & Hr).
  split_and!; [done|by etrans; [|etrans]|]. destruct r; [|done]. by rewrite <-Hc1, <-Hc2.
Qed.

(** A hit under the lock only refreshes the TLB. *)
Lemma access_hit_effect n pid v w start p page f :
  Page.Shared page = false → 0 ≤ Page.GetFrame page < n →
  moves n (effect none none (at_ (pid, v) (Some (Page.GetFrame page)))) (λ _, True)
    (access_hit pid v w start p page f).
Proof.
  intros Hsh Hf. unfold access_hit. quietly.
  eapply moves_quiet_r; [by apply moves_tlb_insert|]. intros _ _. quietly. quietly.
  unfold Page.IsShared. rewrite Hsh, andb_false_r. unfold bind_ok.
  eapply (moves_quiet_l _ _ _ _ (λ r, r = Ok ())); [by apply moves_ret|]. intros r ->.
  quietly. quietly. by apply moves_ret.
Qed.

(** The rest of the fault branch. *)
Definition aftermath s1 s2 : Prop :=
  (coherent s1 → coherent s2) ∧ (is_pff s1 = false → clusteringEnabled s1 = false → quiet s1 s2).

Lemma aftermath_quiet s1 s2 : quiet s1 s2 → aftermath s1 s2.
Proof. intros Hq. split; [by apply coherent_quiet|done]. Qed.

#[global] Instance aftermath_trans : Transitive aftermath.
Proof.
  intros s1 s2 s3 [H1 H2] [H3 H4]. split; [auto|]. intros Hp Hc. pose proof (H2 Hp Hc) as Hq.
  etrans; [exact Hq|]. pose proof (effect_steady _ _ _ _ _ Hq) as Hst. apply H4.
  - by rewrite (steady_pff _ _ Hst).
  - by rewrite (steady_clustering _ _ Hst).
Qed.

Lemma moves_aftermath {A B} n (Φ : A → Prop) (Ψ : B → Prop) (m : M MM.t A) k :
  moves n quiet Φ m → (∀ a, Φ a → moves n aftermath Ψ (k a)) → moves n aftermath Ψ (m ≫= k).
Proof.
  apply moves_then. intros s1 s2 s3 Hq H2. by trans s2; [apply aftermath_quiet|].
Qed.

Lemma aftermath_pff n : moves n aftermath (λ _, True) enforce_if_pff.
Proof.
  apply moves_intro; [apply keeps_enforce_if_pff|]. intros s Hs.
  unfold enforce_if_pff, get_st, mbind, M_bind. cbn [fst snd].
  destruct (algorithm s) eqn:Ha; try by apply aftermath_quiet.
  split; [by apply (coherent_enforce n)|]. unfold is_pff. by rewrite Ha.
Qed.

Lemma aftermath_prefetch n pid : moves n aftermath (λ _, True) (prefetch_if_enabled pid).
Proof.
  apply moves_intro; [apply keeps_prefetch_if_enabled|]. intros s Hs.
  unfold prefetch_if_enabled, get_st, mbind, M_bind. cbn [fst snd].
  destruct (clusteringEnabled s) eqn:Hc; [|by apply aftermath_quiet].
  split; [by apply (coherent_tryPrefetch n)|]. by rewrite Hc.
Qed.

Lemma quiet_track_if_enabled n pid v : moves n quiet (λ _, True) (track_if_enabled pid v).
Proof.
  unfold track_if_enabled. eapply moves_quiet_l; [apply quiet_get_st|]. intros s _.
  apply (moves_when n quiet). apply quiet_trackAccess.
Qed.

Lemma access_fault_effect n pid v w start p s :
  0 < n → wf n s → has_page s (pid, v) →
  ∃ s1, brought n (pid, v) s s1 ∧ aftermath s1 (access_fault pid v w start p s).2.
Proof.
  intros Hn Hs Hx. unfold access_fault, bind_ok. unfold mbind at 1, M_bind at 1.
  pose proof (handlePageFault_effect n pid v w s Hs Hx) as Hf.
  destruct (handlePageFault pid v w s) as [[u|e] s1]; cbn [fst snd]; destruct Hf as [Hs1 Hf]; [|lia].
  exists s1. split; [done|].
  match goal with |- aftermath s1 (?m s1).2 => assert (moves n aftermath (λ _, True) m) as Hm end.
  2:{ by destruct (Hm s1 Hs1) as (_ & ? & _). }
  eapply moves_aftermath; [apply quiet_on_process|]. intros _ _.
  eapply moves_aftermath; [apply quiet_metrics_fault|]. intros _ _.
  eapply moves_then; [apply aftermath_trans|apply aftermath_pff|]. intros _ _.
  eapply moves_aftermath; [apply quiet_now|]. intros stop _.
  eapply moves_aftermath; [apply quiet_emitEvent|]. intros _ _.
  eapply moves_then; [apply aftermath_trans|apply aftermath_prefetch|]. intros _ _.
  intros s2 Hs2. split_and!; [done|by apply aftermath_quiet|done].
Qed.

(** The slow path: a hit when the page was present, otherwise a fault that
    brings it in. *)
Definition served n x s s' : Prop :=
  match mapping s x with
  | Some f => effect none none (at_ x (Some f)) s s' ∧ one_hit s s'
  | None => (∃ s1, brought n x s s1 ∧ aftermath s1 s') ∧ one_fault s s'
  end.

Lemma served_quiet_l n x s1 s2 s3 :
  quiet s1 s2 → same_counts s1 s2 → served n x s2 s3 → served n x s1 s3.
Proof.
  intros Hq Hc. pose proof (effect_mapping _ _ _ _ _ Hq x) as E. rewrite over_none in E.
  unfold served. rewrite E. destruct (mapping s1 x) as [f|].
  - intros [He Hh]. split; [by eapply effect_quiet_l|by eapply same_then_hit].
  - intros [(s & Hb & Ha) Hf]. split; [|by eapply same_then_fault].
    exists s. split; [|done]. by eapply brought_quiet_l.
Qed.

(** The two branches of the section under the write lock. *)
Lemma served_hit n pid v w start p page f s :
  wf n s → coherent s → page_of s (pid, v) = Some page → Page.Present page = true →
  served n (pid, v) s (access_hit pid v w start p page f s).2.
Proof.
  intros Hs Hc Hp Hpres.
  assert (mapping s (pid, v) = Some (Page.GetFrame page)) as Hm by (unfold mapping; by rewrite Hp, Hpres).
  unfold served. rewrite Hm. destruct (coh_plain _ Hc _ _ Hp) as [_ Hsh].
  destruct (access_hit_effect n pid v w start p page f Hsh (mapping_range n s _ _ Hs Hm) s Hs) as (_ & He & _).
  split; [exact He|apply access_hit_counts].
Qed.

Lemma served_fault n pid v w start p page s :
  0 < n → wf n s → coherent s → page_of s (pid, v) = Some page → Page.Present page = false →
  served n (pid, v) s (access_fault pid v w start p s).2.
Proof.
  intros Hn Hs Hc Hp Hpres.
  assert (mapping s (pid, v) = None) as Hm by (unfold mapping; by rewrite Hp, Hpres).
  unfold served. rewrite Hm. split.
  - apply access_fault_effect; [done..|]. split; [apply Hc|]. rewrite Hp. eauto.
  - pose proof (access_fault_counts pid v w start p s) as Hf.
    pose proof (keeps_access_fault n pid v w start p s Hs) as [_ Hok].
    destruct (access_fault _ _ _ _ _ s) as [[u|e] s']; cbn [fst snd] in *; [|simpl in Hok; lia].
    apply Hf. by destruct u.
Qed.

Lemma access_locked_effect n pid v w start p s :
  0 < n → wf n s → coherent s → is_Some (processes s !! pid) →
  served n (pid, v) s (access_locked pid v w start p s).2.
Proof.
  intros Hn Hs Hc Hp. unfold access_locked. unfold mbind at 1, M_bind at 1.
  destruct (quiet_updateWorkingSet n pid v s Hs) as (Hs1 & Hq1 & _).
  pose proof (counts_updateWorkingSet pid v s) as Hc1.
  destruct (updateWorkingSet pid v s) as [[] s1]. cbn [fst snd] in *.
  unfold mbind at 1, M_bind at 1.
  destruct (quiet_track_if_enabled n pid v s1 Hs1) as (Hs2 & Hq2 & _).
  pose proof (counts_track_if_enabled pid v s1) as Hc2.
  destruct (track_if_enabled pid v s1) as [[] s2]. cbn [fst snd] in *. unfold get_st.
  unfold mbind at 1, M_bind at 1. cbn [fst snd].
  assert (same_counts s s2) as Hc12 by by etrans.
  assert (is_Some (pageTables s2 !! pid)) as Hpt.
  { apply (wf_process_table n); [done|]. by rewrite (proj1 Hc12). }
  pose proof (get_or_create_effect n pid v s2 Hs2 Hpt) as Hg.
  pose proof (counts_get_or_create pid v s2) as Hc3.
  destruct Hpt as [pt ->]. unfold mbind at 1, M_bind at 1.
  destruct (get_or_create_page pid v s2) as [page s3]. cbn [fst snd] in *. destruct Hg as (Hs3 & Hq3 & Hpg).
  assert (quiet s s3) as Hq by (etrans; [exact Hq1|]; by etrans).
  assert (same_counts s s3) as Hsc by (etrans; [exact Hc12|]; done).
  pose proof (coherent_quiet _ _ Hq Hc) as Hc'.
  eapply served_quiet_l; [exact Hq|exact Hsc|].
  destruct (Page.IsPresent page) eqn:Hpres.
  - assert (mapping s3 (pid, v) = Some (Page.GetFrame page)) as Hm
      by (unfold mapping, Page.IsPresent in *; by rewrite Hpg, Hpres).
    rewrite (GetFrame_present n s2 _ Hs2 (mapping_range n s3 _ _ Hs3 Hm)).
    by apply served_hit.
  - by apply served_fault with (page := page).
Qed.

(** An access: served by the TLB without a change of the mapping, or as above. *)
Definition demand_paged n x s s' : Prop :=
  (is_Some (mapping s x) ∧ ∃ dT, effect none none dT s s' ∧ coherent s' ∧ one_hit s s') ∨
  (mapping s x = None ∧ ∃ s1, brought n x s s1 ∧ aftermath s1 s' ∧ one_fault s s').

Lemma coherent_served n x s s' : served n x s s' → coherent s → coherent s'.
Proof.
  unfold served. destruct (mapping s x) as [f|] eqn:Hm.
  - intros [He _]. by eapply coherent_cache.
  - intros [(s1 & Hb & [Ha _]) _] Hc. apply Ha. by eapply coherent_brought.
Qed.

Lemma AccessMemory_effect n pid v w s :
  0 < n → wf n s → coherent s → is_Some (processes s !! pid) →
  demand_paged n (pid, v) s (AccessMemory pid v w s).2.
Proof.
  intros Hn Hs Hc Hp. unfold AccessMemory, mbind, M_bind.
  pose proof (access_fast_effect n pid v w s Hs Hp) as Hf. destruct Hp as [p Hp].
  pose proof (access_fast_counts pid v w s p Hp) as Hcf.
  destruct (access_fast pid v w s) as [[r|start q] s1]; cbn [fst snd]; destruct Hf as (Hs1 & Hq & Hr).
  - destruct Hr as [f Hr]. left. rewrite (coh_cached _ Hc _ _ Hr). split; [eauto|].
    exists none. split_and!; [exact Hq|by eapply coherent_quiet|apply Hcf].
  - destruct Hcf as [-> Hcf]. assert (is_Some (processes s1 !! pid)) as Hp1 by (rewrite (proj1 Hcf); eauto).
    pose proof (coherent_quiet _ _ Hq Hc) as Hc1.
    pose proof (access_locked_effect n pid v w start p s1 Hn Hs1 Hc1 Hp1) as Hl.
    apply (served_quiet_l _ _ _ _ _ Hq Hcf) in Hl. pose proof (coherent_served _ _ _ _ Hl Hc) as Hc2.
    unfold served in Hl. destruct (mapping s (pid, v)) as [f|] eqn:Hm.
    + left. destruct Hl as [He Hh]. split; [by rewrite Hm; eauto|]. eauto.
    + right. destruct Hl as [(s2 & Hb & Ha) Hl]. split; [by rewrite Hm|]. eauto.
Qed.

Lemma coherent_AccessMemory n pid v w s :
  0 < n → wf n s → coherent s → coherent (AccessMemory pid v w s).2.
Proof.
  intros Hn Hs Hc. destruct (processes s !! pid) as [p|] eqn:Hp.
  - destruct (AccessMemory_effect n pid v w s Hn Hs Hc) as [(_ & dT & _ & ? & _)|(_ & s1 & Hb & [Ha _] & _)];
      [by eauto|done|]. apply Ha. by eapply coherent_brought.
  - unfold AccessMemory, access_fast. unfold mbind at 1 2, M_bind at 1 2.
    destruct (quiet_now n s Hs) as (_ & Hq & _). pose proof (counts_now s) as (Hpr & _).
    destruct (now s) as [t s1]. cbn [fst snd] in *. unfold get_st, mbind, M_bind. cbn [fst snd].
    rewrite Hpr, Hp. by eapply coherent_quiet.
Qed.
End access.
