(* ===== verification/ManagerRuns.v ===== *)
(** * Coherent runs

    The methods outside an access keep [coherent] too, all but [ForkProcess];
    so every run without a fork stays coherent. *)

From S2P Require Import Prelude Models Heap FrameTable Policy Policies PoliciesSpec Algorithms.
From S2P Require Import Tlb PageTable MultiLevel Advanced Cow Manager ManagerInv ManagerOps ManagerSteps.
From S2P Require Import ManagerCounts ManagerEffects ManagerCoherence.
Local Open Scope Z_scope.
Import MM.

Section processes.
Context `{Env : GoEnv}.
Implicit Types (n : Z) (s : MM.t) (pid : string) (v : N) (x : vpage).

Lemma coherent_intro s s' :
  (∀ p, owner s' p = owner s p) → pageTables s' = pageTables s →
  (∀ x f, cached s' x = Some f → cached s x = Some f) →
  CopyOnWrite.sharedPages (cowManager s') = CopyOnWrite.sharedPages (cowManager s) →
  coherent s → coherent s'.
Proof.
  intros Ho Hp Hc Hw [H1 W H2 H3]. assert (∀ x, page_of s' x = page_of s x) as Hpage.
  { intros x. unfold page_of, lookup_page. by rewrite Hp. }
  assert (∀ x, mapping s' x = mapping s x) as Hm by (intros x; unfold mapping; by rewrite Hpage).
  constructor.
  - intros x p. rewrite Hpage. apply H1.
  - by rewrite Hw.
  - intros x f. rewrite Hm, Ho. apply H2.
  - intros x f. rewrite Hm. eauto.
Qed.

(** ** Creation *)

Lemma quiet_registered s pid p :
  pageTables s !! pid = None → quiet s (registered pid p (PageTable.NewPageTable pid) s).
Proof.
  intros Hnone. set (s' := registered _ _ _ s).
  assert (∀ x, page_of s' x = page_of s x) as Hpage.
  { intros [q w]. unfold page_of, lookup_page, s'; simpl. destruct (decide (q = pid)) as [->|Hq].
    - by rewrite lookup_insert_eq, Hnone.
    - by rewrite lookup_insert_ne. }
  constructor; try done.
  - intros x. unfold mapping. by rewrite Hpage.
  - constructor; try done.
    + intros Hp x q. rewrite Hpage. apply Hp.
    + intros x. by rewrite Hpage.
Qed.

Lemma moves_register {A} n (Φ : A → Prop) pid p k s :
  moves n quiet Φ k → wf n s → pageTables s !! pid = None →
  quiet s ((modify (λ s, s <| processes ::= <[pid := p]> |>
                           <| pageTables ::= <[pid := PageTable.NewPageTable pid]> |>) ;;
            new_windows pid ;; k) s).2.
Proof.
  intros Hk Hs Hpt. pose proof (wf_registered n s pid p _ (wf_NewPageTable n pid) Hs) as Hs1.
  destruct (Hk _ Hs1) as (_ & Hq & _). etrans; [by apply (quiet_registered s pid p)|exact Hq].
Qed.

Lemma quiet_CreateProcess n p : moves n quiet (λ _, True) (CreateProcess p).
Proof.
  apply moves_intro; [apply keeps_CreateProcess|]. intros s Hs.
  unfold CreateProcess, get_st. unfold mbind at 1, M_bind at 1. cbn [fst snd].
  destruct (procs s !! p) as [pr|]; [|done]. cbv zeta.
  destruct (processes s !! Process.ID pr) eqn:Hpr; [done|].
  eapply (moves_register n (λ _, True)); [|exact Hs|].
  - eapply moves_quiet_l; [apply quiet_on_metrics; intros m; by apply accounted_frame|]. intros _ _.
    quietly. by apply moves_ret.
  - destruct (wf_domains _ _ Hs) as [Hd _]. apply not_elem_of_dom. rewrite Hd. by apply not_elem_of_dom.
Qed.

(** ** Removal *)

(** Nothing changes but the frames that hold the pages of [pid] in [s0]. *)
Record releases (s0 : MM.t) pid s s' : Prop := {
  releases_owner p : (∀ k, mapping s0 (pid, k) ≠ Some (Z.of_nat p)) → owner s' p = owner s p;
  releases_free p : owner s p = None → owner s' p = None;
  releases_tables : pageTables s' = pageTables s;
  releases_tlb : tlb s' = tlb s;
  releases_frames : frameTable s' = frameTable s;
  releases_processes : processes s' = processes s;
  releases_cow : CopyOnWrite.sharedPages (cowManager s') = CopyOnWrite.sharedPages (cowManager s);
}.

#[local] Instance releases_preorder s0 pid : PreOrder (releases s0 pid).
Proof.
  split; [by constructor|]. intros s1 s2 s3 [O1 N1 T1 L1 F1 P1 W1] [O2 N2 T2 L2 F2 P2 W2].
  constructor; [|auto|congruence..]. intros p Hp. by rewrite O2, O1.
Qed.

Lemma releases_remove_page n s0 pid k page s :
  wf n s → frameTable s = frameTable s0 →
  coherent s0 → page_of s0 (pid, k) = Some page → releases s0 pid s (remove_page pid page s).2.
Proof.
  intros Hs Hft Hc Hp. unfold remove_page, get_st. unfold mbind at 1, M_bind at 1. cbn [fst snd].
  destruct (coh_plain _ Hc _ _ Hp) as [_ Hsh]. unfold Page.IsShared. rewrite Hsh. cbn [when].
  unfold mbind at 1, M_bind at 1. cbn [fst snd mret M_ret].
  destruct (Page.IsPresent page && (0 <=? Page.GetFrame page)) eqn:Hpres; [|done].
  apply andb_true_iff in Hpres as [Hpres Hpos%Z.leb_le]. cbn [when].
  unfold mbind, M_bind. cbn [fst snd mret M_ret]. unfold on_heap, FrameTable.ReleaseFrame.
  destruct (FrameTable.GetFrame (frameTable s) (Page.GetFrame page)) as [p|e] eqn:Hg; [|by constructor].
  assert (mapping s0 (pid, k) = Some (Page.GetFrame page)) as Hm
    by (unfold mapping, Page.IsPresent in *; by rewrite Hp, Hpres).
  destruct (GetFrame_table n s _ _ Hs Hg) as [Hpn ->].
  destruct (moves_release n (Z.to_nat (Page.GetFrame page)) s Hs) as (_ & He & _).
  unfold on_heap in He. unfold mbind, M_bind. cbn [fst snd mret M_ret].
  destruct (frame_Release _ (hp s)) as [u h]. cbn [fst snd] in *.
  constructor; try done; intros q Hq; rewrite (effect_owner _ _ _ _ _ He), over_at.
  - rewrite decide_False; [done|]. intros ->. apply (Hq k). by rewrite Z2Nat.id.
  - by destruct (decide _).
Qed.

(** The frame of a present page is free afterwards. *)
Lemma remove_page_frees n pid page f s :
  wf n s → Page.Present page = true → Page.FrameNumber page = f → 0 ≤ f < n →
  owner (remove_page pid page s).2 (Z.to_nat f) = None.
Proof.
  intros Hs Hpres Hf Hfn. unfold remove_page, get_st. unfold mbind at 1, M_bind at 1. cbn [fst snd].
  unfold Page.IsPresent, Page.GetFrame. rewrite Hpres, Hf, (proj2 (Z.leb_le 0 f)) by lia. cbn [andb when].
  unfold mbind, M_bind. cbn [fst snd mret M_ret]. unfold on_heap, FrameTable.ReleaseFrame.
  rewrite (GetFrame_present n s f Hs Hfn).
  destruct (moves_release n (Z.to_nat f) s Hs) as (_ & He & _).
  unfold on_heap in He. unfold mbind, M_bind. cbn [fst snd mret M_ret].
  destruct (frame_Release _ (hp s)) as [u h]. cbn [fst snd] in *.
  pose proof (effect_owner _ _ _ _ _ He (Z.to_nat f)) as E. rewrite over_at, decide_True in E by done.
  by destruct (Page.IsShared page).
Qed.

Lemma releases_remove_pages n s0 pid pages s :
  (∀ k page, (k, page) ∈ pages → page_of s0 (pid, k) = Some page) →
  coherent s0 → wf n s → frameTable s = frameTable s0 →
  releases s0 pid s (for_each (λ kp, remove_page pid kp.2) pages s).2.
Proof.
  intros Hpages Hc. revert s. induction pages as [|[k page] pages IH]; intros s Hs Hft; [done|].
  cbn [for_each]. unfold mbind, M_bind. cbn [fst snd].
  pose proof (releases_remove_page n s0 pid k page s Hs Hft Hc ltac:(set_solver)) as Hr.
  pose proof (keeps_remove_page n pid page s Hs) as [Hs1 _].
  etrans; [exact Hr|]. apply IH; [set_solver|done|]. rewrite (releases_frames _ _ _ _ Hr). exact Hft.
Qed.

Lemma remove_pages_free n s0 pid pages k page f s :
  (∀ k page, (k, page) ∈ pages → page_of s0 (pid, k) = Some page) →
  coherent s0 → wf n s → frameTable s = frameTable s0 →
  (k, page) ∈ pages → mapping s0 (pid, k) = Some f → 0 ≤ f < n →
  owner (for_each (λ kp, remove_page pid kp.2) pages s).2 (Z.to_nat f) = None.
Proof.
  intros Hpages Hc Hs Hft Hin Hm Hf. revert s Hs Hft.
  induction pages as [|[k' page'] pages IH]; intros s Hs Hft; [by apply elem_of_nil in Hin|].
  cbn [for_each]. unfold mbind, M_bind. cbn [fst snd].
  pose proof (keeps_remove_page n pid page' s Hs) as [Hs1 _].
  pose proof (releases_remove_page n s0 pid k' page' s Hs Hft Hc ltac:(set_solver)) as Hr.
  assert (frameTable (remove_page pid page' s).2 = frameTable s0) as Hft1
    by (rewrite (releases_frames _ _ _ _ Hr); exact Hft).
  apply elem_of_cons in Hin as [[= <- <-]|Hin].
  - pose proof (Hpages k page ltac:(set_solver)) as Hp. unfold mapping in Hm. rewrite Hp in Hm.
    destruct (Page.Present page) eqn:Hpres; [|done]. injection Hm as Hm.
    pose proof (releases_remove_pages n s0 pid pages _ ltac:(set_solver) Hc Hs1 Hft1) as Hr'.
    apply (releases_free _ _ _ _ Hr'). by apply (remove_page_frees n).
  - apply IH; [set_solver|done..].
Qed.

(** What a removal does. *)
Record removed pid s s' : Prop := {
  removed_owner p : (∀ k, mapping s (pid, k) ≠ Some (Z.of_nat p)) → owner s' p = owner s p;
  removed_freed v f : mapping s (pid, v) = Some f → owner s' (Z.to_nat f) = None;
  removed_page x : page_of s' x = if decide (x.1 = pid) then None else page_of s x;
  removed_cached x f : cached s' x = Some f → x.1 ≠ pid ∧ cached s x = Some f;
  removed_processes : processes s' = delete pid (processes s);
  removed_cow : CopyOnWrite.sharedPages (cowManager s) = ∅ → CopyOnWrite.sharedPages (cowManager s') = ∅;
}.

Lemma removed_mapping pid s s' x :
  removed pid s s' → mapping s' x = if decide (x.1 = pid) then None else mapping s x.
Proof. intros Hr. unfold mapping. rewrite (removed_page _ _ _ Hr). by destruct (decide _). Qed.

Lemma coherent_removed pid s s' : removed pid s s' → coherent s → coherent s'.
Proof.
  intros Hr Hc. constructor.
  - intros x q. rewrite (removed_page _ _ _ Hr). destruct (decide _); [done|]. by apply Hc.
  - by apply (removed_cow _ _ _ Hr), Hc.
  - intros x f. rewrite (removed_mapping _ _ _ _ Hr). destruct (decide (x.1 = pid)) as [|Hne]; [done|].
    intros Hf. destruct (coh_owner _ Hc _ _ Hf) as [Hpos Hx]. split; [done|].
    rewrite (removed_owner _ _ _ Hr); [done|]. intros k. rewrite Z2Nat.id by done. intros Hk.
    apply Hne. by rewrite <-(coherent_isolated _ _ _ _ Hc Hk Hf).
  - intros x f Hf. destruct (removed_cached _ _ _ Hr _ _ Hf) as [Hne Hf'].
    rewrite (removed_mapping _ _ _ _ Hr), decide_False by done. by apply (coh_cached _ Hc).
Qed.

Lemma owner_frames s s' p : frames (hp s') = frames (hp s) → owner s' p = owner s p.
Proof. intros Hf. unfold owner, frame_of. by rewrite Hf. Qed.

(** The loop over the pages, and the tables that go after it. *)
Definition released n s pid s2 : Prop :=
  wf n s2 ∧ releases s pid s s2 ∧ ∀ v f, mapping s (pid, v) = Some f → owner s2 (Z.to_nat f) = None.

Lemma remove_pages_effect n pid pt s :
  wf n s → coherent s → pageTables s !! pid = Some pt →
  released n s pid
    ((pages ← on_heap (PageTable.GetAllPages pt); for_each (λ kp, remove_page pid kp.2) pages) s).2.
Proof.
  intros Hs Hc Hpt. unfold mbind at 1, M_bind at 1.
  unfold PageTable.GetAllPages, range_map, on_heap. cbn [fst snd].
  set (pages := shuffle _ _). set (s1 := s <| hp := _ |>).
  assert (∀ k page, (k, page) ∈ pages ↔ page_of s (pid, k) = Some page) as Hpages.
  { intros k page. unfold pages. rewrite shuffle_perm, elem_of_map_to_list.
    unfold page_of, lookup_page. cbn [fst snd]. by rewrite Hpt. }
  assert (releases s pid s s1) as Hr1 by by constructor.
  assert (wf n s1) as Hs1 by apply (keeps_on_heap n _ (related_range_map (PageTable.Entries pt)) s Hs).
  split_and!.
  - apply (keeps_for_each n (λ kp, remove_page pid kp.2) pages (λ kp, keeps_remove_page n pid kp.2) s1 Hs1).
  - etrans; [exact Hr1|]. eapply releases_remove_pages; [|done..]. intros k page. apply Hpages.
  - intros v f Hm. pose proof (mapping_range n s _ _ Hs Hm) as Hf.
    destruct (page_of s (pid, v)) as [page|] eqn:Hp; [|unfold mapping in Hm; by rewrite Hp in Hm].
    eapply remove_pages_free; [intros k q; apply Hpages|done..|by apply Hpages|done|done].
Qed.

(** The tables of [pid] are deleted. *)
Definition without_process pid s : MM.t :=
  s <| tlb ::= TLB.InvalidateProcess pid |> <| clusterManager ::= PageClusterManager.ClearClusters pid |>
    <| pageTables ::= delete pid |> <| multiLevelPT ::= delete pid |> <| processes ::= delete pid |>
    <| recentAccesses ::= delete pid |> <| hugePages ::= delete pid |>
    <| workingSetAccesses ::= delete pid |>
    <| metrics ::= λ m, m <| Metrics.ActiveProcesses ::= λ c, i32 (c - 1) |> |>.

Lemma cow_remove_none pid s :
  CopyOnWrite.sharedPages (cowManager s) = ∅ →
  CopyOnWrite.sharedPages (cowManager (cow_remove_process pid s).2) = ∅.
Proof.
  intros He. unfold cow_remove_process, CopyOnWrite.RemoveProcess, range_map, mbind, M_bind. cbn [fst snd].
  assert (shuffle (tick (hp s)) (map_to_list (CopyOnWrite.sharedPages (cowManager s))) = []) as ->; [|done].
  apply Permutation_nil_r. by rewrite shuffle_perm, He, map_to_list_empty.
Qed.

Lemma removed_without n s s2 pid :
  released n s pid s2 →
  removed pid s (without_process pid (cow_remove_process pid s2).2).
Proof.
  intros (Hs2 & Hr & Hfree).
  assert (frames (hp (cow_remove_process pid s2).2) = frames (hp s2)) as Hf3.
  { unfold cow_remove_process. by destruct (CopyOnWrite.RemoveProcess _ _ _) eqn:E; injection E as <- <-. }
  assert (pageTables (cow_remove_process pid s2).2 = pageTables s2 ∧
          tlb (cow_remove_process pid s2).2 = tlb s2 ∧
          processes (cow_remove_process pid s2).2 = processes s2) as (Hp3 & Ht3 & Hpr3).
  { unfold cow_remove_process. by destruct (CopyOnWrite.RemoveProcess _ _ _). }
  pose proof (cow_remove_none pid s2) as Hcow3.
  revert Hf3 Hp3 Ht3 Hpr3 Hcow3. generalize (cow_remove_process pid s2).2 as s3. intros s3 Hf3 Hp3 Ht3 Hpr3 Hcow3.
  destruct Hr as [Ho _ Ht Htl _ Hpr Hcow].
  assert (∀ p, owner (without_process pid s3) p = owner s2 p) as Howner by by intros p; apply owner_frames.
  constructor.
  - intros p Hp. by rewrite Howner, Ho.
  - intros v f Hm. rewrite Howner. by eapply Hfree.
  - intros x. unfold page_of, lookup_page; simpl. rewrite Hp3, Ht. destruct (decide (x.1 = pid)) as [->|Hne].
    + by rewrite lookup_delete_eq.
    + by rewrite lookup_delete_ne.
  - intros [q w] f. unfold cached; simpl.
    assert (TLB.wf (tlb s3)) as Htw by (rewrite Ht3; apply Hs2).
    destruct (InvalidateProcess_spec (tlb s3) pid Htw) as (_ & _ & E).
    rewrite E, Ht3, Htl. by destruct (decide (q = pid)).
  - simpl. by rewrite Hpr3, Hpr.
  - intros He. apply Hcow3. by rewrite Hcow.
Qed.

Lemma removed_quiet pid s1 s2 s3 :
  removed pid s1 s2 → quiet s2 s3 → pageTables s3 = pageTables s2 → processes s3 = processes s2 →
  cowManager s3 = cowManager s2 → removed pid s1 s3.
Proof.
  intros [O F P C R W] Hq Ht Hp Hw. constructor.
  - intros p Hno. pose proof (effect_owner _ _ _ _ _ Hq p) as ->. by apply O.
  - intros v f Hm. pose proof (effect_owner _ _ _ _ _ Hq (Z.to_nat f)) as ->. by apply (F v).
  - intros x. unfold page_of, lookup_page. rewrite Ht. apply P.
  - intros x f Hf. apply C. by apply (effect_cached _ _ _ _ _ Hq).
  - by rewrite Hp.
  - by rewrite Hw.
Qed.

Lemma emitEvent_tables e s :
  pageTables (emitEvent e s).2 = pageTables s ∧ processes (emitEvent e s).2 = processes s ∧
  cowManager (emitEvent e s).2 = cowManager s ∧ hp (emitEvent e s).2 = hp s ∧ tlb (emitEvent e s).2 = tlb s.
Proof. unfold emitEvent, modify. cbn [snd]. by repeat case_match. Qed.

Lemma RemoveProcess_effect n pid s :
  wf n s → coherent s → is_Some (pageTables s !! pid) →
  let '(r, s') := RemoveProcess pid s in r = Ok () ∧ removed pid s s'.
Proof.
  intros Hs Hc [pt Hpt]. unfold RemoveProcess, get_st. unfold mbind at 1, M_bind at 1. cbn [fst snd].
  rewrite Hpt. pose proof (remove_pages_effect n pid pt s Hs Hc Hpt) as Hr. revert Hr.
  unfold mbind at 1 2, M_bind at 1 2. destruct (on_heap _ s) as [pages s1]. cbn [fst snd].
  unfold mbind at 1, M_bind at 1. destruct (for_each _ pages s1) as [[] s2]. cbn [fst snd]. intros Hr.
  pose proof (removed_without n s s2 pid Hr) as Hw. unfold without_process in Hw.
  unfold mbind at 1, M_bind at 1. destruct (cow_remove_process pid s2) as [[] s3]. cbn [fst snd] in *.
  unfold mbind at 1, M_bind at 1, modify. cbn [fst snd].
  match goal with |- let '(_, _) := (_ ≫= _) ?x in _ => set (s4 := x) in * end.
  unfold mbind, M_bind, mret, M_ret. split; [done|].
  destruct (emitEvent_tables (EvProcessRemoved pid) s4) as (E1 & E2 & E3 & _).
  by eapply removed_quiet; [exact Hw|apply emitEvent_quiet|..].
Qed.

Lemma coherent_RemoveProcess n pid s : wf n s → coherent s → coherent (RemoveProcess pid s).2.
Proof.
  intros Hs Hc. destruct (pageTables s !! pid) as [pt|] eqn:Hpt.
  - pose proof (RemoveProcess_effect n pid s Hs Hc (mk_is_Some _ _ Hpt)) as Hr.
    destruct (RemoveProcess pid s) as [r s']. destruct Hr as [_ Hr]. by eapply coherent_removed.
  - unfold RemoveProcess, get_st, mbind, M_bind. cbn [fst snd]. by rewrite Hpt.
Qed.
End processes.

(** ** Huge pages *)

Section huge_pages.
Context `{Env : GoEnv}.
Implicit Types (n : Z) (s : MM.t) (pid : string) (v : N) (x : vpage).

Lemma quiet_with_huge n pid idx f :
  moves n quiet (λ _, True) (modify (λ s, s <| hugePages ::= alter (insert idx f) pid |>)).
Proof. apply quiet_modify; [intros s; apply wf_with_huge|]. intros s. by apply quiet_intro. Qed.

Lemma quiet_huge_tail n pid idx addr (p : ptr) :
  Z.of_nat p < n →
  moves n quiet (λ _, True)
    (f ← on_heap (load p);
     on_mpt pid (MultiLevelPageTable.SetEntry addr (Frame.ID f) true) ;;
     modify (λ s, s <| hugePages ::= alter (insert idx (Frame.ID f)) pid |>) ;;
     alg_fault p ;;
     on_metrics Metrics.RecordPageFault ;;
     emitEvent (EvHugePageMapped pid idx (Frame.ID f) addr) ;;
     mret (Frame.ID f, @None error)).
Proof.
  intros Hp. eapply moves_quiet_l; [by apply quiet_load|]. intros f _.
  quietly. eapply moves_quiet_l; [apply quiet_with_huge|]. intros _ _.
  quietly. quietly. quietly. by apply moves_ret.
Qed.

Lemma coherent_MapHugePage n pid idx s :
  0 < n → wf n s → coherent s → coherent (MapHugePage pid idx s).2.
Proof.
  intros Hn Hs Hc. unfold MapHugePage. destruct (decide _); [done|].
  unfold get_st. unfold mbind at 1, M_bind at 1. cbn [fst snd].
  destruct (pageTables s !! pid) as [pt|]; [|done]. cbv zeta.
  set (k := u64_add _ _). unfold mbind at 1, M_bind at 1.
  pose proof (allocateFrameForPage_effect n k pid s Hs) as Ha.
  destruct (allocateFrameForPage k pid s) as [[p|e] s1]; cbn [fst snd]; destruct Ha as [Hs1 Ha].
  - unfold mbind at 1, M_bind at 1. cbn [fst snd mret M_ret].
    destruct (quiet_huge_tail n pid idx (u64_shl idx 21) p (proj1 Ha) s1 Hs1) as (_ & Hq & _).
    eapply coherent_quiet; [exact Hq|]. by eapply coherent_taken_free.
  - destruct Ha as [Ho Hq1].
    assert (every_owner n s1) as Ho1.
    { intros q Hqn. pose proof (effect_owner _ _ _ _ _ Hq1 q) as E. rewrite over_none in E.
      rewrite E. by apply Ho. }
    unfold mbind at 1, M_bind at 1.
    pose proof (take_frame_effect n (wrap_err "no frames available for huge page" select_used)
      evictPage k pid s1 (select_wrapped_effect n _ s1 Hs1 Ho1) (evictPage_evicts n)) as Ht.
    destruct (take_frame _ _ k pid s1) as [[p|e'] s2]; cbn [fst snd] in *; destruct Ht as [Hs2 Ht].
    + destruct (quiet_huge_tail n pid idx (u64_shl idx 21) p (proj1 Ht) s2 Hs2) as (_ & Hq & _).
      eapply coherent_quiet; [exact Hq|]. eapply coherent_taken_victim; [exact Ht|].
      by eapply coherent_quiet.
    + lia.
Qed.
End huge_pages.

(** ** The critical sections, configuration, queries and reset *)

Section others.
Context `{Env : GoEnv}.
Implicit Types (n : Z) (s : MM.t) (pid : string) (v : N) (x : vpage).

Lemma coherent_access_fast n pid v w s : wf n s → coherent s → coherent (access_fast pid v w s).2.
Proof.
  intros Hs Hc. destruct (processes s !! pid) as [p|] eqn:Hp.
  - pose proof (access_fast_effect n pid v w s Hs (mk_is_Some _ _ Hp)) as Hf.
    destruct (access_fast pid v w s) as [r s1]. destruct Hf as (_ & Hq & _). by eapply coherent_quiet.
  - unfold access_fast. unfold mbind at 1, M_bind at 1.
    destruct (quiet_now n s Hs) as (_ & Hq & _). pose proof (counts_now s) as (Hpr & _).
    destruct (now s) as [t s1]. cbn [fst snd] in *. unfold get_st, mbind, M_bind. cbn [fst snd].
    rewrite Hpr, Hp. by eapply coherent_quiet.
Qed.

Lemma coherent_access_locked n pid v w start p s :
  0 < n → wf n s → coherent s → coherent (access_locked pid v w start p s).2.
Proof.
  intros Hn Hs Hc. destruct (processes s !! pid) as [q|] eqn:Hp.
  - eapply coherent_served; [|exact Hc]. by apply access_locked_effect; [..|rewrite Hp; eauto].
  - unfold access_locked. unfold mbind at 1, M_bind at 1.
    destruct (quiet_updateWorkingSet n pid v s Hs) as (Hs1 & Hq1 & _).
    pose proof (counts_updateWorkingSet pid v s) as (Hc1 & _).
    destruct (updateWorkingSet pid v s) as [[] s1]. cbn [fst snd] in *.
    unfold mbind at 1, M_bind at 1.
    destruct (quiet_track_if_enabled n pid v s1 Hs1) as (Hs2 & Hq2 & _).
    pose proof (counts_track_if_enabled pid v s1) as (Hc2 & _).
    destruct (track_if_enabled pid v s1) as [[] s2]. cbn [fst snd] in *. unfold get_st.
    unfold mbind at 1, M_bind at 1. cbn [fst snd].
    assert (pageTables s2 !! pid = None) as ->.
    { destruct (wf_domains _ _ Hs2) as [Hd _]. apply not_elem_of_dom. rewrite Hd. apply not_elem_of_dom.
      by rewrite Hc2, Hc1. }
    cbn [snd mret M_ret]. eapply coherent_quiet; [exact Hq2|]. by eapply coherent_quiet.
Qed.

Lemma coherent_SetFutureAccesses accs s : coherent s → coherent (SetFutureAccesses accs s).2.
Proof.
  unfold SetFutureAccesses, modify. cbn [snd]. intros Hc.
  by destruct (algorithm s); apply (coherent_intro s).
Qed.

Lemma coherent_EnableNuma b s : coherent s → coherent (EnableNuma b s).2.
Proof.
  unfold EnableNuma, modify. cbn [snd]. cbv zeta. intros Hc.
  match goal with |- coherent (if ?c then _ else _) => destruct c end; by apply (coherent_intro s).
Qed.

Lemma coherent_eventWorker s : coherent s → coherent (eventWorker_step s).2.
Proof.
  unfold eventWorker_step. intros Hc. destruct (eventCh s); [done|]. by apply (coherent_intro s).
Qed.

Lemma coherent_GetMetrics n s : wf n s → coherent s → coherent (GetMetrics s).2.
Proof.
  intros Hs. apply coherent_quiet. unfold GetMetrics, mbind, M_bind, gets. cbn [snd].
  by destruct (quiet_now n s Hs) as (_ & Hq & _).
Qed.

(** No table, no translation: nothing to disagree about. *)
Lemma coherent_empty s :
  pageTables s = ∅ → (∀ x, cached s x = None) → CopyOnWrite.sharedPages (cowManager s) = ∅ → coherent s.
Proof.
  intros Hp Hc Hw. assert (∀ x, page_of s x = None) as Hpage.
  { intros x. unfold page_of, lookup_page. by rewrite Hp, lookup_empty. }
  constructor.
  - intros x p. by rewrite Hpage.
  - done.
  - intros x f. unfold mapping. by rewrite Hpage.
  - intros x f. by rewrite Hc.
Qed.

Lemma coherent_Reset s : coherent (MM.Reset s).2.
Proof.
  unfold MM.Reset, get_st. unfold mbind at 1, M_bind at 1. cbn [fst snd].
  unfold mbind at 1, M_bind at 1. destruct (on_heap _ s) as [[] s1]. cbn [fst snd].
  unfold mbind at 1, M_bind at 1. destruct (now s1) as [t s2]. cbn [fst snd].
  unfold mbind, M_bind. cbn [fst snd modify].
  eapply coherent_quiet; [apply emitEvent_quiet|]. apply coherent_empty; [done| |done].
  intros x. destruct (Clear_spec (tlb s2)) as [_ Ht]. apply Ht.
Qed.

Lemma coherent_NewMemoryManager numFrames tlbSize ty t0 :
  coherent (NewMemoryManager numFrames tlbSize ty t0).
Proof.
  unfold NewMemoryManager. destruct (FrameTable.NewFrameTable _ _) as [ft h].
  destruct (time_now h) as [start h']. by apply coherent_empty.
Qed.
End others.

(** ** Runs without a fork *)

Section runs.
Context `{Env : GoEnv}.
Implicit Types (n : Z) (s : MM.t).

Definition forks (o : op) : bool := match o with OpFork _ _ _ => true | _ => false end.

Lemma coherent_op n o s : 0 < n → forks o = false → wf n s → coherent s → coherent (op_run o s).2.
Proof.
  intros Hn Ho Hs Hc.
  destruct o; try done; cbn [op_run]; unfold ignore, mbind, M_bind; cbn [fst snd mret M_ret].
  - by apply (coherent_intro s).
  - eapply coherent_quiet; [|exact Hc]. by destruct (quiet_CreateProcess n p s Hs) as (_ & ? & _).
  - by apply (coherent_RemoveProcess n).
  - by apply (coherent_AccessMemory n).
  - by apply (coherent_access_fast n).
  - by apply (coherent_access_locked n).
  - by apply (coherent_MapHugePage n).
  - by apply (coherent_intro s).
  - by apply coherent_SetFutureAccesses.
  - by apply coherent_EnableNuma.
  - by apply (coherent_intro s).
  - by apply (coherent_intro s).
  - by apply (coherent_intro s).
  - by apply coherent_eventWorker.
  - by apply (coherent_GetMetrics n).
  - by apply (coherent_intro s).
  - apply coherent_Reset.
Qed.

Lemma coherent_ops_run n ops s :
  0 < n → forallb (negb ∘ forks) ops → wf n s → coherent s → coherent (ops_run ops s).
Proof.
  intros Hn. revert s. induction ops as [|o ops IH]; intros s Hops Hs Hc; [done|].
  apply andb_prop_elim in Hops as [Ho Hops]. unfold ops_run, run in *. cbn [for_each].
  unfold mbind, M_bind. cbn [fst snd]. pose proof (keeps_op n o s Hs) as [Hs' _].
  apply IH; [done|done|]. apply (coherent_op n); [done| |done..].
  simpl in Ho. by destruct (forks o).
Qed.
End runs.
