(* ===== verification/ManagerCow.v ===== *)
(** * Copy-on-write in the manager

    A fork gives the child the parent's mapping without moving a frame and
    registers both as sharers of every present page; the first write of a sharer
    of a page with several gives the writer a frame of its own. *)

From S2P Require Import Prelude Models Heap FrameTable Policy Policies PoliciesSpec Algorithms.
From S2P Require Import Tlb PageTable MultiLevel Advanced Cow Manager ManagerInv ManagerOps ManagerSteps.
From S2P Require Import ManagerCounts ManagerEffects ManagerCoherence ManagerRuns.
Local Open Scope Z_scope.
Import MM.

(** ** The sharers of a fork *)

Section sharers.
Import CopyOnWrite.
Implicit Types (cow : CopyOnWrite.t) (parent child : string) (k : N).

(** The two processes, and nobody else, share the page. *)
Definition shared_by parent child cow k : Prop :=
  ∃ sp, sharedPages cow !! k = Some sp ∧ Processes sp = {[child; parent]} ∧ RefCount sp = 2.

Lemma add_sharer_new k pid cow sp :
  sharedPages cow !! k = Some sp → pid ∉ Processes sp →
  sharedPages (add_sharer k pid cow) =
    <[k := mk_shared (PageID sp) (FrameNumber sp) ({[pid]} ∪ Processes sp) (i32 (RefCount sp + 1))]>
      (sharedPages cow).
Proof. intros Hk Hp. unfold add_sharer. rewrite Hk. by rewrite decide_False. Qed.

Lemma fork_page_new parent child cow page :
  parent ≠ child → Page.Present page = true → sharedPages cow !! Page.ID page = None →
  shared_by parent child (fork_page parent child cow page) (Page.ID page) ∧
  ∀ k, k ≠ Page.ID page → sharedPages (fork_page parent child cow page) !! k = sharedPages cow !! k.
Proof.
  intros Hne Hp Hk. unfold fork_page, Page.IsPresent. rewrite Hp. cbv zeta.
  set (id := Page.ID page) in *. set (c1 := get_or_create _ _ _).
  assert (sharedPages c1 = <[id := mk_shared id (Page.GetFrame page) ∅ 0]> (sharedPages cow)) as E1
    by (unfold c1, get_or_create; by rewrite Hk).
  assert (sharedPages c1 !! id = Some (mk_shared id (Page.GetFrame page) ∅ 0)) as L1
    by by rewrite E1, lookup_insert_eq.
  pose proof (add_sharer_new id parent c1 _ L1 ltac:(set_solver)) as E2.
  set (c2 := add_sharer id parent c1) in *.
  assert (sharedPages c2 !! id = Some (mk_shared id (Page.GetFrame page) ({[parent]} ∪ ∅) 1)) as L2
    by by rewrite E2, lookup_insert_eq.
  pose proof (add_sharer_new id child c2 _ L2) as E3. simpl in E3. specialize (E3 ltac:(set_solver)).
  split.
  - eexists. split; [by rewrite E3, lookup_insert_eq|]. simpl. split; [set_solver|done].
  - intros k Hk'. by rewrite E3, E2, E1, !lookup_insert_ne by done.
Qed.

Lemma fork_page_other parent child cow page k :
  k ≠ Page.ID page → sharedPages (fork_page parent child cow page) !! k = sharedPages cow !! k.
Proof.
  intros Hk. assert (∀ pid c, sharedPages (add_sharer (Page.ID page) pid c) !! k = sharedPages c !! k) as Ha.
  { intros pid c. unfold add_sharer. repeat case_match; try done. simpl. by rewrite lookup_insert_ne. }
  unfold fork_page. destruct (Page.IsPresent page); [|done]. cbv zeta. rewrite !Ha.
  unfold get_or_create. destruct (sharedPages cow !! Page.ID page); [done|]. simpl. by rewrite lookup_insert_ne.
Qed.

Lemma fork_pages_shared parent child cow pages k :
  parent ≠ child → Forall (λ p, Page.Present p = true) pages → NoDup (Page.ID <$> pages) →
  (∀ p, p ∈ pages → sharedPages cow !! Page.ID p = None) → k ∈ Page.ID <$> pages →
  shared_by parent child (foldl (fork_page parent child) cow pages) k.
Proof.
  intros Hne. revert cow. induction pages as [|p pages IH]; intros cow Hp Hnd Hnone Hk; [set_solver|].
  apply Forall_cons in Hp as [Hp Hps]. rewrite fmap_cons in Hnd, Hk. apply NoDup_cons in Hnd as [Hnot Hnd].
  destruct (fork_page_new parent child cow p Hne Hp (Hnone p ltac:(set_solver))) as [Hsh Hother]. cbn [foldl].
  assert (∀ l c, k ∉ Page.ID <$> l → sharedPages (foldl (fork_page parent child) c l) !! k = sharedPages c !! k) as Hskip.
  { induction l as [|q l IHl]; intros c Hnk; [done|]. cbn [foldl]. rewrite IHl by set_solver.
    apply fork_page_other. set_solver. }
  apply elem_of_cons in Hk as [->|Hk].
  - destruct Hsh as (sp & Hsp & H1 & H2). exists sp. by rewrite Hskip.
  - apply IH; [done|done| |done]. intros q Hq. rewrite Hother; [apply Hnone; set_solver|].
    intros Heq. apply Hnot. rewrite <-Heq. by apply list_elem_of_fmap_2.
Qed.
End sharers.

(** ** Fork *)

Section fork.
Context `{Env : GoEnv}.
Implicit Types (n : Z) (s : MM.t) (parent child : string) (v : N) (x : vpage).

Lemma GetPresentPages_spec pt h :
  let '(l, h') := PageTable.GetPresentPages pt h in
  frames h' = frames h ∧ NoDup l.*1 ∧
  ∀ k p, (k, p) ∈ l ↔ PageTable.Entries pt !! k = Some p ∧ Page.Present p = true.
Proof.
  unfold PageTable.GetPresentPages, range_map, mbind, M_bind, mret, M_ret. cbn [fst snd].
  set (l := shuffle _ _). assert (l ≡ₚ map_to_list (PageTable.Entries pt)) as Hl by apply shuffle_perm.
  split_and!; [done| |].
  - assert (NoDup l.*1) as Hnd by (rewrite Hl; apply NoDup_fst_map_to_list).
    clear Hl. clearbody l. induction l as [|kp l IH]; [constructor|].
    rewrite fmap_cons in Hnd. apply NoDup_cons in Hnd as [Hnot Hnd]. rewrite filter_cons.
    destruct (decide _); [|by apply IH]. rewrite fmap_cons. apply NoDup_cons. split; [|by apply IH].
    intros (kp' & E & Hin)%list_elem_of_fmap. apply Hnot. rewrite E. apply list_elem_of_fmap_2.
    by apply list_elem_of_filter in Hin as [_ ?].
  - intros k p. rewrite list_elem_of_filter, Hl, elem_of_map_to_list. unfold Page.IsPresent. simpl. tauto.
Qed.

Lemma lookup_share_pages pt keys k :
  PageTable.Entries (foldl share_page pt keys) !! k =
    if decide (k ∈ keys) then Page.MakeShared <$> PageTable.Entries pt !! k else PageTable.Entries pt !! k.
Proof.
  revert pt. induction keys as [|k' keys IH]; intros pt; [done|]. cbn [foldl]. rewrite IH.
  assert (PageTable.Entries (share_page pt k') !! k =
    if decide (k = k') then Page.MakeShared <$> PageTable.Entries pt !! k else PageTable.Entries pt !! k) as E.
  { unfold share_page, PageTable.update_page; simpl. destruct (decide (k = k')) as [->|].
    - by rewrite lookup_alter_eq.
    - by rewrite lookup_alter_ne. }
  rewrite E. destruct (decide (k = k')) as [->|Hne].
  - rewrite (decide_True (P := k' ∈ k' :: keys)) by set_solver. destruct (decide (k' ∈ keys)); [|done].
    by destruct (PageTable.Entries pt !! k').
  - destruct (decide (k ∈ keys)) as [Hin|Hin].
    + by rewrite decide_True by set_solver.
    + by rewrite decide_False by set_solver.
Qed.

(** The tables after a fork, [pt] the parent's before. *)
Definition forked_pages parent child pt s s' : Prop :=
  ∀ x, page_of s' x =
    let mark p := if Page.Present p then Page.MakeShared p else p in
    if decide (x.1 = child) then mark ∘ PageTable.clone_page child <$> PageTable.Entries pt !! x.2
    else if decide (x.1 = parent) then mark <$> PageTable.Entries pt !! x.2
    else page_of s x.

(** What a fork does. *)
Record forked parent child (p : nat) s s' : Prop := {
  forked_processes : processes s' = <[child := p]> (processes s);
  forked_owner q : owner s' q = owner s q;
  forked_mapping x : mapping s' x = if decide (x.1 = child) then mapping s (parent, x.2) else mapping s x;
  forked_cached x : cached s' x = cached s x;
  forked_shared x f :
    x.1 = parent ∨ x.1 = child → mapping s' x = Some f →
    (∃ page, page_of s' x = Some page ∧ Page.ID page = x.2 ∧ Page.Shared page = true ∧
             Page.ReadOnly page = true) ∧
    shared_by parent child (cowManager s') x.2;
}.

Lemma marked_pages (pt : PageTable.t) (l : list (N * Page.t)) k :
  (∀ k p, (k, p) ∈ l ↔ PageTable.Entries pt !! k = Some p ∧ Page.Present p = true) →
  PageTable.Entries (foldl share_page pt l.*1) !! k =
    (λ p, if Page.Present p then Page.MakeShared p else p) <$> PageTable.Entries pt !! k.
Proof.
  intros Hl. rewrite lookup_share_pages. destruct (PageTable.Entries pt !! k) as [p|] eqn:Hk.
  - simpl. destruct (Page.Present p) eqn:Hp.
    + rewrite decide_True; [done|]. apply list_elem_of_fmap. exists (k, p). split; [done|]. by apply Hl.
    + rewrite decide_False; [done|]. intros ([k' p'] & -> & Hin)%list_elem_of_fmap.
      apply Hl in Hin as [Hin Hp']. simpl in Hk. congruence.
  - by destruct (decide _).
Qed.

(** The state before the counters and the event. *)
Definition fork_core parent child (p : nat) pt (l1 l2 : list (N * Page.t)) s s1 : Prop :=
  processes s1 = <[child := p]> (processes s) ∧ frames (hp s1) = frames (hp s) ∧ tlb s1 = tlb s ∧
  cowManager s1 = (CopyOnWrite.ForkProcess parent child l1.*2 (cowManager s)).2 ∧
  pageTables s1 = <[child := foldl share_page (PageTable.Clone child pt) l2.*1]>
                    (<[parent := foldl share_page pt l1.*1]> (<[child := PageTable.Clone child pt]> (pageTables s))).

Lemma ForkProcess_core parent child p pt s :
  pageTables s !! parent = Some pt →
  let '(r, s') := ForkProcess parent child p s in
  r = Ok () ∧ ∃ l1 l2 s1 e,
    (NoDup l1.*1 ∧ ∀ k q, (k, q) ∈ l1 ↔ PageTable.Entries pt !! k = Some q ∧ Page.Present q = true) ∧
    (∀ k q, (k, q) ∈ l2 ↔ PageTable.Entries (PageTable.Clone child pt) !! k = Some q ∧ Page.Present q = true) ∧
    fork_core parent child p pt l1 l2 s s1 ∧ s' = (emitEvent e (count_process s1).2).2.
Proof.
  intros Hpt. unfold ForkProcess. rewrite run_get_st, Hpt. cbv zeta.
  rewrite run_modify. unfold new_windows. rewrite !run_modify, run_on_heap.
  match goal with |- context [PageTable.GetPresentPages pt ?h] => pose proof (GetPresentPages_spec pt h) as H1;
    destruct (PageTable.GetPresentPages pt h) as [l1 h1] end. rewrite run_on_heap.
  match goal with |- context [PageTable.GetPresentPages ?ct ?h] => pose proof (GetPresentPages_spec ct h) as H2;
    destruct (PageTable.GetPresentPages ct h) as [l2 h2] end. rewrite !run_modify.
  match goal with |- let '(_, _) := (_ ≫= _) ?x in _ => set (s1 := x) end.
  unfold mbind, M_bind, mret, M_ret. split; [done|].
  exists l1, l2, s1, (EvProcessForked parent child (Z.of_nat (length l1))).
  destruct H1 as (Hh1 & Hnd & Hl1), H2 as (Hh2 & _ & Hl2). split_and!; [done|done|done| |done].
  unfold s1, fork_core. simpl. split_and!; try done. rewrite Hh2. exact Hh1.
Qed.

Lemma fork_core_pages parent child p pt l1 l2 s s1 :
  parent ≠ child → fork_core parent child p pt l1 l2 s s1 →
  (∀ k q, (k, q) ∈ l1 ↔ PageTable.Entries pt !! k = Some q ∧ Page.Present q = true) →
  (∀ k q, (k, q) ∈ l2 ↔ PageTable.Entries (PageTable.Clone child pt) !! k = Some q ∧ Page.Present q = true) →
  forked_pages parent child pt s s1.
Proof.
  intros Hne (_ & _ & _ & _ & Ht) Hl1 Hl2 [q w]. unfold page_of, lookup_page. cbn [fst snd]. rewrite Ht.
  destruct (decide (q = child)) as [->|Hq].
  - rewrite lookup_insert_eq, (marked_pages _ _ _ Hl2). simpl. rewrite lookup_fmap.
    by destruct (PageTable.Entries pt !! w).
  - rewrite lookup_insert_ne by done. destruct (decide (q = parent)) as [->|Hq'].
    + by rewrite lookup_insert_eq, (marked_pages _ _ _ Hl1).
    + by rewrite !lookup_insert_ne by done.
Qed.

Lemma forked_pages_mapping parent child pt s s' x :
  pageTables s !! parent = Some pt → forked_pages parent child pt s s' →
  mapping s' x = if decide (x.1 = child) then mapping s (parent, x.2) else mapping s x.
Proof.
  intros Hpt Hpages. unfold mapping. rewrite Hpages. destruct x as [q w]. cbn [fst snd].
  unfold page_of, lookup_page. cbn [fst snd]. rewrite Hpt.
  destruct (decide (q = child)); [|destruct (decide (q = parent)) as [->|]; [rewrite Hpt|done]];
    (destruct (PageTable.Entries pt !! w) as [page|]; [|done]); simpl; by destruct (Page.Present page) eqn:E; simpl; rewrite E.
Qed.

Lemma ForkProcess_effect n parent child p s :
  wf n s → coherent s → parent ≠ child → is_Some (pageTables s !! parent) →
  let '(r, s') := ForkProcess parent child p s in r = Ok () ∧ forked parent child p s s'.
Proof.
  intros Hs Hc Hne [pt Hpt]. pose proof (ForkProcess_core parent child p pt s Hpt) as Hf.
  destruct (ForkProcess parent child p s) as [r s'].
  destruct Hf as (-> & l1 & l2 & s1 & e & [Hnd Hl1] & Hl2 & Hcore & ->). split; [done|].
  pose proof (fork_core_pages _ _ _ _ _ _ _ _ Hne Hcore Hl1 Hl2) as Hpages.
  destruct (emitEvent_tables e (count_process s1).2) as (E1 & E2 & E3 & E4 & E5).
  revert E1 E2 E3 E4 E5. generalize (emitEvent e (count_process s1).2).2 as s'. intros s' E1 E2 E3 E4 E5.
  change (pageTables s' = pageTables s1) in E1. change (processes s' = processes s1) in E2.
  change (cowManager s' = cowManager s1) in E3. change (hp s' = hp s1) in E4. change (tlb s' = tlb s1) in E5.
  assert (forked_pages parent child pt s s') as Hpages'.
  { intros x. rewrite <-Hpages. unfold page_of, lookup_page. by rewrite E1. }
  destruct Hcore as (Hpr & Hh & Ht & Hcow & _). constructor.
  - by rewrite E2.
  - intros q. apply owner_frames. by rewrite E4.
  - intros x. by apply (forked_pages_mapping _ _ pt).
  - intros x. unfold cached. by rewrite E5, Ht.
  - intros [q w] f Hq Hf. cbn [fst snd] in *. rewrite E3, Hcow. cbn [snd CopyOnWrite.ForkProcess].
    rewrite (forked_pages_mapping _ _ _ _ _ _ Hpt Hpages') in Hf. cbn [fst snd] in Hf.
    assert (mapping s (parent, w) = Some f) as Hm
      by by destruct (decide (q = child)) as [|]; [|destruct Hq as [->|]].
    unfold mapping in Hm. destruct (page_of s (parent, w)) as [page|] eqn:Hp; [|done].
    destruct (Page.Present page) eqn:Hpres; [|done].
    destruct (coh_plain _ Hc _ _ Hp) as [Hid _]. cbn [snd] in Hid.
    unfold page_of, lookup_page in Hp. cbn [fst snd] in Hp. rewrite Hpt in Hp. split.
    + rewrite (Hpages' (q, w)). cbn [fst snd]. rewrite Hp. destruct (decide (q = child)) as [|Hqc].
      * simpl. rewrite Hpres. eexists. by split_and!.
      * destruct Hq as [->|]; [|done]. rewrite decide_True by done. simpl. rewrite Hpres.
        eexists. by split_and!.
    + apply fork_pages_shared; [done| | | |].
      * apply Forall_forall. intros q' ([k q2] & -> & Hin)%list_elem_of_fmap. by apply Hl1 in Hin as [_ ?].
      * assert (Page.ID <$> l1.*2 = l1.*1) as ->; [|done]. rewrite <-list_fmap_compose.
        apply list_fmap_ext. intros i [k q'] Hi%list_elem_of_lookup_2. apply Hl1 in Hi as [Hi _]. simpl.
        apply (coh_plain _ Hc (parent, k)). unfold page_of, lookup_page. cbn [fst snd]. by rewrite Hpt.
      * intros q' _. by rewrite (coh_cow _ Hc), lookup_empty.
      * rewrite <-Hid. apply list_elem_of_fmap_2. apply list_elem_of_fmap. exists (w, page).
        split; [done|]. by apply Hl1.
Qed.
End fork.

(** ** The copy of a shared page *)

Section copy.
Context `{Env : GoEnv}.
Implicit Types (n : Z) (s : MM.t) (pid : string) (k : N) (x : vpage).

(** While a shared page is about, [plain] says nothing. *)
Lemma shared_not_plain s x page : page_of s x = Some page → Page.Shared page = true → ¬ plain s.
Proof. intros Hp Hsh Hplain. destruct (Hplain _ _ Hp) as [_ H]. congruence. Qed.

Lemma quiet_shared s s' :
  ¬ plain s → (∀ p, owner s' p = owner s p) → (∀ x, page_of s' x = page_of s x) →
  tlb s' = tlb s → is_pff s' = is_pff s → clusteringEnabled s' = clusteringEnabled s → quiet s s'.
Proof.
  intros Hn Ho Hp Ht Ha Hc. constructor; [done| |by intros x f; unfold cached; rewrite Ht|constructor; try done].
  - intros x. unfold mapping. by rewrite Hp.
  - intros x. by rewrite Hp.
Qed.

Lemma page_of_replace s pid k page x :
  page_of (s <| pageTables ::= alter (PageTable.ReplaceEntry k page) pid |>) x =
    if decide (x = (pid, k)) then (λ _, page) <$> pageTables s !! pid else page_of s x.
Proof.
  destruct x as [q w]. unfold page_of, lookup_page; simpl. destruct (decide (q = pid)) as [->|Hq].
  - rewrite lookup_alter_eq. destruct (pageTables s !! pid) as [pt|]; simpl.
    + destruct (decide (w = k)) as [->|Hw].
      * by rewrite decide_True, lookup_insert_eq.
      * rewrite decide_False by congruence. by rewrite lookup_insert_ne.
    + by destruct (decide _).
  - rewrite lookup_alter_ne, decide_False by congruence. done.
Qed.

Lemma effect_replace s pid k page :
  ¬ plain s → is_Some (page_of s (pid, k)) → Page.Present page = true →
  effect none (at_ (pid, k) (Some (Page.FrameNumber page))) none
    s (s <| pageTables ::= alter (PageTable.ReplaceEntry k page) pid |>).
Proof.
  intros Hn [p Hp] Hpres.
  assert (is_Some (pageTables s !! pid)) as [pt Hpt].
  { unfold page_of, lookup_page in Hp. cbn [fst snd] in Hp. destruct (pageTables s !! pid); [eauto|done]. }
  constructor; [done| |done|constructor; try done].
  - intros x. rewrite over_at. unfold mapping. rewrite page_of_replace, Hpt. simpl.
    by destruct (decide _); [rewrite Hpres|].
  - intros x Hx. rewrite page_of_replace, Hpt. destruct (decide _); [eauto|done].
Qed.

(** The write check of a sharer among several asks for a copy. *)
Lemma HandleWrite_copy k pid page sp cow :
  CopyOnWrite.sharedPages cow !! k = Some sp → 1 < CopyOnWrite.RefCount sp →
  pid ∈ CopyOnWrite.Processes sp → Page.Shared page = true →
  ∃ newID cow', CopyOnWrite.HandleWrite k pid page cow = ((true, newID), page, cow').
Proof.
  intros Hk Hr Hp Hsh. unfold CopyOnWrite.HandleWrite, Page.IsShared. rewrite Hk, Hsh. cbn [negb].
  rewrite (proj2 (Z.leb_gt _ _)) by done. rewrite decide_True by done. eauto.
Qed.

Lemma on_heap_tables {A} (m : M heap A) s : pageTables (on_heap m s).2 = pageTables s.
Proof. unfold on_heap. by destruct (m (hp s)). Qed.

Definition same_tables s s' : Prop := pageTables s' = pageTables s.
#[local] Instance same_tables_preorder : PreOrder same_tables.
Proof. split; [done|]. unfold same_tables. intros s1 s2 s3. congruence. Qed.

(** After the new entry: the TLB, the counters, the event. *)
Definition copy_report pid k newID (frame : ptr) (g : Z) : M MM.t (res unit) :=
  modify (λ s, s <| tlb ::= TLB.Invalidate pid k |>) ;;
  tlb_insert pid k g ;;
  on_metrics Metrics.RecordCoWCopy ;;
  s ← get_st;
  match processes s !! pid with
  | Some p => on_process p Process.RecordCoWCopy
  | None => mret ()
  end ;;
  f ← on_heap (load frame);
  emitEvent (EvCowCopy pid k newID (Frame.ID f) g) ;;
  mret (Ok ()).

Lemma copy_report_effect n pid k newID frame g :
  0 ≤ g < n →
  moves n (effect none none (at_ (pid, k) (Some g))) (λ r, r = Ok ()) (copy_report pid k newID frame g).
Proof.
  intros Hg. unfold copy_report.
  eapply (moves_then n _ (effect none none (at_ (pid, k) (Some g)))); [|apply moves_invalidate|intros _ _]; [join|].
  eapply moves_quiet_r; [by apply moves_tlb_insert|]. intros _ _.
  eapply moves_quiet_l; [apply quiet_on_metrics; intros m; by destruct m|]. intros _ _.
  quietly. eapply (moves_quiet_l n _ _ _ (λ _, True)).
  { destruct (processes a !! pid); [apply quiet_on_process|by apply moves_ret]. }
  intros _ _. eapply moves_quiet_l; [apply quiet_on_heap, related_load|]. intros f _.
  quietly. by apply moves_ret.
Qed.

Lemma copy_report_tables pid k newID frame g : related same_tables (copy_report pid k newID frame g).
Proof.
  unfold copy_report.
  apply related_bind; [apply _|by intros s|intros _].
  apply related_bind; [apply _| |intros _].
  { intros s. unfold tlb_insert, on_tlb. by destruct (TLB.Insert _ _ _ _ _) as [? ?]. }
  apply related_bind; [apply _|by intros s|intros _].
  apply related_bind; [apply _|by intros s|intros s0].
  apply related_bind; [apply _|destruct (processes s0 !! pid); by intros s|intros _].
  apply related_bind; [apply _| |intros f].
  { intros s. unfold on_heap. by destruct (load frame (hp s)). }
  apply related_bind; [apply _| |intros _; apply related_ret, _].
  intros s. apply emitEvent_tables.
Qed.

(** The new frame goes to the page table as a private, writable page. *)
Definition copy_install pid k newID (frame newFrame : ptr) newPage : M MM.t (res unit) :=
  set_local_node pid newFrame ;;
  alg_fault newFrame ;;
  nf ← on_heap (load newFrame);
  modify (λ s, s <| pageTables ::= alter (PageTable.ReplaceEntry k (Page.SetFrame (Frame.ID nf) newPage)) pid |>) ;;
  copy_report pid k newID frame (Frame.ID nf).

Definition private_page s x : Prop :=
  ∃ page, page_of s x = Some page ∧ Page.Shared page = false ∧ Page.ReadOnly page = false.

Lemma quiet_set_local_node n pid p : moves n quiet (λ _, True) (set_local_node pid p).
Proof. unfold set_local_node. quietly. apply (moves_when n quiet). apply quiet_SetNuma. Qed.

Lemma copy_install_effect n pid k newID frame (g : ptr) newPage s :
  Z.of_nat g < n → wf n s → (∃ page, page_of s (pid, k) = Some page ∧ Page.Shared page = true) →
  Page.Shared newPage = false → Page.ReadOnly newPage = false →
  let '(r, s') := copy_install pid k newID frame g newPage s in
  let d : d_map := at_ (pid, k) (Some (Z.of_nat g)) in
  r = Ok () ∧ effect none d d s s' ∧ private_page s' (pid, k).
Proof.
  intros Hg Hs (page & Hp & Hsh) Hns Hnr. unfold copy_install.
  assert (moves n quiet (λ f, Frame.ID f = Z.of_nat g)
    (set_local_node pid g ;; alg_fault g ;; on_heap (load g))) as Hm.
  { eapply moves_quiet_l; [apply quiet_set_local_node|]. intros _ _. quietly. by apply quiet_load. }
  assert (related same_tables (set_local_node pid g ;; alg_fault g ;; on_heap (load g))) as Ht.
  { apply related_bind; [apply _| |intros _]; [|apply related_bind; [apply _| |intros _]].
    - intros s0. unfold set_local_node, get_st, mbind, M_bind, when. cbn [fst snd]. by destruct (numaEnabled s0).
    - intros s0. unfold alg_fault. by destruct (OnPageFault _ _ _).
    - intros s0. unfold on_heap. by destruct (load g (hp s0)). }
  destruct (Hm s Hs) as (Hs1 & Hq & Hid). specialize (Ht s). revert Hs1 Hq Hid Ht.
  unfold mbind, M_bind. generalize (on_heap (load g) (alg_fault g (set_local_node pid g s).2).2).
  intros [nf s1]. cbn [fst snd]. intros Hs1 Hq Hid Ht.
  assert (∀ x, page_of s1 x = page_of s x) as Hpages by (intros x; unfold page_of, lookup_page; by rewrite Ht).
  set (new := Page.SetFrame (Frame.ID nf) newPage).
  assert (Page.Present new = true ∧ Page.FrameNumber new = Z.of_nat g ∧ Page.Shared new = false ∧
          Page.ReadOnly new = false) as (Hpres & Hfn & Hns' & Hnr').
  { unfold new, Page.SetFrame. rewrite Hid, (proj2 (Z.leb_le 0 (Z.of_nat g))) by lia. done. }
  assert (page_ok n new) as Hok.
  { split; [apply page_wf_SetFrame|lia]. }
  destruct (keeps_replace_entry n pid k new Hok s1 Hs1) as [Hs2 _].
  assert (¬ plain s1) as Hnp by (eapply (shared_not_plain s1 (pid, k)); [rewrite Hpages; exact Hp|done]).
  pose proof (effect_replace s1 pid k new Hnp ltac:(rewrite Hpages, Hp; eauto) Hpres) as He. rewrite Hfn in He.
  pose proof (page_of_replace s1 pid k new (pid, k)) as Hp2. rewrite decide_True in Hp2 by done.
  assert (is_Some (pageTables s1 !! pid)) as [pt Hpt].
  { rewrite <-Hpages in Hp. unfold page_of, lookup_page in Hp. cbn [fst snd] in Hp.
    destruct (pageTables s1 !! pid); [eauto|done]. }
  rewrite Hpt in Hp2. unfold modify in *. cbn [snd] in *. revert Hs2 He Hp2.
  generalize (s1 <| pageTables ::= alter (PageTable.ReplaceEntry k new) pid |>). intros s2 Hs2 He Hp2.
  destruct (copy_report_effect n pid k newID frame (Frame.ID nf) ltac:(lia) s2 Hs2) as (_ & Hr & Hres).
  pose proof (copy_report_tables pid k newID frame (Frame.ID nf) s2) as Ht3.
  destruct (copy_report _ _ _ _ _ s2) as [r s']. cbn [fst snd] in *. rewrite Hid in Hr. split_and!; [done| |].
  - eapply effect_quiet_l; [exact Hq|]. eapply effect_join; [| | |exact He|exact Hr]; overlay.
  - exists new. split; [|done]. unfold page_of, lookup_page in *. rewrite Ht3. by rewrite Hp2.
Qed.

(** What a copy does: a free frame for the writer, and nothing else moves. *)
Definition copied n pid k s s' : Prop :=
  ∃ (g : ptr) y, Z.of_nat g < n ∧ owner s g = None ∧
    (let d : d_map := at_ (pid, k) (Some (Z.of_nat g)) in effect (at_ g (Some y)) d d s s') ∧
    private_page s' (pid, k).

(** The bookkeeping before the frame is allocated. *)
Lemma copy_prepare_quiet n pid k page cow newID s :
  wf n s → page_of s (pid, k) = Some page → Page.Shared page = true →
  let s1 := (on_page pid k (λ _, page) (s <| cowManager := cow |>)).2 in
  let '(new, s2) := copy_page page newID pid s1 in
  wf n s2 ∧ quiet s s2 ∧ page_of s1 (pid, k) = Some page ∧ page_of s2 (pid, k) = Some page ∧
  Page.Shared new = false ∧ Page.ReadOnly new = false.
Proof.
  intros Hs Hp Hsh. cbv zeta.
  assert (page_ok n page) as Hok.
  { unfold page_of, lookup_page in Hp. cbn [fst snd] in Hp.
    destruct (pageTables s !! pid) as [pt|] eqn:Hpt; [|done]. exact (wf_pages _ _ Hs _ _ Hpt _ _ Hp). }
  destruct (keeps_HandleWrite n page cow pid k Hok) as [Hk1 Hk2].
  pose proof (Hk1 s Hs) as [Hs0 _]. unfold modify in Hs0. cbn [snd] in Hs0.
  pose proof (Hk2 _ Hs0) as [Hs1 _].
  assert (∀ x, page_of (on_page pid k (λ _, page) (s <| cowManager := cow |>)).2 x = page_of s x) as Hpages.
  { intros x. rewrite page_of_on_page. destruct (decide (x = (pid, k))) as [->|]; [|done].
    change (page_of (s <| cowManager := cow |>) (pid, k)) with (page_of s (pid, k)). by rewrite Hp. }
  assert (∀ p, owner (on_page pid k (λ _, page) (s <| cowManager := cow |>)).2 p = owner s p) as Ho by done.
  assert (tlb (on_page pid k (λ _, page) (s <| cowManager := cow |>)).2 = tlb s ∧
    is_pff (on_page pid k (λ _, page) (s <| cowManager := cow |>)).2 = is_pff s ∧
    clusteringEnabled (on_page pid k (λ _, page) (s <| cowManager := cow |>)).2 = clusteringEnabled s) as (H1 & H2 & H3)
    by done.
  revert Hs1 Hpages Ho H1 H2 H3. generalize (on_page pid k (λ _, page) (s <| cowManager := cow |>)).2.
  intros s1 Hs1 Hpages Ho H1 H2 H3.
  pose proof (keeps_CopyPage n page newID pid s1 Hs1) as [Hs2 _].
  unfold copy_page, CopyOnWrite.CopyPage, mbind, M_bind, mret, M_ret in *. cbn [fst snd] in *.
  split_and!; [done| |by rewrite Hpages| |done|done].
  - apply quiet_shared; try done. by apply (shared_not_plain s (pid, k) page).
  - change (page_of s1 (pid, k) = Some page). by rewrite Hpages.
Qed.

Lemma handleCoW_copies n pid k frame page sp s :
  wf n s → page_of s (pid, k) = Some page → Page.ID page = k → Page.Shared page = true →
  CopyOnWrite.sharedPages (cowManager s) !! k = Some sp → 1 < CopyOnWrite.RefCount sp →
  pid ∈ CopyOnWrite.Processes sp → (∃ g, Z.of_nat g < n ∧ owner s g = None) →
  let '(r, s') := handleCoW pid k frame s in r = Ok () ∧ copied n pid k s s'.
Proof.
  intros Hs Hp Hid Hsh Hsp Hr Hin [g0 [Hg0 Hfree]]. unfold handleCoW.
  destruct (HandleWrite_copy k pid page sp (cowManager s) Hsp Hr Hin Hsh) as (newID & cow & Hw).
  assert (∀ s', page_of s' (pid, k) = Some page → page_at pid k s' = (page, s')) as Hat.
  { intros s' Hp'. unfold page_at, gets. unfold page_of in Hp'. cbn [fst snd] in Hp'. by rewrite Hp'. }
  unfold mbind at 1, M_bind at 1. rewrite (Hat s Hp). cbn [fst snd]. cbv zeta. rewrite Hid, run_get_st, Hw, run_modify.
  unfold mbind at 1, M_bind at 1. cbn [negb].
  pose proof (copy_prepare_quiet n pid k page cow newID s Hs Hp Hsh) as Hc. cbv zeta in Hc. revert Hc.
  generalize (on_page pid k (λ _, page) (s <| cowManager := cow |>)). intros [[] s1]. cbn [fst snd]. intros Hc.
  unfold mbind at 1, M_bind at 1. rewrite (Hat s1) by by destruct (copy_page page newID pid s1); apply Hc.
  cbn [fst snd]. unfold mbind at 1, M_bind at 1.
  destruct (copy_page page newID pid s1) as [new s2]. destruct Hc as (Hs2 & Hq & _ & Hp2 & Hns & Hnr). cbn [fst snd].
  unfold mbind at 1, M_bind at 1. rewrite run_get_st, (wf_table _ _ Hs2).
  pose proof (AllocateFrame_effect n newID pid s2 Hs2) as Ha.
  pose proof (on_heap_tables (FrameTable.AllocateFrame (the_table n) newID pid) s2) as Ht.
  destruct (on_heap _ s2) as [[g|e] s3]; cbn [fst snd]; destruct Ha as [Hs3 Ha].
  2:{ destruct Ha as [Hall _]. destruct (Hall g0 Hg0) as [y Hy].
      pose proof (effect_owner _ _ _ _ _ Hq g0) as E. rewrite over_none in E. rewrite E in Hy. congruence. }
  destruct Ha as (Hg & Hgo & Ha). unfold bind_ok. unfold mbind at 1, M_bind at 1. cbn [fst snd mret M_ret].
  cbn [snd] in Ht. assert (page_of s3 (pid, k) = Some page) as Hp3 by (unfold page_of, lookup_page in *; by rewrite Ht).
  pose proof (copy_install_effect n pid k newID frame g new s3 Hg Hs3 (ex_intro _ page (conj Hp3 Hsh)) Hns Hnr) as Hi.
  unfold copy_install, copy_report in Hi.
  match goal with |- let '(_, _) := ?x in _ => destruct x as [r s4] end.
  destruct Hi as (-> & Hi & Hpriv). split; [done|].
  pose proof (effect_owner _ _ _ _ _ Hq g) as Eg. rewrite over_none in Eg.
  exists g, (pid, newID). split_and!; [done|by rewrite <-Eg| |done]. cbv zeta.
  eapply effect_quiet_l; [exact Hq|]. eapply effect_join; [| | |exact Ha|exact Hi]; overlay.
Qed.
End copy.
