(* ===== verification/ManagerWrite.v ===== *)
(** * A write of a shared page, through [AccessMemory]

    A write never takes the fast path; under the lock it is a hit of the shared
    frame, which then copies the page.  Everything before the copy leaves the
    pages and the copy-on-write bookkeeping alone ([same_pages]), so that the
    copy is the one of [handleCoW_copies]. *)

From S2P Require Import Prelude Models Heap FrameTable Policy Policies PoliciesSpec Algorithms.
From S2P Require Import Tlb PageTable MultiLevel Advanced Cow Manager ManagerInv ManagerOps ManagerSteps.
From S2P Require Import ManagerCounts ManagerEffects ManagerCoherence ManagerRuns ManagerCow.
Local Open Scope Z_scope.
Import MM.

Section write.
Context `{Env : GoEnv}.
Implicit Types (n : Z) (s : MM.t) (pid : string) (k : N) (x : vpage).

(** ** What leaves the pages alone *)

Definition same_pages s s' : Prop :=
  (∀ x, page_of s' x = page_of s x) ∧ cowManager s' = cowManager s ∧
  (∀ pid, is_Some (processes s !! pid) → is_Some (processes s' !! pid)).

#[global] Instance same_pages_preorder : PreOrder same_pages.
Proof.
  split; [by intros s|]. intros s1 s2 s3 (P1 & C1 & R1) (P2 & C2 & R2). split_and!; [|congruence|auto].
  intros x. by rewrite P2.
Qed.

Lemma same_pages_intro s s' :
  pageTables s' = pageTables s → cowManager s' = cowManager s → processes s' = processes s → same_pages s s'.
Proof.
  intros Hp Hc Hr. split_and!; [|done|by intros; rewrite Hr].
  intros x. unfold page_of, lookup_page. by rewrite Hp.
Qed.

Lemma same_pages_on_heap {A} (m : M heap A) : related same_pages (on_heap m).
Proof. intros s. unfold on_heap. destruct (m (hp s)). by apply same_pages_intro. Qed.
Lemma same_pages_on_process p g : related same_pages (on_process p g).
Proof. intros s. by apply same_pages_intro. Qed.
Lemma same_pages_on_metrics g : related same_pages (on_metrics g).
Proof. intros s. by apply same_pages_intro. Qed.
Lemma same_pages_alg_access p w : related same_pages (alg_access p w).
Proof. intros s. unfold alg_access. destruct (OnPageAccess _ _ _ _). by apply same_pages_intro. Qed.
Lemma same_pages_tlb_insert pid k f : related same_pages (tlb_insert pid k f).
Proof. intros s. unfold tlb_insert, on_tlb. destruct (TLB.Insert _ _ _ _ _). by apply same_pages_intro. Qed.
Lemma same_pages_emitEvent e : related same_pages (emitEvent e).
Proof. intros s. destruct (emitEvent_tables e s) as (? & ? & ? & _). by apply same_pages_intro. Qed.

Lemma same_pages_updateWorkingSet pid k : related same_pages (updateWorkingSet pid k).
Proof.
  intros s. unfold updateWorkingSet. rewrite run_get_st. destruct (workingSetAccesses s !! pid); [|done].
  cbv zeta. rewrite run_modify. destruct (processes s !! pid) as [p|] eqn:Hp; simpl; rewrite ?Hp; by apply same_pages_intro.
Qed.
Lemma same_pages_track_if_enabled pid k : related same_pages (track_if_enabled pid k).
Proof.
  intros s. unfold track_if_enabled. rewrite run_get_st. destruct (clusteringEnabled s); [|done].
  cbn [when]. unfold trackAccess. rewrite run_get_st. destruct (recentAccesses s !! pid); [|done].
  cbv zeta. rewrite run_modify. destruct (3 <=? _); by apply same_pages_intro.
Qed.

(** A page that exists is found. *)
Lemma get_or_create_existing pid k page s :
  page_of s (pid, k) = Some page →
  let '(r, s') := get_or_create_page pid k s in r = page ∧ same_pages s s'.
Proof.
  intros Hp. unfold get_or_create_page. rewrite run_get_st.
  unfold page_of, lookup_page in Hp. cbn [fst snd] in Hp.
  destruct (pageTables s !! pid) as [pt|] eqn:Hpt; [|done]. simpl in Hp.
  unfold PageTable.GetOrCreatePage. rewrite Hp. unfold on_heap, mbind, M_bind, mret, M_ret, modify. cbn [fst snd].
  split; [done|]. split_and!; [|done..]. intros [q w]. unfold page_of, lookup_page. simpl.
  destruct (decide (q = pid)) as [->|Hq]; [by rewrite lookup_insert_eq, Hpt|by rewrite lookup_insert_ne].
Qed.

(** ** The steps of the access *)

(** A step before the copy: the state stays well formed and its pages as they are. *)
Definition before n {A} (dT : d_map) (m : M MM.t A) : Prop :=
  ∀ s, wf n s → wf n (m s).2 ∧ effect none none dT s (m s).2 ∧ same_pages s (m s).2.

Lemma before_intro {A} n dT (Φ : A → Prop) (m : M MM.t A) :
  moves n (effect none none dT) Φ m → related same_pages m → before n dT m.
Proof. intros Hm Hr s Hs. destruct (Hm s Hs) as (? & ? & _). by split_and!; [..|apply Hr]. Qed.

Lemma before_quiet {A B} n dT (m : M MM.t A) (f : A → M MM.t B) :
  before n none m → (∀ a, before n dT (f a)) → before n dT (m ≫= f).
Proof.
  intros Hm Hf s Hs. destruct (Hm s Hs) as (Hs1 & H1 & P1). unfold mbind, M_bind.
  destruct (Hf (m s).1 _ Hs1) as (Hs2 & H2 & P2).
  split_and!; [done|by eapply effect_quiet_l|by etrans].
Qed.

Definition write_hit pid k (p : nat) page (f : ptr) : M MM.t unit :=
  alg_access f true ;; tlb_insert pid k (Page.GetFrame page) ;;
  on_process p Process.RecordPageHit ;; on_metrics Metrics.RecordPageHit.

Lemma before_write_hit n pid k p page f :
  0 ≤ Page.GetFrame page < n → before n (at_ (pid, k) (Some (Page.GetFrame page))) (write_hit pid k p page f).
Proof.
  intros Hf. unfold write_hit. apply before_quiet; [eapply before_intro; [apply quiet_alg_access|apply same_pages_alg_access]|].
  intros _. eapply before_intro.
  - eapply moves_quiet_r; [by apply moves_tlb_insert|]. intros _ _. quietly. apply quiet_metrics_hit.
  - apply related_bind; [apply _|apply same_pages_tlb_insert|intros _].
    apply related_bind; [apply _|apply same_pages_on_process|intros _]. apply same_pages_on_metrics.
Qed.

(** The fast path of a write only counts it. *)
Lemma access_fast_write n pid k s :
  wf n s → is_Some (processes s !! pid) →
  ∃ start p s1, access_fast pid k true s = (FastContinue start p, s1) ∧ wf n s1 ∧ quiet s s1 ∧ same_pages s s1.
Proof.
  intros Hs Hp. pose proof (access_fast_effect n pid k true s Hs Hp) as He. destruct Hp as [p Hp].
  assert (∃ start s1, access_fast pid k true s = (FastContinue start p, s1) ∧ same_pages s s1)
    as (start & s1 & Hrun & Hsame).
  { unfold access_fast, now. unfold mbind at 1, M_bind at 1.
    pose proof (same_pages_on_heap time_now s) as H1. unfold on_heap in *.
    destruct (time_now (hp s)) as [start h]. cbn [fst snd] in *. rewrite run_get_st.
    change (processes (s <| hp := h |>)) with (processes s). rewrite Hp.
    exists start, (on_process p Process.RecordMemoryAccess (s <| hp := h |>)).2. split; [done|].
    etrans; [exact H1|apply same_pages_on_process]. }
  rewrite Hrun in He. destruct He as (Hs1 & Hq & _). by exists start, p, s1.
Qed.

(** ** The write *)

Lemma copied_before n pid k f s1 s2 s3 :
  effect none none (at_ (pid, k) (Some f)) s1 s2 → copied n pid k s2 s3 → copied n pid k s1 s3.
Proof.
  intros H1 (g & y & Hg & Ho & He & Hp). exists g, y. pose proof (effect_owner _ _ _ _ _ H1 g) as Eg.
  rewrite over_none in Eg. split_and!; [done|by rewrite <-Eg| |done]. cbv zeta in *.
  eapply effect_join; [| | |exact H1|exact He]; overlay.
Qed.

Lemma copied_quiet_l n pid k s1 s2 s3 : quiet s1 s2 → copied n pid k s2 s3 → copied n pid k s1 s3.
Proof.
  intros H1 (g & y & Hg & Ho & He & Hp). exists g, y. pose proof (effect_owner _ _ _ _ _ H1 g) as Eg.
  rewrite over_none in Eg. split_and!; [done|by rewrite <-Eg| |done]. by eapply effect_quiet_l.
Qed.

Lemma copied_quiet_r n pid k s1 s2 s3 :
  copied n pid k s1 s2 → quiet s2 s3 → same_pages s2 s3 → copied n pid k s1 s3.
Proof.
  intros (g & y & Hg & Ho & He & (page & Hp & Hpriv)) H2 (P & _). exists g, y. split_and!; [done|done| |].
  - by eapply effect_quiet_r.
  - exists page. by rewrite P.
Qed.

(** The page a sharer among several is about to write. *)
Record about_to_copy n pid k page sp s : Prop := {
  atc_page : page_of s (pid, k) = Some page;
  atc_id : Page.ID page = k;
  atc_present : Page.Present page = true;
  atc_shared : Page.Shared page = true;
  atc_sharers : CopyOnWrite.sharedPages (cowManager s) !! k = Some sp;
  atc_several : 1 < CopyOnWrite.RefCount sp;
  atc_member : pid ∈ CopyOnWrite.Processes sp;
  atc_room : ∃ g, Z.of_nat g < n ∧ owner s g = None;
}.

Lemma about_to_copy_before n pid k page sp dT s s' :
  effect none none dT s s' → same_pages s s' → about_to_copy n pid k page sp s → about_to_copy n pid k page sp s'.
Proof.
  intros He (P & C & _) [H1 H2 H3 H4 H5 H6 H7 (g & Hg & Ho)]. constructor; rewrite ?P, ?C; [done..|].
  exists g. split; [done|]. by rewrite (effect_owner _ _ _ _ _ He).
Qed.

Lemma access_hit_copies n pid k start p page sp f s :
  wf n s → about_to_copy n pid k page sp s → 0 ≤ Page.GetFrame page < n →
  let '(r, s') := access_hit pid k true start p page f s in r = Ok () ∧ copied n pid k s s'.
Proof.
  intros Hs Hatc Hf. destruct (before_write_hit n pid k p page f Hf s Hs) as (Hs1 & He & Hsame).
  pose proof (about_to_copy_before _ _ _ _ _ _ _ _ He Hsame Hatc) as [H1 H2 H3 H4 H5 H6 H7 H8].
  assert (access_hit pid k true start p page f s =
    (_ <-? handleCoW pid k f; stop ← now; emitEvent (EvMemoryAccess pid k true true (stop - start)) ;; mret (Ok ()))
      (write_hit pid k p page f s).2) as ->.
  { unfold access_hit, Page.IsShared. by rewrite H4. }
  destruct (write_hit pid k p page f s) as [[] s1]. cbn [snd] in *.
  pose proof (handleCoW_copies n pid k f page sp s1 Hs1 H1 H2 H4 H5 H6 H7 H8) as Hc.
  unfold bind_ok. unfold mbind at 1, M_bind at 1.
  pose proof (proj1 (keeps_handleCoW n pid k f s1 Hs1)) as Hs2.
  destruct (handleCoW pid k f s1) as [r s2]. cbn [snd] in Hs2. destruct Hc as [-> Hc]. cbn [fst snd].
  assert (moves n quiet (λ r, r = Ok ()) (stop ← now; emitEvent (EvMemoryAccess pid k true true (stop - start)) ;; mret (Ok ()))) as Hq
    by (quietly; quietly; by apply moves_ret).
  assert (related same_pages (stop ← now; emitEvent (EvMemoryAccess pid k true true (stop - start)) ;; mret (Ok ()))) as Hr.
  { apply related_bind; [apply _|apply same_pages_on_heap|intros stop].
    apply related_bind; [apply _|apply same_pages_emitEvent|intros _]. apply related_ret, _. }
  destruct (Hq s2 Hs2) as (_ & Hq2 & Hok). specialize (Hr s2).
  match goal with |- let '(_, _) := ?x in _ => destruct x as [r s3] end. cbn [fst snd] in *. split; [done|].
  eapply copied_before; [exact He|]. by eapply copied_quiet_r.
Qed.

Lemma access_locked_copies n pid k start p page sp s :
  wf n s → about_to_copy n pid k page sp s →
  let '(r, s') := access_locked pid k true start p s in r = Ok () ∧ copied n pid k s s'.
Proof.
  intros Hs Hatc. unfold access_locked.
  assert (before n none (updateWorkingSet pid k ;; track_if_enabled pid k)) as Hb.
  { apply before_quiet; [|intros _]; eapply before_intro;
      [apply quiet_updateWorkingSet|apply same_pages_updateWorkingSet
      |apply quiet_track_if_enabled|apply same_pages_track_if_enabled]. }
  destruct (Hb s Hs) as (Hs1 & Hq1 & Hp1). revert Hs1 Hq1 Hp1. unfold mbind at 1 2 3 4 5, M_bind at 1 2 3 4 5.
  generalize (track_if_enabled pid k (updateWorkingSet pid k s).2).
  intros [[] s1]. cbn [fst snd]. intros Hs1 Hq1 Hp1.
  pose proof (about_to_copy_before _ _ _ _ _ _ _ _ Hq1 Hp1 Hatc) as Hatc1.
  pose proof (atc_page _ _ _ _ _ _ Hatc1) as Hpage.
  assert (mapping s1 (pid, k) = Some (Page.GetFrame page)) as Hm
    by (unfold mapping; by rewrite Hpage, (atc_present _ _ _ _ _ _ Hatc1)).
  pose proof (mapping_range n s1 _ _ Hs1 Hm) as Hf.
  assert (is_Some (pageTables s1 !! pid)) as Hpt.
  { unfold page_of, lookup_page in Hpage. cbn [fst snd] in Hpage. destruct (pageTables s1 !! pid); [eauto|done]. }
  pose proof (get_or_create_effect n pid k s1 Hs1 Hpt) as Hg. destruct Hpt as [pt Hpt].
  pose proof (get_or_create_existing pid k page s1 Hpage) as Hx.
  rewrite run_get_st, Hpt. unfold mbind, M_bind.
  destruct (get_or_create_page pid k s1) as [page' s2]. destruct Hg as (Hs2 & Hq2 & _), Hx as [-> Hp2]. cbn [fst snd].
  unfold Page.IsPresent. rewrite (atc_present _ _ _ _ _ _ Hatc1), (GetFrame_present n s1 _ Hs1 Hf).
  pose proof (about_to_copy_before _ _ _ _ _ _ _ _ Hq2 Hp2 Hatc1) as Hatc2.
  pose proof (access_hit_copies n pid k start p page sp (Z.to_nat (Page.GetFrame page)) s2 Hs2 Hatc2 Hf) as Hh.
  destruct (access_hit _ _ _ _ _ _ _ s2) as [r s3]. destruct Hh as [-> Hh]. split; [done|].
  eapply copied_quiet_l; [exact Hq1|]. by eapply copied_quiet_l.
Qed.

(** The first write of a sharer among several, with a frame free. *)
Lemma AccessMemory_copies n pid k page sp s :
  wf n s → is_Some (processes s !! pid) → about_to_copy n pid k page sp s →
  let '(r, s') := AccessMemory pid k true s in r = Ok () ∧ copied n pid k s s'.
Proof.
  intros Hs Hp Hatc. unfold AccessMemory. unfold mbind, M_bind.
  destruct (access_fast_write n pid k s Hs Hp) as (start & p & s1 & -> & Hs1 & Hq & Hsame). cbn [fst snd].
  pose proof (access_locked_copies n pid k start p page sp s1 Hs1
    (about_to_copy_before _ _ _ _ _ _ _ _ Hq Hsame Hatc)) as Hl.
  destruct (access_locked _ _ _ _ _ s1) as [r s2]. destruct Hl as [-> Hl]. split; [done|]. by eapply copied_quiet_l.
Qed.

(** *** After a fork *)

Lemma forked_registered parent child (p : nat) s s' writer :
  forked parent child p s s' → is_Some (processes s !! parent) → writer = parent ∨ writer = child →
  is_Some (processes s' !! writer).
Proof.
  intros Hf Hp Hw. rewrite (forked_processes _ _ _ _ _ Hf). destruct (decide (writer = child)) as [->|Hne].
  - rewrite lookup_insert_eq. eauto.
  - rewrite lookup_insert_ne by done. by destruct Hw as [->|].
Qed.

Lemma forked_about_to_copy n parent child (p : nat) s s' v f writer :
  forked parent child p s s' → mapping s (parent, v) = Some f → writer = parent ∨ writer = child →
  (∃ g, Z.of_nat g < n ∧ owner s g = None) → ∃ page sp, about_to_copy n writer v page sp s'.
Proof.
  intros Hf Hm Hw (g & Hg & Hgo). assert (mapping s' (writer, v) = Some f) as Hmw.
  { rewrite (forked_mapping _ _ _ _ _ Hf). cbn [fst snd]. destruct (decide (writer = child)); [done|].
    by destruct Hw as [->|]. }
  destruct (forked_shared _ _ _ _ _ Hf (writer, v) f Hw Hmw) as [(page & Hpg & Hid & Hsh & _) (sp & Hsp & Hpr & Hrc)].
  exists page, sp. constructor; try done.
  - unfold mapping in Hmw. rewrite Hpg in Hmw. by destruct (Page.Present page).
  - lia.
  - rewrite Hpr. set_solver.
  - exists g. by rewrite (forked_owner _ _ _ _ _ Hf).
Qed.
End write.
