(* ===== verification/ManagerProps.v ===== *)
(** * What the memory manager guarantees

    The theorems about reachable states: [reachable] is any list of calls on a
    new manager, in any interleaving, for every clock, every random draw and
    every map iteration order. *)

From S2P Require Import Prelude Models Heap FrameTable Policy Policies PoliciesSpec Algorithms.
From S2P Require Import Tlb PageTable MultiLevel Advanced Cow DemandPaging Manager ManagerInv ManagerOps.
From S2P Require Import ManagerSteps ManagerCounts ManagerEffects ManagerCoherence ManagerRuns ManagerCow ManagerWrite.
Local Open Scope Z_scope.
Import MM.

Section reachable.
Context `{Env : GoEnv}.
Implicit Types (n : Z) (s : MM.t) (pid : string) (v : N) (x : vpage).

(** A new manager after some calls; [forked] tells whether one may be a fork. *)
Definition manager_after n tlbSize ty t0 (ops : list op) : MM.t :=
  ops_run ops (NewMemoryManager n tlbSize ty t0).

Lemma wf_manager_after n tlbSize ty t0 ops :
  0 ≤ n < 2 ^ 30 → wf n (manager_after n tlbSize ty t0 ops).
Proof. intros Hn. by apply wf_ops_run, wf_NewMemoryManager. Qed.

Definition fork_free (ops : list op) : Prop := forallb (negb ∘ forks) ops.

Lemma coherent_manager_after n tlbSize ty t0 ops :
  0 < n < 2 ^ 30 → fork_free ops → coherent (manager_after n tlbSize ty t0 ops).
Proof.
  intros Hn Hops. apply (coherent_ops_run n); [lia|done| |].
  - apply wf_NewMemoryManager. lia.
  - apply coherent_NewMemoryManager.
Qed.

(** The manager as the abstract machine. *)
Definition machine_of s : machine vpage := {| holds := owner s; resident := mapping s |}.

Lemma demand_paged_step n x s s' :
  wf n s → is_pff s = false → clusteringEnabled s = false → demand_paged n x s s' →
  is_pff s' = false ∧ clusteringEnabled s' = false ∧
  ∃ hit, demand_step (Z.to_nat n) x hit (machine_of s) (machine_of s') ∧
         if hit then one_hit s s' else one_fault s s'.
Proof.
  intros Hs Hp Hc [(Hm & dT & He & _ & Hh)|(Hm & s1 & Hb & [_ Ha] & Hf)].
  - destruct (effect_steady _ _ _ _ _ He) as [Ep Ec _ _]. rewrite Ep, Ec. split_and!; [done..|].
    exists true. split; [|done]. apply demand_hit; simpl; [done|apply He..].
  - destruct Hb as (p & Hpn & Hg & Ho). pose proof (effect_steady _ _ _ _ _ Hg) as [Ep Ec _ _].
    assert (quiet s1 s') as Hq by (apply Ha; congruence).
    destruct (effect_steady _ _ _ _ _ Hq) as [Ep' Ec' _ _].
    split_and!; [congruence..|]. exists false. split; [|done].
    pose proof (wf_n _ _ Hs). apply (demand_fault _ _ p); simpl; [done|lia| | |].
    + destruct Ho as [Ho|Ho]; [by left|right]. intros q Hqn. apply Ho. lia.
    + intros q. pose proof (effect_owner _ _ _ _ _ Hq q) as E. rewrite E. unfold over; simpl.
      pose proof (effect_owner _ _ _ _ _ Hg q) as ->. apply over_at.
    + intros y. pose proof (effect_mapping _ _ _ _ _ Hq y) as E. rewrite E. unfold over; simpl.
      by apply mapping_gets_frame.
Qed.

(** A list of accesses, one after the other. *)
Definition access_ops (l : list (string * N * bool)) : list op :=
  (λ a, OpAccess a.1.1 a.1.2 a.2) <$> l.

(** The abstract run, with the counters it leaves ([int64], so modulo 2^64). *)
Definition demand_paged_run n (pages : list vpage) (hits faults : nat) s s' : Prop :=
  demand_run (Z.to_nat n) pages hits faults (machine_of s) (machine_of s') ∧
  i64 (Metrics.PageHits (metrics s')) = i64 (Metrics.PageHits (metrics s) + Z.of_nat hits) ∧
  i64 (Metrics.PageFaults (metrics s')) = i64 (Metrics.PageFaults (metrics s) + Z.of_nat faults).

Lemma demand_paged_next n x xs (hit : bool) hits faults s1 s2 s3 :
  demand_step (Z.to_nat n) x hit (machine_of s1) (machine_of s2) →
  (if hit then one_hit s1 s2 else one_fault s1 s2) →
  demand_paged_run n xs hits faults s2 s3 →
  demand_paged_run n (x :: xs) (if hit then S hits else hits) (if hit then faults else S faults) s1 s3.
Proof.
  intros Hst Hone (Hrun & Hh & Hf). split; [by eapply demand_next|].
  rewrite Hh, Hf. destruct hit; destruct Hone as (_ & E1 & E2); rewrite E1, E2, ?i64_add_l;
    split; f_equal; lia.
Qed.

Lemma accesses_refine n l s :
  0 < n → wf n s → coherent s → is_pff s = false → clusteringEnabled s = false →
  (∀ a, a ∈ l → is_Some (processes s !! a.1.1)) →
  ∃ hits faults, demand_paged_run n l.*1 hits faults s (ops_run (access_ops l) s).
Proof.
  intros Hn. revert s. induction l as [|[[pid v] w] l IH]; intros s Hs Hc Hp Hcl Hreg.
  - exists 0%nat, 0%nat. split_and!; [apply demand_done|symmetry; f_equal; apply Z.add_0_r..].
  - assert (is_Some (processes s !! pid)) as Hpid by (apply (Hreg (pid, v, w)); set_solver).
    pose proof (AccessMemory_effect n pid v w s Hn Hs Hc Hpid) as Hd.
    destruct (demand_paged_step n _ _ _ Hs Hp Hcl Hd) as (Hp' & Hcl' & hit & Hst & Hone).
    pose proof (keeps_AccessMemory n pid v w s Hs) as [Hs' _].
    pose proof (coherent_AccessMemory n pid v w s Hn Hs Hc) as Hc'.
    set (s' := (AccessMemory pid v w s).2) in *.
    assert (processes s' = processes s) as Hpr by (destruct hit; apply Hone).
    destruct (IH s' Hs' Hc' Hp' Hcl') as (hits & faults & Hrun).
    { intros a Ha. rewrite Hpr. apply Hreg. set_solver. }
    eexists _, _. eapply demand_paged_next; [exact Hst|exact Hone|exact Hrun].
Qed.
End reachable.

(** ** The working set *)

Section working_set.
Context `{Env : GoEnv}.
Implicit Types (n : Z) (s : MM.t) (pid : string) (v : N) (l ws vs : list N).

(** The code's quadratic count is the number of distinct pages. *)
Lemma count_unique_size before ws :
  count_unique before ws = Z.of_nat (size (list_to_set ws ∖ list_to_set before : gset N)).
Proof.
  revert before. induction ws as [|p ws IH]; intros before; cbn [count_unique].
  - assert (list_to_set [] ∖ list_to_set before = (∅ : gset N)) as -> by set_solver. by rewrite size_empty.
  - rewrite IH. rewrite list_to_set_app_L. cbn [list_to_set]. rewrite union_empty_r_L.
    destruct (decide (p ∈ before)) as [Hin|Hnot].
    + rewrite Z.add_0_l. do 2 f_equal. apply set_eq. intros x. rewrite !elem_of_difference, !elem_of_union, !elem_of_list_to_set,
        !elem_of_singleton. naive_solver.
    + set (rest := list_to_set ws ∖ (list_to_set before ∪ {[p]}) : gset N).
      assert (({[p]} ∪ list_to_set ws) ∖ list_to_set before = {[p]} ∪ rest) as ->.
      { unfold rest. apply set_eq. intros x. rewrite !elem_of_union, !elem_of_difference, !elem_of_union,
          !elem_of_list_to_set, !elem_of_singleton. destruct (decide (x = p)); naive_solver. }
      rewrite size_union, size_singleton by (unfold rest; set_solver). lia.
Qed.

Lemma size_list_to_set_length ws : (size (list_to_set ws : gset N) ≤ length ws)%nat.
Proof.
  assert (∀ before, count_unique before ws ≤ Z.of_nat (length ws)) as Hc.
  { induction ws as [|p ws IH]; intros before; [done|]. cbn [count_unique length].
    specialize (IH (before ++ [p])). destruct (decide _); lia. }
  specialize (Hc []). rewrite count_unique_size in Hc.
  assert (list_to_set ws ∖ list_to_set [] = (list_to_set ws : gset N)) as E by set_solver. rewrite E in Hc. lia.
Qed.

Lemma last_n_app k l ws : last_n k (last_n k l ++ ws) = last_n k (l ++ ws).
Proof.
  unfold last_n. rewrite !length_app, length_drop.
  destruct (decide (length l ≤ k)%nat) as [Hle|Hgt].
  - replace (length l - k)%nat with 0%nat by lia. rewrite drop_0. f_equal. lia.
  - rewrite !drop_app, drop_drop, length_drop. f_equal; f_equal; lia.
Qed.

(** The window and the size it gives the process, which [p] points to. *)
Definition tracked pid (p : nat) l s : Prop :=
  processes s !! pid = Some p ∧ is_Some (procs s !! p) ∧ workingSetAccesses s !! pid = Some (last_n 10 l).

Lemma updateWorkingSet_tracks pid p v l s :
  workingSetWindow s = 10 → tracked pid p l s →
  let s' := (updateWorkingSet pid v s).2 in
  workingSetWindow s' = 10 ∧ tracked pid p (l ++ [v]) s' ∧
  GetWorkingSetInfo pid s' = Ok (Z.of_nat (size (list_to_set (last_n 10 (l ++ [v])) : gset N)), 10).
Proof.
  intros Hw (Hp & [pr Hpr] & Hws). cbv zeta. unfold updateWorkingSet. rewrite run_get_st, Hws, run_modify, Hw.
  change (Z.to_nat 10) with 10%nat. rewrite last_n_app, count_unique_size.
  assert (list_to_set (last_n 10 (l ++ [v])) ∖ list_to_set [] = (list_to_set (last_n 10 (l ++ [v])) : gset N)) as ->
    by set_solver.
  assert (size (list_to_set (last_n 10 (l ++ [v])) : gset N) ≤ 10)%nat as Hsz.
  { etrans; [apply size_list_to_set_length|]. unfold last_n. rewrite length_drop. lia. }
  rewrite i32_small by lia. cbn [processes]. rewrite Hp. unfold on_process, modify. cbn [snd].
  unfold tracked, GetWorkingSetInfo; simpl. rewrite Hp, list_lookup_alter, Hpr, lookup_insert_eq. simpl.
  rewrite Hw, decide_True by done. eauto 10.
Qed.

Lemma updates_track pid p vs v l s :
  workingSetWindow s = 10 → tracked pid p l s →
  GetWorkingSetInfo pid (for_each (updateWorkingSet pid) (vs ++ [v]) s).2 =
    Ok (Z.of_nat (size (list_to_set (last_n 10 (l ++ vs ++ [v])) : gset N)), 10).
Proof.
  revert l s. induction vs as [|v' vs IH]; intros l s Hw Ht.
  - by destruct (updateWorkingSet_tracks pid p v l s Hw Ht) as (_ & _ & ?).
  - cbn [app for_each]. unfold mbind, M_bind. cbn [fst snd].
    destruct (updateWorkingSet_tracks pid p v' l s Hw Ht) as (Hw' & Ht' & _).
    rewrite (IH _ _ Hw' Ht'). by rewrite <-app_assoc.
Qed.
End working_set.

(** ** The properties *)

Section properties.
Context `{Env : GoEnv}.
Implicit Types (n : Z) (s : MM.t) (pid : string) (v : N) (x : vpage).

(** C1: Whatever is called on a manager, and however the calls of different
    goroutines interleave at its lock, the manager's state stays well formed:
    every frame keeps its number and is unpinned, every present page and every
    TLB entry names a frame of the table, the five per-process tables have the
    same processes, the windows are bounded, the algorithm's own invariant and
    the accounting of the metrics hold. *)
Theorem manager_reachable_wf n tlbSize ty t0 ops :
  0 ≤ n < 2 ^ 30 → wf n (manager_after n tlbSize ty t0 ops).
Proof. apply wf_manager_after. Qed.

(** C4: In every reachable state of a manager with frames, an access of a
    registered process succeeds, and adds exactly one to the hits or exactly
    one to the faults. *)
Theorem access_succeeds_and_counts n tlbSize ty t0 ops pid v w :
  let s := manager_after n tlbSize ty t0 ops in
  0 < n < 2 ^ 30 → is_Some (processes s !! pid) →
  let '(r, s') := AccessMemory pid v w s in r = Ok () ∧ one_access s s'.
Proof.
  intros s Hn Hp. pose proof (wf_manager_after n tlbSize ty t0 ops ltac:(lia)) as Hs.
  pose proof (AccessMemory_counted n pid v w s (proj1 Hn) Hs Hp) as Ha.
  destruct (AccessMemory pid v w s) as [r s']. by destruct Ha as (? & ? & _).
Qed.

(** C3: As long as no process is forked, a page that is present is in a frame of
    the table that is bound to that page, no two pages (of any processes) are in
    the same frame, and the TLB never disagrees with the page tables. *)
Theorem fork_free_isolation n tlbSize ty t0 ops x y f :
  let s := manager_after n tlbSize ty t0 ops in
  0 < n < 2 ^ 30 → fork_free ops →
  (mapping s x = Some f → 0 ≤ f < n ∧ owner s (Z.to_nat f) = Some x) ∧
  (mapping s x = Some f → mapping s y = Some f → x = y) ∧
  (cached s x = Some f → mapping s x = Some f).
Proof.
  intros s Hn Hops. pose proof (wf_manager_after n tlbSize ty t0 ops ltac:(lia)) as Hs.
  pose proof (coherent_manager_after n tlbSize ty t0 ops Hn Hops) as Hc. split_and!.
  - intros Hx. split; [by eapply mapping_range|]. by apply (coh_owner _ Hc).
  - by apply coherent_isolated.
  - apply (coh_cached _ Hc).
Qed.

(** C2: Accesses refine demand paging: from any state reached without a fork,
    with an algorithm other than PFF and without prefetching, every list of
    accesses of registered processes is a run of the abstract machine, which
    takes a used frame only when no frame is free and moves no other page; its
    hits and faults are what the metrics counted. *)
Theorem accesses_refine_demand_paging n tlbSize ty t0 ops l :
  let s := manager_after n tlbSize ty t0 ops in
  0 < n < 2 ^ 30 → fork_free ops → is_pff s = false → clusteringEnabled s = false →
  (∀ a, a ∈ l → is_Some (processes s !! a.1.1)) →
  ∃ hits faults, demand_paged_run n l.*1 hits faults s (ops_run (access_ops l) s).
Proof.
  intros s Hn Hops. apply accesses_refine; [lia|apply wf_manager_after; lia|].
  by apply coherent_manager_after.
Qed.

(** C5: From a state reached without a fork in which every frame is free and no
    page present, without prefetching, accesses of registered processes whose
    distinct pages fit in memory fault exactly once per distinct page, whatever
    the replacement algorithm but PFF. *)
Theorem compulsory_faults_only n tlbSize ty t0 ops l :
  let s := manager_after n tlbSize ty t0 ops in
  let distinct : gset vpage := list_to_set l.*1 in
  0 < n < 2 ^ 30 → fork_free ops → is_pff s = false → clusteringEnabled s = false →
  (∀ a, a ∈ l → is_Some (processes s !! a.1.1)) →
  (∀ p, Z.of_nat p < n → owner s p = None) → (∀ x, mapping s x = None) →
  Z.of_nat (size distinct) ≤ n →
  demand_paged_run n l.*1 (length l - size distinct) (size distinct) s (ops_run (access_ops l) s).
Proof.
  intros s distinct Hn Hops Hp Hc Hreg Hfree Hnone Hsz.
  destruct (accesses_refine n l s) as (hits & faults & Hrun & Hh & Hf);
    [lia|apply wf_manager_after; lia|by apply coherent_manager_after|done..|].
  assert (fits (Z.to_nat n) ∅ (machine_of s)) as Hfits.
  { apply fits_empty; [|done]. intros p Hpn. apply Hfree. lia. }
  pose proof (demand_run_length _ _ _ _ _ _ Hrun) as Hlen. rewrite length_fmap in Hlen.
  assert (size (∅ ∪ list_to_set l.*1 : gset vpage) ≤ Z.to_nat n)%nat as Hsz'.
  { rewrite union_empty_l_L. fold distinct. lia. }
  destruct (fits_run _ _ _ _ _ _ _ Hfits Hsz' Hrun) as [Hfaults _].
  rewrite size_empty, union_empty_l_L in Hfaults. fold distinct in Hfaults.
  assert (faults = size distinct ∧ hits = (length l - size distinct)%nat) as [-> ->] by lia.
  by split_and!.
Qed.

(** C6: A fork (from a state reached without one) succeeds, gives the child the
    parent's mapping, moves no frame and leaves the TLB alone; every present page
    of the two is then shared and read-only, with exactly the two as sharers.  The
    first write access to such a page, by either and with a frame free, succeeds:
    the writer gets a private, writable page in a frame that was free, and every
    other page, the other process's included, stays where it was. *)
Theorem fork_shares_until_written n tlbSize ty t0 ops parent child p v f writer :
  let s := manager_after n tlbSize ty t0 ops in
  0 < n < 2 ^ 30 → fork_free ops → parent ≠ child → is_Some (processes s !! parent) →
  mapping s (parent, v) = Some f → writer = parent ∨ writer = child →
  (∃ g, Z.of_nat g < n ∧ owner s g = None) →
  let '(r, s') := ForkProcess parent child p s in
  r = Ok () ∧ forked parent child p s s' ∧
  let '(r2, s2) := AccessMemory writer v true s' in
  r2 = Ok () ∧ private_page s2 (writer, v) ∧
  (∃ g : ptr, owner s g = None ∧ Z.of_nat g ≠ f ∧ mapping s2 (writer, v) = Some (Z.of_nat g)) ∧
  ∀ x, x ≠ (writer, v) → mapping s2 x = mapping s' x.
Proof.
  intros s Hn Hops Hne Hp Hm Hw (g0 & Hg0 & Hg0n).
  pose proof (wf_manager_after n tlbSize ty t0 ops ltac:(lia)) as Hs. fold s in Hs.
  pose proof (coherent_manager_after n tlbSize ty t0 ops Hn Hops) as Hc. fold s in Hc.
  pose proof (ForkProcess_effect n parent child p s Hs Hc Hne (wf_process_table n s parent Hs Hp)) as Hf.
  destruct (keeps_ForkProcess n parent child p s Hs) as [Hs' _].
  destruct (ForkProcess parent child p s) as [r s']. destruct Hf as [-> Hf]. cbn [snd] in Hs'. split_and!; [done..|].
  destruct (forked_about_to_copy n parent child p s s' v f writer Hf Hm Hw) as (page & sp & Hatc); [by exists g0|].
  pose proof (AccessMemory_copies n writer v page sp s' Hs' (forked_registered _ _ _ _ _ _ Hf Hp Hw) Hatc) as Hcopy.
  destruct (AccessMemory writer v true s') as [r2 s2].
  destruct Hcopy as (-> & g & y & Hg & Hgo & He & Hpriv). cbv zeta in He. split_and!; [done|done| |].
  - exists g. rewrite (forked_owner _ _ _ _ _ Hf) in Hgo. split_and!; [done| |].
    + intros <-. destruct (coh_owner _ Hc _ _ Hm) as [_ Ho]. rewrite Nat2Z.id in Ho. congruence.
    + by rewrite (effect_mapping _ _ _ _ _ He), over_at, decide_True.
  - intros x Hx. by rewrite (effect_mapping _ _ _ _ _ He), over_at, decide_False.
Qed.

(** C8: Removing a registered process (in a state reached without a fork) succeeds:
    the process has no table, no mapping and no TLB entry left, and the frames
    that its 4 KB pages were present in are free.  Every other frame is as it was,
    those of the other processes and those of its own huge pages, which stay
    taken; so are the mappings and registrations of all the others. *)
Theorem RemoveProcess_releases n tlbSize ty t0 ops pid :
  let s := manager_after n tlbSize ty t0 ops in
  0 < n < 2 ^ 30 → fork_free ops → is_Some (processes s !! pid) →
  let '(r, s') := RemoveProcess pid s in
  r = Ok () ∧ processes s' = delete pid (processes s) ∧
  (∀ v, mapping s' (pid, v) = None ∧ cached s' (pid, v) = None) ∧
  (∀ v f, mapping s (pid, v) = Some f → owner s' (Z.to_nat f) = None) ∧
  (∀ q : ptr, (∀ v, mapping s (pid, v) ≠ Some (Z.of_nat q)) → owner s' q = owner s q) ∧
  (∀ x, x.1 ≠ pid → mapping s' x = mapping s x) ∧
  (∀ p x, x.1 ≠ pid → owner s p = Some x → owner s' p = Some x).
Proof.
  intros s Hn Hops Hp.
  pose proof (wf_manager_after n tlbSize ty t0 ops ltac:(lia)) as Hs. fold s in Hs.
  pose proof (coherent_manager_after n tlbSize ty t0 ops Hn Hops) as Hc. fold s in Hc.
  pose proof (RemoveProcess_effect n pid s Hs Hc (wf_process_table n s pid Hs Hp)) as Hr.
  destruct (RemoveProcess pid s) as [r s']. destruct Hr as [-> Hr]. split_and!; [done|apply Hr| |apply Hr|apply Hr| |].
  - intros v. split; [by rewrite (removed_mapping _ _ _ _ Hr), decide_True|].
    destruct (cached s' (pid, v)) as [f|] eqn:Hcv; [|done].
    by destruct (removed_cached _ _ _ Hr _ _ Hcv) as [? _].
  - intros x Hx. by rewrite (removed_mapping _ _ _ _ Hr), decide_False.
  - intros q x Hx Hq. rewrite (removed_owner _ _ _ Hr); [done|]. intros k Hk.
    destruct (coh_owner _ Hc _ _ Hk) as [_ Ho]. rewrite Nat2Z.id, Hq in Ho. apply Hx. by injection Ho as ->.
Qed.

(** C7: In every reachable state, PFF's enforcement with a positive target ends, by
    its own loop condition or an empty slice and never for lack of rounds, and
    leaves at most [target] frames in use. *)
Theorem PFF_enforcement_reaches_target n tlbSize ty t0 ops target :
  let s := manager_after n tlbSize ty t0 ops in
  0 ≤ n < 2 ^ 30 → 0 < target →
  let used s := FrameTable.GetUsedFrames (frameTable s) (hp s) in
  (enforce_loop (length (used s)) target (used s) s).1 = Some () ∧
  Z.of_nat (length (used (enforcePFFResident target s).2)) ≤ target.
Proof.
  intros s Hn Ht used. pose proof (wf_manager_after n tlbSize ty t0 ops Hn) as Hs. fold s in Hs. split.
  - apply (enforce_loop_spec n); [by apply table_frames_used|done|lia|done].
  - by apply (enforce_effect n).
Qed.

(** C10: In every reachable state, a call that names an unregistered process returns the code's error and
    changes nothing (an access has read the clock); so does registering a
    process twice. *)
Theorem unregistered_process_errors n tlbSize ty t0 ops pid v w child p idx :
  let s := manager_after n tlbSize ty t0 ops in
  0 ≤ n < 2 ^ 30 → processes s !! pid = None →
  AccessMemory pid v w s = (Err (ErrProcessNotFound pid), s <| hp ::= λ h, h <| tick ::= S |> |>) ∧
  RemoveProcess pid s = (Err (ErrProcessNotFound pid), s) ∧
  ForkProcess pid child p s = (Err (ErrParentNotFound pid), s) ∧
  MapHugePage pid idx s =
    ((-1, Some (if decide (2 ^ 43 - 1 < idx)%N then ErrHugePageRange idx else ErrProcessNotFound pid)), s) ∧
  GetHugePages pid s = (Err (ErrProcessNotFound pid), s) ∧
  ∀ q pr p', procs s !! q = Some pr → processes s !! Process.ID pr = Some p' →
    CreateProcess q s = (Err (ErrProcessExists (Process.ID pr)), s).
Proof.
  intros s Hn Hp. pose proof (wf_manager_after n tlbSize ty t0 ops Hn) as Hs. fold s in Hs.
  destruct (wf_domains _ _ Hs) as (D1 & _ & _ & D4 & _).
  assert (pageTables s !! pid = None) as Hpt by (apply not_elem_of_dom; rewrite D1; by apply not_elem_of_dom).
  assert (hugePages s !! pid = None) as Hhp by (apply not_elem_of_dom; rewrite D4; by apply not_elem_of_dom).
  split_and!.
  - unfold AccessMemory, access_fast, now, on_heap, time_now, get_st, mbind, M_bind, mret, M_ret. simpl. by rewrite Hp.
  - unfold RemoveProcess. by rewrite run_get_st, Hpt.
  - unfold ForkProcess. by rewrite run_get_st, Hpt.
  - unfold MapHugePage. destruct (decide _); [done|]. by rewrite run_get_st, Hpt.
  - unfold GetHugePages. by rewrite run_get_st, Hhp.
  - intros q pr p' Hq Hpr. unfold CreateProcess. rewrite run_get_st, Hq. cbv zeta. by rewrite Hpr.
Qed.

(** C9: The accesses a process makes under the write lock slide through a window
    of ten: from any reachable state, after at least one more, the working-set
    size reported is the number of distinct pages among the last ten. *)
Theorem working_set_is_last_ten n tlbSize ty t0 ops pid p ws vs v :
  let s := manager_after n tlbSize ty t0 ops in
  0 ≤ n < 2 ^ 30 → processes s !! pid = Some p → is_Some (procs s !! p) →
  workingSetAccesses s !! pid = Some ws →
  GetWorkingSetInfo pid (for_each (updateWorkingSet pid) (vs ++ [v]) s).2 =
    Ok (Z.of_nat (size (list_to_set (last_n 10 (ws ++ vs ++ [v])) : gset N)), 10).
Proof.
  intros s Hn Hp Hpr Hws. pose proof (wf_manager_after n tlbSize ty t0 ops Hn) as Hs. fold s in Hs.
  apply (updates_track pid p); [apply Hs|]. split_and!; [done|done|]. rewrite Hws. f_equal.
  destruct (wf_windows _ _ Hs) as [Hw _]. specialize (Hw _ _ Hws). simpl in Hw.
  rewrite (wf_window _ _ Hs) in Hw. unfold last_n. by replace (length ws - 10)%nat with 0%nat by lia.
Qed.
End properties.

(** ** Concrete runs *)

#[local] Existing Instance first_env.

(** Two processes registered; then a few accesses. *)
Definition sample_process (pid : string) : Process.t := Process.NewProcess 0 pid pid 1 64.
Definition sample_start : list op :=
  [OpProcess (sample_process "P1"); OpCreate 0; OpProcess (sample_process "P2"); OpCreate 1].
Definition sample_accesses : list (string * N * bool) :=
  [(("P1", 1%N), true); (("P2", 1%N), false); (("P1", 2%N), false); (("P1", 1%N), false)].
Definition sample_ops : list op := sample_start ++ access_ops sample_accesses.
Abbreviation sample_state n ops := (@manager_after first_env n 16 AlgorithmCLOCK 0 ops).

(** Empty tables: nothing is resident. *)
Lemma nothing_resident s x :
  forallb (λ kv, bool_decide (size (PageTable.Entries kv.2) = 0%nat)) (map_to_list (pageTables s)) = true →
  mapping s x = None.
Proof.
  intros Hall. unfold mapping, page_of, lookup_page. destruct (pageTables s !! x.1) as [pt|] eqn:Hpt; [|done].
  rewrite forallb_forall in Hall. apply elem_of_map_to_list, list_elem_of_In, Hall, bool_decide_eq_true in Hpt.
  apply map_size_empty_iff in Hpt. simpl in Hpt. by rewrite Hpt, lookup_empty.
Qed.

Lemma manager_reachable_wf_witness : wf 3 (sample_state 3 sample_ops).
Proof. apply (@manager_reachable_wf first_env 3 16 AlgorithmCLOCK 0 sample_ops). lia. Defined.

Lemma access_succeeds_and_counts_witness :
  let s := sample_state 3 sample_ops in
  is_Some (processes s !! "P1") ∧
  let '(r, s') := @AccessMemory first_env "P1" 9 true s in r = Ok () ∧ one_access s s'.
Proof.
  assert (is_Some (processes (sample_state 3 sample_ops) !! "P1")) as Hp by (vm_compute; eauto).
  split; [exact Hp|]. apply (@access_succeeds_and_counts first_env 3 16 AlgorithmCLOCK 0 sample_ops); [lia|exact Hp].
Defined.

Lemma fork_free_isolation_witness :
  let s := sample_state 3 sample_ops in
  mapping s ("P1", 1%N) = Some 0 ∧ cached s ("P1", 1%N) = Some 0 ∧ owner s 0%nat = Some ("P1", 1%N).
Proof.
  pose proof (@fork_free_isolation first_env 3 16 AlgorithmCLOCK 0 sample_ops ("P1", 1%N) ("P2", 1%N) 0
    ltac:(lia) ltac:(vm_compute; done)) as (H1 & _ & H3).
  assert (cached (sample_state 3 sample_ops) ("P1", 1%N) = Some 0) as Hc by (vm_compute; reflexivity).
  pose proof (H3 Hc) as Hm. split; [exact Hm|]. split; [exact Hc|]. exact (proj2 (H1 Hm)).
Defined.

Lemma accesses_refine_demand_paging_witness :
  ∃ hits faults,
    demand_paged_run 2 sample_accesses.*1 hits faults (sample_state 2 sample_start)
      (@ops_run first_env (access_ops sample_accesses) (sample_state 2 sample_start)).
Proof.
  apply (@accesses_refine_demand_paging first_env 2 16 AlgorithmCLOCK 0 sample_start);
    [lia|vm_compute; done|vm_compute; reflexivity|vm_compute; reflexivity|].
  intros a Ha. unfold sample_accesses in Ha. rewrite !elem_of_cons in Ha.
  destruct Ha as [->|[->|[->|[->|Ha]]]]; [vm_compute; eauto..|by apply elem_of_nil in Ha].
Defined.

Lemma compulsory_faults_only_witness :
  demand_paged_run 3 sample_accesses.*1 1 3 (sample_state 3 sample_start)
    (@ops_run first_env (access_ops sample_accesses) (sample_state 3 sample_start)).
Proof.
  apply (@compulsory_faults_only first_env 3 16 AlgorithmCLOCK 0 sample_start sample_accesses);
    [lia|vm_compute; done|vm_compute; reflexivity|vm_compute; reflexivity| | | |vm_compute; congruence].
  - intros a Ha. unfold sample_accesses in Ha. rewrite !elem_of_cons in Ha.
    destruct Ha as [->|[->|[->|[->|Ha]]]]; [vm_compute; eauto..|by apply elem_of_nil in Ha].
  - intros [|[|[|p]]] Hp; [vm_compute; reflexivity..|lia].
  - intros x. apply nothing_resident. vm_compute. reflexivity.
Defined.

Lemma fork_shares_until_written_witness :
  let s := sample_state 4 sample_ops in
  let '(r, s') := @ForkProcess first_env "P1" "P3" 0 s in
  r = Ok () ∧ forked "P1" "P3" 0 s s' ∧
  let '(r2, s2) := @AccessMemory first_env "P3" 1 true s' in
  r2 = Ok () ∧ private_page s2 ("P3", 1%N) ∧
  (∃ g : ptr, owner s g = None ∧ Z.of_nat g ≠ 0 ∧ mapping s2 ("P3", 1%N) = Some (Z.of_nat g)) ∧
  ∀ x, x ≠ ("P3", 1%N) → mapping s2 x = mapping s' x.
Proof.
  apply (@fork_shares_until_written first_env 4 16 AlgorithmCLOCK 0 sample_ops "P1" "P3" 0 1 0 "P3");
    [lia|vm_compute; done|done|vm_compute; eauto|vm_compute; reflexivity|by right|].
  exists 3%nat. split; [lia|vm_compute; reflexivity].
Defined.

Lemma RemoveProcess_releases_witness :
  let s := sample_state 3 sample_ops in
  let '(r, s') := @RemoveProcess first_env "P1" s in
  r = Ok () ∧ processes s' = delete "P1" (processes s) ∧
  (∀ v, mapping s' ("P1", v) = None ∧ cached s' ("P1", v) = None) ∧
  (∀ v f, mapping s ("P1", v) = Some f → owner s' (Z.to_nat f) = None) ∧
  (∀ q : ptr, (∀ v, mapping s ("P1", v) ≠ Some (Z.of_nat q)) → owner s' q = owner s q) ∧
  (∀ x, x.1 ≠ "P1" → mapping s' x = mapping s x) ∧
  (∀ p x, x.1 ≠ "P1" → owner s p = Some x → owner s' p = Some x).
Proof.
  apply (@RemoveProcess_releases first_env 3 16 AlgorithmCLOCK 0 sample_ops); [lia|vm_compute; done|vm_compute; eauto].
Defined.

Lemma PFF_enforcement_reaches_target_witness :
  let s := sample_state 3 sample_ops in
  let used s := FrameTable.GetUsedFrames (frameTable s) (hp s) in
  length (used s) = 3%nat ∧ Z.of_nat (length (used (@enforcePFFResident first_env 2 s).2)) ≤ 2.
Proof.
  split; [vm_compute; reflexivity|].
  apply (@PFF_enforcement_reaches_target first_env 3 16 AlgorithmCLOCK 0 sample_ops 2); lia.
Defined.

Lemma unregistered_process_errors_witness :
  let s := sample_state 3 sample_ops in
  @RemoveProcess first_env "P9" s = (Err (ErrProcessNotFound "P9"), s).
Proof.
  assert (processes (sample_state 3 sample_ops) !! "P9" = None) as Hp by (vm_compute; reflexivity).
  pose proof (@unregistered_process_errors first_env 3 16 AlgorithmCLOCK 0 sample_ops "P9" 0 false "P3" 0 0
    ltac:(lia) Hp) as (_ & Hr & _).
  exact Hr.
Defined.

Lemma working_set_is_last_ten_witness :
  GetWorkingSetInfo "P1" (for_each (updateWorkingSet "P1") ([5; 6; 5] ++ [7])%N (sample_state 3 sample_ops)).2 =
    Ok (Z.of_nat (size (list_to_set (last_n 10 ([1; 2] ++ [5; 6; 5] ++ [7])%N) : gset N)), 10).
Proof.
  apply (@working_set_is_last_ten first_env 3 16 AlgorithmCLOCK 0 sample_ops "P1" 0);
    [lia|vm_compute; reflexivity|vm_compute; eauto|vm_compute; reflexivity].
Defined.
