(* ===== verification/Hazards.v ===== *)
(** * Runs in which isolation is lost

    [fork_free_isolation] needs its hypothesis: these runs of the memory
    manager, evaluated, show what happens after forks and with huge pages when
    frames are evicted or processes removed.  [shown s pid v] is where the page
    table maps the page, where the TLB does, and to which page the mapped frame
    belongs. *)

From S2P Require Import Prelude Models Heap FrameTable Policy Policies PoliciesSpec Algorithms.
From S2P Require Import Tlb PageTable MultiLevel Advanced Cow Manager ManagerInv ManagerOps ManagerSteps.
From S2P Require Import ManagerCounts ManagerEffects ManagerProps.
Import MM.
Local Open Scope Z_scope.

#[local] Existing Instance first_env.

Definition process_named (pid : string) : Process.t := Process.NewProcess 0 pid "" 1 100.

(** Two registered processes A and C, and process objects for the children B and D. *)
Definition after (n : Z) (ops : list op) : MM.t :=
  manager_after n 16 AlgorithmLRU 0
    ([OpProcess (process_named "A"); OpCreate 0; OpProcess (process_named "B");
      OpProcess (process_named "C"); OpCreate 2; OpProcess (process_named "D")] ++ ops).
Definition rd (pid : string) (v : N) : op := OpAccess pid v false.
Definition wr (pid : string) (v : N) : op := OpAccess pid v true.

Definition shown (s : MM.t) (pid : string) (v : N) : option Z * option Z * option (option vpage) :=
  (mapping s (pid, v), cached s (pid, v), (λ f, owner s (Z.to_nat f)) <$> mapping s (pid, v)).
Definition owners (s : MM.t) (n : nat) : list (option vpage) := owner s <$> seq 0 n.

(** Evicting a shared frame unmaps the page of its owner only: the child keeps a
    mapping to the frame, which now holds a page of another process. *)
Example eviction_leaves_sharer :
  let s := after 2 [rd "A" 1; OpFork "A" "B" 1; rd "C" 7; rd "C" 8] in
  mapping s ("A", 1%N) = None ∧ shown s "B" 1 = (Some 0, None, Some (Some ("C", 8%N))).
Proof. by vm_compute. Qed.

(** Removing the parent frees the frames that the child still maps. *)
Example removal_frees_shared_frame :
  let s := after 2 [rd "A" 1; OpFork "A" "B" 1; OpRemove "A"] in
  shown s "B" 1 = (Some 0, None, Some None).
Proof. by vm_compute. Qed.

(** The private copy of a page has a number of its own, but stays under the
    page's key: evicting its frame looks the number up, finds no page, and the
    mapping and the translation of the copy survive on a reused frame. *)
Example eviction_misses_private_copy :
  let s := after 3 [rd "A" 1; OpFork "A" "B" 1; wr "B" 1; rd "A" 1; rd "C" 7; rd "A" 1; rd "C" 8; rd "A" 1] in
  shown s "B" 1 = (Some 1, Some 1, Some (Some ("C", 8%N))).
Proof. by vm_compute. Qed.

(** A second fork of such a page: the copy of the grandchild is filed under the
    number, its own page stays on the shared frame. *)
Example second_fork_misfiles_copy :
  let s := after 6 [rd "A" 1; OpFork "A" "B" 1; wr "B" 1; OpFork "B" "D" 3; wr "D" 1] in
  shown s "D" 1 = (Some 1, Some 1, Some (Some ("B", 1000001%N))) ∧
  shown s "D" 1000001 = (Some 2, Some 2, Some (Some ("D", 1000002%N))).
Proof. by vm_compute. Qed.

(** The sharers of a page number are kept across unrelated families: with two
    families the last writer of the first one copies again, and the original
    frame stays taken by a page that no table maps to it. *)
Example families_share_a_record :
  owners (after 4 [rd "A" 1; OpFork "A" "B" 1; wr "A" 1; wr "B" 1]) 4 =
    [Some ("A", 1%N); Some ("A", 1000001%N); None; None] ∧
  (let s := after 6 [rd "A" 1; rd "C" 1; OpFork "A" "B" 1; OpFork "C" "D" 3; wr "A" 1; wr "B" 1] in
   owners s 6 = [Some ("A", 1%N); Some ("C", 1%N); Some ("A", 1000001%N); Some ("B", 1000002%N); None; None] ∧
   mapping s ("A", 1%N) = Some 2 ∧ mapping s ("B", 1%N) = Some 3).
Proof. by vm_compute. Qed.

(** Mapping a huge page again takes another frame and forgets the first one;
    removing the process forgets the frames of its huge pages. *)
Example huge_frames_leak :
  owners (after 3 [OpMapHuge "A" 1; OpMapHuge "A" 1]) 3 = [Some ("A", 4294967297%N); Some ("A", 4294967297%N); None] ∧
  owners (after 3 [OpMapHuge "A" 1; OpRemove "A"]) 3 = [Some ("A", 4294967297%N); None; None].
Proof. by vm_compute. Qed.
