(* ===== verification/ProcMan.v ===== *)
(** * The process manager: [internal/process/manager.go]

    Process objects are shared by pointer with the memory manager, so they stay
    in its object list ([MM.procs]).  A method takes [pm.mu] several times and
    calls the memory manager, which has a lock of its own, in between; each
    stretch under one lock is a definition here, and the methods are their
    compositions.  The names of processes are ["P<n>"]. *)

From S2P Require Import Prelude Models Heap FrameTable Policy Policies Algorithms Tlb PageTable MultiLevel.
From S2P Require Import Advanced Cow Manager.
Local Open Scope Z_scope.

Module PM.
Record t := mk {
  processes : gmap string nat;
  memoryManager : MM.t;
  nextPID : N;
}.
#[global] Instance eta_t : Eta t := λ r, mk (processes r) (memoryManager r) (nextPID r).

Definition NewProcessManager (mm : MM.t) : t := {| processes := ∅; memoryManager := mm; nextPID := 1 |}.

(** The process behind a pointer; the map holds no others. *)
Definition object (p : nat) (s : t) : Process.t :=
  default (Process.NewProcess 0 "" "" 0 0) (MM.procs (memoryManager s) !! p).

(** A call into the memory manager. *)
Definition on_mm {A} (m : M MM.t A) : M t A :=
  λ s, let '(a, mm) := m (memoryManager s) in (a, s <| memoryManager := mm |>).

(** [fmt.Sprintf("P%d", n)] *)
Definition pid_of (n : N) : string := "P" +:+ pretty n.

(** [pm.nextPID.Add(1)], as a process ID. *)
Definition draw_pid : M t string :=
  s ← get_st;
  let n := u64_add (nextPID s) 1 in
  modify (λ s, s <| nextPID := n |>) ;;
  mret (pid_of n).

Section ops.
Context `{Env : GoEnv}.

(** [models.NewProcess]: a new object. *)
Definition new_process (pid name : string) (priority : Z) (virtualPages : N) : M t nat :=
  on_mm (created ← MM.now;
         s ← get_st;
         modify (λ s, s <| MM.procs ::= λ l, l ++ [Process.NewProcess created pid name priority virtualPages] |>) ;;
         mret (length (MM.procs s))).

(** ** [CreateProcess] *)

(** The object is the caller's own until the memory manager has registered it. *)
Definition create_register (pid name : string) (priority : Z) (virtualPages : N) : M t (res nat) :=
  p ← new_process pid name priority virtualPages;
  _ <-? on_mm (MM.CreateProcess p);
  mret (Ok p).
Definition publish (pid : string) (p : nat) : M t unit := modify (λ s, s <| processes ::= <[pid := p]> |>).

Definition CreateProcess (name : string) (priority : Z) (virtualPages : N) : M t (res nat) :=
  pid ← draw_pid;
  p <-? create_register pid name priority virtualPages;
  publish pid p ;;
  mret (Ok p).

(** ** [TerminateProcess] *)

Definition terminate_unpublish (pid : string) : M t (res unit) :=
  s ← get_st;
  match processes s !! pid with
  | None => mret (Err (ErrProcessNotFound pid))
  | Some p =>
      on_mm (MM.on_process p (Process.SetState ProcessTerminated)) ;;
      modify (λ s, s <| processes ::= delete pid |>) ;;
      mret (Ok ())
  end.
Definition terminate_cleanup (pid : string) : M t (res unit) :=
  r ← on_mm (MM.RemoveProcess pid);
  mret match r with
       | Ok _ => Ok ()
       | Err e => Err (ErrWrap ("TerminateProcess " +:+ pid +:+ ": memory cleanup failed") e)
       end.

Definition TerminateProcess (pid : string) : M t (res unit) :=
  _ <-? terminate_unpublish pid;
  terminate_cleanup pid.

(** ** [ForkProcess] *)

(** The parent, and the fields the child copies. *)
Definition fork_lookup (parentPID : string) : M t (res (nat * Process.t)) :=
  gets (λ s, match processes s !! parentPID with
             | None => Err (ErrParentNotFound parentPID)
             | Some parent => Ok (parent, object parent s)
             end).
Definition new_child (childPID parentPID : string) (parent : Process.t) : M t nat :=
  child ← new_process childPID (Process.Name parent +:+ "-fork") (Process.Priority parent)
            (Process.VirtualPages parent);
  on_mm (MM.on_process child (λ p, p <| Process.ParentID := parentPID |>)) ;;
  mret child.
(** What is undone when the memory manager refuses the fork. *)
Definition fork_rollback (parent : nat) (childPID : string) : M t unit :=
  modify (λ s, s <| processes ::= delete childPID |>) ;;
  on_mm (MM.on_process parent (Process.RemoveChild childPID)).
Definition fork_register (parentPID : string) (parent : nat) (childPID : string) (child : nat) : M t (res nat) :=
  r ← on_mm (MM.ForkProcess parentPID childPID child);
  match r with
  | Err e => fork_rollback parent childPID ;; mret (Err e)
  | Ok _ => mret (Ok child)
  end.

Definition ForkProcess (parentPID : string) : M t (res nat) :=
  r <-? fork_lookup parentPID;
  let '(parent, pr) := r in
  childPID ← draw_pid;
  child ← new_child childPID parentPID pr;
  publish childPID child ;;
  on_mm (MM.on_process parent (Process.AddChild childPID)) ;;
  fork_register parentPID parent childPID child.

(** ** Access and queries *)

Definition GetProcess (pid : string) (s : t) : res nat :=
  match processes s !! pid with
  | None => Err (ErrProcessNotFound pid)
  | Some p => Ok p
  end.
Definition GetAllProcesses : M t (list nat) :=
  s ← get_st; l ← on_mm (MM.on_heap (range_map (processes s))); mret (l.*2).

Definition access_lookup (pid : string) : M t (res unit) :=
  s ← get_st;
  match processes s !! pid with
  | None => mret (Err (ErrProcessNotFound pid))
  | Some p => on_mm (MM.on_process p (Process.cas_state ProcessReady ProcessRunning)) ;; mret (Ok ())
  end.
Definition AccessMemory (pid : string) (virtualPage : N) (write : bool) : M t (res unit) :=
  _ <-? access_lookup pid;
  on_mm (MM.AccessMemory pid virtualPage write).

Definition GetMemoryManager (s : t) : MM.t := memoryManager s.
Definition GetProcessCount (s : t) : Z := Z.of_nat (size (processes s)).

(** A removal that fails is logged only. *)
Definition reset_remove (pid : string) : M t unit := _ ← on_mm (MM.RemoveProcess pid); mret ().
Definition Reset : M t unit :=
  s ← get_st;
  l ← on_mm (MM.on_heap (range_map (processes s)));
  for_each reset_remove (l.*1) ;;
  modify (λ s, s <| processes := ∅ |> <| nextPID := 1%N |>).
End ops.
End PM.
