(* ===== verification/ProcManProps.v ===== *)
(** * What the process manager guarantees

    First its methods one after the other: the two managers list the same
    processes under names that were never used before.  Then its methods
    interleaved: which process a goroutine can see has a page table. *)

From S2P Require Import Prelude Models Heap FrameTable Policy Policies PoliciesSpec Algorithms.
From S2P Require Import Tlb PageTable MultiLevel Advanced Cow Manager ManagerInv ManagerOps ManagerSteps.
From S2P Require Import ManagerCounts ManagerEffects ManagerCoherence ManagerRuns ManagerCow ProcMan.
Local Open Scope Z_scope.

(** ** The registered processes, under each call to the memory manager *)

Section registry.
Context `{Env : GoEnv}.
Implicit Types (n : Z) (s : MM.t) (pid : string) (v : N) (p : nat).

Definition same_registry s s' : Prop := MM.processes s' = MM.processes s.
#[local] Instance same_registry_preorder : PreOrder same_registry.
Proof. split; [done|]. unfold same_registry. intros s1 s2 s3. congruence. Qed.

Lemma counts_registry s s' : same_counts s s' → same_registry s s'.
Proof. by intros (? & _). Qed.

Lemma create_registry p pr s :
  MM.procs s !! p = Some pr →
  let '(r, s') := MM.CreateProcess p s in
  match MM.processes s !! Process.ID pr with
  | Some _ => r = Err (ErrProcessExists (Process.ID pr)) ∧ s' = s
  | None => r = Ok () ∧ MM.processes s' = <[Process.ID pr := p]> (MM.processes s)
  end.
Proof.
  intros Hp. unfold MM.CreateProcess. rewrite run_get_st, Hp. cbv zeta.
  destruct (MM.processes s !! Process.ID pr); [done|].
  rewrite run_modify. unfold MM.new_windows, MM.count_process, MM.on_metrics. rewrite !run_modify.
  unfold mbind, M_bind, mret, M_ret. split; [done|].
  match goal with |- context [MM.emitEvent ?e ?s] => destruct (emitEvent_tables e s) as (_ & -> & _) end.
  done.
Qed.

Lemma remove_page_registry pid page : related same_registry (MM.remove_page pid page).
Proof.
  unfold MM.remove_page. apply related_bind; [apply _|by intros s|intros s0].
  apply related_bind; [apply _| |intros _].
  - apply related_when; [apply _|]. apply related_bind; [apply _| |intros r; apply related_ret, _].
    intros s. unfold MM.on_heap. by destruct (FrameTable.ReleaseFrame _ _ _).
  - apply related_when; [apply _|]. by intros s.
Qed.

Lemma remove_registry n pid s :
  wf n s →
  let '(r, s') := MM.RemoveProcess pid s in
  match MM.processes s !! pid with
  | Some _ => r = Ok () ∧ MM.processes s' = delete pid (MM.processes s)
  | None => r = Err (ErrProcessNotFound pid) ∧ s' = s
  end.
Proof.
  intros Hs. destruct (wf_domains _ _ Hs) as [Hd _]. unfold MM.RemoveProcess. rewrite run_get_st.
  destruct (MM.processes s !! pid) as [p|] eqn:Hp.
  - assert (pid ∈ dom (MM.pageTables s)) as [pt ->]%elem_of_dom by (rewrite Hd; by apply elem_of_dom).
    unfold mbind at 1, M_bind at 1.
    pose proof (counts_registry _ _ (counts_on_heap (PageTable.GetAllPages pt) s)) as H1.
    destruct (MM.on_heap _ s) as [pages s1]. cbn [fst snd] in *.
    unfold mbind at 1, M_bind at 1.
    pose proof (related_for_each same_registry (λ kp, MM.remove_page pid kp.2) pages (λ kp, remove_page_registry pid kp.2) s1) as H2.
    destruct (for_each _ pages s1) as [[] s2]. cbn [fst snd] in *.
    unfold mbind at 1, M_bind at 1.
    assert (same_registry s2 (MM.cow_remove_process pid s2).2) as H3
      by (unfold MM.cow_remove_process; by destruct (CopyOnWrite.RemoveProcess _ _ _)).
    destruct (MM.cow_remove_process pid s2) as [[] s3]. cbn [fst snd] in *. rewrite run_modify.
    unfold mbind, M_bind, mret, M_ret. split; [done|].
    match goal with |- context [MM.emitEvent ?e ?s] => destruct (emitEvent_tables e s) as (_ & -> & _) end.
    simpl. unfold same_registry in *. by rewrite H3, H2, H1.
  - assert (MM.pageTables s !! pid = None) as ->; [|done].
    apply not_elem_of_dom. rewrite Hd. by apply not_elem_of_dom.
Qed.

Lemma fork_registry n parent child p s :
  wf n s →
  let '(r, s') := MM.ForkProcess parent child p s in
  match MM.processes s !! parent with
  | Some _ => r = Ok () ∧ MM.processes s' = <[child := p]> (MM.processes s)
  | None => r = Err (ErrParentNotFound parent) ∧ s' = s
  end.
Proof.
  intros Hs. destruct (wf_domains _ _ Hs) as [Hd _].
  destruct (MM.processes s !! parent) as [q|] eqn:Hq.
  - assert (parent ∈ dom (MM.pageTables s)) as [pt Hpt]%elem_of_dom by (rewrite Hd; by apply elem_of_dom).
    pose proof (ForkProcess_core parent child p pt s Hpt) as Hf.
    destruct (MM.ForkProcess parent child p s) as [r s'].
    destruct Hf as (-> & l1 & l2 & s1 & e & _ & _ & (Hpr & _) & ->). split; [done|].
    destruct (emitEvent_tables e (MM.count_process s1).2) as (_ & -> & _). exact Hpr.
  - unfold MM.ForkProcess. rewrite run_get_st.
    assert (MM.pageTables s !! parent = None) as ->; [|done].
    apply not_elem_of_dom. rewrite Hd. by apply not_elem_of_dom.
Qed.

Lemma access_fast_registry pid v w : related same_registry (MM.access_fast pid v w).
Proof.
  intros s. destruct (MM.processes s !! pid) as [p|] eqn:Hp.
  - pose proof (access_fast_counts pid v w s p Hp) as Hf.
    destruct (MM.access_fast pid v w s) as [[r|st q] s'].
    + by destruct Hf as (_ & Hf & _).
    + by destruct Hf as (_ & Hf & _).
  - unfold MM.access_fast. unfold mbind at 1, M_bind at 1. pose proof (counts_now s) as (Hn & _).
    destruct (MM.now s) as [t s1]. cbn [fst snd] in *. rewrite run_get_st.
    assert (MM.processes s1 !! pid = None) as -> by by rewrite Hn. exact Hn.
Qed.

Lemma access_locked_registry pid v w start p : related same_registry (MM.access_locked pid v w start p).
Proof.
  unfold MM.access_locked.
  apply related_bind; [apply _|intros s; apply counts_registry, counts_updateWorkingSet|intros _].
  apply related_bind; [apply _|intros s; apply counts_registry, counts_track_if_enabled|intros _].
  apply related_bind; [apply _|by intros s|intros s0].
  destruct (MM.pageTables s0 !! pid); [|by apply related_ret, _].
  apply related_bind; [apply _|intros s; apply counts_registry, counts_get_or_create|intros page].
  destruct (if Page.IsPresent page then _ else _) as [f|e].
  - intros s. by destruct (access_hit_counts pid v w start p page f s) as (? & _).
  - unfold MM.access_fault. apply related_bind_ok; [apply _|apply _| |intros _].
    { intros s. apply counts_registry, counts_handlePageFault. }
    apply related_bind; [apply _|by intros s|intros _].
    apply related_bind; [apply _|by intros s|intros _].
    apply related_bind; [apply _|intros s; apply counts_registry, counts_enforce_if_pff|intros _].
    apply related_bind; [apply _|intros s; apply counts_registry, counts_now|intros stop].
    apply related_bind; [apply _|intros s; apply counts_registry, counts_emitEvent|intros _].
    apply related_bind; [apply _|intros s; apply counts_registry, counts_prefetch_if_enabled|intros _].
    apply related_ret, _.
Qed.

Lemma access_registry pid v w : related same_registry (MM.AccessMemory pid v w).
Proof.
  unfold MM.AccessMemory. apply related_bind; [apply _|apply access_fast_registry|].
  intros [r|st q]; [apply related_ret, _|apply access_locked_registry].
Qed.
End registry.

(** ** One method after the other *)

Section sequential.
Context `{Env : GoEnv}.
Implicit Types (n : Z) (s : PM.t) (pid : string) (v : N) (p : nat).
Import PM.

(** The names in use, and the number of the next one. *)
Definition named (k : N) pid : Prop := ∃ m, pid = pid_of m ∧ (m ≤ k)%N.

Lemma pid_of_inj m k : pid_of m = pid_of k → m = k.
Proof. unfold pid_of. intros H. by apply (inj _) in H; apply (inj pretty) in H. Qed.

Lemma named_le k k' pid : (k ≤ k')%N → named k pid → named k' pid.
Proof. intros Hk (m & -> & Hm). exists m. split; [done|lia]. Qed.

Lemma named_fresh k pid : named k pid → pid ≠ pid_of (k + 1).
Proof. intros (m & -> & Hm) ->%pid_of_inj. lia. Qed.

(** The two managers list the same processes, under drawn names. *)
Record agrees n s : Prop := {
  agrees_wf : wf n (memoryManager s);
  agrees_same : processes s = MM.processes (memoryManager s);
  agrees_named pid : is_Some (processes s !! pid) → named (nextPID s) pid;
}.

Lemma run_on_mm {A B} (m : M MM.t B) (k : B → M PM.t A) s :
  (on_mm m ≫= k) s = let '(b, mm) := m (memoryManager s) in k b (s <| memoryManager := mm |>).
Proof. unfold on_mm, mbind, M_bind. by destruct (m (memoryManager s)). Qed.

Lemma agrees_fresh n s : agrees n s → processes s !! pid_of (nextPID s + 1) = None.
Proof.
  intros Ha. destruct (processes s !! pid_of (nextPID s + 1)) as [p|] eqn:Hp; [|done].
  exfalso. by eapply named_fresh; [apply (agrees_named _ _ Ha); rewrite Hp; eauto|].
Qed.

Lemma agrees_mm n s mm :
  agrees n s → wf n mm → MM.processes mm = MM.processes (memoryManager s) →
  agrees n (s <| memoryManager := mm |>).
Proof. intros [H1 H2 H3] Hw Hp. constructor; simpl; [done|congruence|done]. Qed.

(** A drawn number. *)
Lemma draw_spec s :
  (nextPID s + 1 < 2 ^ 64)%N →
  draw_pid s = (pid_of (nextPID s + 1), s <| nextPID := (nextPID s + 1)%N |>).
Proof. intros Hk. unfold draw_pid. rewrite run_get_st. cbv zeta. rewrite u64_add_small by done. done. Qed.

(** *** Creation *)

Lemma on_process_mm n s p g :
  agrees n s → agrees n (s <| memoryManager := (MM.on_process p g (memoryManager s)).2 |>).
Proof.
  intros Ha. apply agrees_mm; [done| |done]. by apply (keeps_on_process n p g), Ha.
Qed.

Lemma new_process_wf n s pid name priority pages :
  wf n (memoryManager s) →
  let '(p, s') := new_process pid name priority pages s in
  wf n (memoryManager s') ∧ MM.processes (memoryManager s') = MM.processes (memoryManager s) ∧
  processes s' = processes s ∧ nextPID s' = nextPID s ∧
  Process.ID <$> MM.procs (memoryManager s') !! p = Some pid.
Proof.
  intros Hs. unfold new_process, on_mm. unfold mbind at 1, M_bind at 1.
  pose proof (keeps_now n (memoryManager s) Hs) as [Hw _].
  pose proof (counts_now (memoryManager s)) as (Hpr & _).
  destruct (MM.now (memoryManager s)) as [created mm]. cbn [fst snd] in *. rewrite run_get_st, run_modify.
  unfold mret, M_ret. split_and!; [by apply wf_with_procs|done|done|done|].
  simpl. by rewrite list_lookup_middle.
Qed.

Lemma new_process_spec n s pid name priority pages :
  agrees n s →
  let '(p, s') := new_process pid name priority pages s in
  agrees n s' ∧ processes s' = processes s ∧ nextPID s' = nextPID s.
Proof.
  intros [H1 H2 H3]. pose proof (new_process_wf n s pid name priority pages H1) as Hn.
  destruct (new_process pid name priority pages s) as [p s']. destruct Hn as (Hw & Hm & Hp & Hk & _).
  split_and!; [|done|done]. constructor; [done|congruence|]. intros q. rewrite Hp, Hk. apply H3.
Qed.

Lemma create_register_wf n s pid name priority pages :
  wf n (memoryManager s) →
  let '(r, s') := create_register pid name priority pages s in
  wf n (memoryManager s') ∧ processes s' = processes s ∧ nextPID s' = nextPID s ∧
  match MM.processes (memoryManager s) !! pid with
  | None => ∃ p, r = Ok p ∧ MM.processes (memoryManager s') = <[pid := p]> (MM.processes (memoryManager s))
  | Some _ => r = Err (ErrProcessExists pid) ∧ MM.processes (memoryManager s') = MM.processes (memoryManager s)
  end.
Proof.
  intros Hs. unfold create_register. unfold mbind at 1, M_bind at 1.
  pose proof (new_process_wf n s pid name priority pages Hs) as Hnew.
  destruct (new_process pid name priority pages s) as [p s2]. cbn [fst snd].
  destruct Hnew as (Hs2 & Hm2 & Hp2 & Hn2 & Hid). unfold bind_ok. rewrite run_on_mm.
  destruct (MM.procs (memoryManager s2) !! p) as [pr|] eqn:Hp; [|done]. injection Hid as Hid.
  pose proof (create_registry p pr (memoryManager s2) Hp) as Hc.
  pose proof (keeps_CreateProcess n p (memoryManager s2) Hs2) as [Hw _]. rewrite Hid, Hm2 in Hc.
  destruct (MM.CreateProcess p (memoryManager s2)) as [r mm]. cbn [snd] in Hw.
  destruct (MM.processes (memoryManager s) !! pid); destruct Hc as [-> Hc]; unfold mret, M_ret;
    (do 3 (split; [done|])).
  - split; [done|]. simpl. by rewrite Hc.
  - exists p. by split.
Qed.

Lemma agrees_drawn n s : agrees n s → agrees n (s <| nextPID := (nextPID s + 1)%N |>).
Proof.
  intros [H1 H2 H3]. constructor; simpl; [done|done|]. intros q Hq.
  eapply named_le; [|by apply H3]. lia.
Qed.

(** Both maps gain the process whose number was just drawn. *)
Lemma agrees_insert n s s' p :
  agrees n s → wf n (memoryManager s') → nextPID s' = (nextPID s + 1)%N →
  let pid := pid_of (nextPID s + 1) in
  processes s' = <[pid := p]> (processes s) →
  MM.processes (memoryManager s') = <[pid := p]> (processes s) → agrees n s'.
Proof.
  intros Ha Hw Hn pid Hp Hm. constructor; [done|congruence|]. intros q. rewrite Hp, Hn.
  destruct (decide (q = pid)) as [->|Hne]; [by exists (nextPID s + 1)%N|].
  rewrite lookup_insert_ne by done. intros Hq. eapply named_le; [|by apply (agrees_named _ _ Ha)]. lia.
Qed.

Lemma CreateProcess_spec n s name priority pages :
  agrees n s → (nextPID s + 1 < 2 ^ 64)%N →
  let pid := pid_of (nextPID s + 1) in
  let '(r, s') := CreateProcess name priority pages s in
  ∃ p, r = Ok p ∧ agrees n s' ∧ processes s' = <[pid := p]> (processes s) ∧ nextPID s' = (nextPID s + 1)%N.
Proof.
  intros Ha Hk. cbv zeta. unfold CreateProcess. unfold mbind at 1, M_bind at 1.
  rewrite (draw_spec s Hk). cbn [fst snd]. unfold bind_ok. unfold mbind at 1, M_bind at 1.
  pose proof (create_register_wf n _ (pid_of (nextPID s + 1)) name priority pages
    (agrees_wf _ _ (agrees_drawn n s Ha))) as Hc. simpl in Hc.
  rewrite <-(agrees_same _ _ Ha), (agrees_fresh n s Ha) in Hc.
  destruct (create_register _ _ _ _ _) as [r s1]. destruct Hc as (Hw & Hp & Hn & p & -> & Hm). cbn [fst snd].
  unfold publish. rewrite run_modify. unfold mret, M_ret.
  exists p. split_and!; [done| |simpl; by rewrite Hp|done].
  eapply (agrees_insert n s); [done..|simpl; by rewrite Hp|done].
Qed.

(** *** Termination *)

Lemma TerminateProcess_spec n s pid :
  agrees n s →
  let '(r, s') := TerminateProcess pid s in
  agrees n s' ∧ nextPID s' = nextPID s ∧
  match processes s !! pid with
  | Some _ => r = Ok () ∧ processes s' = delete pid (processes s)
  | None => r = Err (ErrProcessNotFound pid) ∧ s' = s
  end.
Proof.
  intros Ha. unfold TerminateProcess, bind_ok. unfold mbind at 1, M_bind at 1.
  unfold terminate_unpublish. rewrite run_get_st. destruct (processes s !! pid) as [p|] eqn:Hp; [|done].
  rewrite run_on_mm.
  pose proof (on_process_mm n s p (Process.SetState ProcessTerminated) Ha) as Ha1.
  destruct (MM.on_process p _ (memoryManager s)) as [[] mm1] eqn:Emm. cbn [snd] in Ha1.
  rewrite run_modify. unfold terminate_cleanup, mret, M_ret. cbn [fst snd]. rewrite run_on_mm.
  change (memoryManager (s <| memoryManager := mm1 |> <| processes ::= delete pid |>)) with mm1.
  pose proof (agrees_wf _ _ Ha1) as Hw1. pose proof (agrees_same _ _ Ha1) as Hs1. simpl in Hw1, Hs1.
  pose proof (remove_registry n pid mm1 Hw1) as Hr.
  pose proof (keeps_RemoveProcess n pid mm1 Hw1) as [Hw2 _].
  rewrite <-Hs1, Hp in Hr. destruct (MM.RemoveProcess pid mm1) as [r mm2]. destruct Hr as [-> Hr]. cbn [snd] in Hw2.
  split_and!; [|done|done|done]. constructor; simpl; [done|by rewrite Hr|].
  intros q [x Hq]. apply lookup_delete_Some in Hq as [_ Hq]. apply (agrees_named _ _ Ha). rewrite Hq. eauto.
Qed.

(** *** Fork *)

Lemma new_child_spec n s childPID parentPID pr :
  agrees n s →
  let '(child, s') := new_child childPID parentPID pr s in
  agrees n s' ∧ processes s' = processes s ∧ nextPID s' = nextPID s.
Proof.
  intros Ha. unfold new_child. unfold mbind at 1, M_bind at 1.
  pose proof (new_process_spec n s childPID (Process.Name pr +:+ "-fork") (Process.Priority pr)
    (Process.VirtualPages pr) Ha) as Hn.
  destruct (new_process _ _ _ _ s) as [child s1]. cbn [fst snd]. destruct Hn as (Ha1 & Hp & Hn).
  rewrite run_on_mm.
  pose proof (on_process_mm n s1 child (λ c : Process.t, c <| Process.ParentID := parentPID |>) Ha1) as Ha2.
  destruct (MM.on_process child _ (memoryManager s1)) as [[] mm]. cbn [snd] in Ha2.
  unfold mret, M_ret. by split_and!.
Qed.

Lemma fork_register_spec n s parentPID parent childPID child :
  wf n (memoryManager s) → is_Some (MM.processes (memoryManager s) !! parentPID) →
  let '(r, s') := fork_register parentPID parent childPID child s in
  r = Ok child ∧ processes s' = processes s ∧ nextPID s' = nextPID s ∧ wf n (memoryManager s') ∧
  MM.processes (memoryManager s') = <[childPID := child]> (MM.processes (memoryManager s)).
Proof.
  intros Hw [q Hq]. unfold fork_register. rewrite run_on_mm.
  pose proof (fork_registry n parentPID childPID child (memoryManager s) Hw) as Hf.
  pose proof (keeps_ForkProcess n parentPID childPID child (memoryManager s) Hw) as [Hw' _].
  rewrite Hq in Hf. destruct (MM.ForkProcess _ _ _ (memoryManager s)) as [r mm]. destruct Hf as [-> Hf].
  cbn [snd] in Hw'. unfold mret, M_ret. by split_and!.
Qed.

Lemma ForkProcess_spec n s parentPID :
  agrees n s → (nextPID s + 1 < 2 ^ 64)%N →
  let pid := pid_of (nextPID s + 1) in
  let '(r, s') := ForkProcess parentPID s in
  agrees n s' ∧
  match processes s !! parentPID with
  | Some _ => ∃ child, r = Ok child ∧ processes s' = <[pid := child]> (processes s) ∧ nextPID s' = (nextPID s + 1)%N
  | None => r = Err (ErrParentNotFound parentPID) ∧ s' = s
  end.
Proof.
  intros Ha Hk. cbv zeta. unfold ForkProcess, bind_ok, fork_lookup. rewrite run_gets.
  destruct (processes s !! parentPID) as [parent|] eqn:Hparent; [|done].
  unfold mbind at 1, M_bind at 1. rewrite (draw_spec s Hk). cbn [fst snd].
  pose proof (agrees_fresh n s Ha) as Hfresh. pose proof (agrees_drawn n s Ha) as Ha1.
  set (pid := pid_of (nextPID s + 1)) in *. unfold mbind at 1, M_bind at 1.
  pose proof (new_child_spec n _ pid parentPID (object parent s) Ha1) as Hc.
  destruct (new_child _ _ _ _) as [child s2]. destruct Hc as (Ha2 & Hp2 & Hn2). cbn [fst snd].
  simpl in Hp2, Hn2. unfold publish. rewrite run_modify, run_on_mm.
  pose proof (on_process_mm n s2 parent (Process.AddChild pid) Ha2) as Ha3.
  change (memoryManager (s2 <| processes ::= <[pid := child]> |>)) with (memoryManager s2).
  destruct (MM.on_process parent _ (memoryManager s2)) as [[] mm]. cbn [snd] in Ha3.
  set (s3 := _ <| memoryManager := mm |>).
  pose proof (agrees_wf _ _ Ha3) as Hw3. pose proof (agrees_same _ _ Ha3) as Hs3. simpl in Hw3, Hs3.
  pose proof (fork_register_spec n s3 parentPID parent pid child Hw3) as Hf.
  change (MM.processes (memoryManager s3)) with (MM.processes mm) in Hf. rewrite <-Hs3, Hp2, Hparent in Hf.
  specialize (Hf ltac:(eauto)).
  destruct (fork_register _ _ _ _ s3) as [r s4]. destruct Hf as (-> & Hp4 & Hn4 & Hw4 & Hm4).
  change (processes s3) with (<[pid := child]> (processes s2)) in Hp4. rewrite Hp2 in Hp4.
  change (nextPID s3) with (nextPID s2) in Hn4. rewrite Hn2 in Hn4.
  split; [|by exists child]. by eapply (agrees_insert n s).
Qed.

(** *** Accesses and reset *)

Lemma AccessMemory_spec n s pid v w :
  0 < n → agrees n s →
  let '(r, s') := AccessMemory pid v w s in
  agrees n s' ∧ processes s' = processes s ∧ nextPID s' = nextPID s ∧
  match processes s !! pid with
  | Some _ => r = Ok ()
  | None => r = Err (ErrProcessNotFound pid) ∧ s' = s
  end.
Proof.
  intros Hn Ha. unfold AccessMemory, bind_ok, access_lookup. unfold mbind at 1, M_bind at 1.
  rewrite run_get_st. destruct (processes s !! pid) as [p|] eqn:Hp; [|done].
  rewrite run_on_mm. pose proof (on_process_mm n s p (Process.cas_state ProcessReady ProcessRunning) Ha) as Ha1.
  destruct (MM.on_process p _ (memoryManager s)) as [[] mm1]. cbn [snd] in Ha1.
  unfold mret, M_ret. cbn [fst snd]. unfold on_mm.
  change (memoryManager (s <| memoryManager := mm1 |>)) with mm1.
  pose proof (agrees_wf _ _ Ha1) as Hw1. pose proof (agrees_same _ _ Ha1) as Hs1. simpl in Hw1, Hs1.
  pose proof (AccessMemory_counted n pid v w mm1 Hn Hw1) as Hacc. rewrite <-Hs1, Hp in Hacc.
  specialize (Hacc ltac:(eauto)). pose proof (access_registry pid v w mm1) as Hreg.
  destruct (MM.AccessMemory pid v w mm1) as [r mm2]. cbn [fst snd] in *. destruct Hacc as (-> & _ & Hw2).
  split_and!; [|done|done|done]. by apply (agrees_mm n _ mm2) in Ha1.
Qed.

Lemma reset_remove_spec n pid s :
  wf n (memoryManager s) →
  let s' := (reset_remove pid s).2 in
  wf n (memoryManager s') ∧ MM.processes (memoryManager s') = delete pid (MM.processes (memoryManager s)).
Proof.
  intros Hs. cbv zeta. unfold reset_remove. rewrite run_on_mm.
  pose proof (remove_registry n pid (memoryManager s) Hs) as Hr.
  pose proof (keeps_RemoveProcess n pid (memoryManager s) Hs) as [Hw _].
  destruct (MM.RemoveProcess pid (memoryManager s)) as [r mm]. cbn [snd] in Hw. split; [done|]. simpl.
  destruct (MM.processes (memoryManager s) !! pid) eqn:Hp; destruct Hr as [_ Hr]; [done|].
  rewrite Hr. by rewrite delete_id.
Qed.

Lemma reset_removes n pids s :
  wf n (memoryManager s) →
  let s' := (for_each reset_remove pids s).2 in
  wf n (memoryManager s') ∧
  ∀ pid, MM.processes (memoryManager s') !! pid =
    if decide (pid ∈ pids) then None else MM.processes (memoryManager s) !! pid.
Proof.
  cbv zeta. revert s. induction pids as [|q pids IH]; intros s Hs; [done|].
  cbn [for_each]. unfold mbind, M_bind. cbn [fst snd].
  destruct (reset_remove_spec n q s Hs) as [Hs1 Hp1]. destruct (IH _ Hs1) as [Hs2 Hp2].
  split; [done|]. intros pid. rewrite Hp2, Hp1. destruct (decide (pid ∈ pids)).
  - by rewrite decide_True by set_solver.
  - destruct (decide (pid = q)) as [->|Hne].
    + by rewrite lookup_delete_eq, decide_True by set_solver.
    + by rewrite lookup_delete_ne, decide_False by set_solver.
Qed.

Lemma Reset_spec n s :
  agrees n s → let s' := (Reset s).2 in agrees n s' ∧ processes s' = ∅ ∧ nextPID s' = 1%N.
Proof.
  intros Ha. cbv zeta. unfold Reset. rewrite run_get_st, run_on_mm. unfold MM.on_heap, range_map.
  set (l := shuffle _ _). set (mm1 := (memoryManager s) <| MM.hp := _ |>).
  assert (wf n mm1) as Hw1
    by apply (keeps_on_heap n _ (related_range_map (processes s)) (memoryManager s) (agrees_wf _ _ Ha)).
  unfold mbind, M_bind. cbn [fst snd].
  assert (wf n (memoryManager (s <| memoryManager := mm1 |>))) as Hw1' by exact Hw1.
  destruct (reset_removes n l.*1 (s <| memoryManager := mm1 |>) Hw1') as [Hw2 Hp2].
  split_and!; [|done|done]. constructor; [exact Hw2| |].
  - simpl. symmetry. apply map_empty. intros pid. rewrite Hp2. destruct (decide _) as [|Hnot]; [done|].
    change (MM.processes (memoryManager s) !! pid = None). rewrite <-(agrees_same _ _ Ha).
    destruct (processes s !! pid) as [p|] eqn:Hp; [|done]. exfalso. apply Hnot.
    apply list_elem_of_fmap. exists (pid, p). split; [done|]. unfold l. rewrite shuffle_perm.
    by apply elem_of_map_to_list.
  - intros pid [x Hx]. simpl in Hx. by rewrite lookup_empty in Hx.
Qed.

Lemma agrees_new n mm : wf n mm → MM.processes mm = ∅ → agrees n (NewProcessManager mm).
Proof.
  intros Hw Hp. constructor; [done|done|]. intros pid [x Hx]. simpl in Hx. by rewrite lookup_empty in Hx.
Qed.

(** *** Runs *)

Inductive pm_call : Type :=
| PMCreate (name : string) (priority : Z) (virtualPages : N)
| PMTerminate (pid : string)
| PMFork (parentPID : string)
| PMAccess (pid : string) (v : N) (w : bool)
| PMReset.

Definition pm_run (c : pm_call) : M PM.t unit :=
  match c with
  | PMCreate name priority pages => _ ← CreateProcess name priority pages; mret ()
  | PMTerminate pid => _ ← TerminateProcess pid; mret ()
  | PMFork parentPID => _ ← ForkProcess parentPID; mret ()
  | PMAccess pid v w => _ ← AccessMemory pid v w; mret ()
  | PMReset => Reset
  end.
Definition pm_calls (cs : list pm_call) (s : PM.t) : PM.t := (for_each pm_run cs s).2.

(** Each call draws at most one number. *)
Lemma pm_run_spec n c s :
  0 < n → agrees n s → (nextPID s + 1 < 2 ^ 64)%N →
  agrees n (pm_run c s).2 ∧ (nextPID (pm_run c s).2 ≤ N.max 1 (nextPID s + 1))%N.
Proof.
  intros Hn Ha Hk. destruct c; cbn [pm_run]; unfold mbind, M_bind; cbn [snd].
  - pose proof (CreateProcess_spec n s name priority virtualPages Ha Hk) as Hc.
    destruct (CreateProcess _ _ _ s) as [r s']. destruct Hc as (p & _ & ? & _ & Hx). cbn [snd mret M_ret]. split; [done|lia].
  - pose proof (TerminateProcess_spec n s pid Ha) as Hc.
    destruct (TerminateProcess _ s) as [r s']. destruct Hc as (? & Hx & _). cbn [snd mret M_ret]. split; [done|lia].
  - pose proof (ForkProcess_spec n s parentPID Ha Hk) as Hc.
    destruct (ForkProcess _ s) as [r s']. destruct Hc as (? & Hc). cbn [snd mret M_ret]. split; [done|].
    destruct (processes s !! parentPID); [destruct Hc as (? & _ & _ & Hx)|destruct Hc as [_ ->]]; lia.
  - pose proof (AccessMemory_spec n s pid v w Hn Ha) as Hc.
    destruct (AccessMemory _ _ _ s) as [r s']. destruct Hc as (? & _ & Hx & _). cbn [snd mret M_ret]. split; [done|lia].
  - destruct (Reset_spec n s Ha) as (? & _ & Hx). split; [done|lia].
Qed.

Lemma pm_calls_spec n cs s :
  0 < n → agrees n s → (N.max 1 (nextPID s) + N.of_nat (length cs) < 2 ^ 64)%N →
  agrees n (pm_calls cs s) ∧
  (nextPID (pm_calls cs s) ≤ N.max 1 (nextPID s) + N.of_nat (length cs))%N.
Proof.
  intros Hn. revert s. induction cs as [|c cs IH]; intros s Ha Hk.
  - split; [done|]. cbn. lia.
  - cbn [length] in Hk. rewrite Nat2N.inj_succ in *.
    destruct (pm_run_spec n c s Hn Ha ltac:(lia)) as [Ha1 Hk1].
    unfold pm_calls in *. cbn [for_each length]. unfold mbind, M_bind. cbn [fst snd].
    destruct (IH _ Ha1 ltac:(lia)) as [Ha2 Hk2]. split; [done|]. rewrite Nat2N.inj_succ. lia.
Qed.
End sequential.

(** ** Goroutines *)

(** What a goroutine still has to do in its call: the stretches under one lock. *)
Inductive task : Type :=
| TCreate (name : string) (priority : Z) (virtualPages : N)
| TRegister (pid name : string) (priority : Z) (virtualPages : N)
| TPublish (pid : string) (p : nat)
| TTerminate (pid : string)
| TCleanup (pid : string)
| TAccess (pid : string) (v : N) (w : bool)
| TFast (pid : string) (v : N) (w : bool)
| TLocked (pid : string) (v : N) (w : bool) (start : Z) (p : nat)
| TFork (parentPID : string)
| TForkChild (parentPID : string) (parent : nat) (pr : Process.t)
| TForkRegister (parentPID : string) (parent : nat) (childPID : string) (child : nat).

Section goroutines.
Context `{Env : GoEnv}.
Implicit Types (n : Z) (s : PM.t) (pid : string) (v : N) (p : nat) (t : task) (ts : list task).
Import PM.

(** One stretch, and what the goroutine does next. *)
Definition task_step t : M PM.t (list task) :=
  match t with
  | TCreate name priority pages => pid ← draw_pid; mret [TRegister pid name priority pages]
  | TRegister pid name priority pages =>
      r ← create_register pid name priority pages;
      mret (match r with Ok p => [TPublish pid p] | Err _ => [] end)
  | TPublish pid p => publish pid p ;; mret []
  | TTerminate pid =>
      r ← terminate_unpublish pid; mret (match r with Ok _ => [TCleanup pid] | Err _ => [] end)
  | TCleanup pid => _ ← terminate_cleanup pid; mret []
  | TAccess pid v w => r ← access_lookup pid; mret (match r with Ok _ => [TFast pid v w] | Err _ => [] end)
  | TFast pid v w =>
      r ← on_mm (MM.access_fast pid v w);
      mret (match r with MM.FastContinue start p => [TLocked pid v w start p] | MM.FastDone _ => [] end)
  | TLocked pid v w start p => _ ← on_mm (MM.access_locked pid v w start p); mret []
  | TFork parentPID =>
      r ← fork_lookup parentPID;
      mret (match r with Ok (parent, pr) => [TForkChild parentPID parent pr] | Err _ => [] end)
  | TForkChild parentPID parent pr =>
      childPID ← draw_pid;
      child ← new_child childPID parentPID pr;
      publish childPID child ;;
      mret [TForkRegister parentPID parent childPID child]
  | TForkRegister parentPID parent childPID child =>
      on_mm (MM.on_process parent (Process.AddChild childPID)) ;;
      _ ← fork_register parentPID parent childPID child; mret []
  end.

(** The scheduler lets the [i]-th goroutine do its next stretch. *)
Definition pool_step (i : nat) (c : list task * PM.t) : list task * PM.t :=
  match c.1 !! i with
  | Some t => let '(ts, s) := task_step t c.2 in (take i c.1 ++ ts ++ drop (S i) c.1, s)
  | None => c
  end.
Definition schedule (picks : list nat) (c : list task * PM.t) : list task * PM.t :=
  foldl (λ c i, pool_step i c) c picks.

(** The process a goroutine is creating or tearing down. *)
Definition stage t : option string :=
  match t with
  | TRegister pid _ _ _ | TPublish pid _ | TCleanup pid => Some pid
  | _ => None
  end.
Definition held ts : list string := omap stage ts.
Definition forking t : bool :=
  match t with TFork _ | TForkChild _ _ _ | TForkRegister _ _ _ _ => true | _ => false end.

Record safe n (c : list task * PM.t) : Prop := {
  safe_wf : wf n (memoryManager c.2);
  safe_visible pid : is_Some (processes c.2 !! pid) →
    is_Some (MM.processes (memoryManager c.2) !! pid) ∧ pid ∉ held c.1;
  safe_held : NoDup (held c.1);
  safe_publish pid p : TPublish pid p ∈ c.1 → is_Some (MM.processes (memoryManager c.2) !! pid);
  safe_named pid : pid ∈ held c.1 ∨ is_Some (processes c.2 !! pid) → named (nextPID c.2) pid;
  safe_forks t : t ∈ c.1 → forking t = false;
}.

Lemma safe_perm n ts ts' s : ts ≡ₚ ts' → safe n (ts, s) → safe n (ts', s).
Proof.
  intros Hp [H1 H2 H3 H4 H5 H6]. assert (held ts ≡ₚ held ts') as Hh by (unfold held; by rewrite Hp).
  constructor; cbn [fst snd] in *; [done|..].
  - intros pid. rewrite <-Hh. apply H2.
  - by rewrite <-Hh.
  - intros pid p. rewrite <-Hp. apply H4.
  - intros pid. rewrite <-Hh. apply H5.
  - intros t. rewrite <-Hp. apply H6.
Qed.

(** A stretch that leaves both registries alone. *)
Lemma safe_same n t ts ts' s s' :
  safe n (t :: ts, s) → wf n (memoryManager s') → processes s' = processes s → nextPID s' = nextPID s →
  MM.processes (memoryManager s') = MM.processes (memoryManager s) →
  held ts' = [] → (∀ u, u ∈ ts' → forking u = false) → (∀ pid p, TPublish pid p ∉ ts') →
  safe n (ts' ++ ts, s').
Proof.
  intros [H1 H2 H3 H4 H5 H6] Hw Hp Hn Hm Hh Hf Hnp. cbn [fst snd] in *.
  assert (held (ts' ++ ts) = held ts) as Hh' by (unfold held in *; by rewrite omap_app, Hh).
  assert (∀ pid, pid ∈ held ts → pid ∈ held (t :: ts)) as Hsub.
  { intros pid. unfold held. cbn [omap list_omap]. destruct (stage t); set_solver. }
  constructor; cbn [fst snd]; [done|..]; rewrite ?Hh', ?Hp, ?Hn, ?Hm.
  - intros pid Hpid. destruct (H2 pid Hpid) as [? Hnot]. split; [done|]. intros Hin. by apply Hnot, Hsub.
  - unfold held in *. cbn [omap list_omap] in H3. destruct (stage t); [by apply NoDup_cons in H3 as [_ ?]|done].
  - intros pid p [Hin|Hin]%elem_of_app; [by destruct (Hnp pid p)|]. apply (H4 pid p). set_solver.
  - intros pid [Hin|Hin]; apply H5; [left; by apply Hsub|by right].
  - intros u [Hin|Hin]%elem_of_app; [by apply Hf|]. apply H6. set_solver.
Qed.

(** Each stretch keeps [safe]. *)
Lemma safe_TCreate n name priority pages ts s :
  (nextPID s + 1 < 2 ^ 64)%N → safe n (TCreate name priority pages :: ts, s) →
  let '(ts', s') := task_step (TCreate name priority pages) s in safe n (ts' ++ ts, s').
Proof.
  intros Hk [H1 H2 H3 H4 H5 H6]. cbn [fst snd task_step] in *. unfold mbind, M_bind. rewrite draw_spec by done.
  cbn [fst snd mret M_ret app].
  assert (∀ q, q ∈ held ts ∨ is_Some (processes s !! q) → q ≠ pid_of (nextPID s + 1)) as Hfresh
    by (intros q Hq; apply named_fresh, H5, Hq).
  constructor; cbn [fst snd]; [done|..].
  - intros q Hq. destruct (H2 q Hq) as [? Hnot]. split; [done|].
    intros [->|Hin]%elem_of_cons; [by apply (Hfresh (pid_of (nextPID s + 1))); [right|]|done].
  - constructor; [|done]. intros Hin. by apply (Hfresh (pid_of (nextPID s + 1))); [left|].
  - intros q p [|Hin]%elem_of_cons; [done|]. apply (H4 q p). set_solver.
  - intros q [[->|Hin]%elem_of_cons|Hin]; [by exists (nextPID s + 1)%N|..];
      (eapply named_le; [|apply H5; eauto]; simpl; lia).
  - intros u [->|Hin]%elem_of_cons; [done|]. apply H6. set_solver.
Qed.

Lemma safe_TRegister n pid name priority pages ts s :
  safe n (TRegister pid name priority pages :: ts, s) →
  let '(ts', s') := task_step (TRegister pid name priority pages) s in safe n (ts' ++ ts, s').
Proof.
  intros Hs. pose proof Hs as [H1 H2 H3 H4 H5 H6]. cbn [fst snd task_step] in *. unfold mbind, M_bind.
  pose proof (create_register_wf n s pid name priority pages H1) as Hc.
  destruct (create_register pid name priority pages s) as [r s']. destruct Hc as (Hw & Hp & Hn & Hr).
  cbn [fst snd mret M_ret].
  destruct (MM.processes (memoryManager s) !! pid) as [q|].
  { destruct Hr as [-> Hm]. apply (safe_same n _ ts [] s s' Hs); [done..|set_solver|set_solver]. }
  destruct Hr as (p & -> & Hm). cbn [app].
  assert (∀ q, is_Some (MM.processes (memoryManager s) !! q) → is_Some (MM.processes (memoryManager s') !! q)) as Hmono.
  { intros q Hq. rewrite Hm. destruct (decide (q = pid)) as [->|]; [rewrite lookup_insert_eq; eauto|].
    by rewrite lookup_insert_ne. }
  constructor; cbn [fst snd]; [done|..]; rewrite ?Hp, ?Hn.
  - intros q Hq. destruct (H2 q Hq). split; [by apply Hmono|done].
  - done.
  - intros q p' [[= -> ->]|Hin]%elem_of_cons; [rewrite Hm, lookup_insert_eq; eauto|].
    apply Hmono, (H4 q p'). set_solver.
  - done.
  - intros u [->|Hin]%elem_of_cons; [done|]. apply H6. set_solver.
Qed.

Lemma safe_TPublish n pid p ts s :
  safe n (TPublish pid p :: ts, s) →
  let '(ts', s') := task_step (TPublish pid p) s in safe n (ts' ++ ts, s').
Proof.
  intros [H1 H2 H3 H4 H5 H6]. cbn [fst snd task_step] in *. unfold publish. rewrite run_modify.
  unfold mret, M_ret. cbn [app]. apply NoDup_cons in H3 as [Hnot H3].
  constructor; cbn [fst snd]; [done|..]; simpl.
  - intros q Hq. destruct (decide (q = pid)) as [->|Hne].
    + split; [|done]. apply (H4 pid p). set_solver.
    + rewrite lookup_insert_ne in Hq by done. destruct (H2 q Hq) as [? Hn]. split; [done|]. set_solver.
  - done.
  - intros q p' Hin. apply (H4 q p'). set_solver.
  - intros q [Hin|Hq]; [apply H5; left; set_solver|]. apply H5. destruct (decide (q = pid)) as [->|Hne].
    + left. set_solver.
    + rewrite lookup_insert_ne in Hq by done. by right.
  - intros u Hin. apply H6. set_solver.
Qed.

Lemma safe_TTerminate n pid ts s :
  safe n (TTerminate pid :: ts, s) →
  let '(ts', s') := task_step (TTerminate pid) s in safe n (ts' ++ ts, s').
Proof.
  intros Hs. pose proof Hs as [H1 H2 H3 H4 H5 H6]. cbn [fst snd task_step] in *. unfold mbind at 1, M_bind at 1.
  unfold terminate_unpublish. rewrite run_get_st. destruct (processes s !! pid) as [p|] eqn:Hp.
  2:{ cbn [fst snd mret M_ret]. apply (safe_same n _ ts [] s s Hs); [done..|set_solver|set_solver]. }
  rewrite run_on_mm. pose proof (keeps_on_process n p (Process.SetState ProcessTerminated) _ H1) as [Hw _].
  assert (MM.processes (MM.on_process p (Process.SetState ProcessTerminated) (memoryManager s)).2 =
    MM.processes (memoryManager s)) as Hm by done.
  destruct (MM.on_process p _ (memoryManager s)) as [[] mm]. cbn [snd] in Hw, Hm. rewrite run_modify.
  cbn [fst snd mret M_ret app]. destruct (H2 pid ltac:(rewrite Hp; eauto)) as [Hin Hnot].
  constructor; cbn [fst snd]; simpl; rewrite ?Hm; [done|..].
  - intros q [x Hq]. apply lookup_delete_Some in Hq as [Hne Hq]. destruct (H2 q ltac:(rewrite Hq; eauto)).
    split; [done|]. set_solver.
  - by constructor.
  - intros q p' Hq. apply (H4 q p'). set_solver.
  - intros q [[->|Hq]%elem_of_cons|[x Hq]].
    + apply H5. right. rewrite Hp. eauto.
    + apply H5. by left.
    + apply lookup_delete_Some in Hq as [_ Hq]. apply H5. right. rewrite Hq. eauto.
  - intros u [->|Hq]%elem_of_cons; [done|]. apply H6. set_solver.
Qed.

Lemma safe_TCleanup n pid ts s :
  safe n (TCleanup pid :: ts, s) →
  let '(ts', s') := task_step (TCleanup pid) s in safe n (ts' ++ ts, s').
Proof.
  intros [H1 H2 H3 H4 H5 H6]. cbn [fst snd task_step] in *. unfold mbind at 1, M_bind at 1.
  unfold terminate_cleanup. rewrite run_on_mm.
  pose proof (remove_registry n pid (memoryManager s) H1) as Hr.
  pose proof (keeps_RemoveProcess n pid (memoryManager s) H1) as [Hw _].
  destruct (MM.RemoveProcess pid (memoryManager s)) as [r mm]. cbn [fst snd mret M_ret app] in *.
  assert (∀ q, q ≠ pid → MM.processes mm !! q = MM.processes (memoryManager s) !! q) as Hm.
  { intros q Hq. destruct (MM.processes (memoryManager s) !! pid); destruct Hr as [_ ->]; [|done].
    by rewrite lookup_delete_ne. }
  apply NoDup_cons in H3 as [Hnot H3].
  constructor; cbn [fst snd]; simpl; [done|..].
  - intros q Hq. destruct (H2 q Hq) as [Hin Hn]. rewrite Hm by set_solver. split; [done|set_solver].
  - done.
  - intros q p Hin. assert (q ∈ held ts) as Hq.
    { unfold held. apply list_elem_of_omap. by exists (TPublish q p). }
    rewrite Hm by (intros ->; done). apply (H4 q p). set_solver.
  - intros q [Hq|Hq]; apply H5; [left; set_solver|by right].
  - intros u Hin. apply H6. set_solver.
Qed.

Lemma safe_access n t ts s :
  match t with TAccess _ _ _ | TFast _ _ _ | TLocked _ _ _ _ _ => True | _ => False end →
  safe n (t :: ts, s) → let '(ts', s') := task_step t s in safe n (ts' ++ ts, s').
Proof.
  intros Ht Hs. pose proof (safe_wf _ _ Hs) as Hw. cbn [fst snd] in Hw.
  destruct t; try done; cbn [task_step]; unfold mbind at 1, M_bind at 1.
  - unfold access_lookup. rewrite run_get_st. destruct (processes s !! pid) as [p|].
    + rewrite run_on_mm. pose proof (keeps_on_process n p (Process.cas_state ProcessReady ProcessRunning) _ Hw) as [Hw' _].
      assert (MM.processes (MM.on_process p (Process.cas_state ProcessReady ProcessRunning) (memoryManager s)).2 =
        MM.processes (memoryManager s)) as Hm by done.
      destruct (MM.on_process p _ (memoryManager s)) as [[] mm]. cbn [fst snd mret M_ret] in *.
      apply (safe_same n _ ts [TFast pid v w] s _ Hs); try done; set_solver.
    + cbn [fst snd mret M_ret]. apply (safe_same n _ ts [] s s Hs); [done..|set_solver|set_solver].
  - unfold on_mm. pose proof (keeps_access_fast n pid v w _ Hw) as [Hw' _].
    pose proof (access_fast_registry pid v w (memoryManager s)) as Hm.
    destruct (MM.access_fast pid v w (memoryManager s)) as [[r|start p] mm]; cbn [fst snd mret M_ret] in *.
    + apply (safe_same n _ ts [] s _ Hs); [done..|set_solver|set_solver].
    + apply (safe_same n _ ts [TLocked pid v w start p] s _ Hs); try done; set_solver.
  - unfold on_mm. pose proof (keeps_access_locked n pid v w start p _ Hw) as [Hw' _].
    pose proof (access_locked_registry pid v w start p (memoryManager s)) as Hm.
    destruct (MM.access_locked pid v w start p (memoryManager s)) as [r mm]; cbn [fst snd mret M_ret] in *.
    apply (safe_same n _ ts [] s _ Hs); [done..|set_solver|set_solver].
Qed.


(** A stretch draws at most one number. *)
Definition same_next s s' : Prop := nextPID s' = nextPID s.
#[local] Instance same_next_preorder : PreOrder same_next.
Proof. split; [done|]. unfold same_next. intros s1 s2 s3. congruence. Qed.

Lemma same_next_on_mm {A} (m : M MM.t A) : related same_next (on_mm m).
Proof. intros s. unfold on_mm. by destruct (m (memoryManager s)). Qed.
Lemma same_next_publish pid p : related same_next (publish pid p).
Proof. by intros s. Qed.
Lemma same_next_unpublish pid : related same_next (terminate_unpublish pid).
Proof.
  unfold terminate_unpublish. apply related_bind; [apply _|by intros s|intros s].
  destruct (processes s !! pid); [|apply related_ret, _].
  apply related_bind; [apply _|apply same_next_on_mm|intros _].
  apply related_bind; [apply _|by intros s'|intros _; apply related_ret, _].
Qed.
Lemma same_next_lookup pid : related same_next (access_lookup pid).
Proof.
  unfold access_lookup. apply related_bind; [apply _|by intros s|intros s].
  destruct (processes s !! pid); [|apply related_ret, _].
  apply related_bind; [apply _|apply same_next_on_mm|intros _; apply related_ret, _].
Qed.
Lemma same_next_create_register pid name priority pages : related same_next (create_register pid name priority pages).
Proof.
  unfold create_register. apply related_bind; [apply _|apply same_next_on_mm|intros p].
  apply related_bind_ok; [apply _..|apply same_next_on_mm|intros _; apply related_ret, _].
Qed.

Lemma task_step_draws t s :
  forking t = false → (nextPID s + 1 < 2 ^ 64)%N → (nextPID (task_step t s).2 ≤ nextPID s + 1)%N.
Proof.
  intros Ht Hk.
  assert (∀ m : M PM.t (list task), related same_next m → (nextPID (m s).2 ≤ nextPID s + 1)%N) as Hsame.
  { intros m Hm. specialize (Hm s). unfold same_next in Hm. lia. }
  destruct t; try done; cbn [task_step].
  1: { unfold mbind, M_bind. rewrite draw_spec by done. cbn. lia. }
  all: apply Hsame, related_bind; [apply _| |intros ?; apply related_ret, _].
  - apply same_next_create_register.
  - apply same_next_publish.
  - apply same_next_unpublish.
  - apply same_next_on_mm.
  - apply same_next_lookup.
  - apply same_next_on_mm.
  - apply same_next_on_mm.
Qed.

Lemma safe_step n i c :
  safe n c → (nextPID c.2 + 1 < 2 ^ 64)%N →
  safe n (pool_step i c) ∧ (nextPID (pool_step i c).2 ≤ nextPID c.2 + 1)%N.
Proof.
  destruct c as [ts s]. unfold pool_step. cbn [fst snd]. intros Hs Hk.
  destruct (ts !! i) as [t|] eqn:Ht; [|split; [done|cbn; lia]].
  assert (ts ≡ₚ t :: take i ts ++ drop (S i) ts) as Hperm.
  { rewrite <-(take_drop_middle ts i t Ht) at 1. by rewrite Permutation_middle. }
  pose proof (safe_perm _ _ _ _ Hperm Hs) as Hs'.
  pose proof (safe_forks _ _ Hs' t ltac:(set_solver)) as Hf.
  pose proof (task_step_draws t s Hf Hk) as Hd.
  assert (let '(ts', s') := task_step t s in safe n (ts' ++ take i ts ++ drop (S i) ts, s')) as Hstep.
  { destruct t; try done.
    - by apply safe_TCreate.
    - by apply safe_TRegister.
    - by apply safe_TPublish.
    - by apply safe_TTerminate.
    - by apply safe_TCleanup.
    - by apply safe_access.
    - by apply safe_access.
    - by apply safe_access. }
  destruct (task_step t s) as [ts' s']. cbn [fst snd] in *. split; [|done].
  eapply safe_perm; [|exact Hstep]. rewrite !(assoc_L (++)). apply Permutation_app_tail, Permutation_app_comm.
Qed.

Lemma safe_schedule n picks c :
  safe n c → (nextPID c.2 + N.of_nat (length picks) < 2 ^ 64)%N → safe n (schedule picks c).
Proof.
  revert c. induction picks as [|i picks IH]; intros c Hs Hk; [done|].
  cbn [length] in Hk. rewrite Nat2N.inj_succ in Hk. unfold schedule in *. cbn [foldl].
  destruct (safe_step n i c Hs ltac:(lia)) as [Hs1 Hk1]. apply IH; [done|lia].
Qed.

(** Goroutines that are about to start a call other than a fork. *)
Definition starting t : bool :=
  match t with TCreate _ _ _ | TTerminate _ | TAccess _ _ _ => true | _ => false end.

Lemma safe_start n ts mm :
  wf n mm → forallb starting ts → safe n (ts, NewProcessManager mm).
Proof.
  intros Hw Hts. assert (∀ t, t ∈ ts → starting t = true) as Hall.
  { intros t Ht. rewrite forallb_True, Forall_forall in Hts. specialize (Hts t Ht). by destruct (starting t). }
  assert (held ts = []) as Hh.
  { unfold held. clear Hts. induction ts as [|t ts IH]; [done|]. cbn [omap list_omap].
    specialize (Hall t ltac:(set_solver)) as Ht. destruct t; try done; apply IH; intros; apply Hall; set_solver. }
  constructor; cbn [fst snd]; rewrite ?Hh; [done|..].
  - intros pid [x Hx]. simpl in Hx. by rewrite lookup_empty in Hx.
  - constructor.
  - intros pid p Hin. by specialize (Hall _ Hin).
  - intros pid [Hin|[x Hx]]; [set_solver|]. simpl in Hx. by rewrite lookup_empty in Hx.
  - intros t Ht. specialize (Hall _ Ht). by destruct t.
Qed.
End goroutines.

(** ** The properties *)

Lemma remove_first_last (x : string) (l : list string) : x ∉ l → Process.remove_first x (l ++ [x]) = l.
Proof.
  induction l as [|y l IH]; intros Hnot; simpl.
  - by rewrite decide_True.
  - rewrite decide_False by set_solver. by rewrite IH by set_solver.
Qed.

Lemma RemoveChild_AddChild (childID : string) (pr : Process.t) :
  childID ∉ Process.Children pr → Process.RemoveChild childID (Process.AddChild childID pr) = pr.
Proof. intros Hnot. destruct pr; simpl in *. unfold Process.RemoveChild; simpl. f_equal. by apply remove_first_last. Qed.

Lemma list_alter_same {A} (g : A → A) (i : nat) (l : list A) :
  (∀ x, l !! i = Some x → g x = x) → alter g i l = l.
Proof.
  intros Hg. apply list_eq. intros j. rewrite list_lookup_alter. destruct (decide (i = j)) as [->|]; [|done].
  destruct (l !! j) as [x|] eqn:Hx; [|done]. simpl. by rewrite Hg.
Qed.

Section properties.
Context `{Env : GoEnv}.
Implicit Types (n : Z) (pid : string) (v : N).
Import PM.

(** A new process manager over a new memory manager, after some calls. *)
Definition pm_after n tlbSize ty t0 (cs : list pm_call) : PM.t :=
  pm_calls cs (NewProcessManager (MM.NewMemoryManager n tlbSize ty t0)).

Lemma new_manager_empty n tlbSize ty t0 : MM.processes (MM.NewMemoryManager n tlbSize ty t0) = ∅.
Proof.
  unfold MM.NewMemoryManager. destruct (FrameTable.NewFrameTable _ _) as [ft h].
  by destruct (time_now h) as [start h'].
Qed.

(** C12: After any calls (fewer than the process counter can count) the two managers
    list the same processes; creation then always succeeds, under a name that is
    not in use; fork, termination and access succeed on a listed process and
    otherwise return the code's error and change nothing. *)
Theorem process_calls_outcomes n tlbSize ty t0 cs :
  let s := pm_after n tlbSize ty t0 cs in
  let fresh := pid_of (nextPID s + 1) in
  0 < n < 2 ^ 30 → (N.of_nat (length cs) < 2 ^ 64 - 2)%N →
  processes s = MM.processes (memoryManager s) ∧
  (∀ name priority pages, let '(r, s') := CreateProcess name priority pages s in
     processes s !! fresh = None ∧ ∃ p, r = Ok p ∧ processes s' = <[fresh := p]> (processes s)) ∧
  (∀ parent, let '(r, s') := ForkProcess parent s in
     match processes s !! parent with
     | Some _ => ∃ child, r = Ok child ∧ processes s' = <[fresh := child]> (processes s)
     | None => r = Err (ErrParentNotFound parent) ∧ s' = s
     end) ∧
  (∀ pid, let '(r, s') := TerminateProcess pid s in
     match processes s !! pid with
     | Some _ => r = Ok () ∧ processes s' = delete pid (processes s)
     | None => r = Err (ErrProcessNotFound pid) ∧ s' = s
     end) ∧
  (∀ pid v w, let '(r, s') := AccessMemory pid v w s in
     match processes s !! pid with
     | Some _ => r = Ok ()
     | None => r = Err (ErrProcessNotFound pid) ∧ s' = s
     end).
Proof.
  intros s fresh Hn Hk.
  destruct (pm_calls_spec n cs (NewProcessManager (MM.NewMemoryManager n tlbSize ty t0))) as [Ha Hnext];
    [lia|apply agrees_new; [apply wf_NewMemoryManager; lia|apply new_manager_empty]|simpl; lia|].
  fold (pm_after n tlbSize ty t0 cs) in Ha, Hnext. fold s in Ha, Hnext. simpl in Hnext.
  assert (nextPID s + 1 < 2 ^ 64)%N as Hk' by lia.
  split_and!; [apply Ha|..].
  - intros name priority pages. pose proof (CreateProcess_spec n s name priority pages Ha Hk') as Hc.
    destruct (CreateProcess _ _ _ s) as [r s']. destruct Hc as (p & -> & _ & Hp & _).
    split; [by eapply agrees_fresh|]. by exists p.
  - intros parent. pose proof (ForkProcess_spec n s parent Ha Hk') as Hc.
    destruct (ForkProcess parent s) as [r s']. destruct Hc as [_ Hc].
    destruct (processes s !! parent); [|done]. destruct Hc as (child & ? & ? & _). by exists child.
  - intros pid. pose proof (TerminateProcess_spec n s pid Ha) as Hc.
    destruct (TerminateProcess pid s) as [r s']. apply Hc.
  - intros pid v w. pose proof (AccessMemory_spec n s pid v w (proj1 Hn) Ha) as Hc.
    destruct (AccessMemory pid v w s) as [r s']. apply Hc.
Qed.

(** C11: However the scheduler interleaves goroutines that create, terminate and
    access processes (but do not fork), a process that is visible in the process manager has a page
    table in the memory manager, and no two goroutines are at the same time
    creating or tearing down the same process. *)
Theorem visible_processes_have_tables n tlbSize ty t0 ts picks :
  let c := schedule picks (ts, NewProcessManager (MM.NewMemoryManager n tlbSize ty t0)) in
  0 ≤ n < 2 ^ 30 → forallb starting ts → (N.of_nat (length picks) < 2 ^ 64 - 2)%N →
  (∀ pid, is_Some (processes c.2 !! pid) → is_Some (MM.pageTables (memoryManager c.2) !! pid)) ∧
  NoDup (held c.1).
Proof.
  intros c Hn Hts Hk.
  assert (safe n c) as Hs.
  { apply safe_schedule; [|simpl; lia]. by apply safe_start; [apply wf_NewMemoryManager|]. }
  split; [|apply Hs]. intros pid Hpid. destruct (safe_visible _ _ Hs pid Hpid) as [Hm _].
  by eapply wf_process_table; [apply Hs|].
Qed.

(** C13: When the memory manager refuses a fork, because the parent was removed
    between the two locks, the call returns its error and the rollback leaves the
    process map, every process object (the parent's list of children included) and
    the rest of the memory manager as they were before the child was published. *)
Theorem fork_rollback_restores (s : PM.t) parentPID parent childPID child :
  MM.pageTables (memoryManager s) !! parentPID = None →
  processes s !! childPID = None → childPID ∉ Process.Children (object parent s) →
  let s1 := (on_mm (MM.on_process parent (Process.AddChild childPID)) (publish childPID child s).2).2 in
  fork_register parentPID parent childPID child s1 = (Err (ErrParentNotFound parentPID), s).
Proof.
  intros Hgone Hfresh Hnot s1. unfold fork_register. rewrite run_on_mm.
  assert (MM.ForkProcess parentPID childPID child (memoryManager s1) =
    (Err (ErrParentNotFound parentPID), memoryManager s1)) as ->.
  { unfold MM.ForkProcess. rewrite run_get_st.
    change (MM.pageTables (memoryManager s1)) with (MM.pageTables (memoryManager s)). by rewrite Hgone. }
  unfold fork_rollback, on_mm, MM.on_process, modify, mbind, M_bind, mret, M_ret. cbn [fst snd].
  unfold s1, publish, on_mm, MM.on_process, modify. cbn [fst snd]. f_equal. simpl.
  destruct s as [procs mm k]. simpl in *. f_equal; [by rewrite delete_insert_id|].
  destruct mm; simpl in *. f_equal. rewrite list_alter_alter_eq. apply list_alter_same. intros pr Hpr.
  unfold object in Hnot. simpl in Hnot. rewrite Hpr in Hnot. simpl in Hnot. by apply RemoveChild_AddChild.
Qed.
End properties.

(** ** Concrete runs *)

#[local] Existing Instance first_env.

Definition sample_calls : list pm_call :=
  [PMCreate "init" 1 100; PMFork "P2"; PMAccess "P3" 7 true; PMTerminate "P2"; PMCreate "next" 1 100].
Definition sample_tasks : list task :=
  [TCreate "a" 1 10; TCreate "b" 1 10; TTerminate "P2"; TAccess "P3" 5 true].
Definition sample_picks : list nat := [0; 1; 0; 1; 0; 0; 1; 0; 1; 0; 0]%nat.

Lemma process_calls_outcomes_witness :
  let s := @pm_after first_env 4 8 AlgorithmLRU 0 sample_calls in
  (map_to_list (PM.processes s)).*1 = ["P3"; "P4"] ∧
  let '(r, s') := @PM.TerminateProcess first_env "P3" s in
  r = Ok () ∧ PM.processes s' = delete "P3" (PM.processes s).
Proof.
  split; [vm_compute; reflexivity|].
  pose proof (@process_calls_outcomes first_env 4 8 AlgorithmLRU 0 sample_calls ltac:(lia) ltac:(vm_compute; done))
    as (_ & _ & _ & Ht & _).
  assert (PM.processes (@pm_after first_env 4 8 AlgorithmLRU 0 sample_calls) !! "P3" = Some 1%nat) as Hp
    by (vm_compute; reflexivity).
  specialize (Ht "P3"). rewrite Hp in Ht. exact Ht.
Defined.

Lemma visible_processes_have_tables_witness :
  let c := @schedule first_env sample_picks
    (sample_tasks, PM.NewProcessManager (@MM.NewMemoryManager first_env 4 8 AlgorithmLRU 0)) in
  is_Some (MM.pageTables (PM.memoryManager c.2) !! "P3").
Proof.
  apply (@visible_processes_have_tables first_env 4 8 AlgorithmLRU 0 sample_tasks sample_picks);
    [lia|vm_compute; done|vm_compute; done|vm_compute; eauto].
Defined.

Lemma fork_rollback_restores_witness :
  let s := @pm_after first_env 4 8 AlgorithmLRU 0 [PMCreate "init" 1 100] in
  let gone := s <| PM.memoryManager ::= λ mm, (@MM.RemoveProcess first_env "P2" mm).2 |> in
  let s1 := (PM.on_mm (MM.on_process 0 (Process.AddChild "P3")) (PM.publish "P3" 1 gone).2).2 in
  @PM.fork_register first_env "P2" 0 "P3" 1 s1 = (Err (ErrParentNotFound "P2"), gone).
Proof.
  intros s gone. apply (@fork_rollback_restores first_env gone "P2" 0 "P3" 1);
    [vm_compute; reflexivity|vm_compute; reflexivity|].
  assert (Process.Children (PM.object 0 gone) = []) as -> by (vm_compute; reflexivity).
  apply not_elem_of_nil.
Defined.

(** [ForkProcess] publishes the child before the memory manager knows it, which
    [CreateProcess] is written to avoid: a goroutine that accesses the child in
    between finds the process and then fails. *)
Lemma fork_publishes_child_early :
  let s := @pm_after first_env 4 8 AlgorithmLRU 0 [PMCreate "init" 1 100] in
  let c := @schedule first_env [0; 0; 1]%nat ([TFork "P2"; TAccess "P3" 0 false], s) in
  c.1 = [TForkRegister "P2" 0 "P3" 1; TFast "P3" 0 false] ∧
  PM.GetProcess "P3" c.2 = Ok 1%nat ∧
  MM.pageTables (PM.memoryManager c.2) !! "P3" = None ∧
  (@MM.access_fast first_env "P3" 0 false (PM.memoryManager c.2)).1 =
    MM.FastDone (Err (ErrProcessNotFound "P3")).
Proof. vm_compute. done. Qed.

