(* ===== verification/Simulator.v ===== *)
(** * The simulator: [internal/simulator/simulator.go]

    Workload patterns and the seven scenarios over a process manager, recording
    and replay of accesses, and the comparisons of algorithms and frame counts.
    A scenario draws from a generator of [math/rand] seeded once; what the code
    relies on of that generator is the class [GoRand].  [fmt.Errorf] with [%v]
    or [%w] is [ErrWrap]; the sleep between accesses has no effect on the state.
    [s.mu] serialises the patterns that draw and [s.scenarioMu] the scenarios,
    so each of them runs as one sequence of calls of the process manager. *)

From S2P Require Import Prelude Models Heap FrameTable Policy Policies Algorithms Tlb PageTable MultiLevel.
From S2P Require Import Advanced Cow Manager ProcMan.
Local Open Scope Z_scope.

(** ** [math/rand]

    [rand.New(rand.NewSource(seed))] and the two draws the simulator makes:
    [Intn(n)] is in [0, n) for a positive [n], [Float64()] in [0.0, 1.0). *)
Class GoRand := {
  rand_state : Type;
  rand_New : Z → rand_state;
  rand_Intn : Z → rand_state → Z * rand_state;
  rand_Float64 : rand_state → f64 * rand_state;
  rand_Intn_range n g : 0 < n → 0 ≤ (rand_Intn n g).1 < n;
  rand_Float64_range g :
    f64_leb (f64_lit 0 1) (rand_Float64 g).1 = true ∧ f64_ltb (rand_Float64 g).1 (f64_lit 1 1) = true;
}.

(** A concrete generator, for evaluating the model on examples: a linear
    congruential one, whose floats are multiples of 1/256. *)
Definition lcg (g : Z) : Z := (75 * g + 74) mod 65537.
Definition lcg_float (g : Z) : f64 := f64_div (f64_of_Z (g mod 256)) (f64_of_Z 256).

Lemma lcg_float_range g :
  f64_leb (f64_lit 0 1) (lcg_float g) = true ∧ f64_ltb (lcg_float g) (f64_lit 1 1) = true.
Proof.
  assert (forallb (λ k, let x := f64_div (f64_of_Z k) (f64_of_Z 256) in
    f64_leb (f64_lit 0 1) x && f64_ltb x (f64_lit 1 1)) (seqZ 0 256) = true) as H by (vm_compute; reflexivity).
  rewrite forallb_forall in H. specialize (H (g mod 256)). apply andb_true_iff, H.
  apply list_elem_of_In, elem_of_seqZ. pose proof (Z.mod_pos_bound g 256). lia.
Qed.

Definition lcg_rand : GoRand.
Proof.
  refine {| rand_state := Z; rand_New := λ seed, seed mod 65537;
            rand_Intn := λ n g, (lcg g mod n, lcg g); rand_Float64 := λ g, (lcg_float (lcg g), lcg g) |}.
  - intros n g Hn. by apply Z.mod_pos_bound.
  - intros g. apply lcg_float_range.
Defined.

(** ** Loops *)

(** A loop of [n] rounds that appends what each round gives. *)
Fixpoint collect {S A} (f : M S (outcome A)) (n : nat) : M S (outcome (list A)) :=
  match n with
  | O => mret (Return [])
  | S n => x <-! f; l <-! collect f n; mret (Return (x :: l))
  end.

(** [for i := 0; i < n; i++] over an [int], and over a [uint64]. *)
Definition rounds (n : Z) : list nat := seq 0 (Z.to_nat n).
Definition indices (n : N) : list N := N.of_nat <$> seq 0 (N.to_nat n).

Module TraceEntry.
Record t := mk { ProcessID : string; VirtualPage : N; Write : bool }.
End TraceEntry.

Module Trace.
Record t := mk { Entries : list TraceEntry.t; Seed : Z }.
End Trace.

Module ScenarioResult.
(** [EndTime] is [None] for the zero time; [Error] is [None] for the empty string. *)
Record t := mk {
  Scenario : string; StartTime : Z; EndTime : option Z; Duration : Z; Success : bool;
  Error : option error; Metrics : option MetricsSnapshot.t;
}.
End ScenarioResult.

Module AlgorithmResult.
Record t := mk {
  Rank : Z; Algorithm : string; FaultRate : f64; HitRate : f64;
  PageFaults : Z; PageHits : Z; Evictions : Z; CoWCopies : Z; Duration : Z;
}.
#[global] Instance eta_t : Eta t := λ r,
  mk (Rank r) (Algorithm r) (FaultRate r) (HitRate r) (PageFaults r) (PageHits r) (Evictions r)
     (CoWCopies r) (Duration r).
End AlgorithmResult.

Module FrameCountResult.
Record t := mk {
  NumFrames : Z; Algorithm : string; FaultRate : f64; HitRate : f64;
  PageFaults : Z; PageHits : Z; Evictions : Z;
}.
End FrameCountResult.

(** [sort.Slice] on at most twelve elements, for which it is an insertion
    sort: each element moves left while it is less than its neighbour.  The
    accumulator is the sorted prefix, last element first. *)
Fixpoint sink {A} (less : A → A → bool) (x : A) (rs : list A) : list A :=
  match rs with
  | y :: rs' => if less x y then y :: sink less x rs' else x :: rs
  | [] => [x]
  end.
Definition sort_slice {A} (less : A → A → bool) (l : list A) : list A :=
  reverse (foldl (λ rs x, sink less x rs) [] l).

Module Sim.
Section simulator.
Context `{Env : GoEnv} `{Rand : GoRand}.

Record t := mk {
  processManager : PM.t;
  rng : rand_state;
  seed : Z;
  fastMode : bool;
  recording : bool;
  traceEntries : list TraceEntry.t;
}.
#[global] Instance eta_t : Eta t := λ r,
  mk (processManager r) (rng r) (seed r) (fastMode r) (recording r) (traceEntries r).

(** A call into the process manager, and a draw. *)
Definition on_pm {A} (m : M PM.t A) : M t A :=
  λ s, let '(a, pm) := m (processManager s) in (a, s <| processManager := pm |>).
Definition on_rng {A} (m : M rand_state A) : M t A :=
  λ s, let '(a, g) := m (rng s) in (a, s <| rng := g |>).
Definition now : M t Z := on_pm (PM.on_mm MM.now).

(** [rng.Intn(n)] panics unless [n] is positive. *)
Definition Intn (n : Z) : M rand_state (outcome Z) :=
  if n <=? 0 then mret Panic else λ g, let '(k, g) := rand_Intn n g in (Return k, g).
Definition Float64 : M rand_state f64 := λ g, rand_Float64 g.

(** [uint64(rng.Intn(int(maxPage)))] and [rng.Float64() < ratio] *)
Definition draw_page (maxPage : N) : M rand_state (outcome N) :=
  k <-! Intn (i64 (Z.of_N maxPage)); mret (Return (Z.to_N k)).
Definition draw_below (ratio : f64) : M rand_state bool := x ← Float64; mret (f64_ltb x ratio).

(** ** Construction and recording *)

(** [now] is the time of the call. *)
Definition NewSimulator (now : Z) (pm : PM.t) : t :=
  {| processManager := pm; rng := rand_New now; seed := now; fastMode := false;
     recording := false; traceEntries := [] |}.
Definition SetFastMode (fast : bool) : M t unit := modify (λ s, s <| fastMode := fast |>).

(** [sleep] only waits. *)
Definition sleep : M t unit := mret ().

Definition accessMemory (pid : string) (page : N) (write : bool) : M t (res unit) :=
  modify (λ s, if recording s
               then s <| traceEntries ::= λ l, l ++ [TraceEntry.mk pid page write] |>
               else s) ;;
  on_pm (PM.AccessMemory pid page write).

Definition StartRecording : M t unit :=
  modify (λ s, s <| traceEntries := [] |> <| recording := true |>).
Definition StopRecording : M t Trace.t :=
  s ← get_st;
  modify (λ s, s <| recording := false |> <| traceEntries := [] |>) ;;
  mret (Trace.mk (traceEntries s) (seed s)).

Definition replay_failed (e : TraceEntry.t) : string :=
  "replay failed at page " +:+ pretty (TraceEntry.VirtualPage e) +:+ " (pid=" +:+ TraceEntry.ProcessID e
    +:+ " write=" +:+ (if TraceEntry.Write e then "true" else "false") +:+ ")".
Fixpoint replay (es : list TraceEntry.t) : M t (res unit) :=
  match es with
  | [] => mret (Ok ())
  | e :: es =>
      r ← on_pm (PM.AccessMemory (TraceEntry.ProcessID e) (TraceEntry.VirtualPage e) (TraceEntry.Write e));
      match r with
      | Err c => mret (Err (ErrWrap (replay_failed e) c))
      | Ok _ => replay es
      end
  end.
(** [None] is the nil trace. *)
Definition ReplayTrace (tr : option Trace.t) : M t (res unit) :=
  match tr with
  | None => mret (Err ErrNilTrace)
  | Some tr => replay (Trace.Entries tr)
  end.

(** ** Access patterns *)

(** One access of a pattern and the wait after it. *)
Definition step_access (pattern pid : string) (page : N) (write : bool) : M t (outcome unit) :=
  r ← accessMemory pid page write;
  match r with
  | Err e => mret (Fail (ErrWrap (pattern +:+ " access failed at page " +:+ pretty page) e))
  | Ok _ => sleep ;; mret (Return ())
  end.

Definition SimulateSequentialAccess (pid : string) (startPage numPages : N) (write : bool)
    : M t (outcome unit) :=
  try_each (λ i, step_access "sequential" pid (u64_add startPage i) write) (indices numPages).

Definition SimulateRandomAccess (pid : string) (maxPage : N) (numAccesses : Z) (writeRatio : f64)
    : M t (outcome unit) :=
  try_each (λ _,
    page <-! on_rng (draw_page maxPage);
    write ← on_rng (draw_below writeRatio);
    step_access "random" pid page write) (rounds numAccesses).

(** [workingSet[rng.Intn(len(workingSet))]] with probability 0.8. *)
Definition locality_page (workingSet : list N) : M rand_state (outcome N) :=
  b ← draw_below (f64_lit 8 10);
  if b : bool
  then k <-! Intn (Z.of_nat (length workingSet)); mret (Return (default 0%N (workingSet !! Z.to_nat k)))
  else draw_page 1000.

Definition SimulateLocalityAccess (pid : string) (workingSetSize : N) (numAccesses : Z) (writeRatio : f64)
    : M t (outcome unit) :=
  if (workingSetSize =? 0)%N then mret (Fail ErrWorkingSetSize)
  else
    workingSet <-! on_rng (collect (draw_page 1000) (N.to_nat workingSetSize));
    try_each (λ _,
      page <-! on_rng (locality_page workingSet);
      write ← on_rng (draw_below writeRatio);
      step_access "locality" pid page write) (rounds numAccesses).

Definition SimulateLoopingAccess (pid : string) (loopSize : N) (numIterations : Z) (writeRatio : f64)
    : M t (outcome unit) :=
  try_each (λ _,
    try_each (λ i,
      write ← on_rng (draw_below writeRatio);
      step_access "looping" pid i write) (indices loopSize)) (rounds numIterations).

(** A page missing from [writePages] is read. *)
Definition SimulateCustomPattern (pid : string) (pages : list N) (writePages : gmap N bool)
    : M t (outcome unit) :=
  try_each (λ page, step_access "custom pattern" pid page (default false (writePages !! page))) pages.

(** ** The accesses of a scenario, computed in advance *)

(** One round of the random and of the locality loops: the page, and a draw
    whose result is thrown away. *)
Definition random_round (maxPage : N) (writeRatio : f64) : M rand_state (outcome N) :=
  page <-! draw_page maxPage; _ ← draw_below writeRatio; mret (Return page).
Definition locality_round (workingSet : list N) (writeRatio : f64) : M rand_state (outcome N) :=
  page <-! locality_page workingSet; _ ← draw_below writeRatio; mret (Return page).

Definition precomputeSequentialAccesses : list N := indices 100.
Definition precomputeRandomAccesses (maxPage : N) (numAccesses : Z) (writeRatio : f64)
    : M rand_state (outcome (list N)) :=
  collect (random_round maxPage writeRatio) (Z.to_nat numAccesses).
Definition precomputeLocalityAccesses (workingSetSize : N) (numAccesses : Z) (writeRatio : f64)
    : M rand_state (outcome (list N)) :=
  workingSet <-! collect (draw_page 1000) (N.to_nat workingSetSize);
  collect (locality_round workingSet writeRatio) (Z.to_nat numAccesses).
Definition precomputeLoopingAccesses : list N := mjoin ((λ _, indices 15) <$> rounds 5).
Definition precomputeMixedAccesses : M rand_state (outcome (list N)) :=
  random <-! collect (random_round 100 (f64_lit 5 10)) 30;
  ws <-! collect (draw_page 1000) 10;
  local <-! collect (locality_round ws (f64_lit 3 10)) 30;
  mret (Return (indices 20 ++ random ++ local)).
Definition precomputeForkCoWAccesses : M rand_state (outcome (list N)) :=
  l1 <-! collect (random_round 30 (f64_lit 0 1)) 10;
  l2 <-! collect (random_round 30 (f64_lit 0 1)) 10;
  l3 <-! collect (random_round 30 (f64_lit 1 1)) 10;
  l4 <-! collect (random_round 30 (f64_lit 1 1)) 10;
  mret (Return (indices 30 ++ l1 ++ l2 ++ l3 ++ l4)).

(** The generator is a new one, seeded like the simulator's. *)
Definition precompute (scenario : string) : M rand_state (outcome (list N)) :=
  if String.eqb scenario "sequential" then mret (Return precomputeSequentialAccesses)
  else if String.eqb scenario "random" then precomputeRandomAccesses 200 100 (f64_lit 3 10)
  else if String.eqb scenario "locality" then precomputeLocalityAccesses 20 100 (f64_lit 2 10)
  else if String.eqb scenario "looping" then mret (Return precomputeLoopingAccesses)
  else if String.eqb scenario "mixed" then precomputeMixedAccesses
  else if String.eqb scenario "fork_cow" then precomputeForkCoWAccesses
  else if String.eqb scenario "thrashing" then precomputeRandomAccesses 1000 200 (f64_lit 5 10)
  else mret (Fail (ErrUnknownScenario scenario)).
Definition precomputeAccesses (scenario : string) (s : t) : outcome (list N) :=
  (precompute scenario (rand_New (seed s))).1.
Definition precomputeAndSetOptimal (scenario : string) : M t (outcome unit) :=
  accesses <-! gets (precomputeAccesses scenario);
  on_pm (PM.on_mm (MM.SetFutureAccesses accesses)) ;;
  mret (Return ()).

(** ** Scenarios *)

(** [CreateProcess] and [ForkProcess], and the [ID] of the process they
    return, a field that is never written again. *)
Definition create (name : string) (priority : Z) (virtualPages : N) : M t (outcome string) :=
  r ← on_pm (PM.CreateProcess name priority virtualPages);
  p <-! mret (of_res r);
  gets (λ s, Return (Process.ID (PM.object p (processManager s)))).
Definition fork (parentID : string) : M t (outcome string) :=
  r ← on_pm (PM.ForkProcess parentID);
  p <-! mret (of_res r);
  gets (λ s, Return (Process.ID (PM.object p (processManager s)))).

Definition runSequentialScenario : M t (outcome unit) :=
  pid <-! create "Sequential" 1 1000; SimulateSequentialAccess pid 0 100 false.
Definition runRandomScenario : M t (outcome unit) :=
  pid <-! create "Random" 1 1000; SimulateRandomAccess pid 200 100 (f64_lit 3 10).
Definition runLocalityScenario : M t (outcome unit) :=
  pid <-! create "Locality" 1 1000; SimulateLocalityAccess pid 20 100 (f64_lit 2 10).
Definition runLoopingScenario : M t (outcome unit) :=
  pid <-! create "Looping" 1 1000; SimulateLoopingAccess pid 15 5 (f64_lit 4 10).
Definition runMixedScenario : M t (outcome unit) :=
  pid <-! create "Mixed" 1 1000;
  _ <-! SimulateSequentialAccess pid 0 20 false;
  _ <-! SimulateRandomAccess pid 100 30 (f64_lit 5 10);
  SimulateLocalityAccess pid 10 30 (f64_lit 3 10).
Definition runForkCoWScenario : M t (outcome unit) :=
  parent <-! create "Parent" 1 1000;
  _ <-! SimulateSequentialAccess parent 0 30 false;
  child <-! fork parent;
  _ <-! SimulateRandomAccess parent 30 10 (f64_lit 0 1);
  _ <-! SimulateRandomAccess child 30 10 (f64_lit 0 1);
  _ <-! SimulateRandomAccess child 30 10 (f64_lit 1 1);
  SimulateRandomAccess parent 30 10 (f64_lit 1 1).
Definition runThrashingScenario : M t (outcome unit) :=
  pid <-! create "Thrashing" 1 10000; SimulateRandomAccess pid 1000 200 (f64_lit 5 10).

Definition dispatch (scenario : string) : M t (outcome unit) :=
  if String.eqb scenario "sequential" then runSequentialScenario
  else if String.eqb scenario "random" then runRandomScenario
  else if String.eqb scenario "locality" then runLocalityScenario
  else if String.eqb scenario "looping" then runLoopingScenario
  else if String.eqb scenario "mixed" then runMixedScenario
  else if String.eqb scenario "fork_cow" then runForkCoWScenario
  else if String.eqb scenario "thrashing" then runThrashingScenario
  else mret (Fail (ErrUnknownScenario scenario)).

Definition algorithm_name (s : t) : string :=
  GetName (MM.algorithm (PM.GetMemoryManager (processManager s))).
Definition prepare (scenario : string) : M t (outcome unit) :=
  name ← gets algorithm_name;
  if String.eqb name "Optimal" || String.eqb name "OPT+"
  then precomputeAndSetOptimal scenario else mret (Return ()).

(** What follows the switch: a failed scenario still has its metrics. *)
Definition finish (scenario : string) (start : Z) (err : option error)
    : M t (ScenarioResult.t * option error) :=
  stop ← now;
  metrics ← on_pm (PM.on_mm MM.GetMetrics);
  mret ({| ScenarioResult.Scenario := scenario; ScenarioResult.StartTime := start;
           ScenarioResult.EndTime := Some stop; ScenarioResult.Duration := stop - start;
           ScenarioResult.Success := bool_decide (err = None); ScenarioResult.Error := err;
           ScenarioResult.Metrics := Some metrics |}, err).

Definition RunScenario (scenario : string) : M t (outcome (ScenarioResult.t * option error)) :=
  start ← now;
  pre ← prepare scenario;
  match pre with
  | Panic => mret Panic
  | Fail e =>
      mret (Return ({| ScenarioResult.Scenario := scenario; ScenarioResult.StartTime := start;
                       ScenarioResult.EndTime := None; ScenarioResult.Duration := 0;
                       ScenarioResult.Success := false; ScenarioResult.Error := Some e;
                       ScenarioResult.Metrics := None |}, Some e))
  | Return _ =>
      r ← dispatch scenario;
      match r with
      | Panic => mret Panic
      | Fail e => res ← finish scenario start (Some e); mret (Return res)
      | Return _ => res ← finish scenario start None; mret (Return res)
      end
  end.

(** ** Comparisons

    Each run has a memory manager and a simulator of its own; the runs follow
    each other, so the state that is handed on is the position in the
    environment. *)

Definition fresh (seed : Z) (mm : MM.t) : t :=
  {| processManager := PM.NewProcessManager mm; rng := rand_New seed; seed := seed; fastMode := true;
     recording := false; traceEntries := [] |}.

(** One run: the metrics and the time it took, unless the scenario failed. *)
Definition timed_run (scenario : string) : M t (outcome (option (MetricsSnapshot.t * Z))) :=
  start ← now;
  r <-! RunScenario scenario;
  stop ← now;
  on_pm (PM.on_mm MM.Close) ;;
  match r.2 with
  | Some _ => mret (Return None)
  | None => m ← on_pm (PM.on_mm MM.GetMetrics); mret (Return (Some (m, stop - start)))
  end.
Definition fresh_run (seed : Z) (scenario : string) (numFrames tlbSize : Z) (algType : AlgorithmType)
    : M nat (outcome (option (MetricsSnapshot.t * Z))) :=
  λ t0, let '(r, s) := timed_run scenario (fresh seed (MM.NewMemoryManager numFrames tlbSize algType t0)) in
        (r, tick (MM.hp (PM.memoryManager (processManager s)))).

Definition allAlgos : list AlgorithmType :=
  [AlgorithmOptimal; AlgorithmOPTPlus; AlgorithmLRU; AlgorithmARC; AlgorithmCAR; AlgorithmCLOCK;
   AlgorithmWSClock; AlgorithmLFU; AlgorithmNRU; AlgorithmPFF; AlgorithmFIFO; AlgorithmRandom].

Definition algorithm_result (algType : AlgorithmType) (m : MetricsSnapshot.t) (elapsed : Z) : AlgorithmResult.t :=
  {| AlgorithmResult.Rank := 0; AlgorithmResult.Algorithm := GetAlgorithmName algType;
     AlgorithmResult.FaultRate := MetricsSnapshot.PageFaultRate m;
     AlgorithmResult.HitRate := MetricsSnapshot.PageHitRate m;
     AlgorithmResult.PageFaults := MetricsSnapshot.PageFaults m;
     AlgorithmResult.PageHits := MetricsSnapshot.PageHits m;
     AlgorithmResult.Evictions := MetricsSnapshot.Evictions m;
     AlgorithmResult.CoWCopies := MetricsSnapshot.CoWCopies m;
     AlgorithmResult.Duration := elapsed |}.

(** The loop over the configurations; a run that fails is skipped. *)
Fixpoint sweep {C R} (run : C → M nat (outcome (option (MetricsSnapshot.t * Z))))
    (result : C → MetricsSnapshot.t → Z → R) (cs : list C) : M nat (outcome (list R)) :=
  match cs with
  | [] => mret (Return [])
  | c :: cs =>
      r <-! run c;
      rs <-! sweep run result cs;
      mret (Return (match r with Some (m, elapsed) => result c m elapsed :: rs | None => rs end))
  end.

Definition by_fault_rate (a b : AlgorithmResult.t) : bool :=
  f64_ltb (AlgorithmResult.FaultRate a) (AlgorithmResult.FaultRate b).
Definition ranked (rs : list AlgorithmResult.t) : list AlgorithmResult.t :=
  imap (λ i r, r <| AlgorithmResult.Rank := Z.of_nat i + 1 |>) rs.

Definition CompareAlgorithms (scenario : string) (numFrames tlbSize : Z) (s : t)
    : M nat (outcome (list AlgorithmResult.t)) :=
  results <-! sweep (fresh_run (seed s) scenario numFrames tlbSize) algorithm_result allAlgos;
  mret (Return (ranked (sort_slice by_fault_rate results))).

Definition parseAlgorithmName (name : string) : AlgorithmType * option error :=
  if String.eqb name "LRU" then (AlgorithmLRU, None)
  else if String.eqb name "CLOCK" then (AlgorithmCLOCK, None)
  else if String.eqb name "LFU" then (AlgorithmLFU, None)
  else if String.eqb name "FIFO" then (AlgorithmFIFO, None)
  else if String.eqb name "Optimal" then (AlgorithmOptimal, None)
  else if String.eqb name "Random" then (AlgorithmRandom, None)
  else if String.eqb name "ARC" then (AlgorithmARC, None)
  else if String.eqb name "CAR" then (AlgorithmCAR, None)
  else if String.eqb name "WSClock" then (AlgorithmWSClock, None)
  else if String.eqb name "PFF" then (AlgorithmPFF, None)
  else if String.eqb name "OPT+" then (AlgorithmOPTPlus, None)
  else if String.eqb name "NRU" then (AlgorithmNRU, None)
  else (AlgorithmLRU, Some (ErrUnknownAlgorithm name)).

Definition frame_count_result (algName : string) (fc : Z) (m : MetricsSnapshot.t) (elapsed : Z)
    : FrameCountResult.t :=
  {| FrameCountResult.NumFrames := fc; FrameCountResult.Algorithm := algName;
     FrameCountResult.FaultRate := MetricsSnapshot.PageFaultRate m;
     FrameCountResult.HitRate := MetricsSnapshot.PageHitRate m;
     FrameCountResult.PageFaults := MetricsSnapshot.PageFaults m;
     FrameCountResult.PageHits := MetricsSnapshot.PageHits m;
     FrameCountResult.Evictions := MetricsSnapshot.Evictions m |}.

Definition CompareFrameCounts (scenario algName : string) (frameCounts : list Z) (tlbSize : Z) (s : t)
    : M nat (outcome (list FrameCountResult.t)) :=
  match parseAlgorithmName algName with
  | (_, Some e) => mret (Fail e)
  | (algType, None) =>
      sweep (λ fc, fresh_run (seed s) scenario fc tlbSize algType) (frame_count_result algName) frameCounts
  end.
End simulator.
#[global] Arguments t {_}.

(** ** Names *)

Definition GetAvailableScenarios : list string :=
  ["sequential"; "random"; "locality"; "looping"; "mixed"; "fork_cow"; "thrashing"].

Definition descriptions : gmap string string :=
  list_to_map [
    ("sequential", "Sequential memory access pattern");
    ("random", "Random memory access pattern");
    ("locality", "Temporal locality with working set");
    ("looping", "Looping access pattern");
    ("mixed", "Mixed access patterns (sequential + random + locality)");
    ("fork_cow", "Process fork with Copy-on-Write demonstration");
    ("thrashing", "Memory thrashing scenario")].
Definition GetScenarioDescription (scenario : string) : string :=
  default "Unknown scenario" (descriptions !! scenario).
End Sim.
