(* ===== verification/SimulatorSteps.v ===== *)
(** * Single steps of the simulator

    What an access, a creation and a fork made by the simulator do to the state
    it drives: which accesses are recorded and counted, which processes exist,
    and that the generator is only advanced by the draws. *)

From S2P Require Import Prelude Models Heap FrameTable Policy Policies PoliciesSpec Algorithms.
From S2P Require Import Tlb PageTable MultiLevel Advanced Cow Manager ManagerInv ManagerOps ManagerSteps.
From S2P Require Import ManagerCounts ManagerEffects ManagerCoherence ManagerRuns ManagerCow ProcMan ProcManProps.
From S2P Require Import Simulator.
Local Open Scope Z_scope.

(** ** Tallies

    A counter of the code wraps around; [bumped k x y] adds [k] to it in any
    number of steps.  [counted] shares [k] accesses between faults and hits. *)

Definition bumped (k x y : Z) : Prop := (k = 0 ∧ y = x) ∨ y = i64 (x + k).
Definition counted (k : Z) (x y : Z * Z) : Prop :=
  ∃ f h, 0 ≤ f ∧ 0 ≤ h ∧ f + h = k ∧ bumped f x.1 y.1 ∧ bumped h x.2 y.2.

Lemma bumped_trans k l x y z : bumped k x y → bumped l y z → bumped (k + l) x z.
Proof.
  intros [[-> ->]| ->] [[-> ->]| ->].
  - by left.
  - by right; rewrite Z.add_0_l.
  - by right; rewrite Z.add_0_r.
  - right. by rewrite i64_add_l, Z.add_assoc.
Qed.
Lemma bumped_i64 k x y : bumped k x y → i64 y = i64 (x + k).
Proof. intros [[-> ->]| ->]; [by rewrite Z.add_0_r|apply i64_idemp]. Qed.

Lemma counted_refl x : counted 0 x x.
Proof. exists 0, 0. split_and!; [lia..|by left|by left]. Qed.
Lemma counted_trans k l x y z : counted k x y → counted l y z → counted (k + l) x z.
Proof.
  intros (f1 & h1 & ? & ? & ? & Hf1 & Hh1) (f2 & h2 & ? & ? & ? & Hf2 & Hh2).
  exists (f1 + f2), (h1 + h2). split_and!; [lia..|by eapply bumped_trans|by eapply bumped_trans].
Qed.
Lemma counted_total k x y : counted k x y → i64 (y.1 + y.2) = i64 (x.1 + x.2 + k).
Proof.
  intros (f & h & _ & _ & <- & Hf%bumped_i64 & Hh%bumped_i64).
  rewrite <-i64_add_l, Hf, i64_add_l, <-i64_add_r, Hh, i64_add_r. f_equal. lia.
Qed.
(** From zero there is no wrapping below 2^63. *)
Lemma counted_fresh k y : k < 2 ^ 63 → counted k (0, 0) y → 0 ≤ y.1 ∧ 0 ≤ y.2 ∧ y.1 + y.2 = k.
Proof.
  intros Hk (f & h & Hf & Hh & Hfh & Bf & Bh). simpl in *.
  assert (∀ j z, 0 ≤ j → j < 2 ^ 63 → bumped j 0 z → z = j) as Hj.
  { intros j z ? ? [[-> ->]| ->]; [done|]. apply i64_small. lia. }
  apply Hj in Bf as ->, Bh as ->; lia.
Qed.

(** ** Names and tallies under creation and forks *)

Section ids.
Context `{Env : GoEnv}.

Definition ids (s : MM.t) : list string := Process.ID <$> MM.procs s.

(** The process objects keep their names and nothing is counted. *)
Definition same_ids (s s' : MM.t) : Prop :=
  ids s' = ids s ∧
  Metrics.PageFaults (MM.metrics s') = Metrics.PageFaults (MM.metrics s) ∧
  Metrics.PageHits (MM.metrics s') = Metrics.PageHits (MM.metrics s).
#[export] Instance same_ids_preorder : PreOrder same_ids.
Proof. unfold same_ids. split; [done|]. intros s1 s2 s3. intuition congruence. Qed.

Lemma same_ids_modify g : (∀ s, same_ids s (g s)) → related same_ids (modify g).
Proof. intros H s. apply H. Qed.

Lemma same_ids_on_heap {A} (m : M heap A) : related same_ids (MM.on_heap m).
Proof. intros s. unfold MM.on_heap. by destruct (m (MM.hp s)). Qed.

Lemma same_ids_emitEvent e : related same_ids (MM.emitEvent e).
Proof.
  intros s. unfold MM.emitEvent. cbn. destruct (negb _); [done|]. destruct (MM.closed s); [done|].
  by destruct (decide _).
Qed.

Lemma same_ids_on_process p g :
  (∀ pr, Process.ID (g pr) = Process.ID pr) → related same_ids (MM.on_process p g).
Proof.
  intros Hg s. split; [|done]. unfold ids. cbn. apply list_eq. intros i. rewrite !list_lookup_fmap.
  destruct (decide (i = p)) as [->|Hi].
  - rewrite list_lookup_alter_eq. destruct (MM.procs s !! p); [|done]. cbn. by rewrite Hg.
  - by rewrite list_lookup_alter_ne.
Qed.

Lemma same_ids_CreateProcess p : related same_ids (MM.CreateProcess p).
Proof.
  unfold MM.CreateProcess. apply related_bind; [apply _|by intros s|intros s0].
  destruct (MM.procs s0 !! p) as [pr|]; [|apply related_ret, _]. cbv zeta.
  destruct (MM.processes s0 !! _); [apply related_ret, _|].
  do 3 (apply related_bind; [apply _|by apply same_ids_modify|intros _]).
  apply related_bind; [apply _|apply same_ids_emitEvent|intros _; apply related_ret, _].
Qed.

Lemma same_ids_ForkProcess parent child p : related same_ids (MM.ForkProcess parent child p).
Proof.
  unfold MM.ForkProcess. apply related_bind; [apply _|by intros s|intros s0].
  destruct (MM.pageTables s0 !! parent) as [pt|]; [|apply related_ret, _]. cbv zeta.
  do 3 (apply related_bind; [apply _|by apply same_ids_modify|intros _]).
  apply related_bind; [apply _|apply same_ids_on_heap|intros l1].
  apply related_bind; [apply _|apply same_ids_on_heap|intros l2].
  do 3 (apply related_bind; [apply _|by apply same_ids_modify|intros _]).
  apply related_bind; [apply _|apply same_ids_emitEvent|intros _; apply related_ret, _].
Qed.
End ids.

(** ** The same for the process manager *)

Section process_manager.
Context `{Env : GoEnv}.
Implicit Types (n : Z) (s : PM.t) (pid : string).

(** The faults and the hits counted so far. *)
Definition tally s : Z * Z :=
  (Metrics.PageFaults (MM.metrics (PM.memoryManager s)), Metrics.PageHits (MM.metrics (PM.memoryManager s))).
Definition names s : list string := ids (PM.memoryManager s).

Lemma same_ids_names s mm :
  same_ids (PM.memoryManager s) mm →
  names (s <| PM.memoryManager := mm |>) = names s ∧ tally (s <| PM.memoryManager := mm |>) = tally s.
Proof. intros (H1 & H2 & H3). unfold names, tally. simpl. by rewrite H1, H2, H3. Qed.

Lemma object_ID s p pid : names s !! p = Some pid → Process.ID (PM.object p s) = pid.
Proof.
  unfold names, ids, PM.object. rewrite list_lookup_fmap.
  destruct (MM.procs (PM.memoryManager s) !! p); simpl; congruence.
Qed.

Lemma new_process_names pid name priority pages s :
  let '(p, s') := PM.new_process pid name priority pages s in
  p = length (names s) ∧ names s' = names s ++ [pid] ∧ tally s' = tally s.
Proof.
  unfold PM.new_process, PM.on_mm, MM.now. rewrite run_on_heap.
  destruct (time_now (MM.hp (PM.memoryManager s))) as [created h]. rewrite run_get_st, run_modify.
  unfold mret, M_ret, names, ids, tally. simpl. rewrite length_fmap, fmap_app. split_and!; done.
Qed.

Lemma create_register_names pid name priority pages s :
  let '(r, s') := PM.create_register pid name priority pages s in
  tally s' = tally s ∧ ∀ p, r = Ok p → names s' !! p = Some pid.
Proof.
  unfold PM.create_register. unfold mbind at 1, M_bind at 1.
  pose proof (new_process_names pid name priority pages s) as Hn.
  destruct (PM.new_process pid name priority pages s) as [p s2]. cbn [fst snd].
  destruct Hn as (-> & Hn & Ht). unfold bind_ok. rewrite run_on_mm.
  pose proof (same_ids_CreateProcess (length (names s)) (PM.memoryManager s2)) as Hc.
  destruct (MM.CreateProcess _ _) as [r mm]. cbn [snd] in Hc. apply same_ids_names in Hc as [Hc Htc].
  destruct r as [u|e]; unfold mret, M_ret; (split; [by rewrite Htc|]); [|done].
  intros p [= <-]. rewrite Hc, Hn. by apply list_lookup_middle.
Qed.

Lemma CreateProcess_names name priority pages s :
  (PM.nextPID s + 1 < 2 ^ 64)%N →
  let '(r, s') := PM.CreateProcess name priority pages s in
  tally s' = tally s ∧ ∀ p, r = Ok p → names s' !! p = Some (PM.pid_of (PM.nextPID s + 1)).
Proof.
  intros Hk. unfold PM.CreateProcess. unfold mbind at 1, M_bind at 1. rewrite (draw_spec s Hk).
  cbn [fst snd]. unfold bind_ok. unfold mbind at 1, M_bind at 1.
  match goal with |- context [PM.create_register ?pid _ _ _ ?s1] =>
    pose proof (create_register_names pid name priority pages s1) as Hc; destruct (PM.create_register _ _ _ _ s1) as [r s2] end.
  destruct Hc as [Ht Hn]. by destruct r.
Qed.

Lemma on_mm_names {A} (m : M MM.t A) s :
  related same_ids m → names (PM.on_mm m s).2 = names s ∧ tally (PM.on_mm m s).2 = tally s.
Proof.
  intros Hm. specialize (Hm (PM.memoryManager s)). unfold PM.on_mm.
  destruct (m (PM.memoryManager s)). by apply same_ids_names.
Qed.

Lemma new_child_names childPID parentPID pr s :
  let '(p, s') := PM.new_child childPID parentPID pr s in
  p = length (names s) ∧ names s' = names s ++ [childPID] ∧ tally s' = tally s.
Proof.
  unfold PM.new_child. unfold mbind at 1, M_bind at 1.
  pose proof (new_process_names childPID (Process.Name pr +:+ "-fork") (Process.Priority pr) (Process.VirtualPages pr) s) as Hn.
  destruct (PM.new_process _ _ _ _ s) as [p s2]. cbn [fst snd]. unfold mbind at 1, M_bind at 1.
  pose proof (on_mm_names (MM.on_process p (λ c, c <| Process.ParentID := parentPID |>)) s2) as [Hn2 Ht2];
    [by apply same_ids_on_process|].
  destruct (PM.on_mm _ s2) as [[] s3]. cbn [fst snd] in *. unfold mret, M_ret. by rewrite Hn2, Ht2.
Qed.

Lemma fork_register_names parentPID parent childPID child s :
  let '(r, s') := PM.fork_register parentPID parent childPID child s in
  tally s' = tally s ∧ ∀ p, r = Ok p → p = child ∧ names s' = names s.
Proof.
  unfold PM.fork_register. unfold mbind at 1, M_bind at 1.
  pose proof (on_mm_names (MM.ForkProcess parentPID childPID child) s (same_ids_ForkProcess _ _ _)) as [Hn1 Ht1].
  destruct (PM.on_mm _ s) as [[u|e] s1]; cbn [fst snd] in *; [by split; [|intros ? [= <-]]|].
  unfold mbind at 1, M_bind at 1. unfold PM.fork_rollback. rewrite run_modify. unfold mret, M_ret.
  match goal with |- context [PM.on_mm ?m ?s] => pose proof (on_mm_names m s) as [_ Ht2] end;
    [by apply same_ids_on_process|].
  split; [|done]. rewrite Ht2. exact Ht1.
Qed.

Lemma ForkProcess_names parentID s :
  (PM.nextPID s + 1 < 2 ^ 64)%N →
  let '(r, s') := PM.ForkProcess parentID s in
  tally s' = tally s ∧ ∀ p, r = Ok p → names s' !! p = Some (PM.pid_of (PM.nextPID s + 1)).
Proof.
  intros Hk. unfold PM.ForkProcess, bind_ok, PM.fork_lookup. rewrite run_gets.
  destruct (PM.processes s !! parentID) as [parent|]; [|done].
  unfold mbind at 1, M_bind at 1. rewrite (draw_spec s Hk). cbn [fst snd].
  set (pid := PM.pid_of _). set (s1 := _ <| PM.nextPID := _ |>). unfold mbind at 1, M_bind at 1.
  pose proof (new_child_names pid parentID (PM.object parent s) s1) as Hn.
  destruct (PM.new_child _ _ _ s1) as [p s2]. cbn [fst snd]. destruct Hn as (-> & Hn & Ht).
  unfold PM.publish. rewrite run_modify. set (s3 := s2 <| PM.processes ::= _ |>). unfold mbind at 1, M_bind at 1.
  pose proof (on_mm_names (MM.on_process parent (Process.AddChild pid)) s3) as [Hn4 Ht4];
    [by apply same_ids_on_process|].
  destruct (PM.on_mm _ s3) as [[] s4]. cbn [fst snd] in *.
  pose proof (fork_register_names parentID parent pid (length (names s1)) s4) as Hf.
  destruct (PM.fork_register _ _ _ _ s4) as [r s5]. destruct Hf as [Ht5 Hf]. split.
  - rewrite Ht5, Ht4. exact Ht.
  - intros p Hr. destruct (Hf p Hr) as [-> ->]. rewrite Hn4. change (names s3) with (names s2).
    rewrite Hn. by apply list_lookup_middle.
Qed.

(** One access is one hit or one fault. *)
Lemma AccessMemory_tally n s pid v w :
  0 < n → agrees n s → is_Some (PM.processes s !! pid) →
  counted 1 (tally s) (tally (PM.AccessMemory pid v w s).2).
Proof.
  intros Hn Ha [p Hp]. unfold PM.AccessMemory, bind_ok, PM.access_lookup. unfold mbind at 1, M_bind at 1.
  rewrite run_get_st, Hp, run_on_mm.
  pose proof (on_process_mm n s p (Process.cas_state ProcessReady ProcessRunning) Ha) as Ha1.
  assert (tally (s <| PM.memoryManager := (MM.on_process p (Process.cas_state ProcessReady ProcessRunning)
    (PM.memoryManager s)).2 |>) = tally s) as <- by done.
  destruct (MM.on_process p _ (PM.memoryManager s)) as [[] mm1]. cbn [snd] in *.
  unfold mret, M_ret. cbn [fst snd]. unfold PM.on_mm.
  change (PM.memoryManager (s <| PM.memoryManager := mm1 |>)) with mm1.
  pose proof (AccessMemory_counted n pid v w mm1 Hn (agrees_wf _ _ Ha1)) as Hacc.
  pose proof (agrees_same _ _ Ha1) as Hsame. simpl in Hsame. rewrite <-Hsame in Hacc.
  specialize (Hacc ltac:(eauto)).
  destruct (MM.AccessMemory pid v w mm1) as [r mm2]. cbn [snd]. destruct Hacc as (_ & Hacc & _).
  unfold tally, counted. simpl. destruct Hacc as [(_ & Hf & Hh)|(_ & Hf & Hh)].
  - exists 0, 1. split_and!; [lia..|by left|by right].
  - exists 1, 0. split_and!; [lia..|by right|by left].
Qed.
End process_manager.

(** ** Driving a process manager *)

Section drive.
Context `{Env : GoEnv} `{Rand : GoRand}.
Variable n : Z.
Implicit Types (s : Sim.t) (pid : string) (page : N) (es : list TraceEntry.t).
Import Sim.

Definition ready s : Prop := 0 < n ∧ agrees n (processManager s).
Definition registered pid s : Prop := is_Some (PM.processes (processManager s) !! pid).
Definition pages es : list N := TraceEntry.VirtualPage <$> es.

(** From [s] to [s'] the accesses [es] were made and [k] processes created. *)
Record drives (k : N) es s s' : Prop := {
  drives_ready : ready s';
  drives_registered pid : registered pid s → registered pid s';
  drives_next : PM.nextPID (processManager s') = (PM.nextPID (processManager s) + k)%N;
  drives_recording : recording s' = recording s;
  drives_trace : traceEntries s' = traceEntries s ++ (if recording s then es else []);
  drives_seed : seed s' = seed s;
  drives_tally : counted (Z.of_nat (length es)) (tally (processManager s)) (tally (processManager s'));
}.

Lemma drives_refl s : ready s → drives 0 [] s s.
Proof.
  intros Hs. constructor; try done; [by rewrite N.add_0_r| |].
  - destruct (recording s); by rewrite app_nil_r.
  - apply counted_refl.
Qed.

Lemma drives_trans k1 k2 es1 es2 s1 s2 s3 :
  drives k1 es1 s1 s2 → drives k2 es2 s2 s3 → drives (k1 + k2) (es1 ++ es2) s1 s3.
Proof.
  intros [H1 H2 H3 H4 H5 H6 H7] [G1 G2 G3 G4 G5 G6 G7]. constructor.
  - done.
  - auto.
  - rewrite G3, H3. lia.
  - congruence.
  - rewrite G5, H5, H4. destruct (recording s1); by rewrite <-app_assoc.
  - congruence.
  - rewrite length_app, Nat2Z.inj_add. by eapply counted_trans.
Qed.

(** Steps that leave the process manager and the trace alone. *)
Lemma drives_with_rng k es s s' g : drives k es s s' → drives k es s (s' <| rng := g |>).
Proof. intros [H1 H2 H3 H4 H5 H6 H7]. by constructor. Qed.
Lemma drives_from_rng k es s s' g : drives k es (s <| rng := g |>) s' → drives k es s s'.
Proof. intros [H1 H2 H3 H4 H5 H6 H7]. by constructor. Qed.

Lemma run_on_rng {A B} (m : M rand_state A) (k : A → M t B) s :
  (on_rng m ≫= k) s = k (m (rng s)).1 (s <| rng := (m (rng s)).2 |>).
Proof. unfold on_rng, mbind, M_bind. by destruct (m (rng s)). Qed.
Lemma run_on_pm {A B} (m : M PM.t A) (k : A → M t B) s :
  (on_pm m ≫= k) s = k (m (processManager s)).1 (s <| processManager := (m (processManager s)).2 |>).
Proof. unfold on_pm, mbind, M_bind. by destruct (m (processManager s)). Qed.

(** *** One access *)

Lemma accessMemory_runs pid page w s :
  ready s → registered pid s →
  let '(r, s') := accessMemory pid page w s in
  r = Ok () ∧ drives 0 [TraceEntry.mk pid page w] s s' ∧ rng s' = rng s.
Proof.
  intros [Hn Ha] Hp. unfold accessMemory. rewrite run_modify. set (s1 := if recording s then _ else _).
  assert (processManager s1 = processManager s) as Hpm by (unfold s1; by destruct (recording s)).
  unfold on_pm. rewrite Hpm.
  pose proof (AccessMemory_spec n (processManager s) pid page w Hn Ha) as Hs.
  pose proof (AccessMemory_tally n (processManager s) pid page w Hn Ha Hp) as Ht.
  destruct Hp as [p Hp]. destruct (PM.AccessMemory pid page w (processManager s)) as [r pm].
  rewrite Hp in Hs. destruct Hs as (Ha' & Hpr & Hnext & ->). cbn [snd] in Ht. split_and!; [done| |].
  - constructor; simpl; [by split|intros q; unfold registered; simpl; by rewrite Hpr|by rewrite Hnext, N.add_0_r|..].
    + unfold s1. by destruct (recording s) eqn:Hr.
    + unfold s1. destruct (recording s); simpl; [done|by rewrite app_nil_r].
    + unfold s1. by destruct (recording s).
    + exact Ht.
  - unfold s1. by destruct (recording s).
Qed.

Lemma step_access_runs pattern pid page w s :
  ready s → registered pid s →
  let '(r, s') := step_access pattern pid page w s in
  r = Return () ∧ drives 0 [TraceEntry.mk pid page w] s s' ∧ rng s' = rng s.
Proof.
  intros Hs Hp. unfold step_access. unfold mbind at 1, M_bind at 1.
  pose proof (accessMemory_runs pid page w s Hs Hp) as Ha.
  destruct (accessMemory pid page w s) as [r s']. by destruct Ha as (-> & ? & ?).
Qed.

(** *** Creation and forks *)

Lemma grown_drives pid p s pm :
  0 < n → agrees n pm → PM.processes pm = <[pid := p]> (PM.processes (processManager s)) →
  PM.nextPID pm = (PM.nextPID (processManager s) + 1)%N → tally pm = tally (processManager s) →
  drives 1 [] s (s <| processManager := pm |>) ∧ registered pid (s <| processManager := pm |>).
Proof.
  intros Hn Ha Hpr Hnext Ht. split; [|exists p; simpl; by rewrite Hpr, lookup_insert_eq].
  constructor; simpl; [by split| |done|done| |done|].
  - intros q [x Hq]. unfold registered. simpl. rewrite Hpr.
    destruct (decide (q = pid)) as [->|Hne]; [rewrite lookup_insert_eq|rewrite lookup_insert_ne by done]; eauto.
  - destruct (recording s); by rewrite app_nil_r.
  - rewrite Ht. apply counted_refl.
Qed.

Lemma create_runs name priority virtualPages s :
  ready s → (PM.nextPID (processManager s) + 1 < 2 ^ 64)%N →
  let pid := PM.pid_of (PM.nextPID (processManager s) + 1) in
  let '(r, s') := create name priority virtualPages s in
  r = Return pid ∧ drives 1 [] s s' ∧ registered pid s' ∧ rng s' = rng s.
Proof.
  intros [Hn Ha] Hk. cbv zeta. unfold create. rewrite run_on_pm.
  pose proof (CreateProcess_spec n (processManager s) name priority virtualPages Ha Hk) as Hc.
  pose proof (CreateProcess_names name priority virtualPages (processManager s) Hk) as Hids.
  destruct (PM.CreateProcess name priority virtualPages (processManager s)) as [r pm].
  destruct Hc as (p & -> & Ha' & Hpr & Hnext). destruct Hids as [Ht Hids].
  unfold bind_outcome, mbind, M_bind, gets. cbn [fst snd of_res mret M_ret]. simpl.
  rewrite (object_ID _ _ _ (Hids p eq_refl)). split; [done|].
  by destruct (grown_drives _ p s pm Hn Ha' Hpr Hnext Ht).
Qed.

Lemma fork_runs parentID s :
  ready s → registered parentID s → (PM.nextPID (processManager s) + 1 < 2 ^ 64)%N →
  let pid := PM.pid_of (PM.nextPID (processManager s) + 1) in
  let '(r, s') := fork parentID s in
  r = Return pid ∧ drives 1 [] s s' ∧ registered pid s' ∧ rng s' = rng s.
Proof.
  intros [Hn Ha] [q0 Hq0] Hk. cbv zeta. unfold fork. rewrite run_on_pm.
  pose proof (ForkProcess_spec n (processManager s) parentID Ha Hk) as Hc.
  pose proof (ForkProcess_names parentID (processManager s) Hk) as Hids.
  destruct (PM.ForkProcess parentID (processManager s)) as [r pm].
  rewrite Hq0 in Hc. destruct Hc as (Ha' & p & -> & Hpr & Hnext). destruct Hids as [Ht Hids].
  unfold bind_outcome, mbind, M_bind, gets. cbn [fst snd of_res mret M_ret]. simpl.
  rewrite (object_ID _ _ _ (Hids p eq_refl)). split; [done|].
  by destruct (grown_drives _ p s pm Hn Ha' Hpr Hnext Ht).
Qed.
End drive.
