(* ===== verification/SimulatorRuns.v ===== *)
(** * Runs of the simulator

    Each pattern accesses the pages that the code computes in advance for it,
    from the same generator; so do the seven scenarios, which all succeed on a
    memory manager with frames. *)

From S2P Require Import Prelude Models Heap FrameTable Policy Policies PoliciesSpec Algorithms.
From S2P Require Import Tlb PageTable MultiLevel Advanced Cow Manager ManagerInv ManagerOps ManagerSteps.
From S2P Require Import ManagerCounts ManagerEffects ManagerCoherence ManagerRuns ManagerCow ProcMan ProcManProps.
From S2P Require Import Simulator SimulatorSteps.
Local Open Scope Z_scope.

(** ** Patterns and the pages computed in advance *)

Section patterns.
Context `{Env : GoEnv} `{Rand : GoRand}.
Variable n : Z.
Implicit Types (s : Sim.t) (pid : string) (es : list TraceEntry.t) (g : rand_state).
Import Sim.

(** A loop over [l] that draws the pages of one round after the other. *)
Fixpoint gathers {X} (draw : X → M rand_state (outcome (list N))) (l : list X) : M rand_state (outcome (list N)) :=
  match l with
  | [] => mret (Return [])
  | x :: l => a <-! draw x; r <-! gathers draw l; mret (Return (a ++ r))
  end.

(** One draw of one page. *)
Definition single (m : M rand_state (outcome N)) : M rand_state (outcome (list N)) :=
  a <-! m; mret (Return [a]).

Lemma gathers_single {X} m (l : list X) g : gathers (λ _, single m) l g = collect m (length l) g.
Proof.
  revert g. induction l as [|x l IH]; intros g; [done|]. simpl. unfold single at 1, bind_outcome, mbind, M_bind.
  destruct (m g) as [[a|e|] g1]; try done. cbn [fst snd mret M_ret]. rewrite IH.
  by destruct (collect m (length l) g1) as [[r|e|] g2].
Qed.

Lemma gathers_pages {X} draw (h : X → list N) l g :
  (∀ x g, (draw x g).1 = Return (h x)) → (gathers draw l g).1 = Return (mjoin (h <$> l)).
Proof.
  intros Hd. revert g. induction l as [|x l IH]; intros g; [done|]. simpl. unfold bind_outcome, mbind, M_bind.
  specialize (Hd x g). destruct (draw x g) as [r g1]. cbn [fst snd] in *. subst r. specialize (IH g1).
  destruct (gathers draw l g1) as [r g2]. cbn [fst snd] in *. by subst r.
Qed.

Lemma gathers_ret {X} (h : X → N) l g :
  gathers (λ x, mret (Return [h x])) l g = (Return (h <$> l), g).
Proof.
  induction l as [|x l IH]; [done|]. simpl. unfold bind_outcome, mbind, M_bind.
  cbn [fst snd mret M_ret]. by rewrite IH.
Qed.

Lemma collect_returns {A} (m : M rand_state (outcome A)) k g :
  (∀ g, ∃ a g', m g = (Return a, g')) → ∃ l g', collect m k g = (Return l, g') ∧ length l = k.
Proof.
  intros Hm. revert g. induction k as [|k IH]; intros g; [by exists [], g|].
  destruct (Hm g) as (a & g1 & Ha). destruct (IH g1) as (l & g2 & Hl & Hk).
  exists (a :: l), g2. simpl. unfold bind_outcome, mbind, M_bind. rewrite Ha. cbn [fst snd]. rewrite Hl.
  split; [done|]. simpl. lia.
Qed.

(** [m], run from [s], makes accesses to the pages drawn by [draw]. *)
Definition follows (m : M Sim.t (outcome unit)) (draw : M rand_state (outcome (list N))) s : Prop :=
  let '(r, s') := m s in
  r = Return () ∧ ∃ es, drives n 0 es s s' ∧ draw (rng s) = (Return (pages es), rng s').

Lemma follows_ext m draw draw' s : draw (rng s) = draw' (rng s) → follows m draw s → follows m draw' s.
Proof. unfold follows. by intros ->. Qed.

Lemma pages_app es1 es2 : pages (es1 ++ es2) = pages es1 ++ pages es2.
Proof. apply fmap_app. Qed.

(** One pattern after another. *)
Lemma follows_seq m1 m2 d1 d2 s :
  follows m1 d1 s →
  (∀ es s', drives n 0 es s s' → follows m2 d2 s') →
  follows (_ <-! m1; m2) (l1 <-! d1; l2 <-! d2; mret (Return (l1 ++ l2))) s.
Proof.
  unfold follows. unfold bind_outcome at 1. unfold mbind at 1, M_bind at 1.
  destruct (m1 s) as [r s1]. intros (-> & es1 & Hd1 & He1) H2. cbn [fst snd].
  specialize (H2 es1 s1 Hd1). destruct (m2 s1) as [r s2]. destruct H2 as (-> & es2 & Hd2 & He2).
  split; [done|]. exists (es1 ++ es2). split; [by apply (drives_trans n 0 0 _ _ s s1 s2)|].
  unfold bind_outcome, mbind, M_bind. rewrite He1. cbn [fst snd]. rewrite He2. cbn [fst snd]. by rewrite pages_app.
Qed.

Lemma try_each_follows {X} pid (f : X → M Sim.t (outcome unit)) draw (l : list X) s :
  (∀ x s, ready n s → registered pid s → follows (f x) (draw x) s) →
  ready n s → registered pid s → follows (try_each f l) (gathers draw l) s.
Proof.
  intros Hf. revert s. induction l as [|x l IH]; intros s Hs Hp.
  - split; [done|]. exists []. split; [by apply drives_refl|done].
  - apply follows_seq; [by apply Hf|]. intros es s' Hd.
    apply IH; [apply Hd|by apply (drives_registered _ _ _ _ _ Hd)].
Qed.

Lemma follows_after_draw {A} (m : M rand_state (outcome A)) k d s a g :
  m (rng s) = (Return a, g) → follows (k a) (d a) (s <| rng := g |>) →
  follows (x <-! on_rng m; k x) (x <-! m; d x) s.
Proof.
  intros Hm. unfold follows, bind_outcome. rewrite run_on_rng, Hm. cbn [fst snd].
  destruct (k a (s <| rng := g |>)) as [r s']. intros (-> & es & Hd & He). split; [done|].
  exists es. split; [by apply drives_from_rng in Hd|]. unfold mbind, M_bind. rewrite Hm. exact He.
Qed.

Lemma follows_after_bit (m : M rand_state bool) k d s w g :
  m (rng s) = (w, g) → follows (k w) d (s <| rng := g |>) →
  follows (x ← on_rng m; k x) (_ ← m; d) s.
Proof.
  intros Hm. unfold follows. rewrite run_on_rng, Hm. cbn [fst snd].
  destruct (k w (s <| rng := g |>)) as [r s']. intros (-> & es & Hd & He). split; [done|].
  exists es. split; [by apply drives_from_rng in Hd|]. unfold mbind, M_bind. rewrite Hm. exact He.
Qed.

Lemma step_follows pattern pid page w s :
  ready n s → registered pid s → follows (step_access pattern pid page w) (mret (Return [page])) s.
Proof.
  intros Hs Hp. unfold follows. pose proof (step_access_runs n pattern pid page w s Hs Hp) as Hx.
  destruct (step_access pattern pid page w s) as [r s']. destruct Hx as (-> & Hd & Hr). split; [done|].
  eexists. split; [exact Hd|]. by rewrite Hr.
Qed.

(** *** Draws return *)

Definition returns {A} (m : M rand_state (outcome A)) : Prop := ∀ g, ∃ a g', m g = (Return a, g').

Lemma Intn_returns k : 0 < k → returns (Intn k).
Proof.
  intros Hk g. unfold Intn. destruct (Z.leb_spec k 0); [lia|].
  destruct (rand_Intn k g) as [i g']. by exists i, g'.
Qed.

Lemma draw_page_returns maxPage : 0 < i64 (Z.of_N maxPage) → returns (draw_page maxPage).
Proof.
  intros Hk g. destruct (Intn_returns _ Hk g) as (i & g' & Hi). exists (Z.to_N i), g'.
  unfold draw_page, bind_outcome, mbind, M_bind. by rewrite Hi.
Qed.

Lemma locality_page_returns ws : ws ≠ [] → returns (locality_page ws).
Proof.
  intros Hws g. assert (0 < Z.of_nat (length ws)) as Hlen by (destruct ws; [done|simpl; lia]).
  unfold locality_page. unfold mbind at 1, M_bind at 1.
  destruct (draw_below (f64_lit 8 10) g) as [[|] g1]; cbn [fst snd]; [|by apply draw_page_returns].
  destruct (Intn_returns _ Hlen g1) as (i & g2 & Hi).
  exists (default 0%N (ws !! Z.to_nat i)), g2. unfold bind_outcome, mbind, M_bind. by rewrite Hi.
Qed.

(** *** The patterns *)

Lemma round_follows pattern pid draw ratio s :
  returns draw → ready n s → registered pid s →
  follows (page <-! on_rng draw; write ← on_rng (draw_below ratio); step_access pattern pid page write)
          (single (page <-! draw; _ ← draw_below ratio; mret (Return page))) s.
Proof.
  intros Hdraw Hs Hp. destruct (Hdraw (rng s)) as (a & g & Ha).
  eapply follows_ext; [|eapply (follows_after_draw _ _ (λ a, _ ← draw_below ratio; mret (Return [a])) _ _ _ Ha)].
  - unfold single, bind_outcome, mbind, M_bind. by rewrite Ha.
  - destruct (draw_below ratio g) as [w g2] eqn:Hw. eapply follows_after_bit; [exact Hw|].
    apply step_follows; [exact Hs|exact Hp].
Qed.

Lemma rounds_follow pattern pid draw ratio count s :
  returns draw → ready n s → registered pid s →
  follows (try_each (λ _ : nat, page <-! on_rng draw; write ← on_rng (draw_below ratio);
             step_access pattern pid page write) (rounds count))
          (collect (page <-! draw; _ ← draw_below ratio; mret (Return page)) (Z.to_nat count)) s.
Proof.
  intros Hdraw Hs Hp. eapply follows_ext; [|eapply (try_each_follows pid); [|done|exact Hp]].
  - rewrite gathers_single. unfold rounds. by rewrite length_seq.
  - intros x s' Hs' Hp'. by apply round_follows.
Qed.

Lemma random_follows pid maxPage count ratio s :
  0 < i64 (Z.of_N maxPage) → ready n s → registered pid s →
  follows (SimulateRandomAccess pid maxPage count ratio) (precomputeRandomAccesses maxPage count ratio) s.
Proof. intros Hk. apply rounds_follow. by apply draw_page_returns. Qed.

Lemma locality_follows pid size count ratio s :
  (0 < size)%N → ready n s → registered pid s →
  follows (SimulateLocalityAccess pid size count ratio) (precomputeLocalityAccesses size count ratio) s.
Proof.
  intros Hk Hs Hp. unfold SimulateLocalityAccess. destruct (N.eqb_spec size 0) as [->|_]; [lia|].
  destruct (collect_returns (draw_page 1000) (N.to_nat size) (rng s)) as (ws & g & Hws & Hlen);
    [by apply draw_page_returns|].
  eapply (follows_after_draw _ _ (λ ws, collect (locality_round ws ratio) (Z.to_nat count)) _ _ _ Hws).
  apply rounds_follow; [|exact Hs|exact Hp]. apply locality_page_returns. destruct ws; [simpl in Hlen; lia|done].
Qed.

Lemma sequential_follows pid start count w s :
  ready n s → registered pid s →
  follows (SimulateSequentialAccess pid start count w) (mret (Return (u64_add start <$> indices count))) s.
Proof.
  intros Hs Hp. eapply follows_ext; [apply (gathers_ret (u64_add start))|].
  apply (try_each_follows pid); [|done..]. intros i s' Hs' Hp'. by apply step_follows.
Qed.

Lemma custom_follows pid l writes s :
  ready n s → registered pid s → follows (SimulateCustomPattern pid l writes) (mret (Return l)) s.
Proof.
  intros Hs Hp. eapply follows_ext; [rewrite (gathers_ret id), list_fmap_id; done|].
  apply (try_each_follows pid); [|done..]. intros i s' Hs' Hp'. by apply step_follows.
Qed.

(** The looping pattern draws bits only: its pages do not depend on the draws. *)
Definition looping_draws (size : N) (ratio : f64) (count : Z) : M rand_state (outcome (list N)) :=
  gathers (λ _, gathers (λ i, _ ← draw_below ratio; mret (Return [i])) (indices size)) (rounds count).

Lemma looping_follows pid size count ratio s :
  ready n s → registered pid s →
  follows (SimulateLoopingAccess pid size count ratio) (looping_draws size ratio count) s.
Proof.
  apply try_each_follows. intros _ s1. apply try_each_follows. intros i s2 Hs Hp.
  destruct (draw_below ratio (rng s2)) as [w g] eqn:Hw. eapply follows_after_bit; [exact Hw|].
  by apply step_follows.
Qed.

Lemma looping_pages size ratio count g :
  (looping_draws size ratio count g).1 = Return (mjoin ((λ _, indices size) <$> rounds count)).
Proof.
  apply (gathers_pages _ (λ _, indices size)). intros _ g1.
  rewrite (gathers_pages _ (λ i, [i])) by done. f_equal. induction (indices size) as [|i l IH]; [done|].
  simpl. by f_equal.
Qed.
End patterns.

(** ** Scenarios *)

Section scenarios.
Context `{Env : GoEnv} `{Rand : GoRand}.
Variable n : Z.
Implicit Types (s : Sim.t) (pid : string) (es : list TraceEntry.t) (g : rand_state).
Import Sim.

(** [m], run from [s], succeeds after creating at most two processes and
    accessing the pages drawn by [draw]. *)
Definition plays (m : M Sim.t (outcome unit)) (draw : M rand_state (outcome (list N))) s : Prop :=
  let '(r, s') := m s in
  r = Return () ∧ ∃ k es, (k ≤ 2)%N ∧ drives n k es s s' ∧ (draw (rng s)).1 = Return (pages es).

Definition room k s : Prop := (PM.nextPID (processManager s) + k < 2 ^ 64)%N.

(** The accesses counted so far. *)
Definition total s : Z := i64 ((tally (processManager s)).1 + (tally (processManager s)).2).

Lemma drives_total k es s s' : drives n k es s s' → total s' = i64 (total s + Z.of_nat (length es)).
Proof. intros Hd. unfold total. rewrite (counted_total _ _ _ (drives_tally _ _ _ _ _ Hd)). by rewrite i64_add_l. Qed.

Lemma drives_quiet k s s' : drives n k [] s s' → total s' = total s.
Proof.
  intros Hd. rewrite (drives_total _ _ _ _ Hd), Z.add_0_r. apply i64_idemp.
Qed.

Lemma plays_ext m draw draw' s : (draw (rng s)).1 = (draw' (rng s)).1 → plays m draw s → plays m draw' s.
Proof. unfold plays. by intros ->. Qed.

Lemma created_plays name priority virtualPages m draw s :
  ready n s → room 2 s →
  (∀ pid s, ready n s → registered pid s → follows n (m pid) draw s) →
  plays (pid <-! create name priority virtualPages; m pid) draw s.
Proof.
  intros Hs Hroom Hm. unfold plays. unfold bind_outcome, mbind, M_bind.
  pose proof (create_runs n name priority virtualPages s Hs ltac:(unfold room in Hroom; lia)) as Hc.
  cbv zeta in Hc. destruct (create name priority virtualPages s) as [r s1].
  destruct Hc as (-> & Hd & Hp & Hg). cbn [fst snd].
  pose proof (Hm _ s1 (drives_ready _ _ _ _ _ Hd) Hp) as Hf. unfold follows in Hf.
  destruct (m _ s1) as [r s2]. destruct Hf as (-> & es & Hd2 & He). split; [done|].
  exists 1%N, es. split_and!; [lia|by apply (drives_trans n 1 0 [] es s s1 s2)|]. by rewrite <-Hg, He.
Qed.

Lemma mixed_plays s : ready n s → room 2 s → plays runMixedScenario precomputeMixedAccesses s.
Proof.
  intros Hs Hroom.
  eapply plays_ext; [|apply (created_plays _ _ _ _
    (l1 <-! mret (Return (u64_add 0 <$> indices 20));
     l2 <-! (l3 <-! precomputeRandomAccesses 100 30 (f64_lit 5 10);
             l4 <-! precomputeLocalityAccesses 10 30 (f64_lit 3 10); mret (Return (l3 ++ l4)));
     mret (Return (l1 ++ l2))) s Hs Hroom)].
  - unfold precomputeMixedAccesses, precomputeRandomAccesses, precomputeLocalityAccesses.
    change (Z.to_nat 30) with 30%nat. change (N.to_nat 10) with 10%nat.
    change (u64_add 0 <$> indices 20) with (indices 20).
    unfold bind_outcome, mbind, M_bind. cbn [fst snd mret M_ret].
    destruct (collect (random_round 100 (f64_lit 5 10)) 30 (rng s)) as [[l3|e|] g1]; [|done|done].
    cbn [fst snd]. destruct (collect (draw_page 1000) 10 g1) as [[ws|e|] g2]; [|done|done].
    cbn [fst snd]. by destruct (collect (locality_round ws (f64_lit 3 10)) 30 g2) as [[l4|e|] g3].
  - intros pid s1 Hs1 Hp1. apply follows_seq; [by apply sequential_follows|]. intros es2 s2 Hd2.
    pose proof (drives_ready _ _ _ _ _ Hd2) as Hs2. pose proof (drives_registered _ _ _ _ _ Hd2 _ Hp1) as Hp2.
    apply follows_seq; [by apply random_follows|]. intros es3 s3 Hd3.
    apply locality_follows; [done|apply Hd3|by apply (drives_registered _ _ _ _ _ Hd3)].
Qed.

Lemma forked_follows parent m draw s :
  ready n s → registered parent s → room 1 s →
  (∀ child s, ready n s → registered parent s → registered child s → follows n (m child) draw s) →
  let '(r, s') := (child <-! fork parent; m child) s in
  r = Return () ∧ ∃ es, drives n 1 es s s' ∧ draw (rng s) = (Return (pages es), rng s').
Proof.
  intros Hs Hp Hroom Hm. unfold bind_outcome, mbind, M_bind.
  pose proof (fork_runs n parent s Hs Hp Hroom) as Hc.
  cbv zeta in Hc. destruct (fork parent s) as [r s1]. destruct Hc as (-> & Hd & Hc & Hg). cbn [fst snd].
  pose proof (Hm _ s1 (drives_ready _ _ _ _ _ Hd) (drives_registered _ _ _ _ _ Hd _ Hp) Hc) as Hf.
  unfold follows in Hf. destruct (m _ s1) as [r s2]. destruct Hf as (-> & es & Hd2 & He). split; [done|].
  exists es. split; [by apply (drives_trans n 1 0 [] es s s1 s2)|]. by rewrite <-Hg.
Qed.

(** The four random phases after the fork. *)
Definition fork_draws : M rand_state (outcome (list N)) :=
  l1 <-! precomputeRandomAccesses 30 10 (f64_lit 0 1);
  l2 <-! (l2 <-! precomputeRandomAccesses 30 10 (f64_lit 0 1);
          l3 <-! (l3 <-! precomputeRandomAccesses 30 10 (f64_lit 1 1);
                  l4 <-! precomputeRandomAccesses 30 10 (f64_lit 1 1); mret (Return (l3 ++ l4)));
          mret (Return (l2 ++ l3)));
  mret (Return (l1 ++ l2)).

Lemma fork_draws_eq g l g' :
  fork_draws g = (Return l, g') → (precomputeForkCoWAccesses g).1 = Return (indices 30 ++ l).
Proof.
  unfold fork_draws, precomputeForkCoWAccesses, precomputeRandomAccesses, bind_outcome, mbind, M_bind.
  change (Z.to_nat 10) with 10%nat.
  destruct (collect (random_round 30 (f64_lit 0 1)) 10 g) as [[l1|e|] g1]; [|done|done]. cbn [fst snd].
  destruct (collect (random_round 30 (f64_lit 0 1)) 10 g1) as [[l2|e|] g2]; [|done|done]. cbn [fst snd].
  destruct (collect (random_round 30 (f64_lit 1 1)) 10 g2) as [[l3|e|] g3]; [|done|done]. cbn [fst snd].
  destruct (collect (random_round 30 (f64_lit 1 1)) 10 g3) as [[l4|e|] g4]; [|done|done]. cbn [fst snd].
  by intros [= <- _].
Qed.

Lemma phases_follow parent child s :
  ready n s → registered parent s → registered child s →
  follows n (_ <-! SimulateRandomAccess parent 30 10 (f64_lit 0 1);
             _ <-! SimulateRandomAccess child 30 10 (f64_lit 0 1);
             _ <-! SimulateRandomAccess child 30 10 (f64_lit 1 1);
             SimulateRandomAccess parent 30 10 (f64_lit 1 1)) fork_draws s.
Proof.
  intros Hs Hp Hc.
  apply follows_seq; [by apply random_follows|]. intros es1 s1 [Hs1 Hr1 _ _ _ _ _].
  apply follows_seq; [by apply random_follows; auto|]. intros es2 s2 [Hs2 Hr2 _ _ _ _ _].
  apply follows_seq; [by apply random_follows; auto|]. intros es3 s3 [Hs3 Hr3 _ _ _ _ _].
  apply random_follows; [done|auto..].
Qed.

Lemma fork_cow_plays s : ready n s → room 2 s → plays runForkCoWScenario precomputeForkCoWAccesses s.
Proof.
  intros Hs Hroom. unfold plays, runForkCoWScenario. unfold bind_outcome at 1. unfold mbind at 1, M_bind at 1.
  pose proof (create_runs n "Parent" 1 1000 s Hs ltac:(unfold room in Hroom; lia)) as Hc. cbv zeta in Hc.
  destruct (create "Parent" 1 1000 s) as [r s1]. destruct Hc as (-> & Hd1 & Hp & Hg1). cbn [fst snd].
  set (parent := PM.pid_of _) in *. unfold bind_outcome at 1. unfold mbind at 1, M_bind at 1.
  pose proof (sequential_follows n parent 0 30 false s1 (drives_ready _ _ _ _ _ Hd1) Hp) as Hf.
  unfold follows in Hf. destruct (SimulateSequentialAccess parent 0 30 false s1) as [r s2].
  destruct Hf as (-> & es1 & Hd2 & [= He1 Hg2]). cbn [fst snd].
  pose proof (drives_trans n 1 0 _ _ s s1 s2 Hd1 Hd2) as Hd.
  assert (room 1 s2) as Hroom2 by (unfold room; rewrite (drives_next _ _ _ _ _ Hd); unfold room in Hroom; lia).
  pose proof (forked_follows parent _ fork_draws s2 (drives_ready _ _ _ _ _ Hd)
    (drives_registered _ _ _ _ _ Hd2 _ Hp) Hroom2 (λ child s, phases_follow parent child s)) as Hf.
  revert Hf. match goal with |- context [let '(_, _) := ?x in _] => destruct x as [r s3] end.
  intros (-> & es2 & Hd3 & He2). split; [done|].
  exists 2%N, (es1 ++ es2). split_and!; [done|by apply (drives_trans n 1 1 _ _ s s2 s3)|].
  rewrite <-Hg2, Hg1 in He2. rewrite (fork_draws_eq _ _ _ He2), pages_app. by rewrite <-He1.
Qed.

(** *** Every scenario *)

Lemma dispatch_plays scenario s :
  ready n s → room 2 s → scenario ∈ GetAvailableScenarios → plays (dispatch scenario) (precompute scenario) s.
Proof.
  intros Hs Hroom Hin. unfold GetAvailableScenarios in Hin.
  repeat (apply elem_of_cons in Hin as [->|Hin]); [..|by apply not_elem_of_nil in Hin].
  - apply created_plays; [done..|]. intros. by apply sequential_follows.
  - apply created_plays; [done..|]. intros. by apply random_follows.
  - apply created_plays; [done..|]. intros. by apply locality_follows.
  - eapply plays_ext; [|apply created_plays; [done..|intros; by apply looping_follows]]. apply looping_pages.
  - by apply mixed_plays.
  - by apply fork_cow_plays.
  - apply created_plays; [done..|]. intros. by apply random_follows.
Qed.

Lemma unknown_scenario scenario :
  scenario ∉ GetAvailableScenarios →
  dispatch scenario = mret (Fail (ErrUnknownScenario scenario)) ∧
  precompute scenario = mret (Fail (ErrUnknownScenario scenario)).
Proof.
  unfold GetAvailableScenarios, dispatch, precompute. rewrite !not_elem_of_cons. intros (? & ? & ? & ? & ? & ? & ? & _).
  repeat match goal with H : scenario ≠ _ |- _ => apply String.eqb_neq in H; rewrite H; clear H end. done.
Qed.

(** *** The calls around a scenario *)

(** Calls of the memory manager that leave processes and tallies alone. *)
Definition hushed {A} (m : M MM.t A) : Prop :=
  keeps n (λ _, True) m ∧ related same_registry m ∧ related same_ids m.

Lemma hushed_drives {A} (m : M MM.t A) s :
  hushed m → ready n s →
  let '(_, s') := on_pm (PM.on_mm m) s in drives n 0 [] s s' ∧ rng s' = rng s.
Proof.
  intros (Hk & Hr & Hi) [Hn Ha]. unfold on_pm, PM.on_mm.
  specialize (Hk _ (agrees_wf _ _ Ha)) as [Hw _]. specialize (Hr (PM.memoryManager (processManager s))).
  specialize (Hi (PM.memoryManager (processManager s))). destruct (m (PM.memoryManager _)) as [a mm]. cbn [snd] in *.
  apply same_ids_names in Hi as [_ Ht]. split; [|done]. constructor; simpl; try done.
  - split; [done|]. by apply agrees_mm.
  - by rewrite N.add_0_r.
  - destruct (recording s); by rewrite app_nil_r.
  - exact (eq_ind_r (counted 0 (tally (processManager s))) (counted_refl _) Ht).
Qed.

Lemma hushed_now : hushed MM.now.
Proof.
  split_and!; [apply keeps_now| |apply same_ids_on_heap]. intros s. by apply counts_registry, counts_now.
Qed.

Lemma hushed_SetFutureAccesses accs : hushed (MM.SetFutureAccesses accs).
Proof.
  split_and!; [apply keeps_SetFutureAccesses| |]; intros s; unfold MM.SetFutureAccesses; cbn;
    by destruct (MM.algorithm s).
Qed.

Lemma GetMetrics_state (s : MM.t) : (MM.GetMetrics s).2 = (MM.now s).2.
Proof. done. Qed.

Lemma hushed_GetMetrics : hushed MM.GetMetrics.
Proof.
  split_and!; [apply keeps_GetMetrics|..]; intros s; rewrite GetMetrics_state; apply hushed_now.
Qed.

Lemma GetMetrics_fields (s : MM.t) :
  let m := (MM.GetMetrics s).1 in
  MetricsSnapshot.TotalAccesses m = Metrics.TotalAccesses (MM.metrics s) ∧
  MetricsSnapshot.PageFaults m = Metrics.PageFaults (MM.metrics s) ∧
  MetricsSnapshot.PageHits m = Metrics.PageHits (MM.metrics s) ∧
  MetricsSnapshot.PageFaultRate m = Metrics.GetPageFaultRate (MM.metrics s).
Proof.
  unfold MM.GetMetrics, MM.now. rewrite run_on_heap. destruct (time_now (MM.hp s)) as [t h].
  unfold gets. cbn [fst]. simpl. by destruct (MM.page_counts _) as [[? ?] ?].
Qed.

Lemma prepare_drives scenario s :
  ready n s → (∃ l, precomputeAccesses scenario s = Return l) →
  let '(r, s') := prepare scenario s in r = Return () ∧ drives n 0 [] s s' ∧ rng s' = rng s.
Proof.
  intros Hs [l Hl]. unfold prepare. rewrite run_gets. destruct (_ || _); [|by split_and!; [|apply drives_refl|]].
  unfold precomputeAndSetOptimal, bind_outcome. rewrite run_gets, Hl. unfold mbind at 1, M_bind at 1.
  pose proof (hushed_drives (MM.SetFutureAccesses l) s (hushed_SetFutureAccesses l) Hs) as Hd.
  by destruct (on_pm (PM.on_mm (MM.SetFutureAccesses l)) s) as [[] s'].
Qed.

Lemma finish_drives scenario start err s :
  ready n s →
  let '((res, e), s') := finish scenario start err s in
  e = err ∧ ScenarioResult.Success res = bool_decide (err = None) ∧ drives n 0 [] s s' ∧
  ∃ m, ScenarioResult.Metrics res = Some m ∧ MetricsSnapshot.TotalAccesses m = total s.
Proof.
  intros Hs. unfold finish. unfold mbind at 1, M_bind at 1. unfold now.
  pose proof (hushed_drives MM.now s hushed_now Hs) as Hd. destruct (on_pm (PM.on_mm MM.now) s) as [stop s1].
  destruct Hd as [Hd1 _]. cbn [fst snd]. unfold mbind at 1, M_bind at 1.
  pose proof (hushed_drives MM.GetMetrics s1 hushed_GetMetrics (drives_ready _ _ _ _ _ Hd1)) as Hd.
  pose proof (GetMetrics_fields (PM.memoryManager (processManager s1))) as (Hm & _).
  unfold on_pm, PM.on_mm in *. destruct (MM.GetMetrics (PM.memoryManager (processManager s1))) as [m mm].
  cbn [fst snd] in *. destruct Hd as [Hd2 _]. unfold mret, M_ret.
  split_and!; [done|done|by apply (drives_trans n 0 0 [] [] s s1)|]. exists m. split; [done|]. rewrite Hm.
  rewrite (wf_metrics _ _ (agrees_wf _ _ (proj2 (drives_ready _ _ _ _ _ Hd1)))).
  exact (drives_quiet _ _ _ Hd1).
Qed.

(** The draws of a scenario do not depend on where the generator stands. *)
Lemma precompute_defined scenario s :
  ready n s → room 2 s → scenario ∈ GetAvailableScenarios → ∃ l, precomputeAccesses scenario s = Return l.
Proof.
  intros Hs Hroom Hin. set (s0 := s <| rng := rand_New (seed s) |>).
  assert (plays (dispatch scenario) (precompute scenario) s0) as Hp by (by apply dispatch_plays). unfold plays in Hp.
  destruct (dispatch scenario s0) as [r s']. destruct Hp as (_ & k & es & _ & _ & Hp).
  exists (pages es). exact Hp.
Qed.

(** Any scenario, known or not: a run makes some accesses and creates at most
    two processes. *)
Lemma RunScenario_grows scenario s :
  ready n s → room 2 s → ∃ k es, (k ≤ 2)%N ∧ drives n k es s (RunScenario scenario s).2.
Proof.
  intros Hs Hroom. unfold RunScenario. unfold mbind at 1, M_bind at 1. unfold now.
  pose proof (hushed_drives MM.now s hushed_now Hs) as Hd. destruct (on_pm (PM.on_mm MM.now) s) as [start s1].
  destruct Hd as [Hd1 _]. cbn [fst snd]. unfold mbind at 1, M_bind at 1.
  pose proof (drives_ready _ _ _ _ _ Hd1) as Hs1.
  assert (∀ s', drives n 0 [] s s' → room 2 s') as Hroom'.
  { intros s' Hd. unfold room. rewrite (drives_next _ _ _ _ _ Hd), N.add_0_r. exact Hroom. }
  assert (∀ err k es s3, (k ≤ 2)%N → drives n k es s s3 →
    ∃ k es, (k ≤ 2)%N ∧ drives n k es s (finish scenario start err s3).2) as Hend.
  { intros err k es s3 Hk Hd3. pose proof (finish_drives scenario start err s3 (drives_ready _ _ _ _ _ Hd3)) as Hf.
    destruct (finish scenario start err s3) as [[res e] s4]. destruct Hf as (_ & _ & Hd4 & _).
    exists (k + 0)%N, (es ++ []). split; [lia|]. by eapply drives_trans. }
  destruct (decide (scenario ∈ GetAvailableScenarios)) as [Hin|Hnot].
  - destruct (precompute_defined scenario s1 Hs1 (Hroom' _ Hd1) Hin) as [l Hl].
    pose proof (prepare_drives scenario s1 Hs1 (ex_intro _ l Hl)) as Hp.
    destruct (prepare scenario s1) as [r s2]. destruct Hp as (-> & Hd2 & _). cbn [fst snd].
    pose proof (drives_trans n 0 0 _ _ s s1 s2 Hd1 Hd2) as Hd. unfold mbind at 1, M_bind at 1.
    pose proof (dispatch_plays scenario s2 (drives_ready _ _ _ _ _ Hd) (Hroom' _ Hd) Hin) as Hp. unfold plays in Hp.
    destruct (dispatch scenario s2) as [r s3]. destruct Hp as (-> & k & es & Hk & Hd3 & _). cbn [fst snd].
    apply (Hend None (0 + k)%N ([] ++ es) s3); [lia|]. by eapply drives_trans.
  - destruct (unknown_scenario scenario Hnot) as [Hdis Hpre]. unfold prepare. rewrite run_gets.
    assert (precomputeAndSetOptimal scenario s1 = (Fail (ErrUnknownScenario scenario), s1)) as Hset.
    { unfold precomputeAndSetOptimal, bind_outcome. rewrite run_gets. unfold precomputeAccesses. by rewrite Hpre. }
    destruct (_ || _).
    + rewrite Hset. exists 0%N, []. split; [lia|exact Hd1].
    + rewrite Hdis. by apply (Hend (Some (ErrUnknownScenario scenario)) 0%N [] s1).
Qed.

Lemma RunScenario_drives scenario s :
  ready n s → room 2 s → rng s = rand_New (seed s) → scenario ∈ GetAvailableScenarios →
  let '(r, s') := RunScenario scenario s in
  ∃ res m k es, r = Return (res, None) ∧ ScenarioResult.Success res = true ∧
    ScenarioResult.Metrics res = Some m ∧ MetricsSnapshot.TotalAccesses m = total s' ∧
    (k ≤ 2)%N ∧ drives n k es s s' ∧ precomputeAccesses scenario s = Return (pages es).
Proof.
  intros Hs Hroom Hseed Hin. unfold RunScenario. unfold mbind at 1, M_bind at 1. unfold now.
  pose proof (hushed_drives MM.now s hushed_now Hs) as Hd. destruct (on_pm (PM.on_mm MM.now) s) as [start s1].
  destruct Hd as [Hd1 Hg1]. cbn [fst snd]. unfold mbind at 1, M_bind at 1.
  assert (∀ es s', drives n 0 es s s' → room 2 s') as Hroom'.
  { intros es s' Hd. unfold room. rewrite (drives_next _ _ _ _ _ Hd), N.add_0_r. exact Hroom. }
  destruct (precompute_defined scenario s Hs Hroom Hin) as [l Hl].
  assert (precomputeAccesses scenario s1 = Return l) as Hl1
    by (rewrite <-Hl; unfold precomputeAccesses; by rewrite (drives_seed _ _ _ _ _ Hd1)).
  pose proof (prepare_drives scenario s1 (drives_ready _ _ _ _ _ Hd1) ltac:(eauto)) as Hp.
  destruct (prepare scenario s1) as [r s2]. destruct Hp as (-> & Hd2 & Hg2). cbn [fst snd].
  pose proof (drives_trans n 0 0 _ _ s s1 s2 Hd1 Hd2) as Hd. unfold mbind at 1, M_bind at 1.
  pose proof (dispatch_plays scenario s2 (drives_ready _ _ _ _ _ Hd) (Hroom' _ _ Hd) Hin) as Hp. unfold plays in Hp.
  destruct (dispatch scenario s2) as [r s3]. destruct Hp as (-> & k & es & Hk & Hd3 & Hes). cbn [fst snd].
  unfold mbind at 1, M_bind at 1. pose proof (finish_drives scenario start None s3 (drives_ready _ _ _ _ _ Hd3)) as Hf.
  destruct (finish scenario start None s3) as [[res e] s4].
  destruct Hf as (-> & Hok & Hd4 & m & Hm & Ht). unfold mret, M_ret. cbn [fst snd].
  exists res, m, k, es. split_and!; try done.
  - by rewrite Ht, (drives_quiet _ _ _ Hd4).
  - pose proof (drives_trans n _ _ _ _ s s2 s3 Hd Hd3) as Hd03.
    pose proof (drives_trans n _ _ _ _ s s3 s4 Hd03 Hd4) as Hd04.
    rewrite app_nil_r, N.add_0_r in Hd04. exact Hd04.
  - unfold precomputeAccesses. by rewrite <-Hseed, <-Hg1, <-Hg2.
Qed.
End scenarios.
