(* ===== verification/SimulatorProps.v ===== *)
(** * What the simulator guarantees

    The accesses of a scenario are those computed for the Optimal policies in
    advance; a recorded trace replays to the same state; the comparison ranks
    every algorithm. *)

From stdpp Require Import sorting.
From S2P Require Import Prelude Models Heap FrameTable Policy Policies PoliciesSpec Algorithms.
From S2P Require Import Tlb PageTable MultiLevel Advanced Cow Manager ManagerInv ManagerOps ManagerSteps.
From S2P Require Import ManagerCounts ManagerEffects ManagerCoherence ManagerRuns ManagerCow ProcMan ProcManProps.
From S2P Require Import Simulator SimulatorSteps SimulatorRuns.
Local Open Scope Z_scope.

(** ** Recording and replay *)

Section replay.
Context `{Env : GoEnv} `{Rand : GoRand}.
Implicit Types (s x : Sim.t) (es : list TraceEntry.t).
Import Sim.

Inductive pattern : Type :=
| PSequential (pid : string) (startPage numPages : N) (write : bool)
| PRandom (pid : string) (maxPage : N) (numAccesses : Z) (writeRatio : f64)
| PLocality (pid : string) (workingSetSize : N) (numAccesses : Z) (writeRatio : f64)
| PLooping (pid : string) (loopSize : N) (numIterations : Z) (writeRatio : f64)
| PCustom (pid : string) (pages : list N) (writePages : gmap N bool).

Definition simulate (p : pattern) : M Sim.t (outcome unit) :=
  match p with
  | PSequential pid startPage numPages write => SimulateSequentialAccess pid startPage numPages write
  | PRandom pid maxPage numAccesses writeRatio => SimulateRandomAccess pid maxPage numAccesses writeRatio
  | PLocality pid size numAccesses writeRatio => SimulateLocalityAccess pid size numAccesses writeRatio
  | PLooping pid loopSize numIterations writeRatio => SimulateLoopingAccess pid loopSize numIterations writeRatio
  | PCustom pid pages writePages => SimulateCustomPattern pid pages writePages
  end.

Lemma replay_app es1 es2 x :
  replay (es1 ++ es2) x =
  let '(r, x1) := replay es1 x in match r with Ok _ => replay es2 x1 | Err e => (Err e, x1) end.
Proof.
  revert x. induction es1 as [|e es1 IH]; intros x; [done|]. cbn [replay app].
  unfold mbind, M_bind. destruct (on_pm _ x) as [[u|c] x1]; cbn [fst snd]; [apply IH|done].
Qed.

(** What [m] records, replayed from a simulator with the same process manager,
    brings that process manager to the same state, and fails only if [m] did. *)
Definition replayable {A} (m : M Sim.t (outcome A)) : Prop := ∀ s, recording s = true →
  let '(r, s') := m s in
  recording s' = true ∧ seed s' = seed s ∧ ∃ es, traceEntries s' = traceEntries s ++ es ∧
  ∀ x, processManager x = processManager s →
    let '(r', x') := replay es x in
    processManager x' = processManager s' ∧ (∀ e, r' = Err e → ∃ e', r = Fail e').

Lemma replayable_here {A} (r : outcome A) : replayable (mret r).
Proof. intros s Hs. split_and!; [done..|]. exists []. split; [by rewrite app_nil_r|]. intros x Hx. by split. Qed.

Lemma replayable_stopped {A} es (r : outcome A) s s' :
  recording s' = true → seed s' = seed s → traceEntries s' = traceEntries s ++ es →
  (∀ x, processManager x = processManager s →
    let '(r', x') := replay es x in
    processManager x' = processManager s' ∧ (∀ e, r' = Err e → ∃ e', r = Fail e')) →
  let '(r, s') := (mret r : M Sim.t (outcome A)) s' in
  recording s' = true ∧ seed s' = seed s ∧ ∃ es, traceEntries s' = traceEntries s ++ es ∧
  ∀ x, processManager x = processManager s →
    let '(r', x') := replay es x in
    processManager x' = processManager s' ∧ (∀ e, r' = Err e → ∃ e', r = Fail e').
Proof. unfold mret, M_ret. eauto. Qed.

Lemma replayable_bind {A B} (m : M Sim.t (outcome A)) (k : A → M Sim.t (outcome B)) :
  replayable m → (∀ a, replayable (k a)) → replayable (a <-! m; k a).
Proof.
  intros Hm Hk s Hs. unfold bind_outcome, mbind, M_bind. specialize (Hm s Hs).
  destruct (m s) as [r s1]. destruct Hm as (Hs1 & Hseed1 & es1 & Ht1 & H1). cbn [fst snd].
  destruct r as [a|e|].
  - specialize (Hk a s1 Hs1). destruct (k a s1) as [r s2]. destruct Hk as (Hs2 & Hseed2 & es2 & Ht2 & H2).
    split_and!; [done|congruence|]. exists (es1 ++ es2). split; [by rewrite Ht2, Ht1, app_assoc|].
    intros x Hx. rewrite replay_app. specialize (H1 x Hx). destruct (replay es1 x) as [[u|e] x1].
    + destruct H1 as [H1 _]. by apply H2.
    + destruct H1 as [_ H1]. by destruct (H1 e eq_refl).
  - apply (replayable_stopped es1); [done..|]. intros x Hx. specialize (H1 x Hx).
    destruct (replay es1 x). destruct H1 as [H1 _]. by eauto.
  - apply (replayable_stopped es1); [done..|]. intros x Hx. specialize (H1 x Hx).
    destruct (replay es1 x). destruct H1 as [H1 H1']. split; [done|]. intros e He. by destruct (H1' e He).
Qed.

Lemma replayable_draw {A B} (m : M rand_state (outcome A)) (k : A → M Sim.t (outcome B)) :
  (∀ a, replayable (k a)) → replayable (a <-! on_rng m; k a).
Proof.
  intros Hk. apply replayable_bind; [|done]. intros s Hs. unfold on_rng.
  destruct (m (rng s)) as [r g]. split_and!; [done..|]. exists []. split; [by rewrite app_nil_r|].
  intros x Hx. by split.
Qed.

Lemma replayable_bit {B} (m : M rand_state bool) (k : bool → M Sim.t (outcome B)) :
  (∀ b, replayable (k b)) → replayable (b ← on_rng m; k b).
Proof.
  intros Hk s Hs. rewrite run_on_rng. set (s1 := s <| rng := (m (rng s)).2 |>).
  exact (Hk (m (rng s)).1 s1 Hs).
Qed.

Lemma replayable_access pattern pid page w : replayable (step_access pattern pid page w).
Proof.
  intros s Hs. unfold step_access, accessMemory. unfold mbind at 1, M_bind at 1. rewrite run_modify, Hs.
  unfold on_pm. change (processManager (s <| traceEntries ::= _ |>)) with (processManager s).
  destruct (PM.AccessMemory pid page w (processManager s)) as [r pm] eqn:Hr. cbn [fst snd].
  assert (∀ x, processManager x = processManager s →
    replay [TraceEntry.mk pid page w] x =
    (match r with Ok _ => Ok () | Err c => Err (ErrWrap (replay_failed (TraceEntry.mk pid page w)) c) end,
     x <| processManager := pm |>)) as Hreplay.
  { intros x Hx. cbn [replay]. rewrite run_on_pm, Hx. cbn [TraceEntry.ProcessID TraceEntry.VirtualPage TraceEntry.Write].
    rewrite Hr. by destruct r. }
  destruct r as [u|e]; unfold sleep, mret, M_ret, mbind, M_bind; cbn [fst snd]; (split_and!; [done..|]);
    exists [TraceEntry.mk pid page w]; (split; [done|]); intros x Hx; rewrite (Hreplay x Hx); by eauto.
Qed.

Lemma replayable_each {X} (f : X → M Sim.t (outcome unit)) (l : list X) :
  (∀ a, replayable (f a)) → replayable (try_each f l).
Proof.
  intros Hf. induction l as [|a l IH]; [apply replayable_here|]. cbn [try_each]. by apply replayable_bind.
Qed.

Lemma replayable_rounds pattern pid draw ratio l :
  replayable (try_each (λ _ : nat, page <-! on_rng draw; write ← on_rng (draw_below ratio);
                step_access pattern pid page write) l).
Proof.
  apply replayable_each. intros round. apply replayable_draw. intros page. apply replayable_bit. intros w.
  apply replayable_access.
Qed.

Lemma replayable_simulate p : replayable (simulate p).
Proof.
  destruct p; cbn [simulate].
  - apply replayable_each. intros i. apply replayable_access.
  - apply replayable_rounds.
  - unfold SimulateLocalityAccess. destruct (_ =? _)%N; [apply replayable_here|].
    apply replayable_draw. intros ws. apply replayable_rounds.
  - apply replayable_each. intros round. apply replayable_each. intros i. apply replayable_bit. intros w.
    apply replayable_access.
  - apply replayable_each. intros page. apply replayable_access.
Qed.
End replay.

(** ** Sorting *)

Section sorting.
Context {A : Type} (less : A → A → bool) (key : A → Z).
Implicit Types (x y : A) (l rs : list A).

Lemma sink_perm x rs : sink less x rs ≡ₚ x :: rs.
Proof.
  induction rs as [|y rs IH]; [done|]. cbn [sink]. destruct (less x y); [|done].
  rewrite IH. by constructor.
Qed.

Lemma sort_slice_perm l : sort_slice less l ≡ₚ l.
Proof.
  unfold sort_slice. rewrite reverse_Permutation.
  assert (∀ rs, foldl (λ rs x, sink less x rs) rs l ≡ₚ rs ++ l) as H; [|apply (H [])].
  induction l as [|x l IH]; intros rs; [by rewrite app_nil_r|]. cbn [foldl]. rewrite IH, sink_perm.
  by rewrite <-Permutation_middle.
Qed.

(** [rs] is the sorted prefix, last element first. *)
Definition descending rs : Prop := StronglySorted (λ x y, key y ≤ key x) rs.

Lemma sink_descending x rs :
  (∀ y, y ∈ rs → less x y = (key x <? key y)) → descending rs → descending (sink less x rs).
Proof.
  intros Hless Hs. induction Hs as [|y rs Hs IH Hy]; [repeat constructor|]. cbn [sink].
  rewrite (Hless y) by set_solver. destruct (Z.ltb_spec (key x) (key y)).
  - constructor; [apply IH; set_solver|]. apply Forall_forall. intros z Hz.
    rewrite sink_perm in Hz. apply elem_of_cons in Hz as [->|Hz]; [lia|]. rewrite Forall_forall in Hy. by apply Hy.
  - constructor; [by constructor|]. constructor; [done|]. eapply Forall_impl; [exact Hy|]. cbn. lia.
Qed.

Lemma sort_slice_sorted l :
  (∀ x y, x ∈ l → y ∈ l → less x y = (key x <? key y)) →
  StronglySorted (λ x y, key x ≤ key y) (sort_slice less l).
Proof.
  intros Hless. unfold sort_slice.
  assert (∀ rs l', (∀ x, x ∈ rs ∨ x ∈ l' → x ∈ l) → descending rs →
    descending (foldl (λ rs x, sink less x rs) rs l')) as H.
  { intros rs l'. revert rs. induction l' as [|x l' IH]; intros rs Hin Hs; [done|]. cbn [foldl]. apply IH.
    - intros y Hy. rewrite sink_perm in Hy. apply Hin. set_solver.
    - apply sink_descending; [|done]. intros y Hy. apply Hless; apply Hin; set_solver. }
  specialize (H [] l ltac:(set_solver) ltac:(constructor)).
  induction H as [|x rs Hs IH Hx]; [constructor|]. rewrite reverse_cons. apply StronglySorted_app_2; [|done|repeat constructor].
  intros y z Hy Hz. apply list_elem_of_singleton in Hz as ->. rewrite reverse_Permutation in Hy.
  rewrite Forall_forall in Hx. by apply Hx.
Qed.
End sorting.

(** The fault rates of runs with as many accesses as a scenario makes are
    ordered like their numbers of faults: rounding merges no two of them. *)
Definition rates (accesses : Z) : list (Z * f64) := (λ f, (f, rate f accesses)) <$> seqZ 0 (accesses + 1).
Definition reflects_rates (test : f64 → f64 → bool) (counts : Z → Z → bool) (accesses : Z) : bool :=
  let rs := rates accesses in
  forallb (λ a, forallb (λ b, Bool.eqb (test a.2 b.2) (counts a.1 b.1)) rs) rs.
Definition scenario_lengths : list Z := [70; 75; 80; 100; 200].

Lemma rates_reflect test counts accesses f g :
  forallb (reflects_rates test counts) scenario_lengths = true →
  accesses ∈ scenario_lengths → 0 ≤ f ≤ accesses → 0 ≤ g ≤ accesses →
  test (rate f accesses) (rate g accesses) = counts f g.
Proof.
  intros Hall Hin Hf Hg. rewrite forallb_forall in Hall. specialize (Hall _ (proj1 (list_elem_of_In _ _) Hin)).
  unfold reflects_rates in Hall. rewrite forallb_forall in Hall.
  assert (∀ k, 0 ≤ k ≤ accesses → In (k, rate k accesses) (rates accesses)) as Hk.
  { intros k Hk. apply list_elem_of_In, list_elem_of_fmap. exists k. split; [done|]. apply elem_of_seqZ. lia. }
  specialize (Hall _ (Hk f Hf)). rewrite forallb_forall in Hall. specialize (Hall _ (Hk g Hg)).
  by apply eqb_prop in Hall.
Qed.

Lemma rates_monotone accesses f g :
  accesses ∈ scenario_lengths → 0 ≤ f ≤ accesses → 0 ≤ g ≤ accesses →
  f64_ltb (rate f accesses) (rate g accesses) = (f <? g).
Proof. apply (rates_reflect f64_ltb Z.ltb). vm_compute. reflexivity. Qed.
Lemma rates_injective accesses f g :
  accesses ∈ scenario_lengths → 0 ≤ f ≤ accesses → 0 ≤ g ≤ accesses →
  f64_eqb (rate f accesses) (rate g accesses) = (f =? g).
Proof. apply (rates_reflect f64_eqb Z.eqb). vm_compute. reflexivity. Qed.

(** ** Comparisons *)

Section compare.
Context `{Env : GoEnv} `{Rand : GoRand}.
Import Sim.

Lemma collect_length {A} (m : M rand_state (outcome A)) k g l g' :
  collect m k g = (Return l, g') → length l = k.
Proof.
  revert g l g'. induction k as [|k IH]; intros g l g'; [by intros [= <- _]|]. cbn [collect].
  unfold bind_outcome, mbind, M_bind. destruct (m g) as [[a|e|] g1]; [|done|done]. cbn [fst snd].
  destruct (collect m k g1) as [[r|e|] g2] eqn:Hr; [|done|done]. intros [= <- _]. simpl. f_equal. by eapply IH.
Qed.

Lemma collect_bind_length {A B} (m : M rand_state (outcome A)) k (c : list A → M rand_state (outcome B)) P g b g' :
  (∀ l g, length l = k → ∀ b g', c l g = (Return b, g') → P b) →
  (l <-! collect m k; c l) g = (Return b, g') → P b.
Proof.
  intros Hc. unfold bind_outcome, mbind, M_bind.
  destruct (collect m k g) as [[l|e|] g1] eqn:Hl; [|done|done]. cbn [fst snd]. apply Hc. by eapply collect_length.
Qed.

Lemma in_lengths (k : nat) : bool_decide (Z.of_nat k ∈ scenario_lengths) = true → Z.of_nat k ∈ scenario_lengths.
Proof. by intros ?%bool_decide_eq_true. Qed.

Lemma precompute_length scenario g l g' :
  scenario ∈ GetAvailableScenarios → precompute scenario g = (Return l, g') → Z.of_nat (length l) ∈ scenario_lengths.
Proof.
  assert (∀ k, length l = k → bool_decide (Z.of_nat k ∈ scenario_lengths) = true →
    Z.of_nat (length l) ∈ scenario_lengths) as Hk by (intros k ->; apply in_lengths).
  pose (in_scope := λ l : list N, Z.of_nat (length l) ∈ scenario_lengths).
  unfold GetAvailableScenarios. intros Hin. repeat (apply elem_of_cons in Hin as [->|Hin]);
    [..|by apply not_elem_of_nil in Hin]; unfold precompute;
    repeat match goal with |- context [String.eqb ?a ?b] => change (String.eqb a b) with true || change (String.eqb a b) with false end;
    cbv iota.
  - intros H. assert (l = precomputeSequentialAccesses) as -> by (unfold mret, M_ret in H; congruence).
    by apply in_lengths.
  - intros H%collect_length. by apply (Hk _ H).
  - unfold precomputeLocalityAccesses. apply (collect_bind_length _ _ _ in_scope). intros ws g1 _ b g2 H%collect_length.
    unfold in_scope. rewrite H. by apply in_lengths.
  - intros H. assert (l = precomputeLoopingAccesses) as -> by (unfold mret, M_ret in H; congruence).
    by apply in_lengths.
  - unfold precomputeMixedAccesses. apply (collect_bind_length _ _ _ in_scope). intros l1 g1 H1 b1 ?.
    apply (collect_bind_length _ _ _ in_scope). intros ws g2 _ b2 ?.
    apply (collect_bind_length _ _ _ in_scope). intros l2 g3 H2 b3 ? H.
    assert (b3 = indices 20 ++ l1 ++ l2) as -> by (unfold mret, M_ret in H; congruence).
    unfold in_scope. rewrite !length_app, H1, H2. by apply in_lengths.
  - unfold precomputeForkCoWAccesses. apply (collect_bind_length _ _ _ in_scope). intros l1 g1 H1 b1 ?.
    apply (collect_bind_length _ _ _ in_scope). intros l2 g2 H2 b2 ?.
    apply (collect_bind_length _ _ _ in_scope). intros l3 g3 H3 b3 ?.
    apply (collect_bind_length _ _ _ in_scope). intros l4 g4 H4 b4 ? H.
    assert (b4 = indices 30 ++ l1 ++ l2 ++ l3 ++ l4) as -> by (unfold mret, M_ret in H; congruence).
    unfold in_scope. rewrite !length_app, H1, H2, H3, H4. by apply in_lengths.
  - intros H%collect_length. by apply (Hk _ H).
Qed.

Lemma hushed_Close n : hushed n MM.Close.
Proof. split_and!; [apply keeps_Close|by intros s..]. Qed.

Lemma fresh_ready n tlbSize ty t0 seed :
  0 < n < 2 ^ 30 → ready n (fresh seed (MM.NewMemoryManager n tlbSize ty t0)).
Proof.
  intros Hn. split; [lia|]. apply agrees_new; [|apply new_manager_empty].
  apply wf_NewMemoryManager. lia.
Qed.

Lemma fresh_tally n tlbSize ty t0 seed :
  tally (processManager (fresh seed (MM.NewMemoryManager n tlbSize ty t0))) = (0, 0).
Proof.
  unfold fresh, tally. cbn [processManager PM.NewProcessManager PM.memoryManager]. unfold MM.NewMemoryManager.
  destruct (FrameTable.NewFrameTable n _) as [ft h]. by destruct (time_now h).
Qed.

(** A run on a manager of its own counts every access of the scenario once. *)
Definition complete_run (k : Z) (m : MetricsSnapshot.t) : Prop :=
  0 ≤ MetricsSnapshot.PageFaults m ∧ 0 ≤ MetricsSnapshot.PageHits m ∧
  MetricsSnapshot.PageFaults m + MetricsSnapshot.PageHits m = k ∧
  MetricsSnapshot.PageFaultRate m = rate (MetricsSnapshot.PageFaults m) k.

Lemma drives_complete n k es s s' :
  drives n k es s s' → tally (processManager s) = (0, 0) → Z.of_nat (length es) < 2 ^ 63 →
  complete_run (Z.of_nat (length es)) (MM.GetMetrics (PM.memoryManager (processManager s'))).1.
Proof.
  intros Hd Ht Hlen. pose proof (drives_tally _ _ _ _ _ Hd) as Hc. rewrite Ht in Hc.
  apply counted_fresh in Hc as (Hf & Hh & Hsum); [|done]. unfold tally in Hf, Hh, Hsum. cbn [fst snd] in *.
  pose proof (wf_metrics _ _ (agrees_wf _ _ (proj2 (drives_ready _ _ _ _ _ Hd)))) as Hacc.
  unfold Metrics.accounted in Hacc. rewrite Hsum, (i64_small (Z.of_nat _)) in Hacc by lia.
  destruct (GetMetrics_fields (PM.memoryManager (processManager s'))) as (_ & Ef & Eh & Erate).
  unfold complete_run. rewrite Ef, Eh, Erate. unfold Metrics.GetPageFaultRate. by rewrite Hacc.
Qed.

Lemma lengths_small k : k ∈ scenario_lengths → 0 ≤ k < 2 ^ 63.
Proof.
  unfold scenario_lengths. rewrite !elem_of_cons. intros Hk.
  repeat destruct Hk as [-> | Hk]; [lia..|by apply not_elem_of_nil in Hk].
Qed.

Lemma precomputeAccesses_length scenario s accs :
  scenario ∈ GetAvailableScenarios → precomputeAccesses scenario s = Return accs →
  Z.of_nat (length accs) ∈ scenario_lengths.
Proof.
  unfold precomputeAccesses. intros Hin Ha.
  apply (precompute_length scenario (rand_New (seed s)) accs (precompute scenario (rand_New (seed s))).2 Hin).
  by rewrite <-Ha, <-surjective_pairing.
Qed.

Lemma timed_run_spec n scenario s :
  ready n s → room 2 s → rng s = rand_New (seed s) → tally (processManager s) = (0, 0) →
  scenario ∈ GetAvailableScenarios →
  ∃ m elapsed accs, (timed_run scenario s).1 = Return (Some (m, elapsed)) ∧
    precomputeAccesses scenario s = Return accs ∧ complete_run (Z.of_nat (length accs)) m.
Proof.
  intros Hs Hroom Hg Ht Hin. unfold timed_run. unfold mbind at 1, M_bind at 1. unfold now.
  pose proof (hushed_drives n MM.now s (hushed_now n) Hs) as Hd1.
  destruct (on_pm (PM.on_mm MM.now) s) as [start s1]. destruct Hd1 as [Hd1 Hg1]. cbn [fst snd].
  assert (room 2 s1) as Hroom1 by (unfold room; by rewrite (drives_next _ _ _ _ _ Hd1), N.add_0_r).
  pose proof (RunScenario_drives n scenario s1 (drives_ready _ _ _ _ _ Hd1) Hroom1
    ltac:(by rewrite Hg1, (drives_seed _ _ _ _ _ Hd1)) Hin) as Hr.
  unfold bind_outcome. unfold mbind at 1, M_bind at 1.
  destruct (RunScenario scenario s1) as [r s2].
  destruct Hr as (res & m0 & k & es & -> & _ & _ & _ & _ & Hd2 & Hes). cbn [fst snd].
  pose proof (drives_trans n _ _ _ _ s s1 s2 Hd1 Hd2) as Hd. unfold mbind at 1, M_bind at 1.
  pose proof (hushed_drives n MM.now s2 (hushed_now n) (drives_ready _ _ _ _ _ Hd2)) as Hd3.
  destruct (on_pm (PM.on_mm MM.now) s2) as [stop s3]. destruct Hd3 as [Hd3 _]. cbn [fst snd].
  unfold mbind at 1, M_bind at 1.
  pose proof (hushed_drives n MM.Close s3 (hushed_Close n) (drives_ready _ _ _ _ _ Hd3)) as Hd4.
  destruct (on_pm (PM.on_mm MM.Close) s3) as [[] s4]. destruct Hd4 as [Hd4 _]. cbn [fst snd].
  pose proof (drives_trans n _ _ _ _ s s2 s3 Hd Hd3) as Hd'.
  pose proof (drives_trans n _ _ _ _ s s3 s4 Hd' Hd4) as Hd''. rewrite !app_nil_r, app_nil_l in Hd''.
  rewrite run_on_pm. unfold PM.on_mm.
  assert (precomputeAccesses scenario s = Return (pages es)) as Hpre
    by (rewrite <-Hes; unfold precomputeAccesses; by rewrite (drives_seed _ _ _ _ _ Hd1)).
  pose proof (lengths_small _ (precomputeAccesses_length scenario s (pages es) Hin Hpre)) as Hlen.
  unfold pages in Hlen. rewrite length_fmap in Hlen.
  pose proof (drives_complete n _ es s s4 Hd'' Ht (proj2 Hlen)) as Hm.
  destruct (MM.GetMetrics (PM.memoryManager (processManager s4))) as [m mm]. cbn [fst snd] in *.
  exists m, (stop - start), (pages es). split_and!; [done|done|]. unfold pages. by rewrite length_fmap.
Qed.

(** *** The loop over the algorithms *)

Lemma sweep_complete {C R} (run : C → M nat (outcome (option (MetricsSnapshot.t * Z)))) result (P : MetricsSnapshot.t → Prop) cs t0 :
  (∀ c t0, c ∈ cs → ∃ m elapsed, (run c t0).1 = Return (Some (m, elapsed)) ∧ P m) →
  ∃ rs : list R, (sweep run result cs t0).1 = Return rs ∧
    Forall2 (λ c r, ∃ m elapsed, r = result c m elapsed ∧ P m) cs rs.
Proof.
  revert t0. induction cs as [|c cs IH]; intros t0 Hrun; [by exists []|].
  destruct (Hrun c t0 ltac:(set_solver)) as (m & elapsed & Hc & HP). cbn [sweep].
  unfold bind_outcome, mbind, M_bind. destruct (run c t0) as [r t1]. cbn [fst snd] in *. subst r.
  destruct (IH t1 ltac:(intros; apply Hrun; set_solver)) as (rs & Hrs & Hall).
  destruct (sweep run result cs t1) as [r t2]. cbn [fst snd] in *. subst r.
  exists (result c m elapsed :: rs). split; [done|]. constructor; [by exists m, elapsed|done].
Qed.

Lemma fresh_run_complete seed scenario n tlbSize ty t0 :
  0 < n < 2 ^ 30 → scenario ∈ GetAvailableScenarios →
  ∃ accs, (precompute scenario (rand_New seed)).1 = Return accs ∧
  ∃ m elapsed, (fresh_run seed scenario n tlbSize ty t0).1 = Return (Some (m, elapsed)) ∧
    complete_run (Z.of_nat (length accs)) m.
Proof.
  intros Hn Hin. unfold fresh_run.
  set (s := fresh seed (MM.NewMemoryManager n tlbSize ty t0)).
  pose proof (fresh_ready n tlbSize ty t0 seed Hn) as Hs.
  destruct (timed_run_spec n scenario s Hs) as (m & elapsed & accs & Hr & Hpre & Hm);
    [done|done|apply fresh_tally|done|].
  exists accs. split; [exact Hpre|]. exists m, elapsed. by destruct (timed_run scenario s).
Qed.
End compare.

(** *** Ranking *)

Section ranking.
Implicit Types (rs : list AlgorithmResult.t).
Import Sim.

Lemma ranked_fmap {B} (f : AlgorithmResult.t → B) rs :
  (∀ r k, f (r <| AlgorithmResult.Rank := k |>) = f r) → f <$> ranked rs = f <$> rs.
Proof.
  intros Hf. apply list_eq. intros i. unfold ranked. rewrite !list_lookup_fmap, list_lookup_imap.
  destruct (rs !! i) as [r|]; [|done]. exact (f_equal Some (Hf r _)).
Qed.

Lemma ranked_ranks rs : AlgorithmResult.Rank <$> ranked rs = seqZ 1 (Z.of_nat (length rs)).
Proof.
  apply list_eq. intros i. unfold ranked. rewrite list_lookup_fmap, list_lookup_imap.
  destruct (rs !! i) as [r|] eqn:Hr; simpl.
  - apply lookup_lt_Some in Hr. symmetry. apply lookup_seqZ. lia.
  - apply lookup_ge_None in Hr. symmetry. apply lookup_seqZ_ge. lia.
Qed.

Lemma StronglySorted_fmap {A} (f : A → Z) l :
  StronglySorted Z.le (f <$> l) ↔ StronglySorted (λ a b, f a ≤ f b) l.
Proof.
  induction l as [|a l IH]; [split; constructor|]. rewrite fmap_cons.
  split; intros [Hs Hall]%StronglySorted_inv; (constructor; [by apply IH|]); by rewrite Forall_fmap in *.
Qed.

(** A result of a run of [k] accesses. *)
Definition consistent (k : Z) (r : AlgorithmResult.t) : Prop :=
  0 ≤ AlgorithmResult.PageFaults r ∧ 0 ≤ AlgorithmResult.PageHits r ∧
  AlgorithmResult.PageFaults r + AlgorithmResult.PageHits r = k ∧
  AlgorithmResult.FaultRate r = rate (AlgorithmResult.PageFaults r) k.

Lemma ranked_consistent k rs : Forall (consistent k) rs → Forall (consistent k) (ranked rs).
Proof.
  rewrite !Forall_lookup. intros Hrs i r. unfold ranked. rewrite list_lookup_imap.
  destruct (rs !! i) as [r0|] eqn:Hr; [|done]. intros [= <-]. by apply (Hrs i r0).
Qed.

Lemma by_fault_rate_faults k a b :
  k ∈ scenario_lengths → consistent k a → consistent k b →
  by_fault_rate a b = (AlgorithmResult.PageFaults a <? AlgorithmResult.PageFaults b).
Proof.
  intros Hk (? & ? & ? & Ea) (? & ? & ? & Eb). unfold by_fault_rate. rewrite Ea, Eb.
  apply rates_monotone; [done|lia..].
Qed.
End ranking.

(** Both comparisons on a known scenario. *)
Section complete.
Context `{Env : GoEnv} `{Rand : GoRand}.
Import Sim.

Lemma CompareAlgorithms_complete scenario numFrames tlbSize (s : Sim.t) t0 :
  0 < numFrames < 2 ^ 30 → scenario ∈ GetAvailableScenarios →
  ∃ accs rs, precomputeAccesses scenario s = Return accs ∧
    (CompareAlgorithms scenario numFrames tlbSize s t0).1 = Return rs ∧
    AlgorithmResult.Algorithm <$> rs ≡ₚ ValidAlgorithmNames ∧
    AlgorithmResult.Rank <$> rs = [1; 2; 3; 4; 5; 6; 7; 8; 9; 10; 11; 12] ∧
    StronglySorted (λ a b, AlgorithmResult.PageFaults a ≤ AlgorithmResult.PageFaults b) rs ∧
    Forall (consistent (Z.of_nat (length accs))) rs.
Proof.
  intros Hn Hin.
  destruct (fresh_run_complete (seed s) scenario numFrames tlbSize AlgorithmLRU t0 Hn Hin) as (accs & Hpre & _).
  pose proof (precomputeAccesses_length scenario s accs Hin Hpre) as Hk.
  set (k := Z.of_nat (length accs)) in *. exists accs.
  destruct (sweep_complete (fresh_run (seed s) scenario numFrames tlbSize) algorithm_result (complete_run k) allAlgos t0)
    as (rs & Hrs & Hall).
  { intros ty t1 _. destruct (fresh_run_complete (seed s) scenario numFrames tlbSize ty t1 Hn Hin) as (accs' & Hpre' & Hr).
    rewrite Hpre in Hpre'. by injection Hpre' as <-. }
  assert (Forall (consistent k) (sort_slice by_fault_rate rs)) as Hcons.
  { rewrite sort_slice_perm. clear Hrs. induction Hall as [|c r cs rs (m & elapsed & -> & Hm) _ IH]; by constructor. }
  assert (AlgorithmResult.Algorithm <$> rs = GetAlgorithmName <$> allAlgos) as Hnames.
  { clear Hrs Hcons. induction Hall as [|c r cs rs (m & elapsed & -> & Hm) _ IH]; [done|]. by rewrite !fmap_cons, IH. }
  assert (length rs = 12%nat) as Hlen by (by rewrite <-(Forall2_length _ _ _ Hall)).
  exists (ranked (sort_slice by_fault_rate rs)). split; [exact Hpre|]. split_and!.
  - unfold CompareAlgorithms, bind_outcome, mbind, M_bind.
    destruct (sweep _ _ _ t0) as [r t1]. cbn [fst] in Hrs. by subst r.
  - rewrite ranked_fmap by done. rewrite sort_slice_perm, Hnames. apply (bool_decide_unpack _). by vm_compute.
  - by rewrite ranked_ranks, sort_slice_perm, Hlen.
  - apply (StronglySorted_fmap AlgorithmResult.PageFaults). rewrite ranked_fmap by done.
    apply StronglySorted_fmap, sort_slice_sorted. rewrite sort_slice_perm, Forall_forall in Hcons.
    intros a b Ha Hb. by apply (by_fault_rate_faults k); auto.
  - by apply ranked_consistent in Hcons.
Qed.

(** One result per frame count, in order. *)
Lemma CompareFrameCounts_complete scenario algName frameCounts tlbSize (s : Sim.t) t0 :
  Forall (λ n, 0 < n < 2 ^ 30) frameCounts → scenario ∈ GetAvailableScenarios →
  algName ∈ ValidAlgorithmNames →
  ∃ accs rs, precomputeAccesses scenario s = Return accs ∧
    (CompareFrameCounts scenario algName frameCounts tlbSize s t0).1 = Return rs ∧
    FrameCountResult.NumFrames <$> rs = frameCounts ∧
    Forall (λ r, FrameCountResult.Algorithm r = algName ∧
      0 ≤ FrameCountResult.PageFaults r ∧ 0 ≤ FrameCountResult.PageHits r ∧
      FrameCountResult.PageFaults r + FrameCountResult.PageHits r = Z.of_nat (length accs)) rs.
Proof.
  intros Hn Hin Halg.
  assert (∃ ty, parseAlgorithmName algName = (ty, None)) as [ty Hty].
  { clear -Halg. unfold ValidAlgorithmNames in Halg.
    repeat (apply elem_of_cons in Halg as [->|Halg]; [by eexists|]). by apply not_elem_of_nil in Halg. }
  destruct (fresh_run_complete (seed s) scenario 1 tlbSize ty t0 ltac:(lia) Hin) as (accs & Hpre & _).
  set (k := Z.of_nat (length accs)). exists accs. unfold CompareFrameCounts. rewrite Hty.
  destruct (sweep_complete (λ fc, fresh_run (seed s) scenario fc tlbSize ty) (frame_count_result algName) (complete_run k)
    frameCounts t0) as (rs & Hrs & Hall).
  { intros fc t1 Hfc. rewrite Forall_forall in Hn.
    destruct (fresh_run_complete (seed s) scenario fc tlbSize ty t1 (Hn _ Hfc) Hin) as (accs' & Hpre' & Hr).
    rewrite Hpre in Hpre'. by injection Hpre' as <-. }
  exists rs. split_and!; [exact Hpre|exact Hrs|..]; clear Hrs Hn.
  - induction Hall as [|c r cs rs (m & elapsed & -> & Hm) _ IH]; [done|]. by rewrite !fmap_cons, IH.
  - induction Hall as [|c r cs rs (m & elapsed & -> & Hm) _ IH]; constructor; [|done].
    split; [done|]. unfold complete_run in Hm. cbn. tauto.
Qed.
End complete.

(** A scenario that does not exist. *)
Section unknown.
Context `{Env : GoEnv} `{Rand : GoRand}.
Import Sim.

Lemma RunScenario_unknown scenario s :
  scenario ∉ GetAvailableScenarios →
  let '(r, s') := RunScenario scenario s in
  ∃ res, r = Return (res, Some (ErrUnknownScenario scenario)) ∧
    ScenarioResult.Success res = false ∧ traceEntries s' = traceEntries s.
Proof.
  intros [Hd Hp]%unknown_scenario. unfold RunScenario, now. rewrite run_on_pm.
  set (s1 := s <| processManager := _ |>). assert (traceEntries s1 = traceEntries s) as <- by done.
  clearbody s1. unfold mbind at 1, M_bind at 1. unfold prepare. rewrite run_gets.
  destruct (_ || _).
  - unfold precomputeAndSetOptimal, bind_outcome. rewrite run_gets. unfold precomputeAccesses. rewrite Hp.
    cbn [fst snd mret M_ret]. by eexists.
  - cbn [fst snd mret M_ret]. rewrite Hd. unfold mbind at 1, M_bind at 1, mret at 1, M_ret at 1. cbn [fst snd].
    unfold finish, now, mbind, M_bind, on_pm. cbn [fst snd].
    destruct (PM.on_mm MM.now (processManager s1)) as [stop pm]. cbn [fst snd].
    destruct (PM.on_mm MM.GetMetrics _) as [m pm']. by eexists.
Qed.
End unknown.

(** ** The theorems *)

Section theorems.
Context `{Env : GoEnv} `{Rand : GoRand}.
Import Sim.

(** C14: On a recording simulator whose generator is as newly seeded, over a process manager after any
    calls, each of the seven scenarios succeeds, and the pages it accesses are,
    in order, those that [precomputeAccesses] hands to the Optimal policies; the
    metrics count each of them once.  Any other scenario fails with its error
    and accesses nothing. *)
Theorem scenario_accesses_precomputed n tlbSize ty t0 cs scenario (s : Sim.t) :
  0 < n < 2 ^ 30 → (N.of_nat (length cs) + 2 < 2 ^ 64 - 2)%N →
  processManager s = pm_after n tlbSize ty t0 cs → rng s = rand_New (seed s) →
  recording s = true → traceEntries s = [] →
  let '(r, s') := RunScenario scenario s in
  if bool_decide (scenario ∈ GetAvailableScenarios)
  then ∃ res m, r = Return (res, None) ∧ ScenarioResult.Success res = true ∧
         ScenarioResult.Metrics res = Some m ∧
         precomputeAccesses scenario s = Return (TraceEntry.VirtualPage <$> traceEntries s') ∧
         MetricsSnapshot.TotalAccesses m =
           i64 (Metrics.TotalAccesses (MM.metrics (PM.memoryManager (processManager s)))
                + Z.of_nat (length (traceEntries s')))
  else ∃ res, r = Return (res, Some (ErrUnknownScenario scenario)) ∧
         ScenarioResult.Success res = false ∧ traceEntries s' = [].
Proof.
  intros Hn Hcs Hpm Hg Hrec Htr.
  destruct (pm_calls_spec n cs (PM.NewProcessManager (MM.NewMemoryManager n tlbSize ty t0))) as [Ha Hnext];
    [lia|apply agrees_new; [apply wf_NewMemoryManager; lia|apply new_manager_empty]|simpl; lia|].
  case_bool_decide as Hin.
  - assert (ready n s) as Hs by (split; [lia|by rewrite Hpm]).
    assert (room 2 s) as Hroom by (unfold room; rewrite Hpm; unfold pm_after; simpl in Hnext; lia).
    pose proof (RunScenario_drives n scenario s Hs Hroom Hg Hin) as Hr.
    destruct (RunScenario scenario s) as [r s'].
    destruct Hr as (res & m & k & es & -> & Hok & Hm & Htot & _ & Hd & Hes).
    pose proof (drives_trace _ _ _ _ _ Hd) as Hes'. rewrite Hrec, Htr in Hes'. simpl in Hes'.
    exists res, m. split_and!; [done..|by rewrite Hes'|].
    rewrite Htot, (drives_total _ _ _ _ _ Hd), Hes'. unfold total, tally. cbn [fst snd].
    by rewrite i64_add_l, (wf_metrics _ _ (agrees_wf _ _ (proj2 Hs))), i64_add_l.
  - pose proof (RunScenario_unknown scenario s Hin) as Hr. by rewrite Htr in Hr.
Qed.

(** C15: Replaying a recorded trace on a simulator with the process manager as it
    was when the recording started reproduces the recorded run: the process
    manager ends in the very same state, and the replay fails only if a
    recorded pattern failed.  This holds for any patterns, whatever they draw and
    wherever they stop. *)
Theorem trace_replay_reproduces (ps : list pattern) (s x : Sim.t) :
  processManager x = processManager s →
  let '(r, s1) := (StartRecording ;; try_each simulate ps) s in
  let '(tr, s2) := StopRecording s1 in
  let '(r', x') := ReplayTrace (Some tr) x in
  Trace.Seed tr = seed s ∧ processManager x' = processManager s2 ∧ (∀ e, r' = Err e → ∃ e', r = Fail e').
Proof.
  intros Hx. unfold StartRecording. rewrite run_modify. set (s0 := s <| traceEntries := [] |> <| recording := true |>).
  pose proof (replayable_each simulate ps replayable_simulate s0 eq_refl) as Hr.
  destruct (try_each simulate ps s0) as [r s1]. destruct Hr as (_ & Hseed & es & Htr & Hr).
  unfold StopRecording. rewrite run_get_st, run_modify. unfold mret, M_ret. cbn [ReplayTrace Trace.Entries Trace.Seed].
  rewrite Htr. simpl app. specialize (Hr x Hx). destruct (replay es x) as [r' x']. by destruct Hr.
Qed.

(** C16: [CompareAlgorithms] on a known scenario reports every algorithm exactly
    once, ranked 1 to 12 in ascending order of the page faults; each run counted
    every access of the scenario as one fault or one hit. *)
Theorem comparison_ranked scenario numFrames tlbSize (s : Sim.t) t0 :
  0 < numFrames < 2 ^ 30 → scenario ∈ GetAvailableScenarios →
  ∃ accs rs, precomputeAccesses scenario s = Return accs ∧
    (CompareAlgorithms scenario numFrames tlbSize s t0).1 = Return rs ∧
    AlgorithmResult.Algorithm <$> rs ≡ₚ ValidAlgorithmNames ∧
    AlgorithmResult.Rank <$> rs = [1; 2; 3; 4; 5; 6; 7; 8; 9; 10; 11; 12] ∧
    StronglySorted (λ a b, AlgorithmResult.PageFaults a ≤ AlgorithmResult.PageFaults b) rs ∧
    Forall (λ a, 0 ≤ AlgorithmResult.PageFaults a ∧ 0 ≤ AlgorithmResult.PageHits a ∧
      AlgorithmResult.PageFaults a + AlgorithmResult.PageHits a = Z.of_nat (length accs) ∧
      AlgorithmResult.FaultRate a = rate (AlgorithmResult.PageFaults a) (Z.of_nat (length accs))) rs.
Proof. apply CompareAlgorithms_complete. Qed.
End theorems.

(** ** The theorems at concrete inputs *)

#[local] Existing Instance first_env.
#[local] Existing Instance lcg_rand.

Definition sample_sim : Sim.t := {|
  Sim.processManager := pm_after 3 16 AlgorithmOptimal 0 [PMCreate "init" 1 64; PMAccess "P2" 5 true];
  Sim.rng := rand_New 7; Sim.seed := 7; Sim.fastMode := true; Sim.recording := true; Sim.traceEntries := [];
|}.

Lemma scenario_accesses_precomputed_witness :
  let '(r, s') := Sim.RunScenario "fork_cow" sample_sim in
  (∃ res, r = Return (res, None)) ∧
  Sim.precomputeAccesses "fork_cow" sample_sim = Return (TraceEntry.VirtualPage <$> Sim.traceEntries s').
Proof.
  pose proof (@scenario_accesses_precomputed first_env lcg_rand 3 16 AlgorithmOptimal 0
    [PMCreate "init" 1 64; PMAccess "P2" 5 true] "fork_cow" sample_sim
    ltac:(lia) ltac:(vm_compute; reflexivity) eq_refl eq_refl eq_refl eq_refl) as H.
  destruct (Sim.RunScenario "fork_cow" sample_sim) as [r s'].
  destruct H as (res & m & Hr & _ & _ & Hpre & _). split; [by exists res|exact Hpre].
Defined.

Lemma trace_replay_reproduces_witness :
  let '(r, s1) := (Sim.StartRecording ;;
    try_each simulate [PSequential "P2" 0 4 true; PRandom "P2" 9 5 (f64_lit 1 2); PRandom "P2" 0 1 (f64_lit 1 2)])
    sample_sim in
  let '(tr, s2) := Sim.StopRecording s1 in
  let '(r', x') := Sim.ReplayTrace (Some tr) sample_sim in
  Sim.processManager x' = Sim.processManager s2.
Proof.
  pose proof (@trace_replay_reproduces first_env lcg_rand
    [PSequential "P2" 0 4 true; PRandom "P2" 9 5 (f64_lit 1 2); PRandom "P2" 0 1 (f64_lit 1 2)]
    sample_sim sample_sim eq_refl) as H.
  revert H. match goal with |- context [let '(_, _) := ?x in _] => destruct x as [r s1] end. intros H.
  destruct (Sim.StopRecording s1) as [tr s2].
  destruct (Sim.ReplayTrace (Some tr) sample_sim) as [r' x']. by destruct H as (_ & H & _).
Defined.

Lemma comparison_ranked_witness :
  ∃ rs, (Sim.CompareAlgorithms "thrashing" 16 8 sample_sim 0%nat).1 = Return rs ∧
    AlgorithmResult.Algorithm <$> rs ≡ₚ ValidAlgorithmNames.
Proof.
  destruct (@comparison_ranked first_env lcg_rand "thrashing" 16 8 sample_sim 0%nat)
    as (accs & rs & _ & Hr & Hn & _); [lia|by apply (bool_decide_unpack _); vm_compute|].
  exists rs. split; [exact Hr|exact Hn].
Defined.

(** The generator is not seeded again: a second run of the same scenario makes
    other accesses, but the Optimal policies are handed those of the first. *)
Example second_run_differs :
  let '(first, g) := Sim.precompute "random" (rand_New 7) in
  (Sim.precompute "random" g).1 ≠ first.
Proof. vm_compute. discriminate. Qed.

(** [Optimal] moves its position in the future accesses on hits only, so after
    faults it takes accesses of the past for future ones.  Given the accesses
    1, 2, 0, 1, 0 in advance, with two frames, it faults five times, LRU four
    times; evicting page 2 instead of page 1 would give three faults. *)
Definition faults_of (ty : AlgorithmType) (n : Z) (accesses : list N) : Z :=
  let m := modify (λ s, s <| MM.procs := [Process.NewProcess 0 "P" "" 1 100] |>) ;;
           _ ← MM.CreateProcess 0; MM.SetFutureAccesses accesses ;;
           for_each (λ v, _ ← MM.AccessMemory "P" v false; mret ()) accesses in
  Metrics.PageFaults (MM.metrics (m (MM.NewMemoryManager n 4 ty 0)).2).
Example Optimal_not_minimal :
  faults_of AlgorithmOptimal 2 [1; 2; 0; 1; 0]%N = 5 ∧ faults_of AlgorithmLRU 2 [1; 2; 0; 1; 0]%N = 4.
Proof. by vm_compute. Qed.
