(* ===== verification/Monitor.v ===== *)
(** * The monitor: [internal/monitor/monitor.go]

    The history of snapshots, the recent events and their subscribers, the
    detector of thrashing, and the views the API serves.  The monitor holds the
    process manager and its memory manager; the server builds it from one such
    pair, so the memory manager is the one inside the process manager.  A method
    that takes several locks one after the other is the composition of its
    stretches.  Channels are shared by the map of subscribers and the readers,
    so they are objects behind numbers; sending to a full one is skipped. *)

From S2P Require Import Prelude Models Heap FrameTable Policy Policies Algorithms Tlb PageTable MultiLevel.
From S2P Require Import Advanced Cow Manager ProcMan.
Local Open Scope Z_scope.

Module HistoricalSnapshot.
Record t := mk { Timestamp : Z; Metrics : MetricsSnapshot.t }.
End HistoricalSnapshot.

Module Event.
(** What the [map[string]interface{}] of an event holds. *)
Inductive data : Type :=
| FromManager (e : MM.event)
| Thrashing (window_fault_rate threshold : f64) (window_snapshots : Z).

(** The [Type] of each event of the memory manager. *)
Definition event_type (e : MM.event) : string :=
  match e with
  | MM.EvProcessCreated _ _ => "process_created"
  | MM.EvProcessRemoved _ => "process_removed"
  | MM.EvMemoryAccess _ _ _ _ _ => "memory_access"
  | MM.EvPageFault _ _ _ _ => "page_fault"
  | MM.EvCowCopy _ _ _ _ _ => "cow_copy"
  | MM.EvPageEviction _ _ _ _ => "page_eviction"
  | MM.EvProcessForked _ _ _ => "process_forked"
  | MM.EvSystemReset => "system_reset"
  | MM.EvHugePageMapped _ _ _ _ => "huge_page_mapped"
  end.

Record t := mk { Timestamp : Z; Type_ : string; Data : data }.
End Event.

(** A [chan Event] of the given capacity. *)
Module Chan.
Record t := mk { capacity : Z; buffer : list Event.t }.

(** [select { case ch <- event: default: }] *)
Definition try_send (e : Event.t) (c : t) : t :=
  if Z.of_nat (length (buffer c)) <? capacity c then mk (capacity c) (buffer c ++ [e]) else c.
(** [<-ch], when something is there. *)
Definition receive (c : t) : option Event.t * t :=
  match buffer c with
  | [] => (None, c)
  | e :: q => (Some e, mk (capacity c) q)
  end.
End Chan.

Module ThrashingInfo.
Record t := mk {
  IsThrashing : bool; WindowFaultRate : f64; Threshold : f64; WindowSize : Z; DetectedAt : option Z;
}.
End ThrashingInfo.

Module SystemStatus.
Record t := mk {
  Timestamp : Z; Metrics : MetricsSnapshot.t; ProcessCount : Z; AlgorithmName : string; Uptime : Z;
}.
End SystemStatus.

Module ProcessDetail.
Record t := mk {
  ID : string; Name : string; State : string; Priority : Z;
  PageFaults : Z; PageHits : Z; MemoryAccesses : Z; CoWCopies : Z;
  PageFaultRate : f64; PageHitRate : f64;
  TotalPages : Z; PresentPages : Z; SharedPages : Z; DirtyPages : Z;
}.
End ProcessDetail.

Module FrameDetail.
Record t := mk {
  ID : Z; Free : bool; Pinned : bool; Modified : bool; PageID : N; ProcessID : string;
  LoadedAt : Z; LastAccess : Z; AccessCount : Z; Age : Z;
}.
End FrameDetail.

Module Mon.
(** [thrashedAt] is [None] for the zero time.  [chans] are the channels made so
    far, [captures] the capture goroutines with whether each still runs. *)
Record t := mk {
  processManager : PM.t;
  started : bool;
  captures : list bool;
  history : list HistoricalSnapshot.t;
  maxHistory : Z;
  events : list Event.t;
  maxEvents : Z;
  chans : list Chan.t;
  eventSubs : gmap Z nat;
  nextSubID : Z;
  thrashThreshold : f64;
  thrashWindow : Z;
  isThrashing : bool;
  thrashedAt : option Z;
}.
#[global] Instance eta_t : Eta t := λ r,
  mk (processManager r) (started r) (captures r) (history r) (maxHistory r) (events r) (maxEvents r)
     (chans r) (eventSubs r) (nextSubID r) (thrashThreshold r) (thrashWindow r) (isThrashing r) (thrashedAt r).

Definition on_pm {A} (m : M PM.t A) : M t A :=
  λ s, let '(a, pm) := m (processManager s) in (a, s <| processManager := pm |>).
Definition on_mm {A} (m : M MM.t A) : M t A := on_pm (PM.on_mm m).

(** The memory manager's callback is set. *)
Definition NewMonitor (pm : PM.t) : t := {|
  processManager := (PM.on_mm (MM.SetEventCallback true) pm).2;
  started := false; captures := [];
  history := []; maxHistory := 1000; events := []; maxEvents := 500;
  chans := []; eventSubs := ∅; nextSubID := 1;
  thrashThreshold := f64_lit 8 10; thrashWindow := 5; isThrashing := false; thrashedAt := None |}.

(** [l = append(l, x); if len(l) > max { l = l[1:] }] *)
Definition push {A} (max : Z) (x : A) (l : list A) : list A :=
  let l := l ++ [x] in
  if max <? Z.of_nat (length l) then tail l else l.

Section ops.
Context `{Env : GoEnv}.

Definition now : M t Z := on_mm MM.now.

(** ** Events *)

(** The entry that goes is also cleared in the slice's array, which nothing reads. *)
Definition add_event (e : Event.t) : M t unit :=
  modify (λ s, s <| events ::= push (maxEvents s) e |>).
(** The channels at the time of the copy, in the order of the range. *)
Definition subscribed : M t (list nat) :=
  s ← get_st;
  l ← on_mm (MM.on_heap (range_map (eventSubs s)));
  mret (l.*2).
Definition send (e : Event.t) (ch : nat) : M t unit :=
  modify (λ s, s <| chans ::= alter (Chan.try_send e) ch |>).
Definition handleEvent (eventType : string) (data : Event.data) : M t unit :=
  time ← now;
  let event := Event.mk time eventType data in
  add_event event ;;
  chs ← subscribed;
  for_each (send event) chs.

(** One round of the memory manager's event worker. *)
Definition event_round : M t unit :=
  r ← on_mm MM.eventWorker_step;
  match r with
  | Some (e, true) => handleEvent (Event.event_type e) (Event.FromManager e)
  | _ => mret ()
  end.

Definition SubscribeEvents (bufferSize : Z) : M t (Z * nat) :=
  let bufferSize := if bufferSize <? 16 then 16 else bufferSize in
  s ← get_st;
  let subID := nextSubID s in
  let ch := length (chans s) in
  modify (λ s, s <| nextSubID ::= λ n, i64 (n + 1) |>
                 <| chans ::= λ cs, cs ++ [Chan.mk bufferSize []] |>
                 <| eventSubs ::= <[subID := ch]> |>) ;;
  mret (subID, ch).
Definition UnsubscribeEvents (subID : Z) : M t unit :=
  modify (λ s, s <| eventSubs ::= delete subID |>).
(** A reader takes one event. *)
Definition receive (ch : nat) : M t (option Event.t) :=
  λ s, match chans s !! ch with
       | None => (None, s)
       | Some c => let '(e, c) := Chan.receive c in (e, s <| chans ::= <[ch := c]> |>)
       end.

(** ** Snapshots and thrashing *)

Definition add_snapshot (snapshot : HistoricalSnapshot.t) : M t unit :=
  modify (λ s, s <| history ::= push (maxHistory s) snapshot |>).

(** The first snapshot of the window, and the last one. *)
Definition window_ends (window : Z) (h : list HistoricalSnapshot.t)
    : option (MetricsSnapshot.t * MetricsSnapshot.t) :=
  let n := Z.of_nat (length h) in
  if n <? 2 then None
  else
    let wStart := Z.max 0 (n - window) in
    match h !! Z.to_nat wStart, h !! Z.to_nat (n - 1) with
    | Some old, Some new => Some (HistoricalSnapshot.Metrics old, HistoricalSnapshot.Metrics new)
    | _, _ => None                       (* out of range: not for a positive window *)
    end.
(** The fault rate between the two, when there was an access. *)
Definition window_rate (window : Z) (h : list HistoricalSnapshot.t) : option f64 :=
  match window_ends window h with
  | None => None
  | Some (old, new) =>
      let deltaAccesses := i64 (MetricsSnapshot.TotalAccesses new - MetricsSnapshot.TotalAccesses old) in
      let deltaFaults := i64 (MetricsSnapshot.PageFaults new - MetricsSnapshot.PageFaults old) in
      if deltaAccesses <=? 0 then None
      else Some (f64_div (f64_of_Z deltaFaults) (f64_of_Z deltaAccesses))
  end.

(** The stretch under [thrashMu]; true on the rising edge. *)
Definition update_thrashing (rate : f64) : M t bool :=
  s ← get_st;
  let wasThrashing := isThrashing s in
  (if f64_leb (thrashThreshold s) rate
   then when (negb wasThrashing)
          (modify (λ s, s <| isThrashing := true |>) ;;
           time ← now;
           modify (λ s, s <| thrashedAt := Some time |>))
   else modify (λ s, s <| isThrashing := false |>)) ;;
  gets (λ s, isThrashing s && negb wasThrashing).

Definition detectThrashing : M t unit :=
  s ← get_st;
  if thrashWindow s <=? 0 then mret ()
  else
    match window_rate (thrashWindow s) (history s) with
    | None => mret ()
    | Some rate =>
        rising ← update_thrashing rate;
        when rising
          (handleEvent "thrashing_detected" (Event.Thrashing rate (thrashThreshold s) (thrashWindow s)))
    end.

Definition CaptureSnapshot : M t unit :=
  time ← now;
  metrics ← on_mm MM.GetMetrics;
  add_snapshot (HistoricalSnapshot.mk time metrics) ;;
  detectThrashing.

Definition GetThrashingInfo (s : t) : ThrashingInfo.t :=
  if thrashWindow s <=? 0
  then ThrashingInfo.mk false (f64_of_Z 0) (f64_of_Z 0) 0 None
  else ThrashingInfo.mk (isThrashing s) (default (f64_of_Z 0) (window_rate (thrashWindow s) (history s)))
         (thrashThreshold s) (thrashWindow s) (thrashedAt s).
Definition IsThrashing (s : t) : bool := isThrashing s.

(** ** Reading *)

(** The copy of the last [last] elements, all of them for 0 or too many. *)
Definition latest {A} (last : Z) (l : list A) : list A :=
  let n := Z.of_nat (length l) in
  let last := if (last <=? 0) || (n <? last) then n else last in
  drop (Z.to_nat (Z.max 0 (n - last))) l.
Definition GetHistory (last : Z) (s : t) : list HistoricalSnapshot.t := latest last (history s).
Definition GetEvents (last : Z) (s : t) : list Event.t := latest last (events s).

Definition GetSystemStatus : M t SystemStatus.t :=
  metrics ← on_mm MM.GetMetrics;
  processes ← on_pm PM.GetAllProcesses;
  time ← now;
  gets (λ s,
    SystemStatus.mk time metrics (Z.of_nat (length processes))
      (GetName (MM.algorithm (PM.memoryManager (processManager s)))) (MetricsSnapshot.Uptime metrics)).

Definition process_detail (proc : Process.t) (pageTable : res PageTable.t) : ProcessDetail.t :=
  let stats := match pageTable with
               | Ok pt => PageTable.GetStats pt
               | Err _ => PageTable.mk_stats 0 0 0 0
               end in
  {| ProcessDetail.ID := Process.ID proc; ProcessDetail.Name := Process.Name proc;
     ProcessDetail.State := Process.GetStateString proc; ProcessDetail.Priority := Process.Priority proc;
     ProcessDetail.PageFaults := Process.PageFaults proc; ProcessDetail.PageHits := Process.PageHits proc;
     ProcessDetail.MemoryAccesses := Process.MemoryAccesses proc; ProcessDetail.CoWCopies := Process.CoWCopies proc;
     ProcessDetail.PageFaultRate := Process.GetPageFaultRate proc;
     ProcessDetail.PageHitRate := Process.GetPageHitRate proc;
     ProcessDetail.TotalPages := PageTable.TotalPages stats; ProcessDetail.PresentPages := PageTable.PresentPages stats;
     ProcessDetail.SharedPages := PageTable.SharedPages stats; ProcessDetail.DirtyPages := PageTable.DirtyPages stats |}.
Definition GetProcessDetails : M t (list ProcessDetail.t) :=
  processes ← on_pm PM.GetAllProcesses;
  gets (λ s,
    (λ p, let proc := PM.object p (processManager s) in
          process_detail proc (MM.GetPageTable (Process.ID proc) (PM.memoryManager (processManager s)))) <$> processes).

Definition frame_detail (frame : ptr) : M t FrameDetail.t :=
  f ← on_mm (MM.on_heap (load frame));
  age ← (if Frame.IsFree f || (Frame.LoadedAt f =? 0) then mret 0       (* the clock is not read *)
         else time ← now; mret (Frame.GetAge time f));
  mret {| FrameDetail.ID := Frame.ID f; FrameDetail.Free := Frame.IsFree f; FrameDetail.Pinned := Frame.IsPinned f;
          FrameDetail.Modified := Frame.IsModified f; FrameDetail.PageID := Frame.GetPageID f;
          FrameDetail.ProcessID := Frame.GetProcessID f; FrameDetail.LoadedAt := Frame.GetLoadedTime f;
          FrameDetail.LastAccess := Frame.GetLastAccessTime f; FrameDetail.AccessCount := Frame.GetAccessCount f;
          FrameDetail.Age := age |}.
Fixpoint frame_details (frames : list ptr) : M t (list FrameDetail.t) :=
  match frames with
  | [] => mret []
  | p :: frames => d ← frame_detail p; ds ← frame_details frames; mret (d :: ds)
  end.
Definition GetFrameDetails : M t (list FrameDetail.t) :=
  s ← get_st; frame_details (FrameTable.GetAllFrames (MM.frameTable (PM.memoryManager (processManager s)))).

(** ** Periodic capture *)

(** The stop channel: that of a new goroutine, or ([None]) a closed one. *)
Definition StartPeriodicCapture : M t (option nat) :=
  s ← get_st;
  if started s then mret None
  else modify (λ s, s <| started := true |> <| captures ::= λ c, c ++ [true] |>) ;;
       mret (Some (length (captures s))).
(** The goroutine's loop: a tick, and the end once the channel is closed. *)
Definition capture_tick (i : nat) : M t unit :=
  s ← get_st;
  match captures s !! i with
  | Some true => CaptureSnapshot
  | _ => mret ()
  end.
Definition capture_stop (i : nat) : M t unit := modify (λ s, s <| captures ::= <[i := false]> |>).

Definition ClearHistory : M t unit :=
  modify (λ s, s <| history := [] |>) ;;
  modify (λ s, s <| events := [] |>) ;;
  modify (λ s, s <| isThrashing := false |> <| thrashedAt := None |>).
End ops.
End Mon.
