(* ===== verification/MonitorProps.v ===== *)
(** * What the monitor guarantees

    The bounds of the history and of the event list only forget old entries;
    each event reaches each subscriber once; thrashing is reported on its rising
    edge; captures are started once. *)

From S2P Require Import Prelude Models Heap FrameTable Policy Policies PoliciesSpec Algorithms.
From S2P Require Import Tlb PageTable MultiLevel Advanced Cow Manager ManagerInv ProcMan ProcManProps.
From S2P Require Import Simulator SimulatorSteps SimulatorRuns Monitor.
Local Open Scope Z_scope.

(** ** The end of a list *)

Section ends.
Context {A : Type}.
Implicit Types (x : A) (l : list A) (m : nat).

Definition lastn m l : list A := drop (length l - m) l.

Lemma lastn_length m l : length (lastn m l) = min m (length l).
Proof. unfold lastn. rewrite length_drop. lia. Qed.

Lemma lastn_all m l : (length l ≤ m)%nat → lastn m l = l.
Proof. intros Hl. unfold lastn. by replace (length l - m)%nat with 0%nat by lia. Qed.

Lemma lastn_lastn m k l : (m ≤ k)%nat → lastn m (lastn k l) = lastn m l.
Proof.
  intros Hm. unfold lastn at 1. rewrite lastn_length. unfold lastn. rewrite drop_drop. f_equal. lia.
Qed.

Lemma lastn_snoc m l x : lastn m (lastn m l ++ [x]) = lastn m (l ++ [x]).
Proof.
  unfold lastn at 1 3. rewrite !length_app, lastn_length. simpl.
  destruct (decide (length l ≤ m)%nat).
  - rewrite lastn_all by done. f_equal. lia.
  - unfold lastn. rewrite <-(drop_app_le l [x] (length l - m)), drop_drop by lia. f_equal. lia.
Qed.

Lemma push_lastn m l x : (length l ≤ m)%nat → Mon.push (Z.of_nat m) x l = lastn m (l ++ [x]).
Proof.
  intros Hl. unfold Mon.push, lastn. rewrite !length_app. simpl. destruct (Z.ltb_spec (Z.of_nat m) (Z.of_nat (length l + 1))).
  - replace (length l + 1 - m)%nat with 1%nat by lia. by destruct l.
  - by replace (length l + 1 - m)%nat with 0%nat by lia.
Qed.

(** Forgetting more, before or after an entry is added. *)
Lemma push_forget m k x l :
  (m ≤ k)%nat → (length l ≤ k)%nat →
  Mon.push (Z.of_nat m) x (lastn m l) = lastn m (Mon.push (Z.of_nat k) x l).
Proof.
  intros Hm Hl. rewrite push_lastn by (rewrite lastn_length; lia). rewrite lastn_snoc.
  by rewrite push_lastn, lastn_lastn.
Qed.

Lemma push_length m x l : (length l ≤ m)%nat → (length (Mon.push (Z.of_nat m) x l) ≤ m)%nat.
Proof. intros Hl. rewrite push_lastn, lastn_length by done. lia. Qed.

Lemma latest_lastn k m l :
  0 < k → k ≤ Z.of_nat (min m (length l)) → Mon.latest k (lastn m l) = Mon.latest k l.
Proof.
  intros Hk Hm. unfold Mon.latest. rewrite lastn_length.
  destruct (Z.leb_spec k 0); [lia|]. simpl.
  destruct (Z.ltb_spec (Z.of_nat (min m (length l))) k); [lia|]. destruct (Z.ltb_spec (Z.of_nat (length l)) k); [lia|].
  unfold lastn. rewrite drop_drop. f_equal. lia.
Qed.

Lemma lookup_lastn m l i :
  (length l - m ≤ i)%nat → lastn m l !! (i - (length l - m))%nat = l !! i.
Proof. intros Hi. unfold lastn. rewrite lookup_drop. f_equal. lia. Qed.
End ends.

(** ** Calls on a monitor *)

Section calls.
Context `{Env : GoEnv}.
Import Mon.

(** Calls of its methods, of its readers, and of the process manager under it. *)
Inductive mon_call : Type :=
| CHandle (eventType : string) (data : Event.data)
| CEventRound
| CSubscribe (bufferSize : Z)
| CUnsubscribe (subID : Z)
| CReceive (ch : nat)
| CCapture
| CStart
| CTick (i : nat)
| CStop (i : nat)
| CClear
| CDrive (c : pm_call).

Definition mon_run (c : mon_call) : M Mon.t unit :=
  match c with
  | CHandle ty data => handleEvent ty data
  | CEventRound => event_round
  | CSubscribe k => _ ← SubscribeEvents k; mret ()
  | CUnsubscribe id => UnsubscribeEvents id
  | CReceive ch => _ ← receive ch; mret ()
  | CCapture => CaptureSnapshot
  | CStart => _ ← StartPeriodicCapture; mret ()
  | CTick i => capture_tick i
  | CStop i => capture_stop i
  | CClear => ClearHistory
  | CDrive c => on_pm (pm_run c)
  end.
Definition mon_calls (cs : list mon_call) (s : Mon.t) : Mon.t := (for_each mon_run cs s).2.

(** *** Forgetting commutes with every call *)

Section shrink.
Variables (m k H E : nat).
Hypothesis (Hm2 : (5 ≤ m)%nat) (HmH : (m ≤ H)%nat) (HkE : (k ≤ E)%nat).

(** The monitor with the smaller bounds. *)
Definition shrink (s : Mon.t) : Mon.t :=
  s <| history := lastn m (history s) |> <| maxHistory := Z.of_nat m |>
    <| events := lastn k (events s) |> <| maxEvents := Z.of_nat k |>.

Record roomy (s : Mon.t) : Prop := {
  roomy_H : maxHistory s = Z.of_nat H;
  roomy_E : maxEvents s = Z.of_nat E;
  roomy_history : (length (history s) ≤ H)%nat;
  roomy_events : (length (events s) ≤ E)%nat;
  roomy_window : thrashWindow s = 5;
}.

Definition commutes {A} (c : M Mon.t A) : Prop := ∀ s, roomy s →
  c (shrink s) = ((c s).1, shrink (c s).2) ∧ roomy (c s).2.

Lemma commutes_ret {A} (a : A) : commutes (mret a).
Proof. intros s Hs. by split. Qed.

Lemma commutes_bind {A B} (c : M Mon.t A) (f : A → M Mon.t B) :
  commutes c → (∀ a, commutes (f a)) → commutes (c ≫= f).
Proof.
  intros Hc Hf s Hs. unfold mbind, M_bind. destruct (Hc s Hs) as [-> Hs1]. cbn [fst snd]. by apply Hf.
Qed.

(** Reading parts that are not forgotten. *)
Lemma commutes_get {A} (f : Mon.t → M Mon.t A) :
  (∀ s, f (shrink s) = f s) → (∀ s, commutes (f s)) → commutes (get_st ≫= f).
Proof. intros Heq Hf s Hs. rewrite !run_get_st, Heq. by apply Hf. Qed.

Lemma commutes_gets {A} (f : Mon.t → A) : (∀ s, f (shrink s) = f s) → commutes (gets f).
Proof. intros Heq s Hs. unfold gets. cbn [fst snd]. by rewrite Heq. Qed.

Lemma commutes_modify f :
  (∀ s, roomy s → f (shrink s) = shrink (f s) ∧ roomy (f s)) → commutes (modify f).
Proof. intros Hf s Hs. unfold modify. cbn [fst snd]. by destruct (Hf s Hs) as [-> ?]. Qed.

Lemma commutes_modify_other f :
  (∀ s, f (shrink s) = shrink (f s)) →
  (∀ s, (maxHistory (f s), maxEvents (f s), history (f s), events (f s), thrashWindow (f s)) =
        (maxHistory s, maxEvents s, history s, events s, thrashWindow s)) → commutes (modify f).
Proof.
  intros Hf Hr. apply commutes_modify. intros s [H1 H2 H3 H4 H5]. specialize (Hr s). injection Hr as E1 E2 E3 E4 E5.
  split; [apply Hf|]. constructor; congruence.
Qed.

Lemma commutes_when c (f : M Mon.t unit) : commutes f → commutes (when c f).
Proof. intros Hf. destruct c; [done|apply commutes_ret]. Qed.

Lemma commutes_each {A} (f : A → M Mon.t unit) l : (∀ a, commutes (f a)) → commutes (for_each f l).
Proof.
  intros Hf. induction l as [|a l IH]; [apply commutes_ret|]. cbn [for_each]. by apply commutes_bind.
Qed.

Lemma commutes_on_pm {A} (c : M PM.t A) : commutes (on_pm c).
Proof.
  intros s [H1 H2 H3 H4 H5]. unfold on_pm. change (processManager (shrink s)) with (processManager s).
  destruct (c (processManager s)) as [a pm]. cbn [fst snd]. by split.
Qed.

Lemma commutes_handleEvent ty data : commutes (handleEvent ty data).
Proof.
  unfold handleEvent. apply commutes_bind; [apply commutes_on_pm|intros time]. cbv zeta.
  apply commutes_bind; [|intros _].
  - apply commutes_modify. intros s [H1 H2 H3 H4 H5]. split.
    + unfold shrink. simpl. rewrite H2, (push_forget k E) by done. done.
    + constructor; simpl; [done..| |done]. rewrite H2. by apply push_length.
  - apply commutes_bind; [|intros chs; apply commutes_each; intros ch; by apply commutes_modify_other].
    apply commutes_get; [done|intros s]. apply commutes_bind; [apply commutes_on_pm|intros l; apply commutes_ret].
Qed.

Lemma window_ends_lastn h : window_ends 5 (lastn m h) = window_ends 5 h.
Proof.
  unfold window_ends. rewrite lastn_length.
  destruct (Z.ltb_spec (Z.of_nat (min m (length h))) 2), (Z.ltb_spec (Z.of_nat (length h)) 2); try lia; [done|].
  assert (∀ i j, (length h - m ≤ j)%nat → i = (j - (length h - m))%nat → lastn m h !! i = h !! j) as Hl
    by (intros i j ? ->; by apply lookup_lastn).
  rewrite (Hl _ (Z.to_nat (Z.max 0 (Z.of_nat (length h) - 5)))) by lia.
  by rewrite (Hl _ (Z.to_nat (Z.of_nat (length h) - 1))) by lia.
Qed.

Lemma window_rate_lastn h : window_rate 5 (lastn m h) = window_rate 5 h.
Proof. unfold window_rate. by rewrite window_ends_lastn. Qed.

Lemma commutes_detectThrashing : commutes detectThrashing.
Proof.
  intros s Hs. unfold detectThrashing. rewrite !run_get_st.
  change (thrashWindow (shrink s)) with (thrashWindow s). rewrite (roomy_window _ Hs). cbn [Z.leb].
  change (history (shrink s)) with (lastn m (history s)).
  rewrite window_rate_lastn.
  destruct (window_rate 5 (history s)) as [rate|]; [|by split].
  change (thrashThreshold (shrink s)) with (thrashThreshold s). generalize (thrashThreshold s) as threshold.
  intros threshold.
  enough (commutes (update_thrashing rate ≫= λ rising : bool,
    when rising (handleEvent "thrashing_detected" (Event.Thrashing rate threshold 5)))) as Hc by by apply Hc.
  apply commutes_bind.
  - clear s Hs. unfold update_thrashing. apply commutes_get; [done|intros s].
    apply commutes_bind; [|intros _; by apply commutes_gets].
    destruct (f64_leb _ rate); [|by apply commutes_modify_other].
    apply commutes_when, commutes_bind; [by apply commutes_modify_other|intros _].
    apply commutes_bind; [apply commutes_on_pm|intros time; by apply commutes_modify_other].
  - intros rising. apply commutes_when. apply commutes_handleEvent.
Qed.

Lemma commutes_CaptureSnapshot : commutes CaptureSnapshot.
Proof.
  unfold CaptureSnapshot. apply commutes_bind; [apply commutes_on_pm|intros time].
  apply commutes_bind; [apply commutes_on_pm|intros metrics].
  apply commutes_bind; [|intros _; apply commutes_detectThrashing].
  apply commutes_modify. intros s [H1 H2 H3 H4 H5]. split.
  - unfold shrink. simpl. rewrite H1, (push_forget m H) by done. done.
  - constructor; simpl; [done|done| |done|done]. rewrite H1. by apply push_length.
Qed.

Lemma commutes_run c : commutes (mon_run c).
Proof.
  destruct c; cbn [mon_run].
  - apply commutes_handleEvent.
  - unfold event_round. apply commutes_bind; [apply commutes_on_pm|intros [[e []]|]];
      [apply commutes_handleEvent|apply commutes_ret..].
  - apply commutes_bind; [|intros _; apply commutes_ret]. apply commutes_get; [done|intros s]. cbv zeta.
    apply commutes_bind; [by apply commutes_modify_other|intros _; apply commutes_ret].
  - by apply commutes_modify_other.
  - apply commutes_bind; [|intros _; apply commutes_ret]. intros s [H1 H2 H3 H4 H5]. unfold receive.
    change (chans (shrink s)) with (chans s). destruct (chans s !! ch) as [c|]; [|by split].
    destruct (Chan.receive c) as [e c']. by split.
  - apply commutes_CaptureSnapshot.
  - apply commutes_bind; [|intros _; apply commutes_ret]. apply commutes_get; [done|intros s].
    destruct (started s); [apply commutes_ret|].
    apply commutes_bind; [by apply commutes_modify_other|intros _; apply commutes_ret].
  - unfold capture_tick. apply commutes_get; [done|intros s].
    destruct (captures s !! i) as [[]|]; [apply commutes_CaptureSnapshot|apply commutes_ret..].
  - by apply commutes_modify_other.
  - unfold ClearHistory. apply commutes_bind; [|intros _; apply commutes_bind; [|intros _; by apply commutes_modify_other]];
      apply commutes_modify; intros s [H1 H2 H3 H4 H5]; (split; [|constructor; simpl; done || lia]); by destruct s.
  - apply commutes_on_pm.
Qed.

Lemma commutes_calls cs : commutes (for_each mon_run cs).
Proof. apply commutes_each, commutes_run. Qed.
End shrink.
End calls.

(** ** Delivery to subscribers *)

Section delivery.
Context `{Env : GoEnv}.
Import Mon.
Implicit Types (s : Mon.t).

Definition chan_ok (c : Chan.t) : Prop := 16 ≤ Chan.capacity c ∧ Z.of_nat (length (Chan.buffer c)) ≤ Chan.capacity c.

(** Subscription IDs below the next one name distinct channels. *)
Record subs_ok s : Prop := {
  subs_ids id ch : eventSubs s !! id = Some ch → id < nextSubID s;
  subs_chans id ch : eventSubs s !! id = Some ch → (ch < length (chans s))%nat;
  subs_inj id1 id2 ch : eventSubs s !! id1 = Some ch → eventSubs s !! id2 = Some ch → id1 = id2;
  subs_bounded : Forall chan_ok (chans s);
}.

Definition subscriber s (ch : nat) : Prop := ∃ id, eventSubs s !! id = Some ch.

(** The parts that decide who gets what. *)
Definition same_subs s s' : Prop :=
  eventSubs s' = eventSubs s ∧ nextSubID s' = nextSubID s ∧ chans s' = chans s.

Lemma on_pm_subs {A} (c : M PM.t A) s : same_subs s (on_pm c s).2.
Proof. unfold on_pm. by destruct (c (processManager s)). Qed.

Lemma send_all e chs s :
  NoDup chs →
  let s' := (for_each (send e) chs s).2 in
  s' = s <| chans := chans s' |> ∧ length (chans s') = length (chans s) ∧
  ∀ ch, chans s' !! ch = if decide (ch ∈ chs) then Chan.try_send e <$> chans s !! ch else chans s !! ch.
Proof.
  cbv zeta. revert s. induction chs as [|c chs IH]; intros s Hnd; [by destruct s|].
  apply NoDup_cons in Hnd as [Hc Hnd].
  change (for_each (send e) (c :: chs) s) with (for_each (send e) chs (s <| chans ::= alter (Chan.try_send e) c |>)).
  specialize (IH (s <| chans ::= alter (Chan.try_send e) c |>) Hnd). destruct IH as (H1 & H2 & H3).
  split_and!.
  - rewrite H1 at 1. by destruct s.
  - rewrite H2. simpl. apply length_alter.
  - intros ch. rewrite H3. simpl. destruct (decide (ch = c)) as [->|Hne].
    + rewrite decide_False, decide_True by set_solver. apply list_lookup_alter_eq.
    + rewrite list_lookup_alter_ne by done.
      destruct (decide (ch ∈ chs)); [rewrite decide_True by set_solver|rewrite decide_False by set_solver]; done.
Qed.

Lemma subscribed_spec s :
  subs_ok s →
  let '(chs, s') := subscribed s in
  NoDup chs ∧ (∀ ch, ch ∈ chs ↔ subscriber s ch) ∧ ∃ pm, s' = s <| processManager := pm |>.
Proof.
  intros Hs. unfold subscribed. rewrite run_get_st. unfold on_mm, on_pm, PM.on_mm, MM.on_heap, range_map.
  unfold mbind, M_bind, mret, M_ret. cbn [fst snd]. set (l := shuffle _ _). assert (l ≡ₚ map_to_list (eventSubs s)) as Hl by apply shuffle_perm.
  split_and!.
  - rewrite Hl. apply NoDup_fmap_2_strong; [|apply NoDup_map_to_list].
    intros [i1 c1] [i2 c2] H1%elem_of_map_to_list H2%elem_of_map_to_list Heq. simpl in Heq. subst c2.
    by rewrite (subs_inj s Hs i1 i2 c1 H1 H2).
  - intros ch. rewrite Hl, list_elem_of_fmap. unfold subscriber. split.
    + intros ([id c] & -> & Hin%elem_of_map_to_list). by exists id.
    + intros (id & Hin%elem_of_map_to_list). by exists (id, ch).
  - by eexists.
Qed.

(** What [handleEvent] does: one event, to the list and to each subscriber. *)
Lemma handleEvent_spec ty data s :
  subs_ok s →
  let '(_, s') := handleEvent ty data s in
  ∃ time, let e := Event.mk time ty data in
  events s' = push (maxEvents s) e (events s) ∧
  (∀ ch, subscriber s ch → chans s' !! ch = Chan.try_send e <$> chans s !! ch) ∧
  (∀ ch, ¬ subscriber s ch → chans s' !! ch = chans s !! ch) ∧
  ∃ pm, s' = s <| processManager := pm |> <| events := events s' |> <| chans := chans s' |> ∧
        length (chans s') = length (chans s).
Proof.
  intros Hs. unfold handleEvent. unfold mbind at 1, M_bind at 1. cbv zeta.
  assert (∃ pm, (now s).2 = s <| processManager := pm |>) as [pm Hpm].
  { unfold now, on_mm, on_pm. destruct (PM.on_mm MM.now (processManager s)) as [t pm]. by exists pm. }
  destruct (now s) as [time s1]. cbn [fst snd] in *. subst s1. set (e := Event.mk time ty data).
  unfold add_event. rewrite run_modify. set (s2 := _ <| events ::= _ |>). unfold mbind at 1, M_bind at 1.
  assert (subs_ok s2) as Hs2 by (destruct Hs; by constructor).
  pose proof (subscribed_spec s2 Hs2) as Hsub. destruct (subscribed s2) as [chs s3]. cbn [fst snd].
  destruct Hsub as (Hnd & Hin & pm' & ->).
  pose proof (send_all e chs (s2 <| processManager := pm' |>) Hnd) as (H1 & H2 & H3).
  destruct (for_each (send e) chs (s2 <| processManager := pm' |>)) as [[] s']. cbn [snd] in *.
  exists time. cbv zeta. fold e. split_and!.
  - by rewrite H1.
  - intros ch Hch. rewrite H3. by rewrite decide_True by by apply Hin.
  - intros ch Hch. rewrite H3. rewrite decide_False; [done|]. intros Hch'. by apply Hch, Hin.
  - exists pm'. split; [|done]. rewrite H1. by destruct s.
Qed.

Lemma try_send_ok e c : chan_ok c → chan_ok (Chan.try_send e c).
Proof.
  intros [H1 H2]. unfold Chan.try_send. destruct (Z.ltb_spec (Z.of_nat (length (Chan.buffer c))) (Chan.capacity c)); [|by split].
  split; simpl; [done|]. rewrite length_app. simpl. lia.
Qed.

Definition keeps_subs {A} (c : M Mon.t A) : Prop := ∀ s, subs_ok s → subs_ok (c s).2 ∧ nextSubID s = nextSubID (c s).2.

Lemma subs_ok_same s s' : same_subs s s' → subs_ok s → subs_ok s'.
Proof. intros (E1 & E2 & E3) [H1 H2 H3 H4]. constructor; rewrite ?E1, ?E2, ?E3; done. Qed.

Lemma keeps_subs_same {A} (c : M Mon.t A) : (∀ s, same_subs s (c s).2) → keeps_subs c.
Proof. intros Hc s Hs. split; [by eapply subs_ok_same|]. by destruct (Hc s) as (_ & -> & _). Qed.

Lemma keeps_subs_bind {A B} (c : M Mon.t A) (f : A → M Mon.t B) :
  keeps_subs c → (∀ a, keeps_subs (f a)) → keeps_subs (c ≫= f).
Proof.
  intros Hc Hf s Hs. unfold mbind, M_bind. destruct (Hc s Hs) as [Hs1 E1]. destruct (c s) as [a s1]. cbn [fst snd] in *.
  destruct (Hf a s1 Hs1) as [Hs2 E2]. split; [done|congruence].
Qed.

Lemma keeps_subs_get {A} (f : Mon.t → M Mon.t A) : (∀ s, keeps_subs (f s)) → keeps_subs (get_st ≫= f).
Proof. intros Hf s Hs. rewrite run_get_st. by apply Hf. Qed.

Lemma keeps_subs_handleEvent ty data : keeps_subs (handleEvent ty data).
Proof.
  intros s Hs. pose proof (handleEvent_spec ty data s Hs) as H. destruct (handleEvent ty data s) as [[] s'].
  destruct H as (time & _ & Hin & Hout & pm & Heq & Hlen). cbn [snd].
  assert (eventSubs s' = eventSubs s) as E1 by by rewrite Heq.
  assert (nextSubID s' = nextSubID s) as E2 by by rewrite Heq.
  split; [|done]. destruct Hs as [H1 H2 H3 H4]. constructor; rewrite ?E1, ?E2, ?Hlen; [done..|].
  apply Forall_lookup. intros ch c Hc.
  destruct (decide (map_Exists (λ _ c, c = ch) (eventSubs s))) as [Hsub|Hsub].
  - assert (subscriber s ch) as Hs'%Hin by (destruct Hsub as (id & c0 & Hid & ->); by exists id).
    rewrite Hc in Hs'. destruct (chans s !! ch) as [c0|] eqn:Hc0; [|done]. injection Hs' as ->.
    apply try_send_ok. rewrite Forall_lookup in H4. by eapply H4.
  - assert (¬ subscriber s ch) as Hs'%Hout by (intros (id & Hid); apply Hsub; by exists id, ch).
    rewrite Hc in Hs'. rewrite Forall_lookup in H4. by eapply H4.
Qed.

Lemma keeps_subs_when b (c : M Mon.t unit) : keeps_subs c → keeps_subs (when b c).
Proof. intros Hc. destruct b; [done|by apply keeps_subs_same]. Qed.

Lemma keeps_subs_detectThrashing : keeps_subs detectThrashing.
Proof.
  unfold detectThrashing. apply keeps_subs_get. intros s. destruct (_ <=? _); [by apply keeps_subs_same|].
  destruct (window_rate _ _) as [rate|]; [|by apply keeps_subs_same].
  apply keeps_subs_bind; [|intros rising; apply keeps_subs_when, keeps_subs_handleEvent].
  unfold update_thrashing. apply keeps_subs_get. intros s1. apply keeps_subs_bind; [|intros _; by apply keeps_subs_same].
  destruct (f64_leb _ _); [|by apply keeps_subs_same]. apply keeps_subs_when.
  apply keeps_subs_bind; [by apply keeps_subs_same|intros _].
  apply keeps_subs_bind; [apply keeps_subs_same, on_pm_subs|intros time; by apply keeps_subs_same].
Qed.

Lemma keeps_subs_CaptureSnapshot : keeps_subs CaptureSnapshot.
Proof.
  unfold CaptureSnapshot. apply keeps_subs_bind; [apply keeps_subs_same, on_pm_subs|intros time].
  apply keeps_subs_bind; [apply keeps_subs_same, on_pm_subs|intros metrics].
  apply keeps_subs_bind; [by apply keeps_subs_same|intros _; apply keeps_subs_detectThrashing].
Qed.

Lemma subscribe_subs size s :
  subs_ok s → 0 ≤ nextSubID s < 2 ^ 63 - 1 →
  let s' := (SubscribeEvents size s).2 in subs_ok s' ∧ nextSubID s' = nextSubID s + 1.
Proof.
  intros [H1 H2 H3 H4] Hn. cbv zeta. unfold SubscribeEvents. rewrite run_get_st. cbv zeta. rewrite run_modify.
  unfold mret, M_ret. cbn [snd]. simpl. rewrite i64_small by lia. split; [|done]. constructor; simpl.
  - intros id ch [[<- _]|[_ Hid]]%lookup_insert_Some; [lia|]. specialize (H1 _ _ Hid). lia.
  - intros id ch. rewrite length_app. simpl. intros [[_ <-]|[_ Hid]]%lookup_insert_Some; [lia|].
    specialize (H2 _ _ Hid). lia.
  - intros id1 id2 ch [[<- Hc]|[_ Hid1]]%lookup_insert_Some [[<- Hc']|[_ Hid2]]%lookup_insert_Some.
    + done.
    + specialize (H2 _ _ Hid2). lia.
    + specialize (H2 _ _ Hid1). lia.
    + by eapply H3.
  - apply Forall_app. split; [done|]. apply Forall_singleton. unfold chan_ok. simpl. destruct (Z.ltb_spec size 16); lia.
Qed.

Lemma mon_run_subs c s :
  subs_ok s → 0 ≤ nextSubID s < 2 ^ 63 - 1 →
  subs_ok (mon_run c s).2 ∧ nextSubID s ≤ nextSubID (mon_run c s).2 ≤ nextSubID s + 1.
Proof.
  intros Hs Hn.
  assert (keeps_subs (mon_run c) → subs_ok (mon_run c s).2 ∧ nextSubID s ≤ nextSubID (mon_run c s).2 ≤ nextSubID s + 1) as Hk.
  { intros Hk. destruct (Hk s Hs) as [? ->]. split; [done|lia]. }
  destruct c.
  - apply Hk, keeps_subs_handleEvent.
  - apply Hk. cbn [mon_run]. unfold event_round. apply keeps_subs_bind; [apply keeps_subs_same, on_pm_subs|].
    intros [[e []]|]; [apply keeps_subs_handleEvent|by apply keeps_subs_same..].
  - cbn [mon_run]. unfold mbind, M_bind. cbn [snd mret M_ret].
    destruct (subscribe_subs bufferSize s Hs Hn) as [? ->]. split; [done|lia].
  - cbn [mon_run]. unfold UnsubscribeEvents, modify. cbn [snd]. split; [|simpl; lia].
    destruct Hs as [H1 H2 H3 H4]. constructor; simpl; [..|done].
    + intros id ch [_ Hid]%lookup_delete_Some. by eapply H1.
    + intros id ch [_ Hid]%lookup_delete_Some. by eapply H2.
    + intros id1 id2 ch [_ Hid1]%lookup_delete_Some [_ Hid2]%lookup_delete_Some. by eapply H3.
  - cbn [mon_run]. unfold mbind, M_bind, receive. cbn [snd mret M_ret].
    destruct (chans s !! ch) as [c|] eqn:Hc; [|split; [done|simpl; lia]].
    assert (chan_ok (Chan.receive c).2) as Hok.
    { destruct Hs as [_ _ _ H4]. rewrite Forall_lookup in H4. destruct (H4 _ _ Hc) as [Hcap Hlen].
      unfold Chan.receive, chan_ok. destruct (Chan.buffer c) as [|e q] eqn:Hb; cbn [snd Chan.capacity Chan.buffer]; [by rewrite Hb|simpl in Hlen; lia]. }
    destruct (Chan.receive c) as [e c']. cbn [snd] in *. split; [|simpl; lia].
    destruct Hs as [H1 H2 H3 H4]. constructor; simpl; [done| |done|by apply Forall_insert].
    intros id ch'. rewrite length_insert. apply H2.
  - apply Hk, keeps_subs_CaptureSnapshot.
  - apply Hk. cbn [mon_run]. apply keeps_subs_bind; [|intros _; by apply keeps_subs_same].
    apply keeps_subs_get. intros s1. destruct (started s1); [by apply keeps_subs_same|].
    apply keeps_subs_bind; intros; by apply keeps_subs_same.
  - apply Hk. cbn [mon_run]. unfold capture_tick. apply keeps_subs_get. intros s1.
    destruct (captures s1 !! i) as [[]|]; [apply keeps_subs_CaptureSnapshot|by apply keeps_subs_same..].
  - by apply Hk, keeps_subs_same.
  - by apply Hk, keeps_subs_same.
  - apply Hk, keeps_subs_same, on_pm_subs.
Qed.

Lemma mon_calls_subs cs s :
  subs_ok s → 0 ≤ nextSubID s → nextSubID s + Z.of_nat (length cs) < 2 ^ 63 →
  subs_ok (mon_calls cs s) ∧ nextSubID (mon_calls cs s) < 2 ^ 63.
Proof.
  revert s. induction cs as [|c cs IH]; intros s Hs Hn Hlen; [split; [done|]; change (nextSubID s < 2 ^ 63); simpl in Hlen; lia|].
  rewrite length_cons, Nat2Z.inj_succ in Hlen. destruct (mon_run_subs c s Hs ltac:(lia)) as [Hs1 Hn1].
  apply (IH (mon_run c s).2 Hs1); lia.
Qed.

Lemma subs_ok_new pm : subs_ok (NewMonitor pm).
Proof. constructor; simpl; try done; by intros ? ? ?%lookup_empty_Some || by intros ? ? ? ?%lookup_empty_Some. Qed.
End delivery.

(** ** Thrashing *)

Section thrashing.
Context `{Env : GoEnv}.
Import Mon.
Implicit Types (s : Mon.t).

(** The parts that the detector reads and writes. *)
Definition same_detector s s' : Prop :=
  events s' = events s ∧ maxEvents s' = maxEvents s ∧ history s' = history s ∧ isThrashing s' = isThrashing s ∧
  thrashedAt s' = thrashedAt s ∧ thrashThreshold s' = thrashThreshold s ∧ thrashWindow s' = thrashWindow s ∧ maxHistory s' = maxHistory s.
#[local] Instance same_detector_preorder : PreOrder same_detector.
Proof. unfold same_detector. split; [done|]. intros s1 s2 s3. intuition congruence. Qed.

Lemma same_detector_on_pm {A} (c : M PM.t A) : related same_detector (on_pm c).
Proof. intros s. unfold on_pm. by destruct (c (processManager s)). Qed.

Lemma same_detector_broadcast e : related same_detector (chs ← subscribed; for_each (send e) chs).
Proof.
  apply related_bind; [apply _| |intros chs; by apply related_for_each; [apply _|intros ch s]].
  apply related_bind; [apply _|by intros s|intros s0].
  apply related_bind; [apply _|apply same_detector_on_pm|intros l; apply related_ret, _].
Qed.

Lemma handleEvent_eq ty data s :
  handleEvent ty data s =
  let s1 := (now s).2 in
  let e := Event.mk (now s).1 ty data in
  (chs ← subscribed; for_each (send e) chs) (s1 <| events ::= push (maxEvents s1) e |>).
Proof. done. Qed.

Lemma handleEvent_events ty data s :
  let s' := (handleEvent ty data s).2 in
  (∃ time, events s' = push (maxEvents s) (Event.mk time ty data) (events s)) ∧
  history s' = history s ∧ isThrashing s' = isThrashing s ∧ thrashedAt s' = thrashedAt s.
Proof.
  cbv zeta. rewrite handleEvent_eq. cbv zeta.
  pose proof (same_detector_on_pm (PM.on_mm MM.now) s) as (E1 & E2 & E3 & E4 & E5 & _).
  unfold now, on_mm. destruct (on_pm (PM.on_mm MM.now) s) as [time s1]. cbn [fst snd] in *.
  set (e := Event.mk time ty data). set (s2 := s1 <| events ::= push (maxEvents s1) e |>).
  pose proof (same_detector_broadcast e s2) as (F1 & _ & F3 & F4 & F5 & _).
  rewrite F1, F3, F4, F5. unfold s2. simpl. rewrite E1, E2, E3, E4, E5. split; [by exists time|done].
Qed.

(** The detector, on the snapshots it has. *)
Definition measured s : option f64 :=
  if thrashWindow s <=? 0 then None else window_rate (thrashWindow s) (history s).

Lemma update_thrashing_spec rate s :
  let '(rising, s') := update_thrashing rate s in
  let high := f64_leb (thrashThreshold s) rate in
  isThrashing s' = high ∧ rising = high && negb (isThrashing s) ∧
  (events s', maxEvents s', history s', thrashThreshold s', thrashWindow s') =
    (events s, maxEvents s, history s, thrashThreshold s, thrashWindow s) ∧
  (if rising then is_Some (thrashedAt s') else thrashedAt s' = thrashedAt s).
Proof.
  unfold update_thrashing. rewrite run_get_st. destruct (f64_leb (thrashThreshold s) rate).
  - unfold when. destruct (isThrashing s) eqn:Ht; cbn [negb].
    + unfold mbind, M_bind, mret, M_ret, gets. cbn [fst snd]. by rewrite Ht.
    + unfold mbind at 1, M_bind at 1. rewrite run_modify. unfold mbind at 1, M_bind at 1. cbv zeta.
      match goal with |- context [now ?x] =>
        pose proof (same_detector_on_pm (PM.on_mm MM.now) x) as (E1 & E2 & E3 & E4 & E5 & E6 & E7 & E8);
        unfold now, on_mm; destruct (on_pm (PM.on_mm MM.now) x) as [time s1] end.
      cbn [fst snd modify gets] in *. simpl. simpl in E4. rewrite E4. simpl.
      split_and!; [done|done|by rewrite E1, E2, E3, E6, E7|by eexists].
  - unfold mbind, M_bind, gets. cbn [fst snd modify]. by split_and!.
Qed.

Lemma detectThrashing_spec s :
  let s' := (detectThrashing s).2 in
  history s' = history s ∧
  isThrashing s' = match measured s with Some rate => f64_leb (thrashThreshold s) rate | None => isThrashing s end ∧
  if isThrashing s' && negb (isThrashing s)
  then ∃ time rate, measured s = Some rate ∧ is_Some (thrashedAt s') ∧
         events s' = push (maxEvents s) (Event.mk time "thrashing_detected"
           (Event.Thrashing rate (thrashThreshold s) (thrashWindow s))) (events s)
  else events s' = events s ∧ thrashedAt s' = thrashedAt s.
Proof.
  cbv zeta. unfold detectThrashing, measured. rewrite run_get_st.
  assert (∀ b, b && negb b = false) as Hb by by intros [].
  destruct (thrashWindow s <=? 0); [unfold mret, M_ret; cbn [snd]; by rewrite Hb|].
  destruct (window_rate (thrashWindow s) (history s)) as [rate|]; [|unfold mret, M_ret; cbn [snd]; by rewrite Hb].
  unfold mbind, M_bind. cbv zeta.
  pose proof (update_thrashing_spec rate s) as Hu. destruct (update_thrashing rate s) as [rising s1].
  cbn [fst snd]. destruct Hu as (Ht & Hr & Hsame & Hat). injection Hsame as E1 E2 E3 E4 E5.
  destruct rising; unfold when.
  - match goal with |- context [handleEvent ?ty ?d s1] =>
      pose proof (handleEvent_events ty d s1) as ((time & Hev) & F3 & F4 & F5) end.
    rewrite F3, F4, F5, E3, Ht, <-Hr. split_and!; [done..|].
    exists time, rate. split_and!; [done|done|]. by rewrite Hev, E1, E2.
  - unfold mret, M_ret. cbn [snd]. rewrite E3, Ht, <-Hr. split_and!; done || congruence.
Qed.
End thrashing.

(** ** Capture goroutines *)

Section captures.
Context `{Env : GoEnv}.
Import Mon.

(** Nothing starts a goroutine once [started] is set, and nothing clears it. *)
Lemma StartPeriodicCapture_spec s :
  let '(r, s') := StartPeriodicCapture s in
  started s' = true ∧
  if started s then r = None ∧ s' = s else r = Some (length (captures s)) ∧ captures s' = captures s ++ [true].
Proof.
  unfold StartPeriodicCapture. rewrite run_get_st. destruct (started s) eqn:Hs; [by split_and!|].
  rewrite run_modify. by split_and!.
Qed.

(** After the only goroutine was stopped, a new start is refused although no
    goroutine runs any more. *)
Example capture_never_restarts (pm : PM.t) :
  let s := mon_calls [CStart; CStop 0%nat] (NewMonitor pm) in
  captures s = [false] ∧ StartPeriodicCapture s = (None, s).
Proof. done. Qed.
End captures.

(** ** The theorems *)

Section theorems.
Context `{Env : GoEnv}.
Import Mon.

(** C17: The bounds of the monitor only forget the oldest entries.  Whatever is
    called, a monitor with larger bounds goes through the same states, up to its
    lists: the history is the latest 1000 entries of the longer one, the events
    the latest 500, and a client that asks for the last few sees the same. *)
Theorem monitor_keeps_latest (pm : PM.t) (cs : list mon_call) (H E : nat) :
  1000 ≤ Z.of_nat H → 500 ≤ Z.of_nat E →
  let s := mon_calls cs (NewMonitor pm) in
  let u := mon_calls cs ((NewMonitor pm) <| maxHistory := Z.of_nat H |> <| maxEvents := Z.of_nat E |>) in
  s = u <| history := lastn 1000 (history u) |> <| maxHistory := 1000 |>
        <| events := lastn 500 (events u) |> <| maxEvents := 500 |> ∧
  (∀ k, 0 < k ≤ Z.of_nat (length (history s)) → GetHistory k s = GetHistory k u) ∧
  (∀ k, 0 < k ≤ Z.of_nat (length (events s)) → GetEvents k s = GetEvents k u).
Proof.
  intros HH HE s u.
  set (u0 := (NewMonitor pm) <| maxHistory := Z.of_nat H |> <| maxEvents := Z.of_nat E |>) in *.
  assert (roomy H E u0) as Hu0 by (constructor; simpl; done || lia).
  destruct (commutes_calls 1000 500 H E ltac:(lia) ltac:(lia) ltac:(lia) cs u0 Hu0) as [Hc _].
  assert (s = shrink 1000 500 u) as Hs.
  { unfold s, mon_calls. change (NewMonitor pm) with (shrink 1000 500 u0). by rewrite Hc. }
  split_and!; [exact Hs|..]; intros k Hk; rewrite Hs in Hk |- *; unfold GetHistory, GetEvents; simpl in *;
    rewrite lastn_length in Hk; apply latest_lastn; lia.
Qed.

(** C18: A capture appends one snapshot with the counters of the memory manager
    and then decides about thrashing: when there was an access within the
    window, thrashing is declared exactly if the fault rate of the window
    reaches the threshold, otherwise the verdict stays; an event is recorded
    exactly when the verdict turns from no to yes. *)
Theorem capture_detects_thrashing (s : Mon.t) :
  let '(_, s') := CaptureSnapshot s in
  (∃ time metrics, history s' = push (maxHistory s) (HistoricalSnapshot.mk time metrics) (history s) ∧
     let m := MM.metrics (PM.memoryManager (processManager s)) in
     MetricsSnapshot.PageFaults metrics = Metrics.PageFaults m ∧
     MetricsSnapshot.TotalAccesses metrics = Metrics.TotalAccesses m) ∧
  let measured := if thrashWindow s <=? 0 then None else window_rate (thrashWindow s) (history s') in
  isThrashing s' = match measured with Some rate => f64_leb (thrashThreshold s) rate | None => isThrashing s end ∧
  if isThrashing s' && negb (isThrashing s)
  then ∃ time rate, measured = Some rate ∧ is_Some (thrashedAt s') ∧
         events s' = push (maxEvents s) (Event.mk time "thrashing_detected"
           (Event.Thrashing rate (thrashThreshold s) (thrashWindow s))) (events s)
  else events s' = events s ∧ thrashedAt s' = thrashedAt s.
Proof.
  unfold CaptureSnapshot. unfold mbind at 1, M_bind at 1. cbv zeta.
  pose proof (same_detector_on_pm (PM.on_mm MM.now) s) as (E1 & E2 & E3 & E4 & E5 & E6 & E7 & E8).
  assert (MM.metrics (PM.memoryManager (processManager (now s).2)) =
          MM.metrics (PM.memoryManager (processManager s))) as Em by done.
  unfold now, on_mm in *. destruct (on_pm (PM.on_mm MM.now) s) as [time s1]. cbn [fst snd] in *.
  unfold mbind at 1, M_bind at 1. cbv zeta.
  pose proof (same_detector_on_pm (PM.on_mm MM.GetMetrics) s1) as (F1 & F2 & F3 & F4 & F5 & F6 & F7 & F8).
  pose proof (GetMetrics_fields (PM.memoryManager (processManager s1))) as (G1 & G2 & _).
  unfold on_pm at 1, PM.on_mm at 1. unfold on_pm, PM.on_mm in F1, F2, F3, F4, F5, F6, F7, F8.
  destruct (MM.GetMetrics (PM.memoryManager (processManager s1))) as [metrics mm]. cbn [fst snd] in *.
  unfold add_snapshot. rewrite run_modify.
  match goal with |- context [detectThrashing ?x] => pose proof (detectThrashing_spec x) as Hd end.
  match goal with |- context [detectThrashing ?x] => destruct (detectThrashing x) as [[] s'] end.
  cbn [snd] in Hd. destruct Hd as (Hh & Ht & Hev). unfold measured in *. rewrite Hh. simpl in *. rewrite E8 in *.
  split.
  - exists time, metrics. split_and!; [congruence|congruence|congruence].
  - rewrite <-E1, <-E2, <-E4, <-E5, <-E6, <-E7. by split.
Qed.

(** C19: After any calls the subscriptions name distinct channels with bounded
    buffers, and an event handled then reaches every subscribed channel that has
    room exactly once, at its end, and no other channel. *)
Theorem events_reach_subscribers (pm : PM.t) (cs : list mon_call) ty data :
  Z.of_nat (length cs) < 2 ^ 63 - 1 →
  let s := mon_calls cs (NewMonitor pm) in
  (∀ id1 id2 ch, eventSubs s !! id1 = Some ch → eventSubs s !! id2 = Some ch → id1 = id2) ∧
  Forall (λ c, 16 ≤ Chan.capacity c ∧ Z.of_nat (length (Chan.buffer c)) ≤ Chan.capacity c) (chans s) ∧
  let '(_, s') := handleEvent ty data s in
  ∃ time, let e := Event.mk time ty data in
  events s' = push (maxEvents s) e (events s) ∧
  ∀ ch c, chans s !! ch = Some c →
    ∃ c', chans s' !! ch = Some c' ∧ Chan.capacity c' = Chan.capacity c ∧
    Chan.buffer c' = if bool_decide (map_Exists (λ _ ch', ch' = ch) (eventSubs s))
                        && (Z.of_nat (length (Chan.buffer c)) <? Chan.capacity c)
                     then Chan.buffer c ++ [e] else Chan.buffer c.
Proof.
  intros Hcs s. destruct (mon_calls_subs cs (NewMonitor pm) (subs_ok_new pm)) as [Hs _]; [done|simpl; lia|].
  fold s in Hs. split; [apply (subs_inj s Hs)|]. split; [apply (subs_bounded s Hs)|].
  pose proof (handleEvent_spec ty data s Hs) as H. destruct (handleEvent ty data s) as [[] s'].
  destruct H as (time & Hev & Hin & Hout & _). exists time. split; [exact Hev|]. intros ch c Hc.
  case_bool_decide as Hsub; simpl.
  - assert (subscriber s ch) as Hs'%Hin by (destruct Hsub as (id & c0 & Hid & ->); by exists id).
    rewrite Hc in Hs'. eexists. split; [exact Hs'|]. unfold Chan.try_send. by destruct (_ <? _).
  - assert (¬ subscriber s ch) as Hs'%Hout by (intros (id & Hid); apply Hsub; by exists id, ch).
    rewrite Hc in Hs'. by exists c.
Qed.
End theorems.

(** ** The theorems at concrete inputs *)

#[local] Existing Instance first_env.

Definition sample_pm : PM.t := pm_after 2 4 AlgorithmLRU 0 [PMCreate "a" 1 16].
Definition sample_mon_calls : list mon_call :=
  [CSubscribe 0; CCapture; CDrive (PMAccess "P2" 1 false); CDrive (PMAccess "P2" 2 false); CEventRound; CCapture].

Lemma monitor_keeps_latest_witness :
  let s := mon_calls sample_mon_calls (Mon.NewMonitor sample_pm) in
  let u := mon_calls sample_mon_calls
    ((Mon.NewMonitor sample_pm) <| Mon.maxHistory := 2000 |> <| Mon.maxEvents := 1000 |>) in
  Mon.GetHistory 1 s = Mon.GetHistory 1 u.
Proof.
  pose proof (@monitor_keeps_latest first_env sample_pm sample_mon_calls 2000 1000 ltac:(lia) ltac:(lia)) as H.
  cbv zeta in H. destruct H as (_ & H & _). apply (H 1). vm_compute. split; [reflexivity|discriminate].
Defined.

Lemma events_reach_subscribers_witness :
  let s := mon_calls sample_mon_calls (Mon.NewMonitor sample_pm) in
  Mon.isThrashing s = true ∧
  let '(_, s') := Mon.handleEvent "system_reset" (Event.FromManager MM.EvSystemReset) s in
  ∃ c', Mon.chans s' !! 0%nat = Some c' ∧ length (Chan.buffer c') = 3%nat.
Proof.
  pose proof (@events_reach_subscribers first_env sample_pm sample_mon_calls "system_reset"
    (Event.FromManager MM.EvSystemReset) ltac:(vm_compute; reflexivity)) as H.
  cbv zeta in H. destruct H as (_ & _ & H). cbv zeta. split; [vm_compute; reflexivity|].
  destruct (Mon.handleEvent _ _ _) as [u s']. destruct H as (time & _ & H).
  destruct (Mon.chans (mon_calls sample_mon_calls (Mon.NewMonitor sample_pm)) !! 0%nat) as [c|] eqn:Hc;
    [|exfalso; revert Hc; vm_compute; discriminate].
  destruct (H 0%nat c Hc) as (c' & Hc' & _ & Hb). exists c'. split; [exact Hc'|]. rewrite Hb.
  revert Hc. vm_compute. intros [= <-]. reflexivity.
Defined.
