(* ===== verification/Hub.v ===== *)
(** * WebSocket clients: [pkg/api/server.go], [pkg/api/websocket.go]

    The broadcast channel, the set of clients with a bounded channel each, and
    the goroutines around them: [handleBroadcast], one reader, one writer, one
    greeting and at most one metrics goroutine per client, callers of [Broadcast]
    and [Shutdown].  A goroutine is a [task]; [task_step] runs it from one point
    where others can interfere to the next, so a list of labels is a schedule.
    What a connection delivers and which ready case a [select] takes is part of
    the label.  Messages are opaque here. *)

From S2P Require Import Prelude.

(** ** Channels of the language *)
Module GoChan.
Section chan.
Context {A : Type}.

Record t := mk { capacity : nat; buffer : list A; closed : bool }.
Definition make (n : nat) : t := mk n [] false.

(** [ch <- x]; [None] while it blocks. *)
Definition send (x : A) (c : t) : option (outcome t) :=
  if closed c then Some Panic
  else if bool_decide (length (buffer c) < capacity c)
       then Some (Return (mk (capacity c) (buffer c ++ [x]) false))
       else None.
(** [x, ok := <-ch]; [None] while it blocks. *)
Definition receive (c : t) : option (option A * t) :=
  match buffer c with
  | x :: q => Some (Some x, mk (capacity c) q (closed c))
  | [] => if closed c then Some (None, c) else None
  end.
Definition close (c : t) : outcome t :=
  if closed c then Panic else Return (mk (capacity c) (buffer c) true).
End chan.
#[global] Arguments t _ : clear implicits.
End GoChan.

Module Hub.
Section hub.
Context {msg : Type}.

(** [done] tells whether [c.done] is closed. *)
Record client := mk_client { send : GoChan.t msg; done : bool; metricsStarted : bool }.
#[global] Instance eta_client : Eta client := λ r, mk_client (send r) (done r) (metricsStarted r).

(** [clients] holds pointers into [objects], the clients made so far;
    [clientsMu] tells whether the lock is held for reading. *)
Record t := mk {
  clients : gset nat;
  objects : list client;
  clientsMu : bool;
  broadcast : GoChan.t msg;
  broadcastClosed : bool;
}.
#[global] Instance eta_t : Eta t := λ r,
  mk (clients r) (objects r) (clientsMu r) (broadcast r) (broadcastClosed r).

(** The part of [NewServer] and the part of [HandleWebSocket] that make them. *)
Definition new : t :=
  {| clients := ∅; objects := []; clientsMu := false; broadcast := GoChan.make 100; broadcastClosed := false |}.
Definition new_client : client :=
  {| send := GoChan.make 256; done := false; metricsStarted := false |}.

(** ** Operations *)

Definition client_of (c : nat) (s : t) : client := default new_client (objects s !! c).
Definition on_client (c : nat) (g : client → client) : M t unit :=
  modify (λ s, s <| objects ::= alter g c |>).
(** The result of an operation on [c.send]. *)
Definition put_send (c : nat) (r : outcome (GoChan.t msg)) : M t (outcome unit) :=
  ch <-! mret r;
  on_client c (λ o, o <| send := ch |>) ;;
  mret (Return ()).
Definition close_send (c : nat) : M t (outcome unit) :=
  s ← get_st; put_send c (GoChan.close (send (client_of c s))).
(** [None] while the send blocks. *)
Definition try_send (c : nat) (m : msg) : M t (option (outcome unit)) :=
  s ← get_st;
  match GoChan.send m (send (client_of c s)) with
  | None => mret None
  | Some r => r ← put_send c r; mret (Some r)
  end.

Definition connect : M t nat :=
  s ← get_st;
  modify (λ s, s <| objects ::= λ l, l ++ [new_client] |>) ;;
  mret (length (objects s)).
Definition RegisterClient (c : nat) : M t unit :=
  modify (λ s, s <| clients ::= λ cs, {[c]} ∪ cs |>).
Definition UnregisterClient (c : nat) : M t (outcome unit) :=
  s ← get_st;
  if bool_decide (c ∈ clients s)
  then modify (λ s, s <| clients ::= λ cs, cs ∖ {[c]} |>) ;; close_send c
  else mret (Return ()).

(** The [select] of [Broadcast]: whether the message was accepted. *)
Definition broadcast_send (m : msg) : M t (outcome bool) :=
  s ← get_st;
  match GoChan.send m (broadcast s) with
  | None => mret (Return false)
  | Some r => ch <-! mret r; modify (λ s, s <| broadcast := ch |>) ;; mret (Return true)
  end.
Definition Broadcast (m : msg) : M t (outcome unit) :=
  closed ← gets broadcastClosed;
  if closed : bool then mret (Return ())
  else _ <-! broadcast_send m; mret (Return ()).
(** The stretch of [Shutdown] under [broadcastMu]. *)
Definition close_broadcast : M t (outcome unit) :=
  modify (λ s, s <| broadcastClosed := true |>) ;;
  s ← get_st;
  ch <-! mret (GoChan.close (broadcast s));
  modify (λ s, s <| broadcast := ch |>) ;;
  mret (Return ()).

(** One client of the loop of [handleBroadcast] over the dead ones. *)
Definition drop_dead (c : nat) : M t (outcome unit) :=
  s ← get_st;
  if bool_decide (c ∈ clients s)
  then _ <-! close_send c; modify (λ s, s <| clients ::= λ cs, cs ∖ {[c]} |>) ;; mret (Return ())
  else mret (Return ()).

(** What a client asks for; the [type] of its message is [None] when the
    message is no JSON object with a string there. *)
Inductive reaction := Ignored | StartMetrics | Reply.
Definition handleMessage (c : nat) (msgType : option string) : M t reaction :=
  match msgType with
  | None => mret Ignored
  | Some ty =>
      if String.eqb ty "subscribe_metrics" then
        s ← get_st;
        if metricsStarted (client_of c s) then mret Ignored
        else on_client c (λ o, o <| metricsStarted := true |>) ;; mret StartMetrics
      else if String.eqb ty "request_state" then mret Reply
      else mret Ignored
  end.

(** ** Goroutines *)

(** Who sends to [c.send] outside [handleBroadcast], with [<-c.done] as the
    other case. *)
Inductive sender := ByReader | ByMetrics | ByGreeting.

Inductive task :=
| Broadcasting (m : msg)                 (* [Broadcast], before the flag is read *)
| BroadcastSend (m : msg)                (* after it was read as false *)
| ShuttingDown
| Collecting                             (* [handleBroadcast], at the channel *)
| Distributing (m : msg)                 (* before the read lock *)
| FanOut (m : msg) (todo : gset nat) (dead : list nat)
| Reaping (dead : list nat)              (* before the write lock *)
| Connecting
| Registering (c : nat)
| Reading (c : nat)
| Unregistering (c : nat)
| Writing (c : nat)
| Exiting (c : nat)                      (* the deferred calls of [writePump] *)
| Greeting (c : nat)
| Metrics (c : nat)
| Sending (c : nat) (m : msg) (by_ : sender).

(** What the label decides: the next client of the range, the ready case
    [<-c.done], a timer with the message built on it, a failing connection, a
    ping, a message read with the reply to it. *)
Inductive alt :=
| Next
| Client (c : nat)
| Finished
| Tick (m : msg)
| Fault
| Ping
| Incoming (msgType : option string) (reply : msg).

Inductive event :=
| Accepted (m : msg)                     (* put into the broadcast channel *)
| Fanned (m : msg)                       (* taken out and distributed *)
| Joined (c : nat)
| Gave (c : nat) (m : msg)               (* from [handleBroadcast] into [c.send] *)
| Queued (c : nat) (m : msg)             (* from another goroutine into [c.send] *)
| Wrote (c : nat) (m : msg)              (* to the connection *)
| Lost (c : nat) (m : msg).              (* taken by the writer, which failed *)

Inductive move :=
| Blocked
| Crash
| Moves (ts : list task) (es : list event).

Definition settle {A} (r : outcome A) (f : A → move) : move :=
  match r with Return a => f a | _ => Crash end.
(** A stretch under the write lock. *)
Definition exclusive (m : M t move) : M t move :=
  s ← get_st; if clientsMu s then mret Blocked else m.

Definition collecting_step : M t move :=
  s ← get_st;
  match GoChan.receive (broadcast s) with
  | None => mret Blocked
  | Some (None, _) => mret (Moves [] [])
  | Some (Some m, ch) => modify (λ s, s <| broadcast := ch |>) ;; mret (Moves [Distributing m] [])
  end.
Definition distributing_step (m : msg) : M t move :=
  s ← get_st;
  modify (λ s, s <| clientsMu := true |>) ;;
  mret (Moves [FanOut m (clients s) []] [Fanned m]).
Definition fan_out_client (m : msg) (todo : gset nat) (dead : list nat) (c : nat) : M t move :=
  if bool_decide (c ∈ todo) then
    r ← try_send c m;
    mret match r with
         | None => Moves [FanOut m (todo ∖ {[c]}) (dead ++ [c])] []
         | Some r => settle r (λ _, Moves [FanOut m (todo ∖ {[c]}) dead] [Gave c m])
         end
  else mret Blocked.
Definition fan_out_end (todo : gset nat) (dead : list nat) : M t move :=
  if bool_decide (todo = ∅) then
    modify (λ s, s <| clientsMu := false |>) ;;
    mret (Moves [match dead with [] => Collecting | _ => Reaping dead end] [])
  else mret Blocked.
Definition reaping_step (dead : list nat) : M t move :=
  exclusive (r ← try_each drop_dead dead; mret (settle r (λ _, Moves [Collecting] []))).

Definition registering_step (c : nat) : M t move :=
  exclusive (RegisterClient c ;; mret (Moves [Writing c; Reading c; Greeting c] [Joined c])).
Definition unregistering_step (c : nat) : M t move :=
  exclusive (r ← UnregisterClient c; mret (settle r (λ _, Moves [] []))).

Definition reading_message (c : nat) (msgType : option string) (reply : msg) : M t move :=
  r ← handleMessage c msgType;
  mret match r with
       | Ignored => Moves [Reading c] []
       | StartMetrics => Moves [Reading c; Metrics c] []
       | Reply => Moves [Sending c reply ByReader] []
       end.

(** The writer takes a message; [ok] tells whether the connection takes it. *)
Definition writing_step (c : nat) (ok : bool) : M t move :=
  s ← get_st;
  match GoChan.receive (send (client_of c s)) with
  | None => mret Blocked
  | Some (None, _) => mret (Moves [Exiting c] [])
  | Some (Some m, ch) =>
      on_client c (λ o, o <| send := ch |>) ;;
      mret (if ok then Moves [Writing c] [Wrote c m] else Moves [Exiting c] [Lost c m])
  end.
(** [close(c.done)] *)
Definition exiting_step (c : nat) : M t move :=
  s ← get_st;
  if done (client_of c s) then mret Crash
  else on_client c (λ o, o <| done := true |>) ;; mret (Moves [] []).

(** [case <-c.done] *)
Definition finished (c : nat) (ts : list task) : M t move :=
  gets (λ s, if done (client_of c s) then Moves ts [] else Blocked).
Definition sending_step (c : nat) (m : msg) (ts : list task) : M t move :=
  r ← try_send c m;
  mret match r with
       | None => Blocked
       | Some r => settle r (λ _, Moves ts [Queued c m])
       end.
Definition after_send (c : nat) (by_ : sender) : list task :=
  match by_ with ByReader => [Reading c] | ByMetrics => [Metrics c] | ByGreeting => [] end.
Definition after_done (c : nat) (by_ : sender) : list task :=
  match by_ with ByReader => [Reading c] | _ => [] end.

Definition task_step (a : alt) (k : task) : M t move :=
  match k, a with
  | Broadcasting m, Next => gets (λ s, Moves (if broadcastClosed s then [] else [BroadcastSend m]) [])
  | BroadcastSend m, Next =>
      r ← broadcast_send m; mret (settle r (λ b, Moves [] (if b : bool then [Accepted m] else [])))
  | ShuttingDown, Next => r ← close_broadcast; mret (settle r (λ _, Moves [] []))
  | Collecting, Next => collecting_step
  | Distributing m, Next => distributing_step m
  | FanOut m todo dead, Client c => fan_out_client m todo dead c
  | FanOut m todo dead, Next => fan_out_end todo dead
  | Reaping dead, Next => reaping_step dead
  | Connecting, Next => c ← connect; mret (Moves [Registering c] [])
  | Registering c, Next => registering_step c
  | Reading c, Fault => mret (Moves [Unregistering c] [])
  | Reading c, Incoming ty reply => reading_message c ty reply
  | Unregistering c, Next => unregistering_step c
  | Writing c, Next => writing_step c true
  | Writing c, Fault => writing_step c false
  | Writing c, Ping => mret (Moves [Writing c] [])
  | Writing c, Finished => mret (Moves [Exiting c] [])              (* a ping that fails *)
  | Exiting c, Next => exiting_step c
  | Greeting c, Tick m => mret (Moves [Sending c m ByGreeting] [])
  | Greeting c, Finished => finished c []
  | Metrics c, Tick m => mret (Moves [Sending c m ByMetrics] [])
  | Metrics c, Finished => finished c []
  | Sending c m by_, Next => sending_step c m (after_send c by_)
  | Sending c m by_, Finished => finished c (after_done c by_)
  | _, _ => mret Blocked
  end.

(** ** Schedules *)

Record config := mk_config { tasks : list task; hub : t; trace : list event; crashed : option task }.

(** What reaches the server from outside. *)
Inductive label :=
| Sched (i : nat) (a : alt)
| Publish (m : msg)
| Open
| Stop.

Definition start : config := mk_config [Collecting] new [] None.
Definition spawn (k : task) (c : config) : config :=
  mk_config (k :: tasks c) (hub c) (trace c) (crashed c).
(** A panic ends the program; a blocked goroutine stays where it is. *)
Definition sched (i : nat) (a : alt) (c : config) : config :=
  match tasks c !! i with
  | None => c
  | Some k =>
      match task_step a k (hub c) with
      | (Blocked, _) => c
      | (Crash, s) => mk_config (tasks c) s (trace c) (Some k)
      | (Moves ts es, s) => mk_config (ts ++ delete i (tasks c)) s (trace c ++ es) None
      end
  end.
Definition step (l : label) (c : config) : config :=
  match crashed c with
  | Some _ => c
  | None =>
      match l with
      | Sched i a => sched i a c
      | Publish m => spawn (Broadcasting m) c
      | Open => spawn Connecting c
      | Stop => spawn ShuttingDown c
      end
  end.
Definition schedule (ls : list label) (c : config) : config := foldl (λ c l, step l c) c ls.
End hub.
#[global] Arguments client _ : clear implicits.
#[global] Arguments t _ : clear implicits.
#[global] Arguments task _ : clear implicits.
#[global] Arguments alt _ : clear implicits.
#[global] Arguments event _ : clear implicits.
#[global] Arguments label _ : clear implicits.
#[global] Arguments config _ : clear implicits.
End Hub.
