(* ===== verification/HubMoves.v ===== *)
(** * The step relation of broadcasting to WebSocket clients

    [moved] and [crashes] restate [task_step] as a step relation with one rule
    per transition, with what a transition may do to a client. *)

From S2P Require Import Prelude Hub.

Import Hub.

Create HintDb hub.

Section moves.
Context {msg : Type}.
Implicit Types (s : t msg) (k : task msg) (m : msg) (c : nat) (tr : list (event msg)).

Definition sends c s : GoChan.t msg := send (client_of c s).
Definition with_send c ch s : t msg := s <| objects ::= alter (λ o, o <| send := ch |>) c |>.

(** The clients [cs] leave: those that are registered have their channel closed. *)
Definition dropped (cs : gset nat) s s' : Prop :=
  clients s' = clients s ∖ cs ∧ clientsMu s' = clientsMu s ∧ broadcast s' = broadcast s ∧
  ∀ c, objects s' !! c =
    (λ o, if decide (c ∈ cs ∩ clients s)
          then o <| send := GoChan.mk (GoChan.capacity (send o)) (GoChan.buffer (send o)) true |>
          else o) <$> objects s !! c.

Inductive moved s : task msg → list (task msg) → list (event msg) → t msg → Prop :=
| mv_refused m : moved s (Broadcasting m) [] [] s
| mv_checked m : moved s (Broadcasting m) [BroadcastSend m] [] s
| mv_full m : moved s (BroadcastSend m) [] [] s
| mv_accepted m ch : GoChan.send m (broadcast s) = Some (Return ch) →
    moved s (BroadcastSend m) [] [Accepted m] (s <| broadcast := ch |>)
| mv_shutdown ch : GoChan.close (broadcast s) = Return ch →
    moved s ShuttingDown [] [] (s <| broadcastClosed := true |> <| broadcast := ch |>)
| mv_ended : moved s Collecting [] [] s
| mv_collected m ch : GoChan.receive (broadcast s) = Some (Some m, ch) →
    moved s Collecting [Distributing m] [] (s <| broadcast := ch |>)
| mv_distributed m :
    moved s (Distributing m) [FanOut m (clients s) []] [Fanned m] (s <| clientsMu := true |>)
| mv_dead m todo dead c : c ∈ todo →
    moved s (FanOut m todo dead) [FanOut m (todo ∖ {[c]}) (dead ++ [c])] [] s
| mv_gave m todo dead c ch : c ∈ todo → GoChan.send m (sends c s) = Some (Return ch) →
    moved s (FanOut m todo dead) [FanOut m (todo ∖ {[c]}) dead] [Gave c m] (with_send c ch s)
| mv_fanned_out m : moved s (FanOut m ∅ []) [Collecting] [] (s <| clientsMu := false |>)
| mv_found_dead m dead : moved s (FanOut m ∅ dead) [Reaping dead] [] (s <| clientsMu := false |>)
| mv_reaped dead s' : clientsMu s = false → dropped (list_to_set dead) s s' →
    moved s (Reaping dead) [Collecting] [] s'
| mv_connected :
    moved s Connecting [Registering (length (objects s))] [] (s <| objects ::= λ l, l ++ [new_client] |>)
| mv_registered c : clientsMu s = false →
    moved s (Registering c) [Writing c; Reading c; Greeting c] [Joined c]
      (s <| clients ::= λ cs, {[c]} ∪ cs |>)
| mv_read_failed c : moved s (Reading c) [Unregistering c] [] s
| mv_ignored c : moved s (Reading c) [Reading c] [] s
| mv_subscribed c :
    moved s (Reading c) [Reading c; Metrics c] []
      (s <| objects ::= alter (λ o, o <| metricsStarted := true |>) c |>)
| mv_replied c m : moved s (Reading c) [Sending c m ByReader] [] s
| mv_unregistered c s' : clientsMu s = false → dropped {[c]} s s' →
    moved s (Unregistering c) [] [] s'
| mv_wrote c m ch : GoChan.receive (sends c s) = Some (Some m, ch) →
    moved s (Writing c) [Writing c] [Wrote c m] (with_send c ch s)
| mv_lost c m ch : GoChan.receive (sends c s) = Some (Some m, ch) →
    moved s (Writing c) [Exiting c] [Lost c m] (with_send c ch s)
| mv_pinged c : moved s (Writing c) [Writing c] [] s
| mv_write_ended c : moved s (Writing c) [Exiting c] [] s
| mv_exited c : done (client_of c s) = false →
    moved s (Exiting c) [] [] (s <| objects ::= alter (λ o, o <| done := true |>) c |>)
| mv_greeted c m : moved s (Greeting c) [Sending c m ByGreeting] [] s
| mv_greeting_done c : moved s (Greeting c) [] [] s
| mv_ticked c m : moved s (Metrics c) [Sending c m ByMetrics] [] s
| mv_metrics_done c : moved s (Metrics c) [] [] s
| mv_queued c m b ch : GoChan.send m (sends c s) = Some (Return ch) →
    moved s (Sending c m b) (after_send c b) [Queued c m] (with_send c ch s)
| mv_sending_done c m b : moved s (Sending c m b) (after_done c b) [] s.

(** Where a goroutine panics, and on which closed channel. *)
Definition crashes s k : Prop :=
  match k with
  | BroadcastSend _ | ShuttingDown => GoChan.closed (broadcast s) = true
  | FanOut _ todo _ => ∃ c, c ∈ todo ∧ GoChan.closed (sends c s) = true
  | Reaping _ | Unregistering _ => ∃ c, c ∈ clients s ∧ GoChan.closed (sends c s) = true
  | Exiting c => done (client_of c s) = true
  | Sending c _ _ => GoChan.closed (sends c s) = true
  | _ => False
  end.

(** ** [task_step] follows the rules *)

Lemma try_send_eq c m s :
  try_send c m s =
  match GoChan.send m (sends c s) with
  | None => (None, s)
  | Some (Return ch) => (Some (Return ()), with_send c ch s)
  | Some (Fail e) => (Some (Fail e), s)
  | Some Panic => (Some Panic, s)
  end.
Proof. unfold try_send. rewrite run_get_st. fold (sends c s). by destruct (GoChan.send m (sends c s)) as [[]|]. Qed.

Lemma send_closed m (ch : GoChan.t msg) r :
  GoChan.send m ch = Some r → (∃ ch', r = Return ch') ∨ r = Panic ∧ GoChan.closed ch = true.
Proof. unfold GoChan.send. repeat case_match; naive_solver. Qed.

Lemma dropped_none cs s : cs ∩ clients s = ∅ → dropped cs s s.
Proof.
  intros H. split_and!; [set_solver|done|done|]. intros c.
  destruct (objects s !! c); simpl; [|done]. rewrite decide_False; [done|set_solver].
Qed.

Lemma dropped_trans cs1 cs2 s s1 s2 : dropped cs1 s s1 → dropped cs2 s1 s2 → dropped (cs1 ∪ cs2) s s2.
Proof.
  intros (Hc1 & Hm1 & Hb1 & Ho1) (Hc2 & Hm2 & Hb2 & Ho2). split_and!.
  - rewrite Hc2, Hc1. set_solver.
  - by rewrite Hm2.
  - by rewrite Hb2.
  - intros c. rewrite Ho2, Ho1. destruct (objects s !! c) as [o|]; simpl; [|done]. f_equal.
    rewrite Hc1. clear. repeat case_decide; first [done|set_solver].
Qed.

(** Closing the channel of a registered client and forgetting it, in any order. *)
Lemma close_send_drops c s s' r :
  c ∈ clients s → close_send c s = (r, s') →
  r = Return () ∧ dropped {[c]} s (s' <| clients ::= λ cs, cs ∖ {[c]} |>) ∧ clients s' = clients s ∨
  r = Panic ∧ GoChan.closed (sends c s) = true.
Proof.
  intros Hin. unfold close_send. rewrite run_get_st. fold (sends c s). unfold GoChan.close.
  destruct (GoChan.closed (sends c s)) eqn:Hcl; intros [= <- <-]; [by right|left].
  split_and!; [done| |done]. split_and!; [set_solver|done|done|]. intros c'. simpl.
  rewrite list_lookup_alter. destruct (decide (c = c')) as [<-|Hne].
  - unfold sends, client_of. destruct (objects s !! c) as [o|]; simpl; [|done].
    rewrite decide_True by set_solver. done.
  - destruct (objects s !! c'); simpl; [|done]. rewrite decide_False; [done|set_solver].
Qed.

Lemma drop_dead_spec c s r s' :
  drop_dead c s = (r, s') →
  r = Return () ∧ dropped {[c]} s s' ∨ r = Panic ∧ c ∈ clients s ∧ GoChan.closed (sends c s) = true.
Proof.
  unfold drop_dead. rewrite run_get_st. case_bool_decide as Hin.
  - unfold bind_outcome, mbind, M_bind. destruct (close_send c s) as [r1 s1] eqn:Hcl. simpl.
    destruct (close_send_drops _ _ _ _ Hin Hcl) as [(-> & Hd & _)|(-> & Hcl')]; intros [= <- <-]; auto.
  - intros [= <- <-]. left. split; [done|]. apply dropped_none. set_solver.
Qed.

Lemma reap_spec dead s r s' :
  try_each drop_dead dead s = (r, s') →
  r = Return () ∧ dropped (list_to_set dead) s s' ∨
  r = Panic ∧ ∃ c, c ∈ clients s ∧ GoChan.closed (sends c s) = true.
Proof.
  revert s. induction dead as [|c dead IH]; intros s; simpl.
  { intros [= <- <-]. left. split; [done|]. apply dropped_none. set_solver. }
  unfold bind_outcome, mbind, M_bind. destruct (drop_dead c s) as [r1 s1] eqn:H1. simpl.
  destruct (drop_dead_spec _ _ _ _ H1) as [(-> & Hd)|(-> & Hin & Hcl)].
  - intros H2. destruct (IH _ H2) as [(-> & Hd')|(-> & c' & Hin & Hcl)].
    + left. split; [done|]. by eapply dropped_trans.
    + right. split; [done|]. exists c'. destruct Hd as (Hc & _ & _ & Ho). rewrite Hc in Hin.
      split; [set_solver|]. revert Hcl. unfold sends, client_of. rewrite Ho.
      destruct (objects s !! c'); simpl; [|done]. rewrite decide_False; [done|set_solver].
  - intros [= <- <-]. right. eauto.
Qed.

Lemma close_send_clients g c s :
  close_send c (s <| clients ::= g |>) = ((close_send c s).1, (close_send c s).2 <| clients ::= g |>).
Proof.
  unfold close_send. rewrite !run_get_st.
  change (client_of c (s <| clients ::= g |>)) with (client_of c s).
  unfold GoChan.close. by destruct (GoChan.closed (send (client_of c s))).
Qed.

Lemma unregister_spec c s r s' :
  UnregisterClient c s = (r, s') →
  r = Return () ∧ dropped {[c]} s s' ∨ r = Panic ∧ c ∈ clients s ∧ GoChan.closed (sends c s) = true.
Proof.
  unfold UnregisterClient. rewrite run_get_st. case_bool_decide as Hin.
  - rewrite run_modify, close_send_clients. destruct (close_send c s) as [r1 s1] eqn:Hcl. simpl.
    intros [= <- <-]. destruct (close_send_drops _ _ _ _ Hin Hcl) as [(-> & Hd & _)|(-> & Hcl')]; auto.
  - intros [= <- <-]. left. split; [done|]. apply dropped_none. set_solver.
Qed.

(** ** [task_step] follows the rules *)

Definition follows s k (r : move * t msg) : Prop :=
  match r with
  | (Blocked, _) => True
  | (Crash, _) => crashes s k
  | (Moves ts es, s') => moved s k ts es s'
  end.

Lemma exclusive_follows s k (c : M (t msg) move) :
  (clientsMu s = false → follows s k (c s)) → follows s k (exclusive c s).
Proof. unfold exclusive. rewrite run_get_st. destruct (clientsMu s); [done|auto]. Qed.

Lemma handle_message_follows c ty reply s : follows s (Reading c) (reading_message c ty reply s).
Proof.
  unfold reading_message, handleMessage. destruct ty as [ty|]; [|apply mv_ignored].
  destruct (String.eqb ty "subscribe_metrics").
  - unfold mbind, M_bind, get_st. simpl. destruct (metricsStarted (client_of c s)); simpl; constructor.
  - destruct (String.eqb ty "request_state"); constructor.
Qed.

Lemma follows_bind {A} s k (c : M (t msg) A) (f : A → move) :
  follows s k (f (c s).1, (c s).2) → follows s k ((r ← c; mret (f r)) s).
Proof. done. Qed.

Lemma broadcast_send_follows m s :
  follows s (BroadcastSend m)
    ((r ← broadcast_send m; mret (settle r (λ b : bool, Moves [] (if b then [Accepted m] else [])))) s).
Proof.
  unfold broadcast_send. apply follows_bind. rewrite run_get_st.
  destruct (GoChan.send m (broadcast s)) as [r|] eqn:Hs; [|apply mv_full].
  destruct (send_closed _ _ _ Hs) as [[ch ->]|[-> Hcl]]; [by apply mv_accepted|done].
Qed.

Lemma shutdown_follows s :
  follows s ShuttingDown ((r ← close_broadcast; mret (settle r (λ _, Moves [] []))) s).
Proof.
  unfold close_broadcast. apply follows_bind. rewrite run_modify, run_get_st. simpl.
  destruct (GoChan.close (broadcast s)) as [ch|e|] eqn:Hc.
  - by apply mv_shutdown.
  - unfold GoChan.close in Hc. by case_match.
  - simpl. unfold GoChan.close in Hc. by case_match.
Qed.

Lemma collecting_follows s : follows s Collecting (collecting_step s).
Proof.
  unfold collecting_step. rewrite run_get_st.
  destruct (GoChan.receive (broadcast s)) as [[[m|] ch]|] eqn:Hr; [|apply mv_ended|done].
  by apply mv_collected.
Qed.

(** The two users of [try_send]. *)
Lemma try_send_follows s k c m ts ts' es :
  (∀ ch, GoChan.send m (sends c s) = Some (Return ch) → moved s k ts es (with_send c ch s)) →
  (GoChan.closed (sends c s) = true → crashes s k) →
  follows s k (ts', s) →
  follows s k
    ((r ← try_send c m; mret match r with None => ts' | Some r => settle r (λ _, Moves ts es) end) s).
Proof.
  intros Hok Hcrash Hblock. apply follows_bind. rewrite try_send_eq.
  destruct (GoChan.send m (sends c s)) as [r|] eqn:Hs; [|done].
  destruct (send_closed _ _ _ Hs) as [[ch ->]|[-> Hcl]]; simpl; auto.
Qed.

Lemma fan_out_follows m todo dead c s : follows s (FanOut m todo dead) (fan_out_client m todo dead c s).
Proof.
  unfold fan_out_client. case_bool_decide as Hin; [|done].
  apply try_send_follows.
  - intros ch Hs. by eapply mv_gave.
  - intros Hcl. by exists c.
  - by apply mv_dead.
Qed.

Lemma fan_out_end_follows m todo dead s : follows s (FanOut m todo dead) (fan_out_end todo dead s).
Proof.
  unfold fan_out_end. case_bool_decide as Hin; [|done]. subst todo.
  destruct dead; [apply mv_fanned_out|apply mv_found_dead].
Qed.

Lemma reaping_follows dead s : follows s (Reaping dead) (reaping_step dead s).
Proof.
  apply exclusive_follows. intros Hmu. apply follows_bind.
  destruct (try_each drop_dead dead s) as [r s'] eqn:Hr.
  destruct (reap_spec _ _ _ _ Hr) as [(-> & Hd)|(-> & Hcl)]; [by apply mv_reaped|done].
Qed.

Lemma unregistering_follows c s : follows s (Unregistering c) (unregistering_step c s).
Proof.
  apply exclusive_follows. intros Hmu. apply follows_bind.
  destruct (UnregisterClient c s) as [r s'] eqn:Hr.
  destruct (unregister_spec _ _ _ _ Hr) as [(-> & Hd)|(-> & Hin & Hcl)]; [by apply mv_unregistered|].
  by exists c.
Qed.

Lemma writing_follows c ok s : follows s (Writing c) (writing_step c ok s).
Proof.
  unfold writing_step. rewrite run_get_st. fold (sends c s).
  destruct (GoChan.receive (sends c s)) as [[[m|] ch]|] eqn:Hr; [|apply mv_write_ended|done].
  destruct ok; [by apply mv_wrote|by eapply mv_lost].
Qed.

Lemma exiting_follows c s : follows s (Exiting c) (exiting_step c s).
Proof.
  unfold exiting_step. rewrite run_get_st. destruct (done (client_of c s)) eqn:Hd; [done|].
  by apply mv_exited.
Qed.

Lemma finished_follows c s k ts : moved s k ts [] s → follows s k (finished c ts s).
Proof. intros H. unfold finished, gets. simpl. by destruct (done (client_of c s)). Qed.

Lemma sending_follows c m b s : follows s (Sending c m b) (sending_step c m (after_send c b) s).
Proof.
  apply try_send_follows; [|done|done]. intros ch Hs. by apply mv_queued.
Qed.

Hint Resolve broadcast_send_follows shutdown_follows collecting_follows fan_out_follows
  fan_out_end_follows reaping_follows unregistering_follows writing_follows exiting_follows
  finished_follows sending_follows handle_message_follows : hub.
Hint Constructors moved : hub.

Lemma task_step_follows a k s : follows s k (task_step a k s).
Proof.
  destruct k as [m|m| | |m|m todo dead|dead| |c|c|c|c|c|c|c|c m b], a; try exact I;
    cbn [task_step]; auto with hub; try (simpl; by constructor).
  - simpl. destruct (broadcastClosed s); constructor.
  - apply exclusive_follows. intros Hmu. by apply mv_registered.
Qed.

(** ** What a transition does to the clients *)

Definition bounded (o : client msg) : Prop :=
  GoChan.capacity (send o) = 256 ∧ length (GoChan.buffer (send o)) ≤ 256.

Lemma send_return m (ch ch' : GoChan.t msg) :
  GoChan.send m ch = Some (Return ch') →
  GoChan.closed ch = false ∧ length (GoChan.buffer ch) < GoChan.capacity ch ∧
  ch' = GoChan.mk (GoChan.capacity ch) (GoChan.buffer ch ++ [m]) false.
Proof. unfold GoChan.send. case_match; [done|]. case_bool_decide; [|done]. by intros [= <-]. Qed.

Lemma receive_some m (ch ch' : GoChan.t msg) :
  GoChan.receive ch = Some (Some m, ch') →
  ∃ q, GoChan.buffer ch = m :: q ∧ ch' = GoChan.mk (GoChan.capacity ch) q (GoChan.closed ch).
Proof. unfold GoChan.receive. repeat case_match; try done. intros [= -> <-]. eauto. Qed.

(** How the client behind a pointer may change; [left] tells that it leaves the map. *)
Definition evolves (exits left : Prop) (o o' : client msg) : Prop :=
  (¬ exits → done o' = done o) ∧
  (GoChan.closed (send o') = GoChan.closed (send o) ∨ left) ∧
  (bounded o → bounded o').

Lemma evolves_refl P Q o : evolves P Q o o.
Proof. unfold evolves. auto. Qed.

Lemma evolves_send P Q o ch :
  GoChan.closed ch = GoChan.closed (send o) →
  (bounded o → GoChan.capacity ch = 256 ∧ length (GoChan.buffer ch) ≤ 256) →
  evolves P Q o (o <| send := ch |>).
Proof. intros Hc Hb. split_and!; [done|by left|done]. Qed.

Lemma with_send_evolves P Q s c c' ch o :
  (∀ o, objects s !! c = Some o → GoChan.closed ch = GoChan.closed (send o)) →
  (∀ o, objects s !! c = Some o → bounded o → GoChan.capacity ch = 256 ∧ length (GoChan.buffer ch) ≤ 256) →
  objects s !! c' = Some o →
  ∃ o', objects (with_send c ch s) !! c' = Some o' ∧ evolves P Q o o'.
Proof.
  intros Hc Hb Ho. unfold with_send. simpl. rewrite list_lookup_alter.
  destruct (decide (c = c')) as [<-|]; [|eauto using evolves_refl].
  rewrite Ho. simpl. eexists. split; [done|]. apply evolves_send; eauto.
Qed.

Lemma sends_lookup s c o : objects s !! c = Some o → sends c s = send o.
Proof. unfold sends, client_of. by intros ->. Qed.

Lemma sent_evolves P Q s c c' m ch o :
  GoChan.send m (sends c s) = Some (Return ch) → objects s !! c' = Some o →
  ∃ o', objects (with_send c ch s) !! c' = Some o' ∧ evolves P Q o o'.
Proof.
  intros (Hcl & Hlen & ->)%send_return. apply with_send_evolves; intros o1 Ho1;
    rewrite (sends_lookup _ _ _ Ho1) in *; simpl; [done|].
  intros [Hcap ?]. rewrite length_app. simpl. lia.
Qed.

Lemma received_evolves P Q s c c' m ch o :
  GoChan.receive (sends c s) = Some (Some m, ch) → objects s !! c' = Some o →
  ∃ o', objects (with_send c ch s) !! c' = Some o' ∧ evolves P Q o o'.
Proof.
  intros (q & Hq & ->)%receive_some. apply with_send_evolves; intros o1 Ho1;
    rewrite (sends_lookup _ _ _ Ho1) in *; simpl; [done|].
  intros [Hcap Hlen]. rewrite Hq in Hlen. simpl in Hlen. lia.
Qed.

Lemma dropped_evolves P s s' cs c o :
  dropped cs s s' → objects s !! c = Some o →
  ∃ o', objects s' !! c = Some o' ∧ evolves P (c ∈ clients s ∧ c ∉ clients s') o o'.
Proof.
  intros (Hc & _ & _ & Ho) Hl. rewrite Ho, Hl. simpl. eexists. split; [done|].
  case_decide; [|apply evolves_refl]. split_and!; [done| |done]. right. rewrite Hc. set_solver.
Qed.

Lemma alter_evolves P Q s c c' g o :
  (c = c' → ∀ o, evolves P Q o (g o)) → objects s !! c' = Some o →
  ∃ o', alter g c (objects s) !! c' = Some o' ∧ evolves P Q o o'.
Proof.
  intros Hg Ho. rewrite list_lookup_alter. destruct (decide (c = c')) as [<-|]; [|eauto using evolves_refl].
  rewrite Ho. simpl. eauto.
Qed.

Lemma moved_evolves s k ts es s' c o :
  moved s k ts es s' → objects s !! c = Some o →
  ∃ o', objects s' !! c = Some o' ∧ evolves (k = Exiting c) (c ∈ clients s ∧ c ∉ clients s') o o'.
Proof.
  intros Hm Ho. destruct Hm; try (by eauto using evolves_refl);
    try (by eapply sent_evolves); try (by eapply received_evolves); try (by eapply dropped_evolves).
  - eexists. split; [by apply lookup_app_l_Some|apply evolves_refl].
  - apply alter_evolves; [|done]. intros _ o'. split_and!; [done|by left|done].
  - apply alter_evolves; [|done]. intros -> o'. by split_and!; [|left|].
Qed.

Lemma moved_made s k ts es s' c o' :
  moved s k ts es s' → objects s' !! c = Some o' →
  is_Some (objects s !! c) ∨ k = Connecting ∧ c = length (objects s) ∧ o' = new_client.
Proof.
  assert (∀ g c0, alter g c0 (objects s) !! c = Some o' → is_Some (objects s !! c)) as Halter.
  { intros g c0 H. apply lookup_lt_is_Some. apply lookup_lt_Some in H. by rewrite length_alter in H. }
  assert (∀ cs s', dropped cs s s' → objects s' !! c = Some o' → is_Some (objects s !! c)) as Hdrop.
  { intros cs s1 (_ & _ & _ & ->). destruct (objects s !! c); [by eexists|done]. }
  intros Hm Ho. destruct Hm; try (left; eapply Halter, Ho); try (by left; eexists); try (by left; eauto).
  simpl in Ho. apply lookup_app_Some in Ho as [?|[? Ho]]; [by left; eexists|right].
  apply list_lookup_singleton_Some in Ho as [? <-]. split_and!; [done|lia|done].
Qed.

Lemma moved_clients s k ts es s' :
  moved s k ts es s' →
  clients s' = clients s ∨
  (∃ c, k = Registering c ∧ clientsMu s = false ∧ clients s' = {[c]} ∪ clients s) ∨
  (∃ cs, clientsMu s = false ∧ clients s' = clients s ∖ cs).
Proof.
  destruct 1; auto.
  - destruct H0 as (Hc & _). eauto.
  - right; left; eauto.
  - destruct H0 as (Hc & _). eauto.
Qed.

End moves.
