(* ===== verification/HubSafe.v ===== *)
(** * No channel of a WebSocket client is closed twice

    The invariant of the goroutines: one for [handleBroadcast], one writer per
    client, registered clients with an open channel, bounded buffers; and the
    panics it leaves. *)

From S2P Require Import Prelude Hub HubMoves.

Import Hub.

(** Closes a goal whose hypothesis puts a goroutine among others. *)
Ltac not_in Hin :=
  by (repeat (apply elem_of_cons in Hin as [[=]|Hin]); apply elem_of_nil in Hin).

Section safety.
Context {msg : Type}.
Implicit Types (s : t msg) (k : task msg) (ks ts : list (task msg)) (m : msg) (c : nat) (tr : list (event msg)).

(** The goroutine that will start, or is, the writer of a client. *)
Definition owner k : option nat :=
  match k with Registering c | Writing c | Exiting c => Some c | _ => None end.
(** The client a goroutine works for. *)
Definition works_for k : option nat :=
  match k with
  | Registering c | Reading c | Unregistering c | Writing c | Exiting c | Greeting c | Metrics c
  | Sending c _ _ => Some c
  | _ => None
  end.
(** The goroutine of [handleBroadcast]. *)
Definition is_hub k : bool :=
  match k with Collecting | Distributing _ | FanOut _ _ _ | Reaping _ => true | _ => false end.
Definition hubs ks : list (task msg) := filter is_hub ks.

Record safe ks s : Prop := {
  safe_hub : length (hubs ks) ≤ 1;
  safe_lock : (clientsMu s = true) ↔ (∃ m todo dead, hubs ks = [FanOut m todo dead]);
  safe_todo m todo dead : FanOut m todo dead ∈ ks → todo ⊆ clients s;
  safe_owners : NoDup (omap owner ks);
  safe_owned k c : k ∈ ks → owner k = Some c → ∃ o, objects s !! c = Some o ∧ done o = false;
  safe_fresh c : Registering c ∈ ks →
    (c ∉ clients s) ∧ (∃ o, objects s !! c = Some o ∧ GoChan.closed (send o) = false);
  safe_open c : c ∈ clients s → ∃ o, objects s !! c = Some o ∧ GoChan.closed (send o) = false;
  safe_known k c : k ∈ ks → works_for k = Some c → is_Some (objects s !! c);
  safe_bounded c o : objects s !! c = Some o → bounded o;
  safe_broadcast : GoChan.capacity (broadcast s) = 100 ∧ length (GoChan.buffer (broadcast s)) ≤ 100;
}.

Lemma pool_safe_perm ks ks' s : ks ≡ₚ ks' → safe ks s → safe ks' s.
Proof.
  intros Hp [].
  assert (hubs ks ≡ₚ hubs ks') as Hh by (unfold hubs; by rewrite Hp).
  split; try done; try setoid_rewrite <- Hp; try done.
  - by rewrite <- Hh.
  - rewrite safe_lock0. split; intros (m & todo & dead & H); exists m, todo, dead; rewrite H in Hh.
    + by apply Permutation_singleton_l in Hh.
    + by apply Permutation_singleton_r in Hh.
Qed.

(** What a rule does to the goroutine of [handleBroadcast] and to the owners. *)
Lemma moved_hubs s k ts es s' :
  moved s k ts es s' →
  if is_hub k then (∃ k', ts = [k'] ∧ is_hub k' = true) ∨ ts = [] ∧ k = Collecting
  else hubs ts = [].
Proof.
  destruct 1; simpl; try done; try (by left; eexists); try (by right); by destruct b.
Qed.

Lemma moved_owners s k ts es s' :
  moved s k ts es s' →
  (∃ c, owner k = Some c ∧ (omap owner ts = [c] ∨ omap owner ts = [] ∧ k = Exiting c)) ∨
  owner k = None ∧ (omap owner ts = [] ∨ k = Connecting ∧ omap owner ts = [length (objects s)]).
Proof. destruct 1; simpl; try (left; eexists; split; [done|]; by auto); right; split; auto; by destruct b; auto. Qed.

Lemma hubs_app ts ks : hubs (ts ++ ks) = hubs ts ++ hubs ks.
Proof. apply filter_app. Qed.

Lemma hubs_cons k ks : hubs (k :: ks) = if is_hub k then k :: hubs ks else hubs ks.
Proof. unfold hubs. rewrite filter_cons. by destruct (is_hub k). Qed.

Lemma elem_of_hubs k ks : k ∈ hubs ks ↔ is_hub k = true ∧ k ∈ ks.
Proof. unfold hubs. rewrite list_elem_of_filter, Is_true_true. done. Qed.

(** The goroutines after a move, with the one of [handleBroadcast] apart. *)
Lemma safe_hubs_alone k ks s : safe (k :: ks) s → is_hub k = true → hubs ks = [].
Proof.
  intros Hs Hk. pose proof (safe_hub _ _ Hs) as H. rewrite hubs_cons, Hk in H.
  destruct (hubs ks); [done|simpl in H; lia].
Qed.

Lemma moved_one_hub s k ts es s' ks :
  moved s k ts es s' → safe (k :: ks) s → length (hubs (ts ++ ks)) ≤ 1.
Proof.
  intros Hm Hs. rewrite hubs_app, length_app. pose proof (moved_hubs _ _ _ _ _ Hm) as Hh.
  destruct (is_hub k) eqn:Hk.
  - rewrite (safe_hubs_alone _ _ _ Hs Hk). destruct Hh as [(k' & -> & Hk')|[-> _]]; simpl; [|lia].
    rewrite hubs_cons, Hk'. simpl. lia.
  - rewrite Hh. pose proof (safe_hub _ _ Hs) as H. rewrite hubs_cons, Hk in H. done.
Qed.

(** Only a fan-out in the pool holds the lock. *)
Lemma safe_unlocked ks s m todo dead : safe ks s → clientsMu s = false → FanOut m todo dead ∉ ks.
Proof.
  intros Hs Hmu Hin. assert (FanOut m todo dead ∈ hubs ks) as Hh by (by apply elem_of_hubs).
  pose proof (safe_hub _ _ Hs). destruct (hubs ks) as [|k [|]] eqn:E; [by apply not_elem_of_nil in Hh| |simpl in *; lia].
  apply list_elem_of_singleton in Hh as <-.
  assert (clientsMu s = true) by (apply (safe_lock _ _ Hs); eauto). congruence.
Qed.

Lemma moved_lock s k ts es s' ks :
  moved s k ts es s' → safe (k :: ks) s →
  (clientsMu s' = true) ↔ (∃ m todo dead, hubs (ts ++ ks) = [FanOut m todo dead]).
Proof.
  intros Hm Hs. pose proof (moved_hubs _ _ _ _ _ Hm) as Hh. pose proof (safe_lock _ _ Hs) as Hl.
  rewrite hubs_cons in Hl. rewrite hubs_app. destruct (is_hub k) eqn:Hk.
  - rewrite (safe_hubs_alone _ _ _ Hs Hk) in *. rewrite app_nil_r. clear Hh.
    destruct Hm; try discriminate Hk; simpl in *; rewrite ?hubs_cons; simpl;
      try (rewrite Hl; split; [intros (? & ? & ? & [=])|intros (? & ? & ? & [=])]; by eauto).
    + split; [eauto|done].
    + split; [done|intros (? & ? & ? & [=])].
    + split; [done|intros (? & ? & ? & [=])].
    + destruct H0 as (_ & -> & _). rewrite H. split; [done|intros (? & ? & ? & [=])].
  - rewrite Hh. simpl. rewrite <- Hl. destruct Hm; try done.
    by destruct H0 as (_ & -> & _).
Qed.

Lemma moved_todo s k ts es s' ks m todo dead :
  moved s k ts es s' → safe (k :: ks) s → FanOut m todo dead ∈ ts ++ ks → todo ⊆ clients s'.
Proof.
  intros Hm Hs [Hin|Hin]%elem_of_app.
  - pose proof (safe_todo _ _ Hs) as Hold. destruct Hm; try not_in Hin; try (destruct b; not_in Hin).
    + apply list_elem_of_singleton in Hin as [= -> -> ->]. simpl. done.
    + apply list_elem_of_singleton in Hin as [= -> -> ->].
      specialize (Hold _ _ _ (list_elem_of_here _ _)). set_solver.
    + apply list_elem_of_singleton in Hin as [= -> -> ->].
      specialize (Hold _ _ _ (list_elem_of_here _ _)). simpl. set_solver.
  - assert (clientsMu s ≠ false) as Hmu.
    { intros Hmu. eapply safe_unlocked; [exact Hs|exact Hmu|]. by right. }
    pose proof (safe_todo _ _ Hs m todo dead) as Hold.
    destruct (moved_clients _ _ _ _ _ Hm) as [->|[(? & _ & ? & _)|(? & ? & _)]]; [|done|done].
    apply Hold. by right.
Qed.

Lemma moved_owner_nodup s k ts es s' ks :
  moved s k ts es s' → safe (k :: ks) s → NoDup (omap owner (ts ++ ks)).
Proof.
  intros Hm Hs. pose proof (safe_owners _ _ Hs) as Hn. simpl in Hn. rewrite omap_app.
  destruct (moved_owners _ _ _ _ _ Hm) as [(c & Ho & [->|[-> _]])|[Ho [->|[_ ->]]]]; rewrite Ho in Hn; simpl.
  - done.
  - by apply NoDup_cons in Hn as [_ ?].
  - done.
  - apply NoDup_cons. split; [|done]. intros (k' & Hin & Hk')%list_elem_of_omap.
    assert (works_for k' = Some (length (objects s))) as Hw by (destruct k'; simplify_eq/=; done).
    destruct (safe_known _ _ Hs k' (length (objects s))) as [o Hl]; [by right|done|].
    apply lookup_lt_Some in Hl. lia.
Qed.

Lemma moved_owned s k ts es s' ks k' c :
  moved s k ts es s' → safe (k :: ks) s → k' ∈ ts ++ ks → owner k' = Some c →
  ∃ o, objects s' !! c = Some o ∧ done o = false.
Proof.
  intros Hm Hs Hin Hk'.
  assert ((∃ o, objects s !! c = Some o ∧ done o = false ∧ k ≠ Exiting c) ∨ k = Connecting ∧ c = length (objects s))
    as [(o & Ho & Hd & Hne)|[-> ->]].
  { assert (c ∈ omap owner (ts ++ ks)) as Hc by (apply list_elem_of_omap; eauto). rewrite omap_app in Hc.
    assert (∀ k1, k1 ∈ k :: ks → owner k1 = Some c → k ≠ Exiting c →
      ∃ o, objects s !! c = Some o ∧ done o = false ∧ k ≠ Exiting c) as Hold.
    { intros k1 H1 H2 H3. destruct (safe_owned _ _ Hs k1 c H1 H2) as (o & ? & ?). eauto. }
    apply elem_of_app in Hc as [Hc|Hc].
    - destruct (moved_owners _ _ _ _ _ Hm) as [(c0 & Ho & [Ht|[Ht _]])|[Ho [Ht|[Hcon Ht]]]]; rewrite Ht in Hc.
      + apply list_elem_of_singleton in Hc as ->. left. apply (Hold k); [left|done|].
        intros ->. inversion Hm; subst. discriminate Ht.
      + by apply not_elem_of_nil in Hc.
      + by apply not_elem_of_nil in Hc.
      + apply list_elem_of_singleton in Hc. auto.
    - left. apply list_elem_of_omap in Hc as (k1 & H1 & H2). apply (Hold k1); [by right|done|].
      intros ->. pose proof (safe_owners _ _ Hs) as Hn. simpl in Hn. apply NoDup_cons in Hn as [Hn _].
      apply Hn, list_elem_of_omap. eauto. }
  - destruct (moved_evolves _ _ _ _ _ _ _ Hm Ho) as (o' & Ho' & Hd' & _). exists o'. split; [done|].
    by rewrite Hd'.
  - inversion Hm; subst. exists new_client. simpl. by rewrite lookup_app_r, Nat.sub_diag by lia.
Qed.

Lemma moved_kept_open s k ts es s' c o :
  moved s k ts es s' → objects s !! c = Some o → GoChan.closed (send o) = false →
  c ∉ clients s ∨ c ∈ clients s' →
  ∃ o', objects s' !! c = Some o' ∧ GoChan.closed (send o') = false.
Proof.
  intros Hm Ho Hcl Hc. destruct (moved_evolves _ _ _ _ _ _ _ Hm Ho) as (o' & Ho' & _ & [H|[? ?]] & _); [|naive_solver].
  exists o'. by rewrite H.
Qed.

Lemma moved_fresh s k ts es s' ks c :
  moved s k ts es s' → safe (k :: ks) s → Registering c ∈ ts ++ ks →
  (c ∉ clients s') ∧ ∃ o, objects s' !! c = Some o ∧ GoChan.closed (send o) = false.
Proof.
  intros Hm Hs [Hin|Hin]%elem_of_app.
  - destruct Hm; try not_in Hin; try (destruct b; not_in Hin).
    apply list_elem_of_singleton in Hin as [= ->]. simpl. split.
    + intros Hc. destruct (safe_open _ _ Hs _ Hc) as (o & Ho & _). apply lookup_lt_Some in Ho. lia.
    + exists new_client. by rewrite lookup_app_r, Nat.sub_diag by lia.
  - destruct (safe_fresh _ _ Hs c) as (Hc & o & Ho & Hcl); [by right|].
    assert (c ∉ clients s') as Hc'.
    { destruct (moved_clients _ _ _ _ _ Hm) as [->|[(c' & -> & _ & ->)|(? & _ & ->)]]; [done| |set_solver].
      assert (c ≠ c'); [|set_solver]. intros ->. pose proof (safe_owners _ _ Hs) as Hn. simpl in Hn.
      apply NoDup_cons in Hn as [Hn _]. apply Hn, list_elem_of_omap. by exists (Registering c'). }
    split; [done|]. eapply moved_kept_open; eauto.
Qed.

Lemma moved_open s k ts es s' ks c :
  moved s k ts es s' → safe (k :: ks) s → c ∈ clients s' →
  ∃ o, objects s' !! c = Some o ∧ GoChan.closed (send o) = false.
Proof.
  intros Hm Hs Hc.
  assert (∃ o, objects s !! c = Some o ∧ GoChan.closed (send o) = false) as (o & Ho & Hcl).
  { destruct (moved_clients _ _ _ _ _ Hm) as [H|[(c' & -> & _ & H)|(? & _ & H)]]; rewrite H in Hc.
    - by apply (safe_open _ _ Hs).
    - apply elem_of_union in Hc as [->%elem_of_singleton|Hc]; [|by apply (safe_open _ _ Hs)].
      apply (safe_fresh _ _ Hs). by left.
    - apply (safe_open _ _ Hs). set_solver. }
  eapply moved_kept_open; eauto.
Qed.

Lemma moved_known s k ts es s' ks k' c :
  moved s k ts es s' → safe (k :: ks) s → k' ∈ ts ++ ks → works_for k' = Some c → is_Some (objects s' !! c).
Proof.
  intros Hm Hs Hin Hw.
  assert (is_Some (objects s !! c) ∨ k = Connecting ∧ c = length (objects s)) as [[o Ho]|[-> ->]].
  { apply elem_of_app in Hin as [Hin|Hin]; [|left; eapply (safe_known _ _ Hs); [by right|done]].
    assert (works_for k = Some c ∨ k = Connecting ∧ c = length (objects s)) as [Hk|]; [|left|by right].
    - destruct Hm; try destruct b; try (exfalso; not_in Hin);
        repeat (apply elem_of_cons in Hin as [->|Hin]); try (by apply elem_of_nil in Hin);
        try discriminate Hw; simplify_eq/=; auto.
    - eapply (safe_known _ _ Hs); [by left|done]. }
  - destruct (moved_evolves _ _ _ _ _ _ _ Hm Ho) as (o' & Ho' & _). eauto.
  - inversion Hm; subst. simpl. apply lookup_lt_is_Some. rewrite length_app. simpl. lia.
Qed.

Lemma moved_bounded s k ts es s' ks c o :
  moved s k ts es s' → safe (k :: ks) s → objects s' !! c = Some o → bounded o.
Proof.
  intros Hm Hs Ho. destruct (moved_made _ _ _ _ _ _ _ Hm Ho) as [[o1 Ho1]|(_ & _ & ->)]; [|split; simpl; lia].
  destruct (moved_evolves _ _ _ _ _ _ _ Hm Ho1) as (o' & Ho' & _ & _ & Hb). simplify_eq.
  by apply Hb, (safe_bounded _ _ Hs _ _ Ho1).
Qed.

Lemma moved_broadcast s k ts es s' ks :
  moved s k ts es s' → safe (k :: ks) s →
  GoChan.capacity (broadcast s') = 100 ∧ length (GoChan.buffer (broadcast s')) ≤ 100.
Proof.
  intros Hm Hs. pose proof (safe_broadcast _ _ Hs) as [Hcap Hlen]. destruct Hm; try done.
  - destruct (send_return _ _ _ H) as (_ & ? & ->). simpl. rewrite length_app. simpl. lia.
  - unfold GoChan.close in H. case_match; [done|]. by injection H as <-.
  - destruct (receive_some _ _ _ H) as (q & Hq & ->). rewrite Hq in Hlen. simpl in *. lia.
  - by destruct H0 as (_ & _ & -> & _).
  - by destruct H0 as (_ & _ & -> & _).
Qed.

Lemma moved_safe s k ts es s' ks : moved s k ts es s' → safe (k :: ks) s → safe (ts ++ ks) s'.
Proof.
  intros Hm Hs. split; eauto using moved_one_hub, moved_lock, moved_todo, moved_owner_nodup,
    moved_owned, moved_fresh, moved_open, moved_known, moved_bounded, moved_broadcast.
Qed.

(** A panic comes from a send outside [handleBroadcast] or from a second [Shutdown]. *)
Lemma safe_crash s k ks :
  safe (k :: ks) s → crashes s k →
  match k with
  | BroadcastSend _ | ShuttingDown => GoChan.closed (broadcast s) = true
  | Sending c _ _ => GoChan.closed (sends c s) = true ∧ c ∉ clients s
  | _ => False
  end.
Proof.
  intros Hs. assert (∀ c, c ∈ clients s → GoChan.closed (sends c s) = false) as Hopen.
  { intros c Hc. destruct (safe_open _ _ Hs c Hc) as (o & Ho & Hcl). by rewrite (sends_lookup _ _ _ Ho). }
  destruct k; simpl; try done.
  - intros (c & Hc & Hcl). rewrite Hopen in Hcl; [done|].
    apply (safe_todo _ _ Hs m todo dead (list_elem_of_here _ _) c Hc).
  - intros (c & Hc & Hcl). by rewrite Hopen in Hcl.
  - intros (c' & Hc & Hcl). by rewrite Hopen in Hcl.
  - intros Hd. destruct (safe_owned _ _ Hs (Exiting c) c (list_elem_of_here _ _) eq_refl) as (o & Ho & Hd').
    unfold client_of in Hd. rewrite Ho in Hd. simpl in Hd. congruence.
  - intros Hcl. split; [done|]. intros Hc. by rewrite Hopen in Hcl.
Qed.

End safety.
