(* ===== verification/HubTraces.v ===== *)
(** * What WebSocket clients are told

    The trace of a schedule: broadcasts accepted and distributed, what each
    client's channel got and what its connection carried. *)

From S2P Require Import Prelude Hub HubMoves HubSafe.

Import Hub.

Section traces.
Context {msg : Type}.
Implicit Types (s : t msg) (k : task msg) (ks ts : list (task msg)) (m : msg) (c : nat).
Implicit Types (e : event msg) (es tr : list (event msg)).

(** ** Reading a trace *)

Definition accepted tr : list msg := omap (λ e, match e with Accepted m => Some m | _ => None end) tr.
Definition fanned tr : list msg := omap (λ e, match e with Fanned m => Some m | _ => None end) tr.
(** What [handleBroadcast] put into the channel of [c], and what anybody did. *)
Definition gave c tr : list msg :=
  omap (λ e, match e with Gave c' m => if decide (c' = c) then Some m else None | _ => None end) tr.
Definition sent c tr : list msg :=
  omap (λ e, match e with
             | Gave c' m | Queued c' m => if decide (c' = c) then Some m else None
             | _ => None end) tr.
(** What the writer of [c] took, and what the connection carried. *)
Definition taken c tr : list msg :=
  omap (λ e, match e with
             | Wrote c' m | Lost c' m => if decide (c' = c) then Some m else None
             | _ => None end) tr.
Definition wrote c tr : list msg :=
  omap (λ e, match e with Wrote c' m => if decide (c' = c) then Some m else None | _ => None end) tr.
(** What was distributed since [c] joined. *)
Definition note c (acc : option (list msg)) e : option (list msg) :=
  match e with
  | Joined c' => if decide (c' = c) then Some [] else acc
  | Fanned m => (λ l, l ++ [m]) <$> acc
  | _ => acc
  end.
Definition since c tr : option (list msg) := foldl (note c) None tr.
Definition about e : option nat :=
  match e with
  | Joined c | Gave c _ | Queued c _ | Wrote c _ | Lost c _ => Some c
  | _ => None
  end.

Lemma since_app c tr es : since c (tr ++ es) = foldl (note c) (since c tr) es.
Proof. apply foldl_app. Qed.

Lemma not_about c tr :
  (∀ e, e ∈ tr → about e ≠ Some c) →
  gave c tr = [] ∧ sent c tr = [] ∧ taken c tr = [] ∧ wrote c tr = [] ∧ since c tr = None.
Proof.
  induction tr as [|e tr IH] using rev_ind; intros H; [done|].
  destruct IH as (H1 & H2 & H3 & H4 & H5); [intros e' He'; apply H; set_solver|].
  assert (about e ≠ Some c) as He by (apply H; set_solver).
  unfold gave, sent, taken, wrote in *. rewrite !omap_app, since_app, H1, H2, H3, H4, H5.
  destruct e as [| |c'|c' ?|c' ?|c' ?|c' ?]; simpl in *; try done; by destruct (decide (c' = c)) as [->|].
Qed.

(** ** The invariant *)

Definition inflight (hs : list (task msg)) : list msg :=
  match hs with [Distributing m] => [m] | _ => [] end.
(** What a registered client has still to get of what was distributed; [None]
    once its channel was found full. *)
Definition due c (hs : list (task msg)) : option (list msg) :=
  match hs with
  | [FanOut m todo dead] =>
      if decide (c ∈ todo) then Some [m] else if decide (c ∈ dead) then None else Some []
  | [Reaping dead] => if decide (c ∈ dead) then None else Some []
  | _ => Some []
  end.

Record told ks s tr : Prop := {
  told_about e c : e ∈ tr → about e = Some c → is_Some (objects s !! c);
  told_accepted : accepted tr = fanned tr ++ inflight (hubs ks) ++ GoChan.buffer (broadcast s);
  told_since c l : since c tr = Some l → l `suffix_of` fanned tr;
  told_gave c : gave c tr `prefix_of` default [] (since c tr);
  told_due c l : c ∈ clients s → due c (hubs ks) = Some l → since c tr = Some (gave c tr ++ l);
  told_new c : Registering c ∈ ks → since c tr = None;
  told_sent c : sent c tr = taken c tr ++ GoChan.buffer (sends c s);
  told_wrote c : wrote c tr `prefix_of` taken c tr;
  told_writer k c : k ∈ ks → owner k = Some c → k ≠ Exiting c → taken c tr = wrote c tr;
}.

Lemma hubs_perm ks ks' : ks ≡ₚ ks' → length (hubs ks) ≤ 1 → hubs ks = hubs ks'.
Proof.
  intros Hp Hl. assert (hubs ks ≡ₚ hubs ks') as Hh by (unfold hubs; by rewrite Hp).
  destruct (hubs ks) as [|k [|]]; [|by apply Permutation_singleton_l in Hh|simpl in Hl; lia].
  by apply Permutation_nil_l in Hh.
Qed.

Lemma told_perm ks ks' s tr : ks ≡ₚ ks' → safe ks s → told ks s tr → told ks' s tr.
Proof.
  intros Hp Hs []. pose proof (hubs_perm _ _ Hp (safe_hub _ _ Hs)) as Hh.
  split; try done; try rewrite <- Hh; try setoid_rewrite <- Hp; done.
Qed.

Lemma sends_with_send s c c' ch :
  is_Some (objects s !! c) → sends c' (with_send c ch s) = if decide (c = c') then ch else sends c' s.
Proof.
  intros [o Ho]. unfold sends, client_of, with_send. simpl. rewrite list_lookup_alter.
  case_decide; [subst; by rewrite Ho|done].
Qed.

(** The channel of a client changes only by a send or a receive. *)
Lemma moved_buffer s k ts es s' ks c :
  moved s k ts es s' → safe (k :: ks) s →
  GoChan.buffer (sends c s) ++ sent c es = taken c es ++ GoChan.buffer (sends c s').
Proof.
  intros Hm Hs.
  assert (∀ c0, c0 ∈ clients s → is_Some (objects s !! c0)) as Hmem.
  { intros c0 H0. destruct (safe_open _ _ Hs c0 H0) as (o & -> & _). by eexists. }
  assert (∀ c0, works_for k = Some c0 → is_Some (objects s !! c0)) as Hown.
  { intros c0. apply (safe_known _ _ Hs). by left. }
  assert (∀ g c0, (∀ o, send (g o) = send o) →
    sends c (s <| objects ::= alter g c0 |>) = sends c s) as Halter.
  { intros g c0 Hg. unfold sends, client_of. simpl. rewrite list_lookup_alter.
    case_decide; [subst|done]. destruct (objects s !! c); [apply Hg|done]. }
  assert (∀ cs s1, dropped cs s s1 → GoChan.buffer (sends c s1) = GoChan.buffer (sends c s)) as Hdrop.
  { intros cs s1 (_ & _ & _ & Ho). unfold sends, client_of. rewrite Ho.
    destruct (objects s !! c); simpl; [|done]. by case_decide. }
  assert (∀ m c0 ch, is_Some (objects s !! c0) → GoChan.send m (sends c0 s) = Some (Return ch) →
    GoChan.buffer (sends c (with_send c0 ch s)) =
    GoChan.buffer (sends c s) ++ (if decide (c0 = c) then [m] else [])) as Hsend.
  { intros m c0 ch Hl (_ & _ & ->)%send_return. rewrite sends_with_send by done.
    case_decide; [by subst|by rewrite app_nil_r]. }
  assert (∀ m c0 ch, is_Some (objects s !! c0) → GoChan.receive (sends c0 s) = Some (Some m, ch) →
    GoChan.buffer (sends c s) =
    (if decide (c0 = c) then [m] else []) ++ GoChan.buffer (sends c (with_send c0 ch s))) as Hrecv.
  { intros m c0 ch Hl (q & Hq & ->)%receive_some. rewrite sends_with_send by done.
    case_decide; [by subst|done]. }
  destruct Hm; try (by rewrite app_nil_r); 
    try (match goal with H : dropped _ _ _ |- _ => by rewrite app_nil_r, (Hdrop _ _ H) end);
    try (rewrite Halter by done; by rewrite app_nil_r);
    try (erewrite Hrecv by eauto; simpl; by case_decide; rewrite app_nil_r).
  - erewrite Hsend; [|apply Hmem, (safe_todo _ _ Hs m todo dead (list_elem_of_here _ _)); done|done].
    simpl. by case_decide.
  - rewrite app_nil_r. simpl. unfold sends, client_of. simpl.
    destruct (decide (c < length (objects s))) as [Hlt|Hge]; [by rewrite lookup_app_l|].
    rewrite lookup_app_r, (lookup_ge_None_2 (objects s)) by lia.
    by destruct (c - length (objects s)) as [|[|]].
  - erewrite Hsend; [|by apply Hown|done]. simpl. by case_decide.
Qed.

Lemma about_moved s k ts es s' ks e c :
  moved s k ts es s' → safe (k :: ks) s → e ∈ es → about e = Some c → is_Some (objects s !! c).
Proof.
  intros Hm Hs Hin He.
  assert (∀ c0, works_for k = Some c0 → is_Some (objects s !! c0)) as Hown.
  { intros c0. apply (safe_known _ _ Hs). by left. }
  destruct Hm; try (by apply not_elem_of_nil in Hin); apply list_elem_of_singleton in Hin as ->;
    simplify_eq/=; try (by apply Hown).
  destruct (safe_open _ _ Hs c) as (o & -> & _); [|by eexists].
  by apply (safe_todo _ _ Hs m todo dead (list_elem_of_here _ _)).
Qed.

Lemma moved_lookup s k ts es s' c : moved s k ts es s' → is_Some (objects s !! c) → is_Some (objects s' !! c).
Proof. intros Hm [o Ho]. destruct (moved_evolves _ _ _ _ _ _ _ Hm Ho) as (o' & -> & _). by eexists. Qed.

(** What a rule adds to the trace, as far as broadcasts go. *)
Lemma moved_accepted s k ts es s' ks :
  moved s k ts es s' → safe (k :: ks) s →
  inflight (hubs (k :: ks)) ++ GoChan.buffer (broadcast s) ++ accepted es =
  fanned es ++ inflight (hubs (ts ++ ks)) ++ GoChan.buffer (broadcast s').
Proof.
  intros Hm Hs. rewrite hubs_cons, hubs_app. pose proof (moved_hubs _ _ _ _ _ Hm) as Hh.
  destruct (is_hub k) eqn:Hk.
  - rewrite (safe_hubs_alone _ _ _ Hs Hk), app_nil_r. clear Hh.
    destruct Hm; try discriminate Hk; simpl; rewrite ?app_nil_r; try done.
    + by destruct (receive_some _ _ _ H) as (q & -> & ->).
    + by destruct H0 as (_ & _ & -> & _).
  - rewrite Hh. simpl. destruct Hm; try discriminate Hk; simpl; rewrite ?app_nil_r; try done.
    + by destruct (send_return _ _ _ H) as (_ & _ & ->).
    + unfold GoChan.close in H. case_match; [done|]. by injection H as <-.
    + by destruct H0 as (_ & _ & -> & _).
Qed.

Lemma told_since_app c tr es :
  (∀ l, since c tr = Some l → l `suffix_of` fanned tr) →
  ∀ l, since c (tr ++ es) = Some l → l `suffix_of` fanned (tr ++ es).
Proof.
  intros H. induction es as [|e es IH] using rev_ind; [by rewrite app_nil_r|].
  intros l. rewrite (assoc (++)). unfold fanned in *. rewrite since_app, omap_app. simpl.
  set (tr' := tr ++ es) in *. destruct e; simpl; rewrite ?app_nil_r; try (by apply IH).
  - destruct (since c tr') as [l'|]; simpl; [|done]. intros [= <-]. apply suffix_app. by apply IH.
  - case_decide; [|by apply IH]. intros [= <-]. apply suffix_nil.
Qed.

Lemma told_wrote_app c tr es :
  wrote c tr `prefix_of` taken c tr → (es ≠ [] → taken c es ≠ [] → taken c tr = wrote c tr) → length es ≤ 1 →
  wrote c (tr ++ es) `prefix_of` taken c (tr ++ es).
Proof.
  intros Hp Heq Hl. unfold wrote, taken in *. rewrite !omap_app.
  destruct es as [|e [|]]; simpl in *; [by rewrite !app_nil_r| |lia].
  destruct e as [| |c'|c' ?|c' ?|c' m|c' m]; simpl in *; rewrite ?app_nil_r; try done;
    destruct (decide (c' = c)); rewrite ?app_nil_r; try done.
  - rewrite Heq by done. done.
  - by apply prefix_app_r.
Qed.

Lemma told_gave_moved s k ts es s' ks tr c :
  moved s k ts es s' → safe (k :: ks) s → told (k :: ks) s tr →
  gave c (tr ++ es) `prefix_of` default [] (since c (tr ++ es)).
Proof.
  intros Hm Hs Ht. pose proof (told_gave _ _ _ Ht c) as Hp. unfold gave in *. rewrite omap_app, since_app.
  destruct Hm; simpl; rewrite ?app_nil_r; try done.
  - destruct (since c tr); simpl; [|done]. by apply prefix_app_r.
  - case_decide as E; simpl; [subst c0|by rewrite app_nil_r].
    assert (c ∈ clients s) as Hc by (by apply (safe_todo _ _ Hs m todo dead (list_elem_of_here _ _))).
    rewrite (told_due _ _ _ Ht c [m]); [done|done|]. rewrite hubs_cons. simpl.
    rewrite (safe_hubs_alone _ _ _ Hs eq_refl). simpl. by rewrite decide_True.
  - case_decide as E; [subst c0|done].
    rewrite (told_new _ _ _ Ht c) in Hp by left. by apply prefix_nil_inv in Hp as ->.
Qed.

Lemma told_new_moved s k ts es s' ks tr c :
  moved s k ts es s' → safe (k :: ks) s → told (k :: ks) s tr → Registering c ∈ ts ++ ks →
  since c (tr ++ es) = None.
Proof.
  intros Hm Hs Ht [Hin|Hin]%elem_of_app; rewrite since_app.
  - destruct Hm; try not_in Hin; try (destruct b; not_in Hin).
    apply list_elem_of_singleton in Hin as [= ->]. simpl.
    apply not_about. intros e He Hab. destruct (told_about _ _ _ Ht e _ He Hab) as [o Ho].
    apply lookup_lt_Some in Ho. lia.
  - rewrite (told_new _ _ _ Ht c) by (by right).
    destruct Hm; try done. simpl. rewrite decide_False; [done|]. intros ->.
    pose proof (safe_owners _ _ Hs) as Hn. simpl in Hn. apply NoDup_cons in Hn as [Hn _].
    apply Hn, list_elem_of_omap. by exists (Registering c).
Qed.

(** A rule with no message for the channels of [handleBroadcast]. *)
Lemma told_due_quiet s k es ks tr c l :
  told (k :: ks) s tr →
  since c (tr ++ es) = since c tr → gave c (tr ++ es) = gave c tr → c ∈ clients s →
  due c (hubs (k :: ks)) = Some l →
  since c (tr ++ es) = Some (gave c (tr ++ es) ++ l).
Proof. intros Ht -> -> Hc Hd. by apply (told_due _ _ _ Ht). Qed.

Lemma moved_quiet s k ts es s' :
  moved s k ts es s' → is_hub k = false → (∀ c, k ≠ Registering c) →
  ∀ c tr, since c (tr ++ es) = since c tr ∧ gave c (tr ++ es) = gave c tr.
Proof.
  intros Hm Hk Hr c tr. rewrite since_app. unfold gave. rewrite omap_app.
  destruct Hm; simpl; rewrite ?app_nil_r; try done. by destruct (Hr c0).
Qed.

Lemma due_unlocked s ks c l : safe ks s → clientsMu s = false → due c (hubs ks) = Some l → l = [].
Proof.
  intros Hs Hmu. assert (∀ m todo dead, FanOut m todo dead ∉ hubs ks) as Hno.
  { intros m todo dead Hin. apply elem_of_hubs in Hin as [_ Hin]. by eapply safe_unlocked. }
  destruct (hubs ks) as [|k [|]]; simpl; try (by intros [= <-]).
  - destruct k; try (by intros [= <-]); [by destruct (Hno m todo dead); left|].
    case_decide; [done|]. by intros [= <-].
  - destruct k; by intros [= <-].
Qed.

Lemma told_due_moved s k ts es s' ks tr c l :
  moved s k ts es s' → safe (k :: ks) s → told (k :: ks) s tr →
  c ∈ clients s' → due c (hubs (ts ++ ks)) = Some l → since c (tr ++ es) = Some (gave c (tr ++ es) ++ l).
Proof.
  intros Hm Hs Ht. pose proof (moved_hubs _ _ _ _ _ Hm) as Hh.
  destruct (is_hub k) eqn:Hk.
  - pose proof (told_due _ _ _ Ht c) as Hd. rewrite hubs_cons, Hk in Hd.
    rewrite hubs_app. rewrite (safe_hubs_alone _ _ _ Hs Hk) in *. rewrite app_nil_r. clear Hh.
    unfold gave in *. rewrite since_app, omap_app.
    destruct Hm; try discriminate Hk; simpl; rewrite ?app_nil_r; simpl; intros Hc Hl;
      simpl in Hd; try (by apply Hd).
    + rewrite decide_True in Hl by done. injection Hl as <-. rewrite (Hd []) by done. simpl. by rewrite app_nil_r.
    + destruct (decide (c = c0)) as [->|Hne].
      * rewrite decide_False, decide_True in Hl by set_solver. done.
      * apply Hd; [done|]. rewrite <- Hl. clear -Hne. repeat case_decide; set_solver.
    + destruct (decide (c0 = c)) as [->|Hne].
      * rewrite decide_False in Hl by set_solver. rewrite decide_True in Hd by done.
        case_decide; [done|]. injection Hl as <-. rewrite (Hd [m]) by done. by rewrite <- (assoc (++)).
      * rewrite app_nil_r. apply Hd; [done|]. rewrite <- Hl. clear -Hne. repeat case_decide; set_solver.
    + destruct H0 as (Hcl & _). rewrite Hcl in Hc. injection Hl as <-. apply Hd; [set_solver|].
      rewrite decide_False by set_solver. done.
  - intros Hc Hl. rewrite hubs_app, Hh in Hl. simpl in Hl.
    assert (due c (hubs (k :: ks)) = Some l) as Hl' by (by rewrite hubs_cons, Hk).
    assert ((∀ c0, k ≠ Registering c0) ∨ ∃ c0, k = Registering c0) as [Hq|[c0 ->]] by (destruct k; eauto).
    + destruct (moved_quiet _ _ _ _ _ Hm Hk Hq c tr) as [Hsi Hga]. eapply (told_due_quiet s k es); try done.
      destruct (moved_clients _ _ _ _ _ Hm) as [Hcl|[(c0 & -> & _)|(cs & _ & Hcl)]]; [|by destruct (Hq c0)|];
        rewrite Hcl in Hc; set_solver.
    + inversion Hm; subst. simpl in Hc. unfold gave. rewrite since_app, omap_app. simpl. rewrite app_nil_r.
      destruct (decide (c0 = c)) as [->|Hne].
      * pose proof (told_gave _ _ _ Ht c) as Hp. rewrite (told_new _ _ _ Ht c) in Hp by left.
        apply prefix_nil_inv in Hp. unfold gave in Hp. rewrite Hp.
        by rewrite (due_unlocked s (Registering c :: ks) c l).
      * apply (told_due _ _ _ Ht c l); [set_solver|done].
Qed.

Lemma moved_events s k ts es s' : moved s k ts es s' → length es ≤ 1.
Proof. destruct 1; simpl; lia. Qed.

Lemma moved_takes s k ts es s' c : moved s k ts es s' → taken c es ≠ [] → k = Writing c.
Proof. destruct 1; simpl; try done; by case_decide; subst. Qed.

Lemma told_writer_moved s k ts es s' ks tr k' c :
  moved s k ts es s' → safe (k :: ks) s → told (k :: ks) s tr →
  k' ∈ ts ++ ks → owner k' = Some c → k' ≠ Exiting c →
  taken c (tr ++ es) = wrote c (tr ++ es).
Proof.
  intros Hm Hs Ht Hin Ho Hne. unfold taken, wrote. rewrite !omap_app.
  assert (taken c es = wrote c es ∧ taken c tr = wrote c tr) as [He Htr];
    [|unfold taken, wrote in *; by rewrite He, Htr].
  apply elem_of_app in Hin as [Hin|Hin].
  - assert (owner k = Some c ∧ k ≠ Exiting c ∧ taken c es = wrote c es ∨ k = Connecting ∧ c = length (objects s) ∧ es = [])
      as [(Hk & Hx & He)|(-> & -> & ->)].
    { destruct Hm; try destruct b; try (exfalso; not_in Hin);
        repeat (apply elem_of_cons in Hin as [->|Hin]); try (by apply elem_of_nil in Hin);
        simplify_eq/=; auto. }
    + split; [done|]. apply (told_writer _ _ _ Ht k); [by left|done|done].
    + split; [done|]. assert (∀ e, e ∈ tr → about e ≠ Some (length (objects s))) as Hno.
      { intros e He Hab. destruct (told_about _ _ _ Ht e _ He Hab) as [o Hl]. apply lookup_lt_Some in Hl. lia. }
      destruct (not_about _ _ Hno) as (_ & _ & -> & -> & _). done.
  - split; [|by apply (told_writer _ _ _ Ht k'); [right| |]].
    assert (k ≠ Writing c) as Hk.
    { intros ->. pose proof (safe_owners _ _ Hs) as Hn. simpl in Hn. apply NoDup_cons in Hn as [Hn _].
      apply Hn, list_elem_of_omap. eauto. }
    destruct Hm; simpl; try done; case_decide; subst; done.
Qed.

Lemma moved_told s k ts es s' ks tr :
  moved s k ts es s' → safe (k :: ks) s → told (k :: ks) s tr → told (ts ++ ks) s' (tr ++ es).
Proof.
  intros Hm Hs Ht. split.
  - intros e c [He|He]%elem_of_app Hab; apply (moved_lookup _ _ _ _ _ c Hm).
    + by apply (told_about _ _ _ Ht e).
    + by apply (about_moved _ _ _ _ _ _ _ _ Hm Hs He).
  - pose proof (moved_accepted _ _ _ _ _ _ Hm Hs) as Ha. unfold accepted, fanned in *.
    rewrite !omap_app. rewrite <- (assoc (++)), <- Ha. fold (accepted tr).
    rewrite (told_accepted _ _ _ Ht). unfold fanned. by rewrite <- !(assoc (++)).
  - intros c. apply told_since_app. apply (told_since _ _ _ Ht).
  - intros c. by apply (told_gave_moved _ _ _ _ _ _ _ _ Hm Hs Ht).
  - intros c l. by apply (told_due_moved _ _ _ _ _ _ _ _ _ Hm Hs Ht).
  - intros c. by apply (told_new_moved _ _ _ _ _ _ _ _ Hm Hs Ht).
  - intros c. pose proof (moved_buffer _ _ _ _ _ _ c Hm Hs) as Hb. unfold sent, taken in *. rewrite !omap_app.
    rewrite <- (assoc (++)), <- Hb. fold (sent c tr). rewrite (told_sent _ _ _ Ht c). unfold taken.
    by rewrite <- (assoc (++)).
  - intros c. apply told_wrote_app; [apply (told_wrote _ _ _ Ht)| |by eapply moved_events].
    intros _ Hta. pose proof (moved_takes _ _ _ _ _ _ Hm Hta) as ->.
    apply (told_writer _ _ _ Ht (Writing c)); [by left|done|done].
  - intros k' c. by apply (told_writer_moved _ _ _ _ _ _ _ _ _ Hm Hs Ht).
Qed.

End traces.
