(* ===== verification/HubProps.v ===== *)
(** * Properties of broadcasting to WebSocket clients

    For every schedule of the goroutines: which panics can happen, what the
    buffers hold, and which part of the broadcasts a client gets; with two
    schedules in which a panic ends the program. *)

From S2P Require Import Prelude Hub HubMoves HubSafe HubTraces.

Import Hub.

Section schedules.
Context {msg : Type}.
Implicit Types (s : t msg) (k : task msg) (ks ts : list (task msg)) (c : nat).
Implicit Types (l : label msg) (ls : list (label msg)) (cf : config msg).

(** Calls of [Shutdown]: asked for, and under way or done. *)
Definition is_stop l : bool := match l with Stop => true | _ => false end.
Definition is_shutdown k : bool := match k with ShuttingDown => true | _ => false end.
Definition stops ls : nat := length (filter is_stop ls).
Definition shutdowns ks s : nat :=
  length (filter is_shutdown ks) + Nat.b2n (GoChan.closed (broadcast s)).

Lemma shutdowns_perm ks ks' s : ks ≡ₚ ks' → shutdowns ks s = shutdowns ks' s.
Proof. intros H. unfold shutdowns. by rewrite H. Qed.

Lemma shutdowns_cons k ks s : shutdowns (k :: ks) s = Nat.b2n (is_shutdown k) + shutdowns ks s.
Proof. unfold shutdowns. rewrite filter_cons. by destruct (is_shutdown k). Qed.

Lemma shutdowns_app ts ks s : shutdowns (ts ++ ks) s = length (filter is_shutdown ts) + shutdowns ks s.
Proof. unfold shutdowns. rewrite filter_app, length_app. lia. Qed.

Lemma moved_shutdowns s k ts es s' ks :
  moved s k ts es s' → shutdowns (ts ++ ks) s' = shutdowns (k :: ks) s.
Proof.
  intros Hm. rewrite shutdowns_cons, shutdowns_app. unfold shutdowns.
  destruct Hm; try done; try (by destruct b); simpl.
  - by destruct (send_return _ _ _ H) as (-> & _ & ->).
  - unfold GoChan.close in H. destruct (GoChan.closed (broadcast s)); [done|]. injection H as <-. simpl. lia.
  - by destruct (receive_some _ _ _ H) as (q & _ & ->).
  - by destruct H0 as (_ & _ & -> & _).
  - by destruct H0 as (_ & _ & -> & _).
Qed.

(** What holds after every schedule; [s] is the state before the panic, if any. *)
Definition sound n cf : Prop :=
  ∃ s, safe (tasks cf) s ∧ told (tasks cf) s (trace cf) ∧ shutdowns (tasks cf) s = n ∧
  match crashed cf with
  | None => hub cf = s
  | Some k => k ∈ tasks cf ∧ crashes s k ∧ (works_for k ≠ None → hub cf = s)
  end.

Lemma crash_state a k s s' : task_step a k s = (Crash, s') → crashes s k.
Proof. pose proof (task_step_follows a k s) as H. intros E. by rewrite E in H. Qed.

Lemma sending_crash_keeps a c m b s s' : task_step a (Sending c m b) s = (Crash, s') → s' = s.
Proof.
  destruct a; try done; simpl.
  - unfold sending_step. unfold mbind, M_bind. rewrite try_send_eq.
    destruct (GoChan.send m (sends c s)) as [[]|]; by intros [= <-].
  - unfold finished, gets. by case_match.
Qed.

Lemma sound_sched n i a cf : crashed cf = None → sound n cf → sound n (sched i a cf).
Proof.
  intros Hc (s & Hs & Ht & Hn & Hh). rewrite Hc in Hh. unfold sched. subst s.
  destruct (tasks cf !! i) as [k|] eqn:Hk; [|exists (hub cf); by rewrite Hc].
  pose proof (delete_Permutation _ _ _ Hk) as Hp. pose proof (task_step_follows a k (hub cf)) as Hf.
  destruct (task_step a k (hub cf)) as [[| |ts es] s'] eqn:Hstep; simpl in Hf.
  - exists (hub cf). by rewrite Hc.
  - exists (hub cf). simpl. split_and!; try done; [by apply list_elem_of_lookup; eauto|].
    intros Hw.
    assert (safe (k :: delete i (tasks cf)) (hub cf)) as Hs' by (by apply (pool_safe_perm (tasks cf))).
    pose proof (safe_crash _ _ _ Hs' Hf) as Hcr. destruct k; try done. by eapply sending_crash_keeps.
  - exists s'. simpl.
    assert (safe (k :: delete i (tasks cf)) (hub cf)) as Hs' by (by apply (pool_safe_perm (tasks cf))).
    split_and!; [by eapply moved_safe| | |done].
    + eapply moved_told; [done..|]. by apply (told_perm (tasks cf)).
    + rewrite (moved_shutdowns _ _ _ _ _ _ Hf). by rewrite <- (shutdowns_perm _ _ _ Hp).
Qed.

(** A new goroutine that works for no client yet. *)
Lemma sound_spawn n k cf :
  crashed cf = None → is_hub k = false → works_for k = None → sound n cf →
  sound (Nat.b2n (is_shutdown k) + n) (spawn k cf).
Proof.
  intros Hc Hk Hw (s & Hs & Ht & Hn & Hh). exists s. unfold spawn. simpl. rewrite Hc in *.
  assert (owner k = None) as Ho by (by destruct k).
  assert (hubs (k :: tasks cf) = hubs (tasks cf)) as Hhs by (by rewrite hubs_cons, Hk).
  assert (∀ m todo dead, k ≠ FanOut m todo dead) as Hnf by (by intros; destruct k).
  assert (∀ c, k ≠ Registering c) as Hnr by (by intros; destruct k).
  split_and!; [| |by rewrite shutdowns_cons, Hn|done].
  - destruct Hs. split; try done; try (by rewrite Hhs).
    + intros m todo dead [Heq|Hin]%elem_of_cons; [by destruct (Hnf m todo dead)|eauto].
    + simpl. by rewrite Ho.
    + intros k' c [->|Hin]%elem_of_cons Hk'; [congruence|eauto].
    + intros c [Heq|Hin]%elem_of_cons; [by destruct (Hnr c)|eauto].
    + intros k' c [->|Hin]%elem_of_cons Hk'; [congruence|eauto].
  - destruct Ht. split; try done; try (by rewrite Hhs).
    + intros c [Heq|Hin]%elem_of_cons; [by destruct (Hnr c)|eauto].
    + intros k' c [->|Hin]%elem_of_cons Hk'; [congruence|eauto].
Qed.

Lemma sound_step n l cf :
  crashed cf = None → sound n cf → sound (Nat.b2n (is_stop l) + n) (step l cf).
Proof.
  intros Hc Hs. unfold step. rewrite Hc.
  destruct l; [by apply sound_sched|by apply sound_spawn..].
Qed.

Lemma sound_start : sound 0 start.
Proof.
  exists new. simpl. split_and!; try done.
  - split; simpl; try done; try (by intros ? ?); try lia.
    + split; [done|intros (? & ? & ? & [=])].
    + intros m todo dead Hin. by apply list_elem_of_singleton in Hin.
    + constructor.
    + intros k c ->%list_elem_of_singleton. done.
    + intros c Hin. by apply list_elem_of_singleton in Hin.
    + intros k c ->%list_elem_of_singleton. done.
  - split; simpl; try done.
    + intros e c Hin. by apply not_elem_of_nil in Hin.
Qed.

Lemma step_crashed l cf k : crashed cf = Some k → step l cf = cf.
Proof. intros H. unfold step. by rewrite H. Qed.

Lemma sound_schedule ls cf n :
  sound n cf → ∃ n', sound n' (schedule ls cf) ∧ n' ≤ stops ls + n.
Proof.
  revert cf n. induction ls as [|l ls IH]; intros cf n Hs; [eauto|]. simpl.
  destruct (crashed cf) as [k|] eqn:Hc.
  - rewrite (step_crashed _ _ _ Hc). destruct (IH _ _ Hs) as (n' & Hn' & Hle). exists n'. split; [done|].
    unfold stops in *. rewrite filter_cons. case_decide; simpl; lia.
  - destruct (IH _ _ (sound_step n l cf Hc Hs)) as (n' & Hn' & Hle). exists n'. split; [done|].
    unfold stops in *. rewrite filter_cons. destruct (is_stop l); simpl in *; lia.
Qed.

(** ** The theorems *)

(** C20: whatever the goroutines of the server do, in any interleaving, no
    client channel and no [done] channel is closed twice: the only panics are
    a [Broadcast] or a second [Shutdown] after a [Shutdown], and a send to a
    client that has left by a goroutine of its own.  Until then registered
    clients have an open channel and no buffer exceeds its capacity. *)
Theorem channels_never_closed_twice ls :
  let cf := schedule ls start in
  (∀ k, crashed cf = Some k →
    match k with
    | BroadcastSend _ => 1 ≤ stops ls
    | ShuttingDown => 2 ≤ stops ls
    | Sending c _ _ => (c ∉ clients (hub cf)) ∧ GoChan.closed (sends c (hub cf)) = true
    | _ => False
    end) ∧
  (crashed cf = None →
    (∀ c, c ∈ clients (hub cf) → ∃ o, objects (hub cf) !! c = Some o ∧ GoChan.closed (send o) = false) ∧
    (∀ c o, objects (hub cf) !! c = Some o → length (GoChan.buffer (send o)) ≤ 256) ∧
    length (GoChan.buffer (broadcast (hub cf))) ≤ 100).
Proof.
  intros cf. destruct (sound_schedule ls start 0 sound_start) as (n & (s & Hs & _ & Hn & Hh) & Hle).
  fold cf in Hs, Hn, Hh. split.
  - intros k Hk. rewrite Hk in Hh. destruct Hh as (Hin & Hcr & Hw).
    apply list_elem_of_lookup in Hin as [i Hi]. pose proof (delete_Permutation _ _ _ Hi) as Hp.
    pose proof (safe_crash _ _ _ (pool_safe_perm _ _ _ Hp Hs) Hcr) as Hsite.
    rewrite (shutdowns_perm _ _ _ Hp), shutdowns_cons in Hn. unfold shutdowns in Hn.
    destruct k; try done.
    + rewrite Hsite in Hn. simpl in Hn. lia.
    + rewrite Hsite in Hn. simpl in Hn. lia.
    + rewrite Hw by done. tauto.
  - intros Hc. rewrite Hc in Hh. rewrite Hh. split_and!; [apply (safe_open _ _ Hs)| |apply (safe_broadcast _ _ Hs)].
    intros c o Ho. apply (safe_bounded _ _ Hs _ _ Ho).
Qed.

(** C21: what [handleBroadcast] gives a client is a contiguous part of the
    accepted broadcasts, in order; a client that is still registered while it
    waits for the next one has missed nothing since it joined; and a connection
    carries, in order and without gaps, what was put into the client's channel. *)
Theorem clients_get_contiguous_broadcasts ls c :
  let cf := schedule ls start in
  let tr := trace cf in
  (∃ before after, accepted tr = before ++ gave c tr ++ after) ∧
  wrote c tr `prefix_of` sent c tr ∧
  (crashed cf = None → c ∈ clients (hub cf) → Collecting ∈ tasks cf → since c tr = Some (gave c tr)).
Proof.
  intros cf tr. destruct (sound_schedule ls start 0 sound_start) as (n & (s & Hs & Ht & _ & Hh) & _).
  fold cf in Hs, Ht, Hh. fold tr in Ht. split_and!.
  - rewrite (told_accepted _ _ _ Ht). pose proof (told_gave _ _ _ Ht c) as [after Ha].
    pose proof (told_since _ _ _ Ht c) as Hsu. destruct (since c tr) as [l|]; simpl in Ha.
    + destruct (Hsu l eq_refl) as [before Hb]. exists before. rewrite Hb, Ha. eexists.
      by rewrite <- !(assoc (++)).
    + symmetry in Ha. apply app_nil in Ha as [-> _]. by exists [], (fanned tr ++ inflight (hubs (tasks cf)) ++ GoChan.buffer (broadcast s)).
  - rewrite (told_sent _ _ _ Ht c). apply prefix_app_r, (told_wrote _ _ _ Ht).
  - intros Hc Hin Hcol. rewrite Hc in Hh. rewrite Hh in Hin.
    rewrite <- (app_nil_r (gave c tr)). apply (told_due _ _ _ Ht); [done|].
    assert (Collecting ∈ hubs (tasks cf)) as Hhub by (by apply elem_of_hubs).
    pose proof (safe_hub _ _ Hs) as Hl. destruct (hubs (tasks cf)) as [|k [|]]; simpl in *; [done| |lia].
    by apply list_elem_of_singleton in Hhub as <-.
Qed.

End schedules.

(** ** Schedules that end in a panic

    The first client joins: three steps. *)
Definition join : list (label nat) := [Open; Sched 0 Next; Sched 0 Next].

(** A client that asked for metrics disconnects: its reader closes [send] while
    the metrics goroutine is at its inner [select]; [done] is closed only once
    the writer has seen that. *)
Example disconnect_can_crash :
  crashed (schedule (join ++
    [Sched 1 (Incoming (Some "subscribe_metrics") 7); Sched 1 (Tick 7);
     Sched 1 Fault; Sched 0 Next; Sched 0 Next]) start) = Some (Sending 0 7 ByMetrics).
Proof. vm_compute. reflexivity. Qed.

(** A client does not read: the 257th broadcast finds its channel full and
    [handleBroadcast] closes it; its next request for the state panics. *)
Definition round (hub : nat) : list (label nat) :=
  [Publish 1; Sched 0 Next; Sched 0 Next;                       (* accepted *)
   Sched hub Next; Sched 0 Next; Sched 0 (Client 0); Sched 0 Next].
Example slow_client_can_crash :
  crashed (schedule (join ++ round 3 ++ mjoin (replicate 256 (round 0)) ++
    [Sched 0 Next; Sched 2 (Incoming (Some "request_state") 7); Sched 0 Next]) start)
  = Some (Sending 0 7 ByReader).
Proof. vm_compute. reflexivity. Qed.

(** [Broadcast] has read the flag when [Shutdown] closes the channel. *)
Example shutdown_can_crash :
  crashed (schedule [Publish 1; Sched 0 Next; Stop; Sched 0 Next; Sched 0 Next] start)
  = Some (BroadcastSend 1).
Proof. vm_compute. reflexivity. Qed.
