(* ===== verification/Server.v ===== *)
(** * The API server: [pkg/api/server.go], [pkg/api/handlers.go], [pkg/api/websocket.go]

    The server holds the monitor (and through it the process manager and the
    memory manager), the simulator, the WebSocket clients and the origins that
    may connect.  A handler gets its decoded request: the [id] that the router
    extracted from the path, a query parameter, and the body as [encoding/json]
    decoded it, [None] when it did not.  It returns the status and what the body
    encodes.  The clients' channels and goroutines are in [Hub]. *)

From S2P Require Import Prelude Models Heap FrameTable Policy Policies Algorithms Tlb PageTable MultiLevel.
From S2P Require Import Advanced Cow Manager ProcMan Simulator Hub Monitor.
From Stdlib Require Import Ascii String.
Local Open Scope Z_scope.

(** ** [strings] and [strconv] of Go's library, on ASCII *)
Module GoString.
Definition TrimPrefix (p s : string) : string :=
  if String.prefix p s then String.substring (String.length p) (String.length s - String.length p) s else s.
Fixpoint IndexByte (c : ascii) (s : string) : option nat :=
  match s with
  | EmptyString => None
  | String a s => if Ascii.eqb a c then Some O else S <$> IndexByte c s
  end.
Definition is_space (a : ascii) : bool :=
  let n := N_of_ascii a in ((9 <=? n) && (n <=? 13) || (n =? 32))%N.
Fixpoint trim_left (l : list ascii) : list ascii :=
  match l with a :: l' => if is_space a then trim_left l' else l | [] => [] end.
Definition TrimSpace (s : string) : string :=
  string_of_list_ascii (reverse (trim_left (reverse (trim_left (list_ascii_of_string s))))).

(** [strconv.Atoi]: a sign, then decimal digits, in the range of an [int]. *)
Definition digit (a : ascii) : option Z :=
  let n := N_of_ascii a in if ((48 <=? n) && (n <=? 57))%N then Some (Z.of_N n - 48) else None.
Fixpoint digits (acc : Z) (l : list ascii) : option Z :=
  match l with
  | [] => Some acc
  | a :: l => d ← digit a; digits (10 * acc + d) l
  end.
Definition unsigned (l : list ascii) : option Z := match l with [] => None | _ => digits 0 l end.
Definition Atoi (s : string) : option Z :=
  z ← match list_ascii_of_string s with
      | "-"%char :: l => Z.opp <$> unsigned l
      | "+"%char :: l => unsigned l
      | l => unsigned l
      end;
  if ((- 2 ^ 63 <=? z) && (z <? 2 ^ 63))%Z then Some z else None.
End GoString.

Module processJSON.
Record t := mk {
  ID : string; Name : string; Priority : Z; State : Z; VirtualPages : N; PageTableSize : N;
  WorkingSetSize : Z; PageFaults : Z; PageHits : Z; MemoryAccesses : Z; CoWCopies : Z; CPUTimeNs : Z;
  ParentID : string; Children : list string; CreatedAt : Z;
}.
End processJSON.

(** [p.State.Load()]: the constants are numbered in their order. *)
Definition state_code (st : ProcessState) : Z :=
  match st with ProcessReady => 0 | ProcessRunning => 1 | ProcessBlocked => 2 | ProcessTerminated => 3 end.
Definition marshalProcess (p : Process.t) : processJSON.t := {|
  processJSON.ID := Process.ID p; processJSON.Name := Process.Name p; processJSON.Priority := Process.Priority p;
  processJSON.State := state_code (Process.GetState p);
  processJSON.VirtualPages := Process.VirtualPages p; processJSON.PageTableSize := Process.PageTableSize p;
  processJSON.WorkingSetSize := Process.WorkingSetSize p;
  processJSON.PageFaults := Process.PageFaults p; processJSON.PageHits := Process.PageHits p;
  processJSON.MemoryAccesses := Process.MemoryAccesses p; processJSON.CoWCopies := Process.CoWCopies p;
  processJSON.CPUTimeNs := Process.CPUTime p; processJSON.ParentID := Process.ParentID p;
  processJSON.Children := Process.GetChildren p; processJSON.CreatedAt := Process.CreatedAt p |}.

(** The request bodies. *)
Module CreateReq.
Record t := mk { Name : string; Priority : Z; VirtualPages : N }.
End CreateReq.
Module AccessReq.
Record t := mk { ProcessID : string; VirtualPage : N; Write : bool }.
End AccessReq.
Module FeatureReq.
Record t := mk { Feature : string; Enabled : bool }.
End FeatureReq.
Module CompareReq.
Record t := mk { Scenario : string; Frames : Z; TLB : Z }.
End CompareReq.
Module SweepReq.
Record t := mk { Scenario : string; Algorithm : string; FrameMin : Z; FrameMax : Z; TLB : Z }.
End SweepReq.

(** What is broadcast, or sent to one client. *)
Inductive message : Type :=
| ProcessCreated (p : processJSON.t)
| ProcessTerminated (pid : string)
| ProcessForked (parent : string) (child : processJSON.t)
| AlgorithmChanged (algorithm : string)
| SimulationError (scenario : string)
| SimulationComplete (result : ScenarioResult.t)
| SystemReset
| InitialState (status : SystemStatus.t)
| StateUpdate (status : SystemStatus.t) (processes : list ProcessDetail.t) (frames : list FrameDetail.t)
| MetricsUpdate (metrics : MetricsSnapshot.t).

(** What [writeJSON] encodes. *)
Inductive body : Type :=
| BError (msg : string)
| BPair (key value : string)
| BStatus (s : SystemStatus.t)
| BMetrics (m : MetricsSnapshot.t)
| BProcesses (l : list ProcessDetail.t)
| BProcess (p : processJSON.t)
| BFrames (l : list FrameDetail.t)
| BPages (l : list (N * Page.t))
| BHistory (l : list HistoricalSnapshot.t)
| BEvents (l : list Event.t)
| BScenarios (l : list (string * string))
| BTLBStats (st : TLB.TLBStats)
| BCoWStats (st : CopyOnWrite.CoWStats)
| BNodes (l : list NumaNode.t)
| BCompression (st : CompressionStats.t)
| BFeature (feature : string) (enabled : bool)
| BHugePage (pid : string) (idx : N) (frame : Z) (addr : N)
| BHugePages (l : list (N * Z * N * Z))
| BWorkingSet (size window : Z)
| BEntries (l : list (N * MultiLevelPageTable.PageTableEntry.t * bool))
| BComparison (l : list AlgorithmResult.t)
| BSweep (l : list FrameCountResult.t)
| BThrashing (i : ThrashingInfo.t).

Module Response.
Record t := mk { status : Z; content : body }.
End Response.

Definition StatusOK : Z := 200.
Definition StatusCreated : Z := 201.
Definition StatusAccepted : Z := 202.
Definition StatusBadRequest : Z := 400.
Definition StatusNotFound : Z := 404.
Definition StatusConflict : Z := 409.
Definition StatusInternalServerError : Z := 500.

Definition maxHistoryItems : Z := 1000.

(** The query parameter is [None] or empty when it is absent. *)
Definition clampedQueryInt (param : option string) (defaultVal min max : Z) : Z :=
  let val := match param with
             | None | Some EmptyString => defaultVal
             | Some s => default defaultVal (GoString.Atoi s)
             end in
  let val := if val <? min then min else val in
  if max <? val then max else val.

(** The loop, with the points that may still be added as fuel. *)
Fixpoint geometric (max curr : Z) (points : nat) : list Z :=
  match points with
  | O => []
  | S points =>
      if curr <? max then
        let next := i64 (curr * 2) in
        let next := if max <? next then max else next in
        i32 next :: geometric max next points
      else []
  end.
Definition geometricFrameRange (min max : Z) (maxPoints : Z) : list Z :=
  min :: geometric max min (Z.to_nat (maxPoints - 1)).

Definition extractWSHost (origin : string) : string :=
  let origin := GoString.TrimPrefix "http://" origin in
  let origin := GoString.TrimPrefix "https://" origin in
  match GoString.IndexByte ":" origin with
  | Some idx => String.substring 0 idx origin
  | None => origin
  end.

Module Server.
Section server.
Context `{Env : GoEnv} `{Rand : GoRand}.

(** The process manager of [simulator] is the one of [monitor]; it is put
    there for the time of a call.  [simulations] are the goroutines started by
    [HandleRunSimulation] that have not run yet; [stopped] tells whether the stop
    channel of the capture is closed. *)
Record t := mk {
  monitor : Mon.t;
  simulator : Sim.t;
  hub : Hub.t message;
  monitorStop : option nat;
  stopped : bool;
  allowedOrigins : gmap string bool;
  allowAllOrigins : bool;
  simulationMu : bool;
  simulations : list string;
}.
#[global] Instance eta_t : Eta t := λ r,
  mk (monitor r) (simulator r) (hub r) (monitorStop r) (stopped r) (allowedOrigins r) (allowAllOrigins r)
     (simulationMu r) (simulations r).

Definition on_mon {A} (m : M Mon.t A) : M t A :=
  λ s, let '(a, mon) := m (monitor s) in (a, s <| monitor := mon |>).
Definition on_pm {A} (m : M PM.t A) : M t A := on_mon (Mon.on_pm m).
Definition on_mm {A} (m : M MM.t A) : M t A := on_pm (PM.on_mm m).
Definition on_sim {A} (m : M Sim.t A) : M t A :=
  λ s, let '(a, sim) := m ((simulator s) <| Sim.processManager := Mon.processManager (monitor s) |>) in
       (a, s <| simulator := sim |> <| monitor ::= λ mon, mon <| Mon.processManager := Sim.processManager sim |> |>).
Definition on_hub {A} (m : M (Hub.t message) A) : M t A :=
  λ s, let '(a, h) := m (hub s) in (a, s <| hub := h |>).
(** A call that only uses the clock and the draws of the environment. *)
Definition on_env {A} (m : M nat A) : M t A :=
  on_mm (MM.on_heap (λ h, let '(a, k) := m (tick h) in (a, h <| tick := k |>))).

Definition pm_of (s : t) : PM.t := Mon.processManager (monitor s).
Definition mm_of (s : t) : MM.t := PM.memoryManager (pm_of s).

(** ** The server *)

(** [now] is the time the simulator is seeded with. *)
Definition NewServer (numFrames tlbSize : Z) (algType : AlgorithmType) (t0 : nat) (now : Z) : t :=
  let mm := MM.NewMemoryManager numFrames tlbSize algType t0 in
  let pm := PM.NewProcessManager mm in
  let mon := Mon.NewMonitor pm in
  let sim := Sim.NewSimulator now (Mon.processManager mon) in
  let '(stop, mon) := Mon.StartPeriodicCapture mon in
  {| monitor := mon; simulator := sim; hub := Hub.new; monitorStop := stop; stopped := false;
     allowedOrigins := ∅; allowAllOrigins := false; simulationMu := false; simulations := [] |}.

Definition Broadcast (m : message) : M t (outcome unit) := on_hub (Hub.Broadcast m).

(** [close(s.monitorStop)] panics on a closed channel, such as the one a
    refused [StartPeriodicCapture] returns. *)
Definition stop_monitor : M t (outcome unit) :=
  s ← get_st;
  match monitorStop s with
  | Some i =>
      if stopped s then mret Panic
      else modify (λ s, s <| stopped := true |>) ;; on_mon (Mon.capture_stop i) ;; mret (Return ())
  | None => mret Panic
  end.
Definition Shutdown : M t (outcome unit) :=
  _ <-! stop_monitor;
  _ <-! on_hub Hub.close_broadcast;
  on_mm MM.Close ;;
  mret (Return ()).

(** The loop returns at the first ["*"]. *)
Fixpoint add_origins (domains : list string) (s : t) : t :=
  match domains with
  | [] => s
  | d :: domains =>
      let d := GoString.TrimSpace d in
      if String.eqb d "*" then s <| allowAllOrigins := true |>
      else add_origins domains (s <| allowedOrigins ::= <[d := true]> |>)
  end.
Definition SetAllowedOrigins (domains : list string) : M t unit :=
  modify (λ s, add_origins domains (s <| allowedOrigins := ∅ |>)).
(** [CheckOrigin] of [newUpgrader]; the header is empty when it is absent. *)
Definition CheckOrigin (origin : string) (s : t) : bool :=
  if allowAllOrigins s then true
  else if String.eqb origin "" then true
  else default false (allowedOrigins s !! extractWSHost origin).

(** ** Handlers *)

Definition writeJSON (status : Z) (b : body) : M t (outcome Response.t) :=
  mret (Return (Response.mk status b)).
Definition writeError (status : Z) (msg : string) : M t (outcome Response.t) := writeJSON status (BError msg).
(** [if err := Decode(&req); err != nil { ... }] *)
Definition decoded {B} (req : option B) (k : B → M t (outcome Response.t)) : M t (outcome Response.t) :=
  match req with
  | None => writeError StatusBadRequest "invalid request body"
  | Some b => k b
  end.

Definition HandleGetStatus : M t (outcome Response.t) :=
  st ← on_mon Mon.GetSystemStatus; writeJSON StatusOK (BStatus st).
Definition HandleGetMetrics : M t (outcome Response.t) :=
  m ← on_mm MM.GetMetrics; writeJSON StatusOK (BMetrics m).
Definition HandleGetProcesses : M t (outcome Response.t) :=
  l ← on_mon Mon.GetProcessDetails; writeJSON StatusOK (BProcesses l).
Definition HandleGetProcess (pid : string) : M t (outcome Response.t) :=
  s ← get_st;
  match PM.GetProcess pid (pm_of s) with
  | Err _ => writeError StatusNotFound "process not found"
  | Ok p => writeJSON StatusOK (BProcess (marshalProcess (PM.object p (pm_of s))))
  end.

Definition HandleCreateProcess (req : option CreateReq.t) : M t (outcome Response.t) :=
  decoded req (λ b,
    if String.eqb (CreateReq.Name b) "" then writeError StatusBadRequest "name is required"
    else if (CreateReq.Priority b <? 0) || (10 <? CreateReq.Priority b)
    then writeError StatusBadRequest "priority must be between 0 and 10"
    else if (CreateReq.VirtualPages b =? 0)%N || (100000 <? CreateReq.VirtualPages b)%N
    then writeError StatusBadRequest "virtual_pages must be between 1 and 100000"
    else
      r ← on_pm (PM.CreateProcess (CreateReq.Name b) (CreateReq.Priority b) (CreateReq.VirtualPages b));
      match r with
      | Err _ => writeError StatusInternalServerError "failed to create process"
      | Ok p =>
          dto ← gets (λ s, marshalProcess (PM.object p (pm_of s)));
          _ <-! Broadcast (ProcessCreated dto);
          writeJSON StatusCreated (BProcess dto)
      end).

Definition HandleTerminateProcess (pid : string) : M t (outcome Response.t) :=
  r ← on_pm (PM.TerminateProcess pid);
  match r with
  | Err _ => writeError StatusInternalServerError "failed to terminate process"
  | Ok _ =>
      _ <-! Broadcast (ProcessTerminated pid);
      writeJSON StatusOK (BPair "status" "terminated")
  end.

Definition HandleForkProcess (pid : string) : M t (outcome Response.t) :=
  r ← on_pm (PM.ForkProcess pid);
  match r with
  | Err _ => writeError StatusInternalServerError "failed to fork process"
  | Ok child =>
      dto ← gets (λ s, marshalProcess (PM.object child (pm_of s)));
      _ <-! Broadcast (ProcessForked pid dto);
      writeJSON StatusCreated (BProcess dto)
  end.

Definition HandleAccessMemory (req : option AccessReq.t) : M t (outcome Response.t) :=
  decoded req (λ b,
    r ← on_pm (PM.AccessMemory (AccessReq.ProcessID b) (AccessReq.VirtualPage b) (AccessReq.Write b));
    match r with
    | Err _ => writeError StatusInternalServerError "memory access failed"
    | Ok _ => writeJSON StatusOK (BPair "status" "ok")
    end).

Definition HandleGetFrames : M t (outcome Response.t) :=
  l ← on_mon Mon.GetFrameDetails; writeJSON StatusOK (BFrames l).
Definition HandleGetPageTable (pid : string) : M t (outcome Response.t) :=
  s ← get_st;
  match MM.GetPageTable pid (mm_of s) with
  | Err _ => writeError StatusNotFound "page table not found"
  | Ok pageTable =>
      l ← on_mm (MM.on_heap (PageTable.GetAllPages pageTable)); writeJSON StatusOK (BPages l)
  end.
Definition HandleGetHistory (last : option string) : M t (outcome Response.t) :=
  s ← get_st;
  writeJSON StatusOK (BHistory (Mon.GetHistory (clampedQueryInt last 100 1 maxHistoryItems) (monitor s))).
Definition HandleGetEvents (last : option string) : M t (outcome Response.t) :=
  s ← get_st;
  writeJSON StatusOK (BEvents (Mon.GetEvents (clampedQueryInt last 50 1 maxHistoryItems) (monitor s))).

Definition HandleSetAlgorithm (req : option string) : M t (outcome Response.t) :=
  decoded req (λ algorithm,
    match ParseAlgorithmType algorithm with
    | None => writeError StatusBadRequest "invalid algorithm"
    | Some algType =>
        on_mm (MM.SetAlgorithm algType) ;;
        _ <-! Broadcast (AlgorithmChanged algorithm);
        writeJSON StatusOK (BPair "algorithm" algorithm)
    end).

(** [TryLock], and the goroutine that holds the lock until its end. *)
Definition HandleRunSimulation (req : option string) : M t (outcome Response.t) :=
  decoded req (λ scenario,
    if String.eqb scenario "" then writeError StatusBadRequest "scenario is required"
    else
      s ← get_st;
      if simulationMu s then writeError StatusConflict "a simulation is already running"
      else
        modify (λ s, s <| simulationMu := true |> <| simulations ::= λ l, l ++ [scenario] |>) ;;
        writeJSON StatusAccepted (BPair "status" "started")).
Definition run_simulation (scenario : string) : M t (outcome unit) :=
  r <-! on_sim (Sim.RunScenario scenario);
  _ <-! Broadcast (match r.2 with Some _ => SimulationError scenario | None => SimulationComplete r.1 end);
  modify (λ s, s <| simulationMu := false |>) ;;
  mret (Return ()).
Definition simulation_step : M t (outcome unit) :=
  s ← get_st;
  match simulations s with
  | [] => mret (Return ())
  | scenario :: rest => modify (λ s, s <| simulations := rest |>) ;; run_simulation scenario
  end.

Definition HandleGetScenarios : M t (outcome Response.t) :=
  writeJSON StatusOK (BScenarios
    ((λ sc, (sc, Sim.GetScenarioDescription sc)) <$> Sim.GetAvailableScenarios)).

Definition HandleReset : M t (outcome Response.t) :=
  on_pm PM.Reset ;;
  on_mm MM.Reset ;;
  on_mon Mon.ClearHistory ;;
  _ <-! Broadcast SystemReset;
  writeJSON StatusOK (BPair "status" "reset").

Definition HandleGetTLBStats : M t (outcome Response.t) :=
  s ← get_st; writeJSON StatusOK (BTLBStats (TLB.GetStats (MM.tlb (mm_of s)))).
Definition HandleGetCoWStats : M t (outcome Response.t) :=
  s ← get_st; writeJSON StatusOK (BCoWStats (CopyOnWrite.GetStats (MM.cowManager (mm_of s)))).
Definition HandleGetNumaStats : M t (outcome Response.t) :=
  s ← get_st; writeJSON StatusOK (BNodes (NumaManager.GetNodes (MM.numaManager (mm_of s)))).
Definition HandleGetCompressionStats : M t (outcome Response.t) :=
  s ← get_st; writeJSON StatusOK (BCompression (CompressionManager.GetStats (MM.compressionManager (mm_of s)))).

Definition HandleEnableFeature (req : option FeatureReq.t) : M t (outcome Response.t) :=
  decoded req (λ b,
    let enable := FeatureReq.Enabled b in
    let ok := writeJSON StatusOK (BFeature (FeatureReq.Feature b) enable) in
    if String.eqb (FeatureReq.Feature b) "numa" then on_mm (MM.EnableNuma enable) ;; ok
    else if String.eqb (FeatureReq.Feature b) "compression" then on_mm (MM.EnableCompression enable) ;; ok
    else if String.eqb (FeatureReq.Feature b) "clustering" then on_mm (MM.EnableClustering enable) ;; ok
    else writeError StatusBadRequest "unknown feature; valid values: numa, compression, clustering").

Definition HandleMapHugePage (pid : string) (req : option N) : M t (outcome Response.t) :=
  decoded req (λ hugePage,
    if (2 ^ 43 - 1 <? hugePage)%N then writeError StatusBadRequest "huge_page index out of range"
    else
      r ← on_mm (MM.MapHugePage pid hugePage);
      match r.2 with
      | Some _ => writeError StatusInternalServerError "failed to map huge page"
      | None => writeJSON StatusCreated (BHugePage pid hugePage r.1 (u64_shl hugePage 21))
      end).
Definition HandleGetHugePages (pid : string) : M t (outcome Response.t) :=
  r ← on_mm (MM.GetHugePages pid);
  match r with
  | Err _ => writeError StatusNotFound "process not found"
  | Ok pages => writeJSON StatusOK (BHugePages pages)
  end.
Definition HandleGetWorkingSet (pid : string) : M t (outcome Response.t) :=
  s ← get_st;
  match MM.GetWorkingSetInfo pid (mm_of s) with
  | Err _ => writeError StatusNotFound "process not found"
  | Ok (size, window) => writeJSON StatusOK (BWorkingSet size window)
  end.
Definition HandleGetMultiLevelPageTable (pid : string) : M t (outcome Response.t) :=
  s ← get_st;
  match MM.GetMultiLevelPageTable pid (mm_of s) with
  | Err _ => writeError StatusNotFound "process not found"
  | Ok mpt => writeJSON StatusOK (BEntries (MultiLevelPageTable.WalkPages mpt))
  end.

Definition HandleCompareAlgorithms (req : option CompareReq.t) : M t (outcome Response.t) :=
  decoded req (λ b,
    let frames := if CompareReq.Frames b <=? 0 then 32 else CompareReq.Frames b in
    let tlb := if CompareReq.TLB b <=? 0 then 16 else CompareReq.TLB b in
    let scenario := if String.eqb (CompareReq.Scenario b) "" then "mixed"%string else CompareReq.Scenario b in
    if 65536 <? frames then writeError StatusBadRequest "frames exceeds maximum of 65536"
    else
      sim ← gets simulator;
      r ← on_env (Sim.CompareAlgorithms scenario frames tlb sim);
      match r with
      | Panic => mret Panic
      | Fail _ => writeError StatusInternalServerError "simulation failed"
      | Return results => writeJSON StatusOK (BComparison results)
      end).

(** The bounds of the sweep; [req.FrameMin * 8] wraps. *)
Definition sweep_bounds (frameMin frameMax : Z) : Z * Z :=
  let frameMin := if frameMin <? 2 then 2 else frameMin in
  let frameMax := if frameMax <=? frameMin then i32 (frameMin * 8) else frameMax in
  (frameMin, if 65536 <? frameMax then 65536 else frameMax).
Definition HandleFrameCountSweep (req : option SweepReq.t) : M t (outcome Response.t) :=
  decoded req (λ b,
    let algorithm := if String.eqb (SweepReq.Algorithm b) "" then "LRU"%string else SweepReq.Algorithm b in
    let scenario := if String.eqb (SweepReq.Scenario b) "" then "mixed"%string else SweepReq.Scenario b in
    let '(frameMin, frameMax) := sweep_bounds (SweepReq.FrameMin b) (SweepReq.FrameMax b) in
    let tlb := if SweepReq.TLB b <=? 0 then 16 else SweepReq.TLB b in
    let frameCounts := geometricFrameRange frameMin frameMax 10 in
    sim ← gets simulator;
    r ← on_env (Sim.CompareFrameCounts scenario algorithm frameCounts tlb sim);
    match r with
    | Panic => mret Panic
    | Fail _ => writeError StatusInternalServerError "sweep failed"
    | Return results => writeJSON StatusOK (BSweep results)
    end).

Definition HandleGetThrashingStatus : M t (outcome Response.t) :=
  s ← get_st; writeJSON StatusOK (BThrashing (Mon.GetThrashingInfo (monitor s))).
Definition HandleHealthz : M t (outcome Response.t) := writeJSON StatusOK (BPair "status" "ok").
(** The managers are never nil after [NewServer]. *)
Definition HandleReadyz : M t (outcome Response.t) := writeJSON StatusOK (BPair "status" "ready").

(** ** Routes *)

(** A request that the router has matched. *)
Inductive request : Type :=
| GetHealthz | GetReadyz
| GetStatus | GetMetrics | GetHistory (last : option string) | GetEvents (last : option string) | PostReset
| GetProcesses | PostProcess (b : option CreateReq.t) | GetProcess (id : string) | DeleteProcess (id : string)
| PostFork (id : string) | GetPages (id : string) | PostHugePage (id : string) (b : option N)
| GetHugePages (id : string) | GetWorkingSet (id : string)
| PostAccess (b : option AccessReq.t) | GetFrames | PostAlgorithm (b : option string)
| GetTLBStats | GetCoWStats
| GetScenarios | PostRun (b : option string) | PostCompare (b : option CompareReq.t)
| PostSweep (b : option SweepReq.t) | GetThrashing
| GetNumaStats | GetCompressionStats | PostFeature (b : option FeatureReq.t) | GetMPT (id : string).

Definition SetupRoutes (q : request) : M t (outcome Response.t) :=
  match q with
  | GetHealthz => HandleHealthz
  | GetReadyz => HandleReadyz
  | GetStatus => HandleGetStatus
  | GetMetrics => HandleGetMetrics
  | GetHistory last => HandleGetHistory last
  | GetEvents last => HandleGetEvents last
  | PostReset => HandleReset
  | GetProcesses => HandleGetProcesses
  | PostProcess b => HandleCreateProcess b
  | GetProcess id => HandleGetProcess id
  | DeleteProcess id => HandleTerminateProcess id
  | PostFork id => HandleForkProcess id
  | GetPages id => HandleGetPageTable id
  | PostHugePage id b => HandleMapHugePage id b
  | GetHugePages id => HandleGetHugePages id
  | GetWorkingSet id => HandleGetWorkingSet id
  | PostAccess b => HandleAccessMemory b
  | GetFrames => HandleGetFrames
  | PostAlgorithm b => HandleSetAlgorithm b
  | GetTLBStats => HandleGetTLBStats
  | GetCoWStats => HandleGetCoWStats
  | GetScenarios => HandleGetScenarios
  | PostRun b => HandleRunSimulation b
  | PostCompare b => HandleCompareAlgorithms b
  | PostSweep b => HandleFrameCountSweep b
  | GetThrashing => HandleGetThrashingStatus
  | GetNumaStats => HandleGetNumaStats
  | GetCompressionStats => HandleGetCompressionStats
  | PostFeature b => HandleEnableFeature b
  | GetMPT id => HandleGetMultiLevelPageTable id
  end.

(** ** Messages built for WebSocket clients *)

(** What [HandleWebSocket] greets with, the answer to ["request_state"], the
    round of [sendPeriodicMetrics]; [Hub] sends them. *)
Definition initial_state : M t message :=
  st ← on_mon Mon.GetSystemStatus; mret (InitialState st).
Definition state_update : M t message :=
  st ← on_mon Mon.GetSystemStatus;
  ps ← on_mon Mon.GetProcessDetails;
  fs ← on_mon Mon.GetFrameDetails;
  mret (StateUpdate st ps fs).
Definition metrics_update : M t message :=
  m ← on_mm MM.GetMetrics; mret (MetricsUpdate m).
End server.
#[global] Arguments t {_}.
End Server.
