(* ===== verification/ServerSteps.v ===== *)
(** * What the requests of the API rely on

    Scenarios never panic, the calls that serve queries leave the registry of
    processes alone, and mapping a huge page succeeds. *)

From S2P Require Import Prelude Models Heap FrameTable Policy Policies Algorithms Tlb PageTable MultiLevel.
From S2P Require Import Advanced Cow Manager ManagerInv ManagerOps ManagerSteps ManagerCounts ManagerCow ManagerProps.
From S2P Require Import ProcMan ProcManProps Simulator SimulatorSteps SimulatorRuns SimulatorProps Hub Monitor Server.
Local Open Scope Z_scope.

(** ** Scenarios never panic *)

Section no_panic.
Context `{Env : GoEnv} `{Rand : GoRand}.
Import Sim.

Definition calm {S A} (m : M S (outcome A)) : Prop := ∀ s, (m s).1 ≠ Panic.

Lemma calm_return {S A} (a : A) : calm (mret (Return a) : M S _).
Proof. by intros s. Qed.
Lemma calm_fail {S A} e : calm (mret (Fail e) : M S (outcome A)).
Proof. by intros s. Qed.
Lemma calm_bind {S A B} (m : M S (outcome A)) (k : A → M S (outcome B)) :
  calm m → (∀ a, calm (k a)) → calm (x <-! m; k x).
Proof.
  intros Hm Hk s. unfold bind_outcome, mbind, M_bind. specialize (Hm s).
  destruct (m s) as [[a|e|] s']; cbn [fst snd] in *; [apply Hk|done|done].
Qed.
Lemma calm_after {S A B} (m : M S A) (k : A → M S (outcome B)) :
  (∀ a, calm (k a)) → calm (x ← m; k x).
Proof. intros Hk s. apply Hk. Qed.
Lemma calm_each {S X} (f : X → M S (outcome unit)) l : (∀ x, calm (f x)) → calm (try_each f l).
Proof. intros Hf. induction l; simpl; [apply calm_return|by apply calm_bind]. Qed.
Lemma calm_collect {S A} (m : M S (outcome A)) n : calm m → calm (collect m n).
Proof.
  intros Hm. induction n; simpl; [apply calm_return|].
  apply calm_bind; [done|intros a]. apply calm_bind; [done|intros l]. apply calm_return.
Qed.
Lemma calm_on_rng {A} (m : M rand_state (outcome A)) : calm m → calm (on_rng m).
Proof. intros Hm s. unfold on_rng. specialize (Hm (rng s)). by destruct (m (rng s)). Qed.

Lemma calm_returns {A} (m : M rand_state (outcome A)) : returns m → calm m.
Proof. intros Hm g. by destruct (Hm g) as (a & g' & ->). Qed.
Lemma calm_draw maxPage : 0 < i64 (Z.of_N maxPage) → calm (draw_page maxPage).
Proof. intros H. by apply calm_returns, draw_page_returns. Qed.

Lemma calm_step pattern pid page w : calm (step_access pattern pid page w).
Proof. apply calm_after. intros [[]|e]; [|apply calm_fail]. apply calm_after. intros _. apply calm_return. Qed.

Lemma calm_sequential pid start count w : calm (SimulateSequentialAccess pid start count w).
Proof. apply calm_each. intros i. apply calm_step. Qed.
Lemma calm_random pid maxPage count ratio :
  0 < i64 (Z.of_N maxPage) → calm (SimulateRandomAccess pid maxPage count ratio).
Proof.
  intros H. apply calm_each. intros _. apply calm_bind; [by apply calm_on_rng, calm_draw|intros page].
  apply calm_after. intros w. apply calm_step.
Qed.
Lemma calm_locality_page ws : ws ≠ [] → calm (locality_page ws).
Proof. intros H. by apply calm_returns, locality_page_returns. Qed.
(** Drawing a non-empty working set first. *)
Lemma calm_working_set {B} size (k : list N → M rand_state (outcome B)) :
  size ≠ O → (∀ ws, ws ≠ [] → calm (k ws)) → calm (ws <-! collect (draw_page 1000) size; k ws).
Proof.
  intros Hsize Hk g. unfold bind_outcome, mbind, M_bind.
  destruct (collect_returns (draw_page 1000) size g) as (ws & g' & -> & Hlen); [by apply draw_page_returns|].
  apply Hk. by destruct ws.
Qed.

Lemma calm_locality_round ws ratio : ws ≠ [] → calm (locality_round ws ratio).
Proof.
  intros H. apply calm_bind; [by apply calm_locality_page|intros page]. apply calm_after. intros b. apply calm_return.
Qed.
Lemma calm_random_round maxPage ratio : 0 < i64 (Z.of_N maxPage) → calm (random_round maxPage ratio).
Proof.
  intros H. apply calm_bind; [by apply calm_draw|intros page]. apply calm_after. intros b. apply calm_return.
Qed.

Lemma calm_locality pid size count ratio : calm (SimulateLocalityAccess pid size count ratio).
Proof.
  unfold SimulateLocalityAccess. destruct (N.eqb_spec size 0) as [|Hne]; [apply calm_fail|].
  intros s. unfold bind_outcome, mbind, M_bind, on_rng at 1.
  destruct (collect_returns (draw_page 1000) (N.to_nat size) (rng s)) as (ws & g' & -> & Hlen);
    [by apply draw_page_returns|]. cbn [fst snd].
  apply calm_each. intros _.
  apply calm_bind; [apply calm_on_rng, calm_locality_page; destruct ws; [simpl in Hlen; lia|done]|intros page].
  apply calm_after. intros w. apply calm_step.
Qed.
Lemma calm_looping pid size count ratio : calm (SimulateLoopingAccess pid size count ratio).
Proof. apply calm_each. intros _. apply calm_each. intros i. apply calm_after. intros w. apply calm_step. Qed.

Lemma calm_create name priority virtualPages : calm (create name priority virtualPages).
Proof.
  apply calm_after. intros [p|e]; [|apply calm_fail]. apply calm_bind; [apply calm_return|]. by intros a s.
Qed.
Lemma calm_fork parentID : calm (fork parentID).
Proof.
  apply calm_after. intros [p|e]; [|apply calm_fail]. apply calm_bind; [apply calm_return|]. by intros a s.
Qed.

Create HintDb calm.
Hint Resolve calm_return calm_fail calm_sequential calm_random calm_locality calm_looping
  calm_create calm_fork calm_random_round calm_locality_round calm_collect : calm.
Hint Extern 1 (_ < i64 _) => reflexivity : calm.

Lemma calm_dispatch scenario : calm (dispatch scenario).
Proof.
  unfold dispatch. repeat case_match;
    unfold runSequentialScenario, runRandomScenario, runLocalityScenario, runLoopingScenario,
      runMixedScenario, runForkCoWScenario, runThrashingScenario;
    repeat (apply calm_bind; [by auto with calm|intros ?]); by auto with calm.
Qed.

Lemma calm_precompute scenario : calm (precompute scenario).
Proof.
  unfold precompute. repeat case_match; [apply calm_return| | |apply calm_return| | | |apply calm_fail].
  - by apply calm_collect, calm_random_round.
  - apply calm_working_set; [done|]. intros ws Hws. by apply calm_collect, calm_locality_round.
  - apply calm_bind; [by apply calm_collect, calm_random_round|intros random].
    apply calm_working_set; [done|]. intros ws Hws.
    apply calm_bind; [by apply calm_collect, calm_locality_round|intros l]. apply calm_return.
  - unfold precomputeForkCoWAccesses.
    repeat (apply calm_bind; [by apply calm_collect, calm_random_round|intros ?]). apply calm_return.
  - by apply calm_collect, calm_random_round.
Qed.

Lemma calm_prepare scenario : calm (prepare scenario).
Proof.
  apply calm_after. intros name. destruct (_ || _); [|apply calm_return].
  apply calm_bind; [intros s; apply calm_precompute|intros l]. apply calm_after. intros _. apply calm_return.
Qed.

(** [RunScenario] always returns, and a comparison reports what its runs returned. *)
Lemma RunScenario_returns scenario s : ∃ r, (RunScenario scenario s).1 = Return r.
Proof.
  unfold RunScenario, mbind, M_bind. set (s1 := (now s).2). pose proof (calm_prepare scenario s1) as Hp.
  destruct (prepare scenario s1) as [[u|e|] s2]; cbn [fst snd] in *; [|by eexists|done].
  pose proof (calm_dispatch scenario s2) as Hd.
  destruct (dispatch scenario s2) as [[v|e|] s3]; cbn [fst snd] in *; [..|done].
  - destruct (finish scenario _ None s3) as [r s4]. by eexists.
  - destruct (finish scenario _ (Some e) s3) as [r s4]. by eexists.
Qed.

Lemma timed_run_returns scenario s : ∃ r, (timed_run scenario s).1 = Return r.
Proof.
  unfold timed_run, bind_outcome, mbind, M_bind. set (s1 := (now s).2).
  destruct (RunScenario_returns scenario s1) as [r Hr].
  destruct (RunScenario scenario s1) as [o s2]. cbn [fst snd] in *. subst o.
  destruct r.2; [by eexists|]. by destruct (on_pm _ _) as [m s3]; eexists.
Qed.

Lemma sweep_returns {C R} (run : C → M nat (outcome (option (MetricsSnapshot.t * Z))))
    (result : C → MetricsSnapshot.t → Z → R) cs t0 :
  (∀ c t, ∃ r, (run c t).1 = Return r) → ∃ rs, (sweep run result cs t0).1 = Return rs.
Proof.
  intros Hrun. revert t0. induction cs as [|c cs IH]; intros t0; [by eexists|]. simpl.
  unfold bind_outcome, mbind, M_bind. destruct (Hrun c t0) as [r Hr].
  destruct (run c t0) as [o t1]. cbn [fst snd] in *. subst o.
  destruct (IH t1) as [rs Hrs]. destruct (sweep run result cs t1) as [o t2]. cbn [fst snd] in *. subst o. by eexists.
Qed.

Lemma fresh_run_returns seed scenario numFrames tlbSize ty t0 :
  ∃ r, (fresh_run seed scenario numFrames tlbSize ty t0).1 = Return r.
Proof.
  unfold fresh_run. destruct (timed_run_returns scenario (fresh seed (MM.NewMemoryManager numFrames tlbSize ty t0))) as [r Hr].
  destruct (timed_run scenario _) as [o s]. exists r. by subst.
Qed.

Lemma CompareAlgorithms_returns scenario numFrames tlbSize (s : Sim.t) t0 :
  ∃ rs, (CompareAlgorithms scenario numFrames tlbSize s t0).1 = Return rs.
Proof.
  unfold CompareAlgorithms, bind_outcome, mbind, M_bind.
  destruct (sweep_returns (fresh_run (seed s) scenario numFrames tlbSize) algorithm_result allAlgos t0) as [rs Hrs].
  { intros ty t. apply fresh_run_returns. }
  destruct (sweep _ _ _ t0) as [o t1]. cbn [fst snd] in *. subst o. by eexists.
Qed.

Lemma CompareFrameCounts_returns scenario algName frameCounts tlbSize (s : Sim.t) t0 :
  match ParseAlgorithmType algName with
  | Some _ => ∃ rs, (CompareFrameCounts scenario algName frameCounts tlbSize s t0).1 = Return rs
  | None => (CompareFrameCounts scenario algName frameCounts tlbSize s t0) = (Fail (ErrUnknownAlgorithm algName), t0)
  end.
Proof.
  assert (∀ ty, ∃ rs : list FrameCountResult.t, (sweep (λ fc, fresh_run (seed s) scenario fc tlbSize ty)
    (frame_count_result algName) frameCounts t0).1 = Return rs) as Hs.
  { intros ty. apply sweep_returns. intros fc t. apply fresh_run_returns. }
  unfold CompareFrameCounts, parseAlgorithmName, ParseAlgorithmType.
  repeat case_match; simplify_eq; done.
Qed.
End no_panic.

(** ** Calls that leave the registry of processes alone *)

Section quiet.
Context `{Env : GoEnv} `{Rand : GoRand}.
Variable n : Z.

#[local] Instance same_registry_trans : PreOrder same_registry.
Proof. split; [done|]. unfold same_registry. intros s1 s2 s3. congruence. Qed.

Definition quiet_mm {A} (m : M MM.t A) : Prop := keeps n (λ _, True) m ∧ related same_registry m.

Lemma quiet_mm_heap {A} (m : M heap A) : related same_frames m → quiet_mm (MM.on_heap m).
Proof. intros H. split; [by apply keeps_on_heap|]. intros s. apply counts_registry, counts_on_heap. Qed.
Lemma quiet_range_map {K V} `{Countable K} (g : gmap K V) : quiet_mm (MM.on_heap (range_map g)).
Proof. apply quiet_mm_heap, related_range_map. Qed.
Lemma quiet_mm_now : quiet_mm MM.now.
Proof. split; [apply keeps_now|]. intros s. apply counts_registry, counts_now. Qed.
Lemma quiet_GetMetrics : quiet_mm MM.GetMetrics.
Proof. destruct (hushed_GetMetrics n) as (? & ? & _). done. Qed.
Lemma quiet_mm_load p : quiet_mm (MM.on_heap (load p)).
Proof. apply quiet_mm_heap. by intros h. Qed.
Lemma quiet_worker : quiet_mm MM.eventWorker_step.
Proof.
  split; [apply keeps_eventWorker|]. intros s. unfold MM.eventWorker_step. by destruct (MM.eventCh s).
Qed.
Lemma quiet_SetAlgorithm ty : quiet_mm (MM.SetAlgorithm ty).
Proof. split; [apply keeps_SetAlgorithm|by intros s]. Qed.
Lemma quiet_EnableNuma b : quiet_mm (MM.EnableNuma b).
Proof. split; [apply keeps_EnableNuma|]. intros s. unfold MM.EnableNuma. cbn. by case_match. Qed.
Lemma quiet_EnableCompression b : quiet_mm (MM.EnableCompression b).
Proof. split; [apply keeps_EnableCompression|by intros s]. Qed.
Lemma quiet_EnableClustering b : quiet_mm (MM.EnableClustering b).
Proof. split; [apply keeps_EnableClustering|by intros s]. Qed.
Lemma quiet_Close : quiet_mm MM.Close.
Proof. split; [apply keeps_Close|by intros s]. Qed.
Lemma quiet_env {A} (m : M nat A) :
  quiet_mm (MM.on_heap (λ h, let '(a, k) := m (tick h) in (a, h <| tick := k |>))).
Proof. apply quiet_mm_heap. intros h. destruct (m (tick h)). by apply same_frames_eq. Qed.
Lemma quiet_GetHugePages pid : quiet_mm (MM.GetHugePages pid).
Proof.
  split; [apply keeps_GetHugePages|]. intros s. unfold MM.GetHugePages. rewrite run_get_st.
  destruct (MM.hugePages s !! pid) as [m|]; [|done]. rewrite run_on_heap. by destruct (range_map m _).
Qed.

Lemma quiet_MapHugePage pid idx : quiet_mm (MM.MapHugePage pid idx).
Proof.
  split; [eapply keeps_weaken, keeps_MapHugePage; done|].
  unfold MM.MapHugePage. destruct (decide _); [apply related_ret, _|].
  apply related_bind; [apply _|by intros s|intros s0].
  destruct (MM.pageTables s0 !! pid); [|apply related_ret, _].
  apply related_bind; [apply _|intros s; apply counts_registry, counts_allocate|intros r].
  apply related_bind; [apply _| |intros r'].
  - destruct r; [apply related_ret, _|]. intros s. apply counts_registry, counts_take_frame;
      [apply counts_wrap, counts_select_used|apply counts_evictPage].
  - destruct r' as [frame|e]; [|apply related_ret, _].
    apply related_bind; [apply _|intros s; apply counts_registry, counts_on_heap|intros f].
    do 2 (apply related_bind; [apply _|by intros s|intros _]).
    apply related_bind; [apply _|intros s; apply counts_registry, counts_alg_fault|intros _].
    apply related_bind; [apply _|by intros s|intros _].
    apply related_bind; [apply _|intros s; apply counts_registry, counts_emitEvent|intros _]. apply related_ret, _.
Qed.
(** With frames, a huge page of a registered process can always be mapped. *)
Lemma MapHugePage_ok pid idx (s : MM.t) :
  0 < n → wf n s → is_Some (MM.pageTables s !! pid) → (idx ≤ 2 ^ 43 - 1)%N →
  (MM.MapHugePage pid idx s).1.2 = None.
Proof.
  intros Hn Hs [pt Hpt] Hidx. unfold MM.MapHugePage. rewrite decide_False by lia.
  rewrite run_get_st, Hpt. cbv zeta.
  match goal with |- (?m s).1.2 = None => enough (triple (wf n) m (λ r _, r.2 = None)) as H by exact (H s Hs) end.
  eapply triple_bind; [apply allocateFrameForPage_spec|]. intros r.
  eapply (triple_bind _ _ _ (λ r s, wf n s ∧ res_frame n r)).
  - destruct r as [p|e]; [by apply triple_ret|].
    apply take_frame_spec; [apply wrap_err_spec; [apply select_used_spec|done]|apply keeps_evictPage].
  - clear r. intros [p|e] s' [_ Hp]; [done|]. simpl in Hp. lia.
Qed.

(** *** The same seen from the process manager, the monitor and the server *)

Definition same_pm : relation PM.t := λ s s', agrees n s →
  agrees n s' ∧ PM.processes s' = PM.processes s ∧ PM.nextPID s' = PM.nextPID s.
#[export] Instance same_pm_preorder : PreOrder same_pm.
Proof.
  unfold same_pm. split; [done|]. intros s1 s2 s3 H12 H23 H1.
  destruct (H12 H1) as (H2 & E1 & E2). destruct (H23 H2) as (H3 & E3 & E4). split_and!; [done|congruence..].
Qed.
Definition same_mon : relation Mon.t := λ s s', same_pm (Mon.processManager s) (Mon.processManager s').
#[export] Instance same_mon_preorder : PreOrder same_mon.
Proof. unfold same_mon. split; [by intros s|]. intros s1 s2 s3. apply transitivity. Qed.

Lemma quiet_on_mm {A} (m : M MM.t A) : quiet_mm m → related same_pm (PM.on_mm m).
Proof.
  intros [Hk Hr] s Ha. unfold PM.on_mm. specialize (Hk _ (agrees_wf _ _ Ha)) as [Hw _].
  specialize (Hr (PM.memoryManager s)). destruct (m (PM.memoryManager s)) as [a mm]. cbn [snd] in *.
  split; [by apply agrees_mm|done].
Qed.
Lemma quiet_GetAllProcesses : related same_pm PM.GetAllProcesses.
Proof.
  unfold PM.GetAllProcesses. apply related_bind; [apply _|by intros s|intros s0].
  apply related_bind; [apply _|apply quiet_on_mm, quiet_range_map|intros l; apply related_ret, _].
Qed.

Lemma quiet_on_pm {A} (m : M PM.t A) : related same_pm m → related same_mon (Mon.on_pm m).
Proof. intros Hm s. specialize (Hm (Mon.processManager s)). unfold Mon.on_pm. by destruct (m _). Qed.
Lemma quiet_mon_mm {A} (m : M MM.t A) : quiet_mm m → related same_mon (Mon.on_mm m).
Proof. intros Hm. by apply quiet_on_pm, quiet_on_mm. Qed.
Lemma quiet_mon_modify g :
  (∀ s, Mon.processManager (g s) = Mon.processManager s) → related same_mon (modify g).
Proof. intros Hg s. unfold same_mon. cbn. by rewrite Hg. Qed.

Lemma quiet_handleEvent ty data : related same_mon (Mon.handleEvent ty data).
Proof.
  unfold Mon.handleEvent, Mon.now, Mon.subscribed, Mon.add_event.
  apply related_bind; [apply _|apply quiet_mon_mm, quiet_mm_now|intros time].
  apply related_bind; [apply _|by apply quiet_mon_modify|intros _].
  apply related_bind; [apply _| |intros chs].
  - apply related_bind; [apply _|by intros s|intros s].
    apply related_bind; [apply _|apply quiet_mon_mm, quiet_range_map|intros l; apply related_ret, _].
  - apply related_for_each; [apply _|]. intros ch. by apply quiet_mon_modify.
Qed.

Lemma quiet_event_round : related same_mon Mon.event_round.
Proof.
  unfold Mon.event_round. apply related_bind; [apply _|apply quiet_mon_mm, quiet_worker|].
  intros [[e []]|]; [apply quiet_handleEvent|apply related_ret, _..].
Qed.

Lemma quiet_CaptureSnapshot : related same_mon Mon.CaptureSnapshot.
Proof.
  unfold Mon.CaptureSnapshot, Mon.now, Mon.add_snapshot.
  apply related_bind; [apply _|apply quiet_mon_mm, quiet_mm_now|intros time].
  apply related_bind; [apply _|apply quiet_mon_mm, quiet_GetMetrics|intros m].
  apply related_bind; [apply _|by apply quiet_mon_modify|intros _].
  unfold Mon.detectThrashing. apply related_bind; [apply _|by intros s|intros s].
  destruct (_ <=? _); [apply related_ret, _|]. destruct (Mon.window_rate _ _) as [rate|]; [|apply related_ret, _].
  apply related_bind; [apply _| |intros rising; apply related_when, quiet_handleEvent; apply _].
  unfold Mon.update_thrashing, Mon.now. apply related_bind; [apply _|by intros s'|intros s'].
  apply related_bind; [apply _| |intros _; apply related_gets, _].
  destruct (f64_leb _ _); [|by apply quiet_mon_modify]. apply related_when; [apply _|].
  apply related_bind; [apply _|by apply quiet_mon_modify|intros _].
  apply related_bind; [apply _|apply quiet_mon_mm, quiet_mm_now|intros time']. by apply quiet_mon_modify.
Qed.

Lemma quiet_capture_tick i : related same_mon (Mon.capture_tick i).
Proof.
  unfold Mon.capture_tick. apply related_bind; [apply _|by intros s|intros s].
  destruct (Mon.captures s !! i) as [[]|]; [apply quiet_CaptureSnapshot|apply related_ret, _..].
Qed.

Lemma quiet_GetSystemStatus : related same_mon Mon.GetSystemStatus.
Proof.
  unfold Mon.GetSystemStatus, Mon.now. apply related_bind; [apply _|apply quiet_mon_mm, quiet_GetMetrics|intros m].
  apply related_bind; [apply _|apply quiet_on_pm, quiet_GetAllProcesses|intros l].
  apply related_bind; [apply _|apply quiet_mon_mm, quiet_mm_now|intros time; apply related_gets, _].
Qed.
Lemma quiet_GetProcessDetails : related same_mon Mon.GetProcessDetails.
Proof.
  unfold Mon.GetProcessDetails.
  apply related_bind; [apply _|apply quiet_on_pm, quiet_GetAllProcesses|intros l; apply related_gets, _].
Qed.
Lemma quiet_frame_details ps : related same_mon (Mon.frame_details ps).
Proof.
  induction ps as [|p ps IH]; simpl; [apply related_ret, _|].
  apply related_bind; [apply _| |intros d; apply related_bind; [apply _|apply IH|intros ds; apply related_ret, _]].
  unfold Mon.frame_detail, Mon.now. apply related_bind; [apply _|apply quiet_mon_mm, quiet_mm_load|intros f].
  apply related_bind; [apply _| |intros age; apply related_ret, _].
  destruct (_ || _); [apply related_ret, _|].
  apply related_bind; [apply _|apply quiet_mon_mm, quiet_mm_now|intros time; apply related_ret, _].
Qed.
Lemma quiet_GetFrameDetails : related same_mon Mon.GetFrameDetails.
Proof.
  unfold Mon.GetFrameDetails. apply related_bind; [apply _|by intros s|intros s]. apply quiet_frame_details.
Qed.
Lemma quiet_ClearHistory : related same_mon Mon.ClearHistory.
Proof.
  unfold Mon.ClearHistory. do 2 (apply related_bind; [apply _|by apply quiet_mon_modify|intros _]).
  by apply quiet_mon_modify.
Qed.

(** On the server, with the state of the broadcast channel. *)
Definition flags_agree (h : Hub.t message) : Prop :=
  Hub.broadcastClosed h = GoChan.closed (Hub.broadcast h).
Definition same_server : relation Server.t := λ s s',
  same_pm (Server.pm_of s) (Server.pm_of s') ∧ (flags_agree (Server.hub s) → flags_agree (Server.hub s')) ∧
  Server.simulationMu s' = Server.simulationMu s.
#[export] Instance same_server_preorder : PreOrder same_server.
Proof.
  unfold same_server. split; [by intros s|].
  intros s1 s2 s3 (H1 & H2 & H3) (G1 & G2 & G3). split_and!; [by etrans|auto|congruence].
Qed.

Lemma quiet_on_mon {A} (m : M Mon.t A) : related same_mon m → related same_server (Server.on_mon m).
Proof.
  intros Hm s. specialize (Hm (Server.monitor s)). unfold Server.on_mon.
  by destruct (m (Server.monitor s)).
Qed.
Lemma quiet_server_mm {A} (m : M MM.t A) : quiet_mm m → related same_server (Server.on_mm m).
Proof. intros Hm. by apply quiet_on_mon, quiet_mon_mm. Qed.
End quiet.
