(* ===== verification/SimCalls.v ===== *)
(** * A simulation as a sequence of calls

    Everything a scenario does to the process manager and the memory manager is
    a sequence of calls of their methods, each under the managers' own locks; a
    server can be interrupted between any two of them. *)

From S2P Require Import Prelude Models Heap FrameTable Policy Algorithms.
From S2P Require Import Manager ManagerInv ManagerOps ManagerSteps ManagerCounts ManagerCow ManagerProps.
From S2P Require Import ProcMan ProcManProps Simulator SimulatorSteps SimulatorRuns SimulatorProps Server ServerSteps.
Local Open Scope Z_scope.

Section calls.
Context `{Env : GoEnv} `{Rand : GoRand}.
Implicit Types (n : Z) (s : Sim.t) (pm : PM.t).
Import Sim.

Inductive sim_call : Type :=
| SimCreate (name : string) (priority : Z) (virtualPages : N)
| SimFork (parentID : string)
| SimAccess (pid : string) (page : N) (write : bool)
| SimTime                                  (* [time.Now] *)
| SimMetrics                               (* [GetMetrics] *)
| SimFuture (accesses : list N).           (* [SetFutureAccesses] *)

Definition sim_run (c : sim_call) : M PM.t unit :=
  match c with
  | SimCreate name priority pages => _ ← PM.CreateProcess name priority pages; mret ()
  | SimFork parentID => _ ← PM.ForkProcess parentID; mret ()
  | SimAccess pid page write => _ ← PM.AccessMemory pid page write; mret ()
  | SimTime => _ ← PM.on_mm MM.now; mret ()
  | SimMetrics => _ ← PM.on_mm MM.GetMetrics; mret ()
  | SimFuture accesses => PM.on_mm (MM.SetFutureAccesses accesses)
  end.
Definition sim_calls (cs : list sim_call) (pm : PM.t) : PM.t := (for_each sim_run cs pm).2.

Lemma sim_calls_app cs1 cs2 pm : sim_calls (cs1 ++ cs2) pm = sim_calls cs2 (sim_calls cs1 pm).
Proof.
  revert pm. induction cs1 as [|c cs1 IH]; intros pm; [done|].
  unfold sim_calls in *. cbn [app for_each]. unfold mbind, M_bind. cbn [fst snd]. apply IH.
Qed.

(** ** Every call keeps the two managers in agreement *)

Lemma quiet_SetFutureAccesses n accs : quiet_mm n (MM.SetFutureAccesses accs).
Proof. split; [apply keeps_SetFutureAccesses|]. intros mm. unfold MM.SetFutureAccesses. cbn. by case_match. Qed.

Lemma sim_run_spec n c pm :
  0 < n → agrees n pm → (PM.nextPID pm + 1 < 2 ^ 64)%N →
  agrees n (sim_run c pm).2 ∧ (PM.nextPID (sim_run c pm).2 ≤ N.max 1 (PM.nextPID pm + 1))%N.
Proof.
  intros Hn Ha Hk.
  assert (∀ A (m : M MM.t A), quiet_mm n m → agrees n (PM.on_mm m pm).2 ∧
    (PM.nextPID (PM.on_mm m pm).2 ≤ N.max 1 (PM.nextPID pm + 1))%N) as Hq.
  { intros A m Hm. destruct (quiet_on_mm n m Hm pm Ha) as (H1 & _ & H2). split; [done|lia]. }
  destruct c; cbn [sim_run].
  - exact (pm_run_spec n (PMCreate name priority virtualPages) pm Hn Ha Hk).
  - exact (pm_run_spec n (PMFork parentID) pm Hn Ha Hk).
  - exact (pm_run_spec n (PMAccess pid page write) pm Hn Ha Hk).
  - apply (Hq _ MM.now), quiet_mm_now.
  - apply (Hq _ MM.GetMetrics), quiet_GetMetrics.
  - apply Hq, quiet_SetFutureAccesses.
Qed.

(** ** What a scenario does is a sequence of them *)

Definition by_calls : relation Sim.t := λ s s',
  ∃ cs, processManager s' = sim_calls cs (processManager s).
#[local] Instance by_calls_preorder : PreOrder by_calls.
Proof.
  split; [by exists []|]. intros s1 s2 s3 [cs1 H1] [cs2 H2]. exists (cs1 ++ cs2). by rewrite H2, H1, sim_calls_app.
Qed.

Lemma calls_rng {A} (m : M rand_state A) : related by_calls (on_rng m).
Proof. intros s. exists []. unfold on_rng. by destruct (m (rng s)). Qed.
Lemma calls_gets {A} (f : Sim.t → A) : related by_calls (gets f).
Proof. intros s. by exists []. Qed.
Lemma calls_modify g : (∀ s, processManager (g s) = processManager s) → related by_calls (modify g).
Proof. intros Hg s. exists []. exact (Hg s). Qed.
Lemma calls_one {A} (m : M PM.t A) c : (∀ pm, (sim_run c pm).2 = (m pm).2) → related by_calls (on_pm m).
Proof.
  intros Hm s. exists [c]. specialize (Hm (processManager s)). unfold on_pm, sim_calls. cbn [for_each].
  unfold mbind, M_bind. cbn [fst snd]. destruct (m (processManager s)) as [a pm]. by rewrite Hm.
Qed.
Lemma calls_bind {A B} (m : M Sim.t A) (k : A → M Sim.t B) :
  related by_calls m → (∀ a, related by_calls (k a)) → related by_calls (x ← m; k x).
Proof. apply related_bind, _. Qed.
Lemma calls_try {A B} (m : M Sim.t (outcome A)) (k : A → M Sim.t (outcome B)) :
  related by_calls m → (∀ a, related by_calls (k a)) → related by_calls (x <-! m; k x).
Proof. intros Hm Hk. apply calls_bind; [done|]. intros [a|e|]; [apply Hk|apply related_ret, _..]. Qed.
Lemma calls_ret {A} (a : A) : related by_calls (mret a).
Proof. apply related_ret, _. Qed.
Lemma calls_each {X} (f : X → M Sim.t (outcome unit)) l :
  (∀ x, related by_calls (f x)) → related by_calls (try_each f l).
Proof. intros Hf. induction l; simpl; [apply calls_ret|by apply calls_try]. Qed.

Lemma calls_now : related by_calls now.
Proof. by apply (calls_one _ SimTime). Qed.
Lemma calls_access pid page write : related by_calls (accessMemory pid page write).
Proof.
  apply calls_bind; [apply calls_modify; intros s; by destruct (recording s)|intros _].
  by apply (calls_one _ (SimAccess pid page write)).
Qed.
Lemma calls_step pattern pid page write : related by_calls (step_access pattern pid page write).
Proof.
  apply calls_bind; [apply calls_access|]. intros [[]|e]; [apply calls_bind; [apply calls_ret|intros _]|]; apply calls_ret.
Qed.
Lemma calls_create name priority pages : related by_calls (create name priority pages).
Proof.
  apply calls_bind; [by apply (calls_one _ (SimCreate name priority pages))|intros r].
  apply calls_try; [apply calls_ret|intros p; apply calls_gets].
Qed.
Lemma calls_fork parentID : related by_calls (fork parentID).
Proof.
  apply calls_bind; [by apply (calls_one _ (SimFork parentID))|intros r].
  apply calls_try; [apply calls_ret|intros p; apply calls_gets].
Qed.

Lemma calls_sequential pid start count write : related by_calls (SimulateSequentialAccess pid start count write).
Proof. apply calls_each. intros i. apply calls_step. Qed.
Lemma calls_random pid maxPage count ratio : related by_calls (SimulateRandomAccess pid maxPage count ratio).
Proof.
  apply calls_each. intros _. apply calls_try; [apply calls_rng|intros page].
  apply calls_bind; [apply calls_rng|intros write; apply calls_step].
Qed.
Lemma calls_locality pid size count ratio : related by_calls (SimulateLocalityAccess pid size count ratio).
Proof.
  unfold SimulateLocalityAccess. destruct (_ =? _)%N; [apply calls_ret|].
  apply calls_try; [apply calls_rng|intros ws]. apply calls_each. intros _.
  apply calls_try; [apply calls_rng|intros page]. apply calls_bind; [apply calls_rng|intros write; apply calls_step].
Qed.
Lemma calls_looping pid size count ratio : related by_calls (SimulateLoopingAccess pid size count ratio).
Proof.
  apply calls_each. intros _. apply calls_each. intros i. apply calls_bind; [apply calls_rng|intros write; apply calls_step].
Qed.

Create HintDb calls.
Hint Resolve calls_ret calls_sequential calls_random calls_locality calls_looping calls_create calls_fork calls_now : calls.

Lemma calls_dispatch scenario : related by_calls (dispatch scenario).
Proof.
  unfold dispatch. repeat case_match;
    unfold runSequentialScenario, runRandomScenario, runLocalityScenario, runLoopingScenario,
      runMixedScenario, runForkCoWScenario, runThrashingScenario;
    repeat (apply calls_try; [by auto with calls|intros ?]); by auto with calls.
Qed.
Lemma calls_prepare scenario : related by_calls (prepare scenario).
Proof.
  apply calls_bind; [apply calls_gets|intros name]. destruct (_ || _); [|apply calls_ret].
  apply calls_try; [apply calls_gets|intros accs].
  apply calls_bind; [|intros _; apply calls_ret]. by apply (calls_one _ (SimFuture accs)).
Qed.
Lemma calls_finish scenario start err : related by_calls (finish scenario start err).
Proof.
  apply calls_bind; [apply calls_now|intros stop].
  apply calls_bind; [by apply (calls_one _ SimMetrics)|intros m; apply calls_ret].
Qed.
Lemma calls_RunScenario scenario : related by_calls (RunScenario scenario).
Proof.
  apply calls_bind; [apply calls_now|intros start]. apply calls_bind; [apply calls_prepare|].
  intros [u|e|]; [|apply calls_ret..]. apply calls_bind; [apply calls_dispatch|].
  intros [v|e|]; [..|apply calls_ret]; (apply calls_bind; [apply calls_finish|intros r; apply calls_ret]).
Qed.
End calls.
