(* ===== verification/ServerProps.v ===== *)
(** * Properties of the API server

    Every request is answered with the status its input and the registered
    processes determine, and a refused request changes nothing; at most one
    simulation runs at a time; the frame counts of a sweep; the origins. *)

From S2P Require Import Prelude Models Heap FrameTable Policy Policies Algorithms Tlb PageTable MultiLevel.
From S2P Require Import Advanced Cow Manager ManagerInv ManagerOps ManagerSteps ManagerCounts.
From S2P Require Import ManagerEffects ManagerCoherence ManagerRuns.
From S2P Require Import ProcMan ProcManProps Simulator SimulatorSteps SimulatorRuns SimulatorProps Hub HubMoves Monitor Server ServerSteps.
Local Open Scope Z_scope.

Section answers.
Context `{Env : GoEnv} `{Rand : GoRand}.
Implicit Types (n : Z) (s : Server.t) (q : Server.request) (pid : string).
Import Server.

(** ** The status of an answer *)

Definition known s pid : bool := bool_decide (is_Some (PM.processes (pm_of s) !! pid)).

Definition valid_process (b : CreateReq.t) : bool :=
  negb (String.eqb (CreateReq.Name b) "") && (0 <=? CreateReq.Priority b) && (CreateReq.Priority b <=? 10) &&
  (1 <=? CreateReq.VirtualPages b)%N && (CreateReq.VirtualPages b <=? 100000)%N.

(** 400 for a body that does not decode or is not accepted. *)
Definition accepted {B} (req : option B) (valid : B → bool) (code : B → Z) : Z :=
  match req with
  | None => StatusBadRequest
  | Some b => if valid b then code b else StatusBadRequest
  end.
Definition found s pid (code : Z) : Z := if known s pid then StatusOK else code.

Definition expected q s : Z :=
  match q with
  | PostProcess b => accepted b valid_process (λ _, StatusCreated)
  | GetProcess pid | GetPages pid | GetHugePages pid | GetWorkingSet pid | GetMPT pid =>
      found s pid StatusNotFound
  | DeleteProcess pid => found s pid StatusInternalServerError
  | PostFork pid => if known s pid then StatusCreated else StatusInternalServerError
  | PostHugePage pid b =>
      accepted b (λ idx, (idx <=? 2 ^ 43 - 1)%N)
        (λ _, if known s pid then StatusCreated else StatusInternalServerError)
  | PostAccess b => accepted b (λ _, true) (λ b, found s (AccessReq.ProcessID b) StatusInternalServerError)
  | PostAlgorithm b => accepted b (λ name, bool_decide (name ∈ ValidAlgorithmNames)) (λ _, StatusOK)
  | PostRun b =>
      accepted b (λ sc, negb (String.eqb sc "")) (λ _, if simulationMu s then StatusConflict else StatusAccepted)
  | PostCompare b => accepted b (λ b, CompareReq.Frames b <=? 65536) (λ _, StatusOK)
  | PostSweep b =>
      accepted b (λ _, true)
        (λ b, if bool_decide (SweepReq.Algorithm b ∈ "" :: ValidAlgorithmNames) then StatusOK
              else StatusInternalServerError)
  | PostFeature b =>
      accepted b (λ b, bool_decide (FeatureReq.Feature b ∈ ["numa"; "compression"; "clustering"])) (λ _, StatusOK)
  | _ => StatusOK
  end.

(** ** The invariant *)

(** The two managers agree, the flag tells whether the broadcast channel is
    closed, and the lock of the simulations is held by the one that is to run. *)
Record live n s : Prop := {
  live_frames : 0 < n;
  live_agrees : agrees n (pm_of s);
  live_flags : flags_agree (hub s);
  live_lock : length (simulations s) = Nat.b2n (simulationMu s);
}.

Definition next s : N := PM.nextPID (pm_of s).

Definition answered n q s : Prop :=
  let '(r, s') := SetupRoutes q s in
  live n s' ∧ (next s' ≤ N.max 1 (next s + 1))%N ∧
  ∃ resp, r = Return resp ∧ Response.status resp = expected q s ∧ (400 ≤ Response.status resp → s' = s).

(** Nothing but the registry, the flags and the lock matters. *)
Lemma live_same n s s' :
  live n s → same_server n s s' → simulations s' = simulations s → live n s' ∧ next s' = next s.
Proof.
  intros [H1 H2 H3 H4] (G1 & G2 & G3) G4. destruct (G1 H2) as (Ha & _ & Hn). split; [|done].
  split; [done|done|auto|congruence].
Qed.

(** Calls of the monitor do not touch the simulations. *)
Lemma on_mon_sims {A} (m : M Mon.t A) s : simulations (on_mon m s).2 = simulations s.
Proof. unfold on_mon. by destruct (m (monitor s)). Qed.

Lemma answer_here n q s st b :
  live n s → SetupRoutes q s = (Return (Response.mk st b), s) → st = expected q s → answered n q s.
Proof.
  intros Hs Hq He. unfold answered. rewrite Hq. split_and!; [done|lia|]. eexists. split_and!; [done|done|done].
Qed.

Lemma answer_quiet {A} n q s (m : M Mon.t A) (f : A → body) :
  live n s → related (same_mon n) m → SetupRoutes q s = (a ← on_mon m; writeJSON StatusOK (f a)) s →
  expected q s = StatusOK → answered n q s.
Proof.
  intros Hs Hm Hq He. unfold answered. rewrite Hq. unfold mbind, M_bind. cbn [writeJSON mret M_ret].
  destruct (live_same n s (on_mon m s).2 Hs (quiet_on_mon n m Hm s) (on_mon_sims m s)) as [Hl Hn].
  split_and!; [done|lia|]. eexists. split_and!; [done|done|]. cbn. unfold StatusOK. lia.
Qed.

(** [Broadcast] returns: nobody closes the channel in between. *)
Lemma Broadcast_returns m s :
  flags_agree (hub s) → ∃ h, Broadcast m s = (Return (), s <| hub := h |>) ∧ flags_agree h.
Proof.
  unfold flags_agree. intros Hf. unfold Broadcast, on_hub, Hub.Broadcast. rewrite run_gets.
  destruct (Hub.broadcastClosed (hub s)) eqn:Hc; [exists (hub s); split; [by destruct s|congruence]|].
  unfold bind_outcome, mbind, M_bind, Hub.broadcast_send. rewrite run_get_st. unfold GoChan.send. rewrite <- Hf.
  case_bool_decide; [by eexists|]. exists (hub s). split; [by destruct s|congruence].
Qed.

Lemma answer_after_broadcast n q s s1 m st b :
  live n s1 → (next s1 ≤ N.max 1 (next s + 1))%N →
  SetupRoutes q s = (_ <-! Broadcast m; writeJSON st b) s1 → st = expected q s → st < 400 → answered n q s.
Proof.
  intros Hs Hn Hq He Hst. unfold answered. rewrite Hq. destruct (Broadcast_returns m s1 (live_flags _ _ Hs)) as (h & Hb & Hf).
  unfold bind_outcome, mbind, M_bind. rewrite Hb. cbn [fst snd writeJSON mret M_ret].
  split_and!; [by destruct Hs|done|]. eexists. split_and!; [done|done|]. cbn. lia.
Qed.

(** ** The handlers *)

Lemma known_dom {V} n s pid (g : gmap string V) :
  live n s → dom g = dom (MM.processes (mm_of s)) → known s pid = bool_decide (is_Some (g !! pid)).
Proof.
  intros Hs Hd. unfold known. apply bool_decide_ext. rewrite (agrees_same _ _ (live_agrees _ _ Hs)).
  fold (mm_of s). by rewrite <- !elem_of_dom, Hd.
Qed.

Lemma answer_GetProcess n s pid : live n s → answered n (GetProcess pid) s.
Proof.
  intros Hs. destruct (PM.processes (pm_of s) !! pid) as [p|] eqn:Hp.
  - eapply answer_here; [done| |]; cbn; unfold HandleGetProcess, PM.GetProcess; rewrite ?run_get_st, ?Hp; [done|].
    unfold found, known. by rewrite Hp, bool_decide_true by eauto.
  - eapply answer_here; [done| |]; cbn; unfold HandleGetProcess, PM.GetProcess; rewrite ?run_get_st, ?Hp; [done|].
    unfold found, known. by rewrite Hp, bool_decide_false by (by intros []).
Qed.

(** A query of a map that has an entry for each process. *)
Lemma answer_query {V A} n q s pid (g : gmap string V) (m : V → M Mon.t A) (f : A → body) msg :
  live n s → dom g = dom (MM.processes (mm_of s)) → (∀ v, related (same_mon n) (m v)) →
  SetupRoutes q s = match g !! pid with
                    | None => writeError StatusNotFound msg s
                    | Some v => (a ← on_mon (m v); writeJSON StatusOK (f a)) s
                    end →
  expected q s = found s pid StatusNotFound → answered n q s.
Proof.
  intros Hs Hd Hm Hq He. pose proof (known_dom n s pid g Hs Hd) as Hk. unfold found in He.
  destruct (g !! pid) as [v|].
  - rewrite Hk, bool_decide_true in He by eauto. eapply answer_quiet; [done|apply Hm|exact Hq|done].
  - rewrite Hk, bool_decide_false in He by (by intros []). by eapply answer_here.
Qed.

Lemma answer_GetPages n s pid : live n s → answered n (GetPages pid) s.
Proof.
  intros Hs. pose proof (wf_domains _ _ (agrees_wf _ _ (live_agrees _ _ Hs))) as (Hd & _).
  eapply (answer_query n _ s pid (MM.pageTables (mm_of s)) (λ pt, Mon.on_mm (MM.on_heap (PageTable.GetAllPages pt))) BPages);
    [done|done| | |done].
  - intros pt. apply quiet_mon_mm, quiet_mm_heap. unfold PageTable.GetAllPages. apply related_range_map.
  - cbn. unfold HandleGetPageTable, MM.GetPageTable. rewrite run_get_st.
    by destruct (MM.pageTables (mm_of s) !! pid).
Qed.

(** Running a call of one of the managers. *)
Lemma run_server_pm {A B} (m : M PM.t A) (k : A → M t B) s :
  (on_pm m ≫= k) s = k (m (pm_of s)).1
    (s <| monitor ::= λ mon, mon <| Mon.processManager := (m (pm_of s)).2 |> |>).
Proof. unfold on_pm, on_mon, Mon.on_pm, mbind, M_bind, pm_of. by destruct (m _). Qed.
Lemma run_server_mm {A B} (m : M MM.t A) (k : A → M t B) s :
  (on_mm m ≫= k) s = k (m (mm_of s)).1
    (s <| monitor ::= λ mon, mon <| Mon.processManager ::= λ pm, pm <| PM.memoryManager := (m (mm_of s)).2 |> |> |>).
Proof. unfold on_mm. rewrite run_server_pm. unfold PM.on_mm, mm_of. by destruct (m _). Qed.

Lemma set_pm_same s : s <| monitor ::= λ mon, mon <| Mon.processManager := pm_of s |> |> = s.
Proof. unfold pm_of. destruct s as [[] ? ? ? ? ? ? ? ?]. done. Qed.
Lemma set_mm_same s :
  s <| monitor ::= λ mon, mon <| Mon.processManager ::= λ pm, pm <| PM.memoryManager := mm_of s |> |> |> = s.
Proof. unfold mm_of, pm_of. destruct s as [[[] ? ? ? ? ? ? ? ? ? ? ? ? ?] ? ? ? ? ? ? ? ?]. done. Qed.

Lemma set_tick_same s :
  s <| monitor ::= λ mon, mon <| Mon.processManager ::= λ pm, pm <| PM.memoryManager :=
    (mm_of s) <| MM.hp := (MM.hp (mm_of s)) <| tick := tick (MM.hp (mm_of s)) |> |> |> |> |> = s.
Proof.
  assert ((mm_of s) <| MM.hp := (MM.hp (mm_of s)) <| tick := tick (MM.hp (mm_of s)) |> |> = mm_of s) as ->;
    [by destruct (mm_of s) as [[]]|]. apply set_mm_same.
Qed.

Lemma answer_GetHugePages n s pid : live n s → answered n (GetHugePages pid) s.
Proof.
  intros Hs. pose proof (wf_domains _ _ (agrees_wf _ _ (live_agrees _ _ Hs))) as (_ & _ & _ & Hd & _).
  eapply (answer_query n _ s pid (MM.hugePages (mm_of s)) (λ m, Mon.on_mm (MM.on_heap (range_map m)))
    (λ l, BHugePages ((λ kv, (kv.1, kv.2, u64_shl kv.1 21, 2 ^ 21)) <$> l))); [done|done| | |done].
  - intros m. apply quiet_mon_mm, quiet_range_map.
  - cbn [SetupRoutes]. unfold HandleGetHugePages. rewrite run_server_mm. unfold MM.GetHugePages. rewrite run_get_st.
    destruct (MM.hugePages (mm_of s) !! pid) as [m|]; cbn [mret M_ret fst snd]; [|by rewrite set_mm_same].
    rewrite run_on_heap. change (on_mon (Mon.on_mm ?x)) with (on_mm x). rewrite run_server_mm.
    unfold MM.on_heap. by destruct (range_map m (MM.hp (mm_of s))).
Qed.

(** The same for a map whose entry is in the answer. *)
Lemma answer_lookup {V} n q s pid (g : gmap string V) (f : V → body) msg :
  live n s → dom g = dom (MM.processes (mm_of s)) →
  SetupRoutes q s = match g !! pid with
                    | None => writeError StatusNotFound msg s
                    | Some v => writeJSON StatusOK (f v) s
                    end →
  expected q s = found s pid StatusNotFound → answered n q s.
Proof.
  intros Hs Hd Hq He. pose proof (known_dom n s pid g Hs Hd) as Hk. unfold found in He.
  destruct (g !! pid) as [v|].
  - rewrite Hk, bool_decide_true in He by eauto. by eapply answer_here.
  - rewrite Hk, bool_decide_false in He by (by intros []). by eapply answer_here.
Qed.

Lemma answer_GetMPT n s pid : live n s → answered n (GetMPT pid) s.
Proof.
  intros Hs. pose proof (wf_domains _ _ (agrees_wf _ _ (live_agrees _ _ Hs))) as (_ & Hd & _).
  eapply (answer_lookup n _ s pid (MM.multiLevelPT (mm_of s)) (λ m, BEntries (MultiLevelPageTable.WalkPages m)));
    [done|done| |done].
  cbn [SetupRoutes]. unfold HandleGetMultiLevelPageTable, MM.GetMultiLevelPageTable. rewrite run_get_st.
  by destruct (MM.multiLevelPT (mm_of s) !! pid).
Qed.

Lemma answer_GetWorkingSet n s pid : live n s → answered n (GetWorkingSet pid) s.
Proof.
  intros Hs.
  eapply (answer_lookup n _ s pid (MM.processes (mm_of s))
    (λ p, BWorkingSet (match MM.procs (mm_of s) !! p with Some pr => Process.GetWorkingSetSize pr | None => 0 end)
            (MM.workingSetWindow (mm_of s)))); [done|done| |done].
  cbn [SetupRoutes]. unfold HandleGetWorkingSet, MM.GetWorkingSetInfo. rewrite run_get_st.
  by destruct (MM.processes (mm_of s) !! pid).
Qed.

(** Calls of the process manager that succeed, and the broadcast after them. *)
Lemma live_pm n s pm :
  live n s → agrees n pm → live n (s <| monitor ::= λ mon, mon <| Mon.processManager := pm |> |>).
Proof. intros [H1 H2 H3 H4] Ha. by split. Qed.

Lemma answer_DeleteProcess n s pid : live n s → answered n (DeleteProcess pid) s.
Proof.
  intros Hs. pose proof (TerminateProcess_spec n (pm_of s) pid (live_agrees _ _ Hs)) as Ht.
  assert (∀ code, found s pid code = if PM.processes (pm_of s) !! pid is Some _ then StatusOK else code) as Hf.
  { intros code. unfold found, known. by destruct (PM.processes (pm_of s) !! pid). }
  assert (SetupRoutes (DeleteProcess pid) s = HandleTerminateProcess pid s) as Hq by done.
  unfold HandleTerminateProcess in Hq. rewrite run_server_pm in Hq.
  destruct (PM.TerminateProcess pid (pm_of s)) as [r pm]. destruct Ht as (Ha & Hn & Hr). cbn [fst snd] in Hq.
  destruct (PM.processes (pm_of s) !! pid).
  - destruct Hr as [-> _]. eapply answer_after_broadcast; [by apply (live_pm n s pm)| |exact Hq|by cbn; rewrite Hf|done].
    unfold next, pm_of in *. cbn. rewrite Hn. lia.
  - destruct Hr as [-> ->]. rewrite set_pm_same in Hq. eapply answer_here; [done|exact Hq|by cbn; rewrite Hf].
Qed.

Lemma answer_PostFork n s pid : live n s → (next s + 1 < 2 ^ 64)%N → answered n (PostFork pid) s.
Proof.
  intros Hs Hroom. pose proof (ForkProcess_spec n (pm_of s) pid (live_agrees _ _ Hs) Hroom) as Ht.
  assert (known s pid = if PM.processes (pm_of s) !! pid is Some _ then true else false) as Hf.
  { unfold known. by destruct (PM.processes (pm_of s) !! pid). }
  assert (SetupRoutes (PostFork pid) s = HandleForkProcess pid s) as Hq by done.
  unfold HandleForkProcess in Hq. rewrite run_server_pm in Hq.
  destruct (PM.ForkProcess pid (pm_of s)) as [r pm]. cbn [fst snd] in Hq.
  destruct Ht as [Ha Hr].
  destruct (PM.processes (pm_of s) !! pid).
  - destruct Hr as (p & -> & _ & Hn). rewrite run_gets in Hq.
    eapply answer_after_broadcast; [by apply (live_pm n s pm)| |exact Hq|by cbn; rewrite Hf|done].
    unfold next, pm_of in *. cbn. rewrite Hn. lia.
  - destruct Hr as [-> ->]. rewrite set_pm_same in Hq. eapply answer_here; [done|exact Hq|by cbn; rewrite Hf].
Qed.

Lemma answer_PostProcess n s b : live n s → (next s + 1 < 2 ^ 64)%N → answered n (PostProcess b) s.
Proof.
  intros Hs Hroom. destruct b as [b|]; [|by eapply answer_here].
  assert (∀ msg, SetupRoutes (PostProcess (Some b)) s = writeError StatusBadRequest msg s →
    valid_process b = false → answered n (PostProcess (Some b)) s) as Hbad.
  { intros msg Hq Hv. eapply answer_here; [done|exact Hq|]. cbn. by rewrite Hv. }
  assert (∃ m, SetupRoutes (PostProcess (Some b)) s = m s ∧ m = HandleCreateProcess (Some b)) as (m & Hq & Hm) by eauto.
  unfold HandleCreateProcess in Hm. cbn [decoded] in Hm. unfold valid_process in *.
  destruct (String.eqb (CreateReq.Name b) "") eqn:Hname; [by eapply Hbad; [rewrite Hq, Hm|]|].
  destruct ((CreateReq.Priority b <? 0) || (10 <? CreateReq.Priority b)) eqn:Hprio.
  { eapply Hbad; [by rewrite Hq, Hm|]. cbn. apply orb_true_iff in Hprio as [H%Z.ltb_lt|H%Z.ltb_lt];
      [rewrite (proj2 (Z.leb_gt 0 _)) by lia|rewrite (proj2 (Z.leb_gt _ 10)) by lia]; by rewrite ?andb_false_r. }
  destruct ((CreateReq.VirtualPages b =? 0)%N || (100000 <? CreateReq.VirtualPages b)%N) eqn:Hpages.
  { eapply Hbad; [by rewrite Hq, Hm|]. cbn. apply orb_true_iff in Hpages as [H%N.eqb_eq|H%N.ltb_lt];
      [rewrite (proj2 (N.leb_gt 1 _)) by lia|rewrite (proj2 (N.leb_gt _ 100000)) by lia]; by rewrite ?andb_false_r. }
  pose proof (CreateProcess_spec n (pm_of s) (CreateReq.Name b) (CreateReq.Priority b) (CreateReq.VirtualPages b)
    (live_agrees _ _ Hs) Hroom) as Hc. cbv zeta in Hc. rewrite Hm, run_server_pm in Hq.
  destruct (PM.CreateProcess _ _ _ (pm_of s)) as [r pm]. destruct Hc as (p & -> & Ha & _ & Hn). cbn [fst snd] in Hq.
  rewrite run_gets in Hq. eapply answer_after_broadcast; [by apply (live_pm n s pm)| |exact Hq| |done].
  - unfold next, pm_of in *. cbn. rewrite Hn. lia.
  - cbn. unfold valid_process. rewrite Hname. apply orb_false_iff in Hprio as [H1%Z.ltb_ge H2%Z.ltb_ge].
    apply orb_false_iff in Hpages as [H3%N.eqb_neq H4%N.ltb_ge]. cbn.
    rewrite (proj2 (Z.leb_le 0 _)), (proj2 (Z.leb_le _ 10)), (proj2 (N.leb_le 1 _)), (proj2 (N.leb_le _ 100000)) by lia. done.
Qed.

Lemma answer_PostAccess n s b : live n s → answered n (PostAccess b) s.
Proof.
  intros Hs. destruct b as [b|]; [|by eapply answer_here]. set (pid := AccessReq.ProcessID b).
  pose proof (AccessMemory_spec n (pm_of s) pid (AccessReq.VirtualPage b) (AccessReq.Write b)
    (live_frames _ _ Hs) (live_agrees _ _ Hs)) as Ht.
  assert (∀ code, found s pid code = if PM.processes (pm_of s) !! pid is Some _ then StatusOK else code) as Hf.
  { intros code. unfold found, known. by destruct (PM.processes (pm_of s) !! pid). }
  assert (SetupRoutes (PostAccess (Some b)) s = HandleAccessMemory (Some b) s) as Hq by done.
  unfold HandleAccessMemory in Hq. cbn [decoded] in Hq. fold pid in Hq. rewrite run_server_pm in Hq.
  destruct (PM.AccessMemory pid _ _ (pm_of s)) as [r pm]. destruct Ht as (Ha & _ & Hn & Hr). cbn [fst snd] in Hq.
  destruct (PM.processes (pm_of s) !! pid).
  - subst r. unfold answered. rewrite Hq. split_and!; [by apply (live_pm n s pm)|unfold next, pm_of in *; cbn; rewrite Hn; lia|].
    eexists. split_and!; [done|cbn; by rewrite Hf|cbn; unfold StatusOK; lia].
  - destruct Hr as [-> ->]. rewrite set_pm_same in Hq. eapply answer_here; [done|exact Hq|by cbn; rewrite Hf].
Qed.

Lemma live_quiet_mm {A} n s (m : M MM.t A) :
  live n s → quiet_mm n m → live n (on_mm m s).2 ∧ next (on_mm m s).2 = next s.
Proof.
  intros Hs Hm. apply live_same; [done|by apply quiet_server_mm|]. unfold on_mm, on_pm. apply on_mon_sims.
Qed.

Lemma ParseAlgorithmType_valid name :
  match ParseAlgorithmType name with
  | Some _ => name ∈ ValidAlgorithmNames
  | None => name ∉ ValidAlgorithmNames
  end.
Proof.
  unfold ParseAlgorithmType.
  repeat match goal with |- context [String.eqb name ?x] =>
    destruct (String.eqb_spec name x) as [->|?]; [cbn; apply (bool_decide_unpack _); vm_compute; exact I|] end.
  unfold ValidAlgorithmNames. repeat (apply not_elem_of_cons; split; [done|]). apply not_elem_of_nil.
Qed.

Lemma answer_PostAlgorithm n s b : live n s → answered n (PostAlgorithm b) s.
Proof.
  intros Hs. destruct b as [name|]; [|by eapply answer_here].
  pose proof (ParseAlgorithmType_valid name) as Hv.
  assert (SetupRoutes (PostAlgorithm (Some name)) s = HandleSetAlgorithm (Some name) s) as Hq by done.
  unfold HandleSetAlgorithm in Hq. cbn [decoded] in Hq.
  destruct (ParseAlgorithmType name) as [ty|].
  - destruct (live_quiet_mm n s (MM.SetAlgorithm ty) Hs (quiet_SetAlgorithm n ty)) as [Hl Hn].
    eapply answer_after_broadcast; [exact Hl|rewrite Hn; lia|exact Hq| |done].
    cbn. by rewrite bool_decide_true.
  - eapply answer_here; [done|exact Hq|]. cbn. by rewrite bool_decide_false.
Qed.

Lemma answer_PostRun n s b : live n s → answered n (PostRun b) s.
Proof.
  intros Hs. destruct b as [sc|]; [|by eapply answer_here].
  assert (SetupRoutes (PostRun (Some sc)) s = HandleRunSimulation (Some sc) s) as Hq by done.
  unfold HandleRunSimulation in Hq. cbn [decoded] in Hq. destruct (String.eqb sc "") eqn:Hsc.
  { eapply answer_here; [done|exact Hq|]. cbn. by rewrite Hsc. }
  rewrite run_get_st in Hq. destruct (simulationMu s) eqn:Hmu.
  { eapply answer_here; [done|exact Hq|]. cbn. by rewrite Hsc, Hmu. }
  rewrite run_modify in Hq. unfold answered. rewrite Hq. cbn [writeJSON mret M_ret]. split_and!.
  - destruct Hs as [H1 H2 H3 H4]. split; try done. cbn. rewrite length_app, H4, Hmu. done.
  - unfold next, pm_of. cbn. lia.
  - eexists. split_and!; [done|cbn; by rewrite Hsc, Hmu|cbn; unfold StatusAccepted; lia].
Qed.

(** A call of the memory manager and an answer that needs no broadcast. *)
Lemma answer_quiet_mm {A} n q s (m : M MM.t A) st b :
  live n s → quiet_mm n m → SetupRoutes q s = (m' ← on_mm m; writeJSON st b) s →
  st = expected q s → st < 400 → answered n q s.
Proof.
  intros Hs Hm Hq He Hst. unfold answered. rewrite Hq. unfold mbind, M_bind. cbn [writeJSON mret M_ret].
  destruct (live_quiet_mm n s m Hs Hm) as [Hl Hn].
  split_and!; [done|lia|]. eexists. split_and!; [done|done|]. cbn. lia.
Qed.

Lemma answer_PostFeature n s b : live n s → answered n (PostFeature b) s.
Proof.
  intros Hs. destruct b as [b|]; [|by eapply answer_here].
  assert (SetupRoutes (PostFeature (Some b)) s = HandleEnableFeature (Some b) s) as Hq by done.
  assert (∀ l, FeatureReq.Feature b ∈ l → l = ["numa"; "compression"; "clustering"] →
    StatusOK = expected (PostFeature (Some b)) s) as Hok.
  { intros l Hin ->. cbn. by rewrite bool_decide_true. }
  unfold HandleEnableFeature in Hq. cbn [decoded] in Hq.
  destruct (String.eqb_spec (FeatureReq.Feature b) "numa") as [E1|N1].
  { eapply (answer_quiet_mm n _ s _ _ _ Hs (quiet_EnableNuma n _)); [exact Hq| |done]. eapply Hok; [|done]. rewrite E1. set_solver. }
  destruct (String.eqb_spec (FeatureReq.Feature b) "compression") as [E2|N2].
  { eapply (answer_quiet_mm n _ s _ _ _ Hs (quiet_EnableCompression n _)); [exact Hq| |done]. eapply Hok; [|done]. rewrite E2. set_solver. }
  destruct (String.eqb_spec (FeatureReq.Feature b) "clustering") as [E3|N3].
  { eapply (answer_quiet_mm n _ s _ _ _ Hs (quiet_EnableClustering n _)); [exact Hq| |done]. eapply Hok; [|done]. rewrite E3. set_solver. }
  eapply answer_here; [done|exact Hq|]. cbn. rewrite bool_decide_false; [done|set_solver].
Qed.

(** An answer computed apart, from the environment only. *)
Lemma answer_env {A} n q s (m : M nat (outcome A)) st (f : A → body) (k : outcome A → M t (outcome Response.t)) :
  live n s → SetupRoutes q s = (r ← on_env m; k r) s → (∀ t0, ∃ a, (m t0).1 = Return a) →
  (∀ a, k (Return a) = writeJSON st (f a)) → st = expected q s → st < 400 → answered n q s.
Proof.
  intros Hs Hq Hm Hk He Hst. unfold on_env in Hq. set (c := MM.on_heap _) in Hq.
  assert (∃ a, (c (mm_of s)).1 = Return a) as [a Ha].
  { unfold c, MM.on_heap. destruct (Hm (tick (MM.hp (mm_of s)))) as [a Ha]. exists a.
    destruct (m _) as [o t1]. cbn [fst] in *. by subst. }
  rewrite run_server_mm, Ha, Hk in Hq. eapply (answer_quiet_mm n q s c); [done|apply (quiet_env n)| |done|done].
  by rewrite run_server_mm, Hq.
Qed.

Lemma answer_PostCompare n s b : live n s → answered n (PostCompare b) s.
Proof.
  intros Hs. destruct b as [b|]; [|by eapply answer_here].
  assert (SetupRoutes (PostCompare (Some b)) s = HandleCompareAlgorithms (Some b) s) as Hq by reflexivity.
  unfold HandleCompareAlgorithms in Hq. cbn [decoded] in Hq.
  set (frames := if CompareReq.Frames b <=? 0 then 32 else CompareReq.Frames b) in *.
  assert ((65536 <? frames) = negb (CompareReq.Frames b <=? 65536)) as Hframes.
  { unfold frames. destruct (Z.leb_spec (CompareReq.Frames b) 0); lia. }
  rewrite Hframes in Hq. destruct (CompareReq.Frames b <=? 65536) eqn:Hle; cbn [negb] in Hq.
  - rewrite run_gets in Hq.
    eapply (answer_env n _ s _ _ BComparison _ Hs Hq); [|intros rs; reflexivity|cbn; by rewrite Hle|done].
    intros t0. apply CompareAlgorithms_returns.
  - eapply answer_here; [done|exact Hq|]. cbn. by rewrite Hle.
Qed.

Lemma answer_PostSweep n s b : live n s → answered n (PostSweep b) s.
Proof.
  intros Hs. destruct b as [b|]; [|by eapply answer_here].
  assert (SetupRoutes (PostSweep (Some b)) s = HandleFrameCountSweep (Some b) s) as Hq by reflexivity.
  unfold HandleFrameCountSweep in Hq. cbn [decoded] in Hq. set (name := if String.eqb _ "" then "LRU"%string else _) in Hq.
  set (scenario := if String.eqb _ "" then "mixed"%string else _) in Hq.
  destruct (sweep_bounds _ _) as [frameMin frameMax]. rewrite run_gets in Hq.
  assert (expected (PostSweep (Some b)) s =
    if ParseAlgorithmType name is Some _ then StatusOK else StatusInternalServerError) as He.
  { cbn. pose proof (ParseAlgorithmType_valid name) as Hv. unfold name in *.
    destruct (String.eqb_spec (SweepReq.Algorithm b) "") as [->|Hne]; [by rewrite bool_decide_true by left|].
    destruct (ParseAlgorithmType _).
    - by rewrite bool_decide_true by (by right).
    - rewrite bool_decide_false; [done|]. by intros [?|?]%elem_of_cons. }
  pose proof (CompareFrameCounts_returns scenario name (geometricFrameRange frameMin frameMax 10)
    (if SweepReq.TLB b <=? 0 then 16 else SweepReq.TLB b) (simulator s)) as Hr.
  destruct (ParseAlgorithmType name).
  - eapply (answer_env n _ s _ _ BSweep _ Hs Hq Hr); [intros rs; reflexivity|by rewrite He|done].
  - unfold on_env in Hq. rewrite run_server_mm in Hq. unfold MM.on_heap in Hq. rewrite Hr in Hq. cbn [fst snd] in Hq.
    rewrite set_tick_same in Hq. eapply answer_here; [done|exact Hq|by rewrite He].
Qed.

Lemma answer_PostHugePage n s pid b : live n s → answered n (PostHugePage pid b) s.
Proof.
  intros Hs. destruct b as [idx|]; [|by eapply answer_here].
  assert (SetupRoutes (PostHugePage pid (Some idx)) s = HandleMapHugePage pid (Some idx) s) as Hq by reflexivity.
  unfold HandleMapHugePage in Hq. cbn [decoded] in Hq.
  destruct (N.ltb_spec (2 ^ 43 - 1) idx) as [Hlt|Hle].
  { eapply answer_here; [done|exact Hq|]. cbn [expected accepted]. by rewrite (proj2 (N.leb_gt idx (2 ^ 43 - 1))) by done. }
  pose proof (agrees_wf _ _ (live_agrees _ _ Hs)) as Hw. fold (mm_of s) in Hw. destruct (wf_domains _ _ Hw) as (Hd & _).
  pose proof (known_dom n s pid (MM.pageTables (mm_of s)) Hs Hd) as Hk.
  assert (expected (PostHugePage pid (Some idx)) s =
    if known s pid then StatusCreated else StatusInternalServerError) as He.
  { cbn [expected accepted]. by rewrite (proj2 (N.leb_le idx (2 ^ 43 - 1))) by done. }
  pose proof (MapHugePage_ok n pid idx (mm_of s) (live_frames _ _ Hs) Hw) as Hok.
  destruct (MM.pageTables (mm_of s) !! pid) as [pt|] eqn:Hpt.
  - rewrite run_server_mm, Hok in Hq by eauto. rewrite Hk, bool_decide_true in He by eauto.
    eapply (answer_quiet_mm n _ s (MM.MapHugePage pid idx) StatusCreated); [done|apply quiet_MapHugePage| |by rewrite He|done].
    rewrite run_server_mm. exact Hq.
  - rewrite Hk, bool_decide_false in He by (by intros []).
    assert (MM.MapHugePage pid idx (mm_of s) = ((-1, Some (ErrProcessNotFound pid)), mm_of s)) as Hr.
    { unfold MM.MapHugePage. rewrite decide_False by lia. by rewrite run_get_st, Hpt. }
    rewrite run_server_mm, Hr in Hq. cbn [fst snd] in Hq. rewrite set_mm_same in Hq.
    eapply answer_here; [done|exact Hq|by rewrite He].
Qed.

Lemma reset_empties (mm : MM.t) : MM.processes (MM.Reset mm).2 = ∅.
Proof.
  unfold MM.Reset. rewrite run_get_st, run_on_heap. destruct (FrameTable.Clear _ _) as [u h].
  unfold MM.now. rewrite run_on_heap. destruct (time_now _) as [time h']. rewrite run_modify.
  match goal with |- context [MM.emitEvent ?e ?s] => destruct (emitEvent_tables e s) as (_ & -> & _) end. done.
Qed.

Lemma run_seq {A B} (m : M t A) (k : A → M t B) s : (m ≫= k) s = k (m s).1 (m s).2.
Proof. done. Qed.

(** The managers after [HandleReset]. *)
Lemma reset_live n s :
  live n s →
  let pm := (PM.Reset (pm_of s)).2 in
  let s2 := s <| monitor ::= λ mon, mon <| Mon.processManager :=
                pm <| PM.memoryManager := (MM.Reset (PM.memoryManager pm)).2 |> |> |> in
  live n s2 ∧ next s2 = 1%N.
Proof.
  intros Hs pm s2. destruct (Reset_spec n (pm_of s) (live_agrees _ _ Hs)) as (Ha & Hp & Hn).
  destruct (keeps_Reset n (PM.memoryManager pm) (agrees_wf _ _ Ha)) as [Hw _].
  fold pm in Ha, Hp, Hn. split; [|exact Hn]. apply live_pm; [done|].
  apply agrees_mm; [done|exact Hw|]. by rewrite reset_empties, <- (agrees_same _ _ Ha), Hp.
Qed.

Lemma HandleReset_eq s :
  let pm := (PM.Reset (pm_of s)).2 in
  let s2 := s <| monitor ::= λ mon, mon <| Mon.processManager :=
                pm <| PM.memoryManager := (MM.Reset (PM.memoryManager pm)).2 |> |> |> in
  SetupRoutes PostReset s =
  (_ <-! Broadcast SystemReset; writeJSON StatusOK (BPair "status" "reset")) (on_mon Mon.ClearHistory s2).2.
Proof. cbn [SetupRoutes]. unfold HandleReset. by rewrite run_server_pm, run_server_mm, run_seq. Qed.

Lemma answer_PostReset n s : live n s → answered n PostReset s.
Proof.
  intros Hs. pose proof (HandleReset_eq s) as Hq. destruct (reset_live n s Hs) as [Hs2 Hn2]. cbv zeta in Hq.
  set (s2 := s <| monitor ::= _ |>) in *. clearbody s2.
  destruct (live_same n s2 (on_mon Mon.ClearHistory s2).2 Hs2 (quiet_on_mon n _ (quiet_ClearHistory n) s2)
    (on_mon_sims _ _)) as [Hs3 Hn3]. set (s3 := (on_mon _ s2).2) in *. clearbody s3.
  eapply answer_after_broadcast; [exact Hs3| |exact Hq|done|done]. lia.
Qed.

(** Every request. *)
Lemma answers n q s : live n s → (next s + 1 < 2 ^ 64)%N → answered n q s.
Proof.
  intros Hs Hroom. destruct q;
    eauto using answer_GetProcess, answer_GetPages, answer_GetHugePages, answer_GetMPT, answer_GetWorkingSet,
      answer_DeleteProcess, answer_PostFork, answer_PostProcess, answer_PostAccess, answer_PostAlgorithm,
      answer_PostRun, answer_PostFeature, answer_PostCompare, answer_PostSweep, answer_PostHugePage, answer_PostReset;
    try (by eapply answer_here).
  - eapply answer_quiet; [done|apply quiet_GetSystemStatus|done|done].
  - eapply answer_quiet; [done|apply (quiet_mon_mm n), quiet_GetMetrics|done|done].
  - eapply answer_quiet; [done|apply quiet_GetProcessDetails|done|done].
  - eapply answer_quiet; [done|apply quiet_GetFrameDetails|done|done].
Qed.
End answers.
