(* ===== verification/ServerRuns.v ===== *)
(** * Runs of the API server

    A run interleaves requests with what the server's own goroutines do: the
    simulation [HandleRunSimulation] started, call by call, the worker that
    delivers the events, the capture of snapshots, the goroutines of the
    WebSocket clients.  In every run each request is answered as [expected]
    tells, and one simulation at most is pending. *)

From S2P Require Import Prelude Models Heap FrameTable Policy Policies Algorithms Tlb PageTable MultiLevel.
From S2P Require Import Advanced Cow Manager ManagerInv ManagerOps ManagerSteps ManagerCounts.
From S2P Require Import ManagerEffects ManagerCoherence ManagerRuns.
From S2P Require Import ProcMan ProcManProps Simulator SimulatorSteps SimulatorRuns SimulatorProps.
From S2P Require Import Hub HubMoves HubProps Monitor Server ServerSteps SimCalls ServerProps.
Local Open Scope Z_scope.

Section runs.
Context `{Env : GoEnv} `{Rand : GoRand}.
Implicit Types (n : Z) (s : Server.t) (q : Server.request) (pid : string).
Import Server.

(** ** Actions *)

Inductive action : Type :=
| Request (q : request)
| SimCall (c : sim_call) | SimEnd (m : message)        (* the goroutine of [HandleRunSimulation] *)
| Simulate                                             (* the same, without interruption *)
| EventRound                                           (* [eventWorker] and [handleEvent] *)
| CaptureTick (i : nat)                                (* a tick of [StartPeriodicCapture] *)
| Client (a : Hub.alt message) (k : Hub.task message)  (* a goroutine of [Hub] *)
| Greet | Update | PeriodicMetrics                     (* what the clients are sent *)
| SetOrigins (domains : list string).

Definition quietly {A} (m : M t A) : M t (outcome unit) := _ ← m; mret (Return ()).
(** A goroutine of a client, as [Hub.sched] runs it. *)
Definition client_step (a : Hub.alt message) (k : Hub.task message) : M t (outcome unit) := λ s,
  match on_hub (Hub.task_step a k) s with
  | (Hub.Blocked, _) => (Return (), s)
  | (Hub.Crash, s') => (Panic, s')
  | (Hub.Moves _ _, s') => (Return (), s')
  end.
(** The pending simulation makes a call, or reports and releases the lock. *)
Definition simulation_call (c : sim_call) : M t (outcome unit) :=
  s ← get_st;
  match simulations s with
  | [] => mret (Return ())
  | _ => on_pm (sim_run c) ;; mret (Return ())
  end.
Definition simulation_end (m : message) : M t (outcome unit) :=
  s ← get_st;
  match simulations s with
  | [] => mret (Return ())
  | _ :: rest =>
      _ <-! Broadcast m;
      modify (λ s, s <| simulations := rest |> <| simulationMu := false |>) ;;
      mret (Return ())
  end.
Definition act (a : action) : M t (outcome unit) :=
  match a with
  | Request q => _ <-! SetupRoutes q; mret (Return ())
  | SimCall c => simulation_call c
  | SimEnd m => simulation_end m
  | Simulate => simulation_step
  | EventRound => quietly (on_mon Mon.event_round)
  | CaptureTick i => quietly (on_mon (Mon.capture_tick i))
  | Client a k => client_step a k
  | Greet => quietly initial_state
  | Update => quietly state_update
  | PeriodicMetrics => quietly metrics_update
  | SetOrigins domains => quietly (SetAllowedOrigins domains)
  end.
(** A run ends where a goroutine panics. *)
Definition run_server (l : list action) : M t (outcome unit) := try_each act l.

(** ** Every action keeps the invariant *)

(** An action registers at most two processes. *)
Definition stays n (m : M t (outcome unit)) : Prop := ∀ s,
  live n s → (next s + 2 < 2 ^ 64)%N →
  (m s).1 = Return () → live n (m s).2 ∧ (next (m s).2 ≤ N.max 1 (next s) + 2)%N.

Lemma stays_quiet {A} n (m : M t A) :
  (∀ s, live n s → live n (m s).2 ∧ next (m s).2 = next s) → stays n (quietly m).
Proof.
  intros Hm s Hs _ _. unfold quietly, mbind, M_bind. destruct (Hm s Hs) as [H1 H2]. split; [exact H1|].
  cbn. rewrite H2. lia.
Qed.
Definition kept n : relation t := λ s s', same_server n s s' ∧ simulations s' = simulations s.
#[local] Instance kept_preorder n : PreOrder (kept n).
Proof. unfold kept. split; [done|]. intros s1 s2 s3 [] []. split; [by etrans|congruence]. Qed.
Lemma stays_kept {A} n (m : M t A) : related (kept n) m → stays n (quietly m).
Proof. intros Hm. apply stays_quiet. intros s Hs. destruct (Hm s). by apply (live_same n s). Qed.
Lemma kept_on_mon {A} n (m : M Mon.t A) : related (same_mon n) m → related (kept n) (on_mon m).
Proof. intros Hm s. split; [by apply (quiet_on_mon n m)|apply on_mon_sims]. Qed.

Lemma stays_request n q : stays n (act (Request q)).
Proof.
  intros s Hs Hroom. cbn [act]. unfold bind_outcome, mbind, M_bind.
  assert (answered n q s) as Ha by (apply answers; [done|lia]). unfold answered in Ha.
  destruct (SetupRoutes q s) as [r s']. destruct Ha as (Hl & Hn & resp & -> & _). cbn. intros _. split; [done|lia].
Qed.

(** [Broadcast] only looks at the clients. *)
Lemma Broadcast_hub m s s' h :
  Broadcast m s = (Return (), s <| hub := h |>) → hub s' = hub s → Broadcast m s' = (Return (), s' <| hub := h |>).
Proof.
  unfold Broadcast, on_hub. intros Hb ->. destruct (Hub.Broadcast m (hub s)) as [r h0].
  by injection Hb as -> ->.
Qed.

(** The lock is held exactly while a simulation is pending. *)
Lemma live_pending n s :
  live n s → simulations s = [] ∧ simulationMu s = false ∨ ∃ sc, simulations s = [sc] ∧ simulationMu s = true.
Proof.
  intros Hs. pose proof (live_lock _ _ Hs) as H. destruct (simulationMu s), (simulations s) as [|sc []]; try done; eauto.
Qed.

(** What the goroutine of a simulation does without interruption. *)
Definition report (sc : string) (r : ScenarioResult.t * option error) : message :=
  match r.2 with Some _ => SimulationError sc | None => SimulationComplete r.1 end.
Lemma simulation_step_eq n s sc :
  live n s → (next s + 2 < 2 ^ 64)%N → simulations s = [sc] →
  let sim := (simulator s) <| Sim.processManager := pm_of s |> in
  ∃ r sim' h, Sim.RunScenario sc sim = (Return r, sim') ∧ (∃ k es, (k ≤ 2)%N ∧ drives n k es sim sim') ∧
    Broadcast (report sc r) s = (Return (), s <| hub := h |>) ∧ flags_agree h ∧
    simulation_step s = (Return (), s <| simulations := [] |> <| simulator := sim' |>
      <| monitor ::= λ mon, mon <| Mon.processManager := Sim.processManager sim' |> |>
      <| hub := h |> <| simulationMu := false |>).
Proof.
  intros Hs Hroom Hsims sim. unfold simulation_step. rewrite run_get_st, Hsims, run_modify.
  set (s1 := s <| simulations := [] |>).
  assert (ready n sim) as Hready by (split; [apply Hs|exact (live_agrees _ _ Hs)]).
  assert (room 2 sim) as Hroom' by exact Hroom.
  pose proof (RunScenario_grows n sc sim Hready Hroom') as Hd. destruct (RunScenario_returns sc sim) as [r Hr].
  destruct (Sim.RunScenario sc sim) as [o sim'] eqn:Hrun. cbn [fst snd] in Hr, Hd. subst o.
  destruct (Broadcast_returns (report sc r) s (live_flags _ _ Hs)) as (h & Hb & Hf). exists r, sim', h.
  split_and!; try done.
  set (s2 := s1 <| simulator := sim' |> <| monitor ::= λ mon, mon <| Mon.processManager := Sim.processManager sim' |> |>).
  assert (on_sim (Sim.RunScenario sc) s1 = (Return r, s2)) as Hon.
  { unfold on_sim. change ((simulator s1) <| Sim.processManager := _ |>) with sim. by rewrite Hrun. }
  unfold run_simulation, bind_outcome. rewrite run_seq, Hon. cbn [fst snd]. fold (report sc r).
  rewrite run_seq, (Broadcast_hub _ s s2 h Hb eq_refl). reflexivity.
Qed.

(** The goroutine of a simulation ends and releases the lock. *)
Lemma simulation_ends n s :
  live n s → (next s + 2 < 2 ^ 64)%N →
  let '(r, s') := simulation_step s in
  r = Return () ∧ live n s' ∧ (next s' ≤ next s + 2)%N ∧ simulations s' = [] ∧ simulationMu s' = false.
Proof.
  intros Hs Hroom. destruct (live_pending _ _ Hs) as [[Hsims Hmu]|(sc & Hsims & _)].
  { unfold simulation_step. rewrite run_get_st, Hsims. cbn. split_and!; [done|exact Hs|lia|done|done]. }
  destruct (simulation_step_eq n s sc Hs Hroom Hsims) as (r & sim' & h & _ & (k & es & Hk & Hd) & _ & Hf & ->).
  split_and!; [done| | |done|done].
  - split; [apply Hs|exact (proj2 (drives_ready _ _ _ _ _ Hd))|exact Hf|done].
  - change (PM.nextPID (Sim.processManager sim') ≤ next s + 2)%N. rewrite (drives_next _ _ _ _ _ Hd).
    change (next s + k ≤ next s + 2)%N. lia.
Qed.
Lemma stays_simulate n : stays n simulation_step.
Proof.
  intros s Hs Hroom _. pose proof (simulation_ends n s Hs Hroom) as H.
  destruct (simulation_step s) as [r s']. destruct H as (_ & ? & ? & _). split; [done|cbn; lia].
Qed.

Lemma stays_call n c : stays n (simulation_call c).
Proof.
  intros s Hs Hroom _. unfold simulation_call. rewrite run_get_st.
  destruct (simulations s); [split; [exact Hs|cbn; lia]|]. rewrite run_server_pm. cbn [mret M_ret snd].
  destruct (sim_run_spec n c (pm_of s) (live_frames _ _ Hs) (live_agrees _ _ Hs)) as [Ha Hn]; [fold (next s); lia|].
  fold (next s) in Hn. split; [by apply live_pm|]. change (PM.nextPID (sim_run c (pm_of s)).2 ≤ N.max 1 (next s) + 2)%N. lia.
Qed.

Lemma simulation_end_eq n m s sc :
  live n s → simulations s = [sc] →
  ∃ h, simulation_end m s = (Return (), s <| hub := h |> <| simulations := [] |> <| simulationMu := false |>) ∧
    Broadcast m s = (Return (), s <| hub := h |>) ∧ flags_agree h.
Proof.
  intros Hs Hsims. unfold simulation_end. rewrite run_get_st, Hsims.
  destruct (Broadcast_returns m s (live_flags _ _ Hs)) as (h & Hb & Hf). exists h. split_and!; [|done..].
  unfold bind_outcome. by rewrite run_seq, Hb.
Qed.
Lemma stays_end n m : stays n (simulation_end m).
Proof.
  intros s Hs Hroom _. destruct (live_pending _ _ Hs) as [[Hsims _]|(sc & Hsims & _)].
  - unfold simulation_end. rewrite run_get_st, Hsims. split; [exact Hs|cbn; lia].
  - destruct (simulation_end_eq n m s sc Hs Hsims) as (h & -> & _ & Hf). cbn [snd].
    split; [by destruct Hs|]. unfold next, pm_of. cbn. lia.
Qed.

Lemma run_server_app l1 l2 s :
  run_server (l1 ++ l2) s =
  match run_server l1 s with (Return _, s1) => run_server l2 s1 | other => other end.
Proof.
  unfold run_server. revert s. induction l1 as [|a l1 IH]; intros s; [done|].
  cbn [app try_each]. unfold bind_outcome. rewrite !run_seq. destruct (act a s) as [[[]|e|] s1]; [apply IH|done..].
Qed.

(** The calls of a simulation, one after the other. *)
Lemma run_calls cs s sc rest :
  simulations s = sc :: rest →
  run_server (SimCall <$> cs) s =
    (Return (), s <| monitor ::= λ mon, mon <| Mon.processManager := sim_calls cs (pm_of s) |> |>).
Proof.
  unfold run_server. revert s. induction cs as [|c cs IH]; intros s Hs.
  { exact (f_equal (pair (Return ())) (eq_sym (set_pm_same s))). }
  cbn [fmap list_fmap try_each act]. unfold bind_outcome. rewrite run_seq.
  assert (simulation_call c s = (Return (), s <| monitor ::= λ mon, mon <| Mon.processManager := (sim_run c (pm_of s)).2 |> |>))
    as ->. { unfold simulation_call. by rewrite run_get_st, Hs, run_server_pm. }
  cbn [fst snd]. by rewrite IH.
Qed.

(** The calls of the hub that have rules of their own in [moved]. *)
Definition same_channel : relation (Hub.t message) := λ h h',
  Hub.broadcast h' = Hub.broadcast h ∧ Hub.broadcastClosed h' = Hub.broadcastClosed h.
#[local] Instance same_channel_preorder : PreOrder same_channel.
Proof. unfold same_channel. split; [done|]. intros h1 h2 h3 [] []. split; congruence. Qed.

Lemma channel_close_send c : related same_channel (Hub.close_send c).
Proof.
  intros h. unfold Hub.close_send. rewrite run_get_st. unfold GoChan.close.
  by destruct (GoChan.closed _).
Qed.
Lemma channel_drop_dead c : related same_channel (Hub.drop_dead c).
Proof.
  intros h. unfold Hub.drop_dead. rewrite run_get_st. case_bool_decide; [|done].
  unfold bind_outcome, mbind, M_bind. pose proof (channel_close_send c h) as Hc.
  by destruct (Hub.close_send c h) as [[]].
Qed.
Lemma channel_reap dead : related same_channel (try_each Hub.drop_dead dead).
Proof.
  induction dead as [|c dead IH]; intros h; simpl; [done|]. unfold bind_outcome, mbind, M_bind.
  pose proof (channel_drop_dead c h) as Hc. destruct (Hub.drop_dead c h) as [[] h']; cbn [fst snd] in *; try done.
  etrans; [exact Hc|apply IH].
Qed.
Lemma channel_unregister c : related same_channel (Hub.UnregisterClient c).
Proof.
  intros h. unfold Hub.UnregisterClient. rewrite run_get_st. case_bool_decide; [|done].
  rewrite run_modify. set (h' := h <| Hub.clients ::= λ cs, cs ∖ {[c]} |>). exact (channel_close_send c h').
Qed.

Lemma moved_flags (h h' : Hub.t message) k ts es :
  moved h k ts es h' →
  match k with Hub.Reaping _ | Hub.Unregistering _ => True | _ => flags_agree h → flags_agree h' end.
Proof.
  unfold flags_agree. intros Hm. destruct Hm as [| | |? ? Hch|? Hch| |? ? Hch| | | | | | | | | | | | | | | | | | | | | | | |];
    try done; simpl.
  - by destruct (send_return _ _ _ Hch) as (-> & _ & ->).
  - unfold GoChan.close in Hch. destruct (GoChan.closed _); [done|]. by injection Hch as <-.
  - by destruct (receive_some _ _ _ Hch) as (l & _ & ->).
Qed.

Lemma task_flags a k (h : Hub.t message) :
  match Hub.task_step a k h with (Hub.Moves _ _, h') => flags_agree h → flags_agree h' | _ => True end.
Proof.
  assert (∀ h', same_channel h h' → flags_agree h → flags_agree h') as Hsame.
  { unfold flags_agree. intros h' [-> ->]. done. }
  assert (∀ (m : M _ (outcome unit)) ts, related same_channel m →
    match Hub.exclusive (r ← m; mret (Hub.settle r (λ _, Hub.Moves ts []))) h with
    | (Hub.Moves _ _, h') => flags_agree h → flags_agree h' | _ => True end) as Hex.
  { intros m ts Hm. unfold Hub.exclusive. rewrite run_get_st. destruct (Hub.clientsMu h); [done|].
    unfold mbind, M_bind. specialize (Hm h). destruct (m h) as [[] h']; cbn; try done. by apply Hsame. }
  pose proof (task_step_follows a k h) as Hf.
  assert (∀ r, follows h k r →
    match k with
    | Hub.Reaping _ | Hub.Unregistering _ => True
    | _ => match r with (Hub.Moves _ _, h') => flags_agree h → flags_agree h' | _ => True end
    end) as Hrule.
  { intros [[| |ts es] h'] Hr; [by destruct k..|]. apply moved_flags in Hr. by destruct k. }
  apply Hrule in Hf. destruct k; try exact Hf; destruct a; try exact I.
  - apply (Hex _ _ (channel_reap dead)).
  - apply (Hex _ _ (channel_unregister c)).
Qed.

Lemma stays_client n a k : stays n (client_step a k).
Proof.
  intros s Hs _. unfold client_step, on_hub. pose proof (task_flags a k (hub s)) as Hf.
  destruct (Hub.task_step a k (hub s)) as [[] h]; [|done|]; intros _.
  - split; [exact Hs|cbn; lia].
  - split; [|cbn; unfold next, pm_of; cbn; lia]. destruct Hs. by split; [..|apply Hf|].
Qed.

Lemma add_origins_live n domains s : live n s → live n (add_origins domains s) ∧ next (add_origins domains s) = next s.
Proof.
  revert s. induction domains as [|d domains IH]; intros s Hs; [done|]. cbn [add_origins].
  destruct (String.eqb _ "*"); [by destruct Hs|].
  destruct (IH (s <| allowedOrigins ::= <[GoString.TrimSpace d := true]> |>)) as [H1 ->]; [by destruct Hs|done].
Qed.

Lemma stays_act n a : stays n (act a).
Proof.
  destruct a; cbn [act].
  - apply stays_request.
  - apply stays_call.
  - apply stays_end.
  - apply stays_simulate.
  - apply stays_kept, kept_on_mon, quiet_event_round.
  - apply stays_kept, kept_on_mon, quiet_capture_tick.
  - apply stays_client.
  - apply stays_kept, related_bind; [apply _|apply kept_on_mon, quiet_GetSystemStatus|intros st; apply related_ret, _].
  - apply stays_kept. apply related_bind; [apply _|apply kept_on_mon, quiet_GetSystemStatus|intros st].
    apply related_bind; [apply _|apply kept_on_mon, quiet_GetProcessDetails|intros ps].
    apply related_bind; [apply _|apply kept_on_mon, quiet_GetFrameDetails|intros fs; apply related_ret, _].
  - apply stays_kept, related_bind; [apply _| |intros m; apply related_ret, _].
    apply kept_on_mon, quiet_mon_mm, quiet_GetMetrics.
  - apply stays_quiet. intros s Hs. set (s1 := s <| allowedOrigins := ∅ |>).
    assert (live n s1) as Hs1 by (by destruct Hs). exact (add_origins_live n domains s1 Hs1).
Qed.

(** ** Runs *)

Lemma run_returned {St A} (m : M St A) st a : (m st).1 = a → m st = (a, (m st).2).
Proof. by destruct (m st); simpl; intros ->. Qed.

Lemma live_new n tlbSize ty t0 time :
  0 < n < 2 ^ 30 → live n (NewServer n tlbSize ty t0 time) ∧ next (NewServer n tlbSize ty t0 time) = 1%N.
Proof.
  intros Hn. split; [|reflexivity]. set (mm := MM.NewMemoryManager n tlbSize ty t0).
  assert (agrees n (PM.NewProcessManager (MM.SetEventCallback true mm).2)) as Ha.
  { apply agrees_new; [|apply new_manager_empty].
    apply (keeps_SetEventCallback n true). apply wf_NewMemoryManager. lia. }
  split; [lia|exact Ha|done|done].
Qed.

Lemma run_live n l s s' :
  live n s → (N.max 1 (next s) + 2 * N.of_nat (length l) < 2 ^ 64)%N → run_server l s = (Return (), s') →
  live n s' ∧ (next s' ≤ N.max 1 (next s) + 2 * N.of_nat (length l))%N.
Proof.
  unfold run_server. revert s. induction l as [|a l IH]; intros s Hs Hroom; cbn [try_each length] in *.
  { intros [= <-]. split; [done|lia]. }
  unfold bind_outcome. rewrite run_seq. pose proof (stays_act n a s Hs) as Ha.
  destruct (act a s) as [[[]|e|] s1]; cbn [fst snd] in *; [|done..]. intros Hrun.
  destruct Ha as [Hs1 Hn1]; [lia|done|]. destruct (IH s1 Hs1) as [H1 H2]; [lia|done|]. split; [done|lia].
Qed.

Lemma new_run_live n tlbSize ty t0 time l s :
  0 < n < 2 ^ 30 → (N.of_nat (length l) < 2 ^ 62)%N →
  run_server l (NewServer n tlbSize ty t0 time) = (Return (), s) → live n s ∧ (next s + 2 < 2 ^ 64)%N.
Proof.
  intros Hn Hl Hr. destruct (live_new n tlbSize ty t0 time Hn) as [Hs Hp].
  destruct (run_live n l _ s Hs) as [H1 H2]; [rewrite Hp; lia|done|]. split; [done|lia].
Qed.

(** C22: In every run of a server, with any interleaving of requests, simulations,
    event and snapshot goroutines and WebSocket clients, each request is answered
    and with the status that its input and the registered processes determine: 400
    for a body that does not decode or is out of bounds, 404 or 500 for a process
    that is not registered, 409 for a simulation while one is pending, and success
    otherwise; a request that is refused changes nothing. *)
Theorem requests_answered n tlbSize ty t0 time l s q :
  0 < n < 2 ^ 30 → (N.of_nat (length l) < 2 ^ 62)%N →
  run_server l (NewServer n tlbSize ty t0 time) = (Return (), s) →
  ∃ resp s', SetupRoutes q s = (Return resp, s') ∧ Response.status resp = expected q s ∧
    (400 ≤ Response.status resp → s' = s).
Proof.
  intros Hn Hl Hr. destruct (new_run_live n tlbSize ty t0 time l s Hn Hl Hr) as [Hs Hroom].
  assert (answered n q s) as Ha by (apply answers; [done|lia]). unfold answered in Ha.
  destruct (SetupRoutes q s) as [r s'] eqn:Hq. destruct Ha as (_ & _ & resp & -> & H1 & H2). by exists resp, s'.
Qed.

(** C24: In every run at most one simulation is pending, and the lock of
    [HandleRunSimulation] is held exactly then; the goroutine of the pending
    simulation, whatever its scenario, returns and releases the lock, so that the
    next request for a simulation is accepted. *)
Theorem one_simulation_at_a_time n tlbSize ty t0 time l s scenario :
  0 < n < 2 ^ 30 → (N.of_nat (length l) < 2 ^ 62)%N →
  run_server l (NewServer n tlbSize ty t0 time) = (Return (), s) → scenario ≠ ""%string →
  length (simulations s) = Nat.b2n (simulationMu s) ∧
  let '(r, s1) := simulation_step s in
  r = Return () ∧ simulations s1 = [] ∧
  let '(r, s2) := SetupRoutes (PostRun (Some scenario)) s1 in
  r = Return (Response.mk StatusAccepted (BPair "status" "started")) ∧ simulations s2 = [scenario].
Proof.
  intros Hn Hl Hr Hsc. destruct (new_run_live n tlbSize ty t0 time l s Hn Hl Hr) as [Hs Hroom].
  split; [apply Hs|]. pose proof (simulation_ends n s Hs Hroom) as H.
  destruct (simulation_step s) as [r s1]. destruct H as (-> & _ & _ & Hsims & Hmu). split; [done|split; [done|]].
  cbn [SetupRoutes]. unfold HandleRunSimulation, decoded. destruct (String.eqb_spec scenario "") as [|_]; [done|].
  rewrite run_get_st, Hmu, run_modify. cbn. by rewrite Hsims.
Qed.

(** A simulation that runs to its end in one go is one of the interleavings:
    what it does is a sequence of calls of the managers, between which anything
    else may happen, and a last step that reports and releases the lock; only the
    simulator's own generator is not visible in them. *)
Theorem simulation_is_a_sequence_of_calls n tlbSize ty t0 time l s scenario :
  0 < n < 2 ^ 30 → (N.of_nat (length l) < 2 ^ 62)%N →
  run_server l (NewServer n tlbSize ty t0 time) = (Return (), s) → simulations s = [scenario] →
  ∃ cs m, run_server ((SimCall <$> cs) ++ [SimEnd m]) s =
    (Return (), (simulation_step s).2 <| simulator := simulator s |>).
Proof.
  intros Hn Hl Hr Hsims. destruct (new_run_live n tlbSize ty t0 time l s Hn Hl Hr) as [Hs Hroom].
  destruct (simulation_step_eq n s scenario Hs Hroom Hsims) as (r & sim' & h & Hrun & _ & Hb & Hf & ->).
  set (sim := (simulator s) <| Sim.processManager := pm_of s |>) in *.
  destruct (calls_RunScenario scenario sim) as [cs Hcs]. rewrite Hrun in Hcs. cbn [snd] in Hcs.
  exists cs, (report scenario r). rewrite run_server_app, (run_calls cs s scenario [] Hsims). cbn [fst snd].
  change (Sim.processManager sim) with (pm_of s) in Hcs. rewrite <- Hcs.
  set (s1 := s <| monitor ::= λ mon, mon <| Mon.processManager := Sim.processManager sim' |> |>).
  unfold run_server. cbn [try_each act]. unfold bind_outcome at 1. rewrite run_seq.
  assert (simulation_end (report scenario r) s1 =
    (Return (), s1 <| hub := h |> <| simulations := [] |> <| simulationMu := false |>)) as ->.
  { unfold simulation_end. rewrite run_get_st. change (simulations s1) with (simulations s). rewrite Hsims.
    unfold bind_outcome. by rewrite run_seq, (Broadcast_hub _ s s1 h Hb eq_refl). }
  reflexivity.
Qed.

(** Nothing but the goroutine of a client can end a run. *)
Lemma quietly_returns {A} (m : M t A) s : (quietly m s).1 = Return ().
Proof. done. Qed.

(** In every run the handlers, the simulations, the events and the snapshots
    never panic; only a goroutine of a WebSocket client can end the program. *)
Theorem only_clients_panic n tlbSize ty t0 time l s a :
  0 < n < 2 ^ 30 → (N.of_nat (length l) < 2 ^ 62)%N →
  run_server l (NewServer n tlbSize ty t0 time) = (Return (), s) →
  (act a s).1 = Return () ∨ ∃ alt k, a = Client alt k ∧ crashes (hub s) k.
Proof.
  intros Hn Hl Hr. destruct (new_run_live n tlbSize ty t0 time l s Hn Hl Hr) as [Hs Hroom].
  destruct a; cbn [act]; rewrite ?quietly_returns; auto; [left..|].
  - assert (answered n q s) as Ha by (apply answers; [done|lia]). unfold answered in Ha.
    unfold bind_outcome. rewrite run_seq. destruct (SetupRoutes q s). by destruct Ha as (_ & _ & resp & -> & _).
  - unfold simulation_call. rewrite run_get_st. destruct (simulations s); [done|]. by rewrite run_server_pm.
  - destruct (live_pending _ _ Hs) as [[Hsims _]|(sc & Hsims & _)].
    + unfold simulation_end. by rewrite run_get_st, Hsims.
    + by destruct (simulation_end_eq n m s sc Hs Hsims) as (h & -> & _).
  - pose proof (simulation_ends n s Hs Hroom) as H. by destruct (simulation_step s), H as [-> _].
  - unfold client_step, on_hub. pose proof (task_step_follows a k (hub s)) as Hf.
    destruct (Hub.task_step a k (hub s)) as [[] h]; [by left|right; eauto|by left].
Qed.
End runs.

(** ** Examples *)

#[local] Existing Instance first_env.
#[local] Existing Instance lcg_rand.

(** Two processes, an access, a simulation, and its goroutine. *)
Definition sample_actions : list action := [
  Request (Server.PostProcess (Some (CreateReq.mk "editor" 3 16)));
  Request (Server.PostFork (PM.pid_of 2));
  EventRound; CaptureTick 0;
  Request (Server.PostAccess (Some (AccessReq.mk (PM.pid_of 2) 5 true)));
  Client Hub.Next Hub.Connecting; Update;
  Request (Server.PostRun (Some "fork_cow")); Simulate;
  Request (Server.PostRun (Some "random")); SimCall SimTime; SimCall (SimCreate "Random" 1 1000);
  Request (Server.PostFork (PM.pid_of 2)); SimCall (SimAccess (PM.pid_of 6) 7 true);
  SimEnd (SimulationError "random");
  Request (Server.DeleteProcess (PM.pid_of 3));
  Request (Server.PostRun (Some "no such scenario"))].
Definition sample_state : Server.t := (run_server sample_actions (Server.NewServer 8 4 AlgorithmCLOCK 0 7)).2.
Lemma sample_run : run_server sample_actions (Server.NewServer 8 4 AlgorithmCLOCK 0 7) = (Return (), sample_state).
Proof.
  assert ((run_server sample_actions (Server.NewServer 8 4 AlgorithmCLOCK 0 7)).1 = Return ()) as H by (vm_compute; reflexivity).
  unfold sample_state. exact (run_returned (run_server sample_actions) _ (Return ()) H).
Qed.

(** The process [P3] is gone. *)
Definition stale : Server.request := Server.PostAccess (Some (AccessReq.mk (PM.pid_of 3) 0 false)).
Lemma stale_expected : expected stale sample_state = 500.
Proof. vm_compute. reflexivity. Qed.
Lemma sample_pending : Server.simulationMu sample_state = true.
Proof. vm_compute. reflexivity. Qed.

Lemma requests_answered_witness :
  ∃ resp, Server.SetupRoutes stale sample_state = (Return resp, sample_state) ∧ Response.status resp = 500.
Proof.
  destruct (@requests_answered first_env lcg_rand 8 4 AlgorithmCLOCK 0 7 sample_actions sample_state stale)
    as (resp & s' & Hq & Hst & Hsame); [lia|simpl; lia|exact sample_run|].
  rewrite stale_expected in Hst. rewrite Hst in Hsame. rewrite (Hsame ltac:(lia)) in Hq.
  exists resp. exact (conj Hq Hst).
Defined.

Lemma one_simulation_at_a_time_witness :
  length (Server.simulations sample_state) = 1%nat ∧
  let '(r, s1) := Server.simulation_step sample_state in r = Return () ∧ Server.simulations s1 = [].
Proof.
  destruct (@one_simulation_at_a_time first_env lcg_rand 8 4 AlgorithmCLOCK 0 7 sample_actions sample_state "mixed")
    as [H1 H2]; [lia|simpl; lia|exact sample_run|done|].
  rewrite sample_pending in H1. split; [exact H1|].
  destruct (Server.simulation_step sample_state) as [r s1]. exact (conj (proj1 H2) (proj1 (proj2 H2))).
Defined.

Lemma sample_simulations : Server.simulations sample_state = ["no such scenario"].
Proof. vm_compute. reflexivity. Qed.

Lemma simulation_is_a_sequence_of_calls_witness :
  ∃ cs m, (run_server ((SimCall <$> cs) ++ [SimEnd m]) sample_state).1 = Return ().
Proof.
  destruct (@simulation_is_a_sequence_of_calls first_env lcg_rand 8 4 AlgorithmCLOCK 0 7 sample_actions sample_state
    "no such scenario") as (cs & m & H); [lia|simpl; lia|exact sample_run|exact sample_simulations|].
  exists cs, m. rewrite H. exact (eq_refl (Return ())).
Defined.

Lemma only_clients_panic_witness : (act (CaptureTick 0) sample_state).1 = Return ().
Proof.
  destruct (@only_clients_panic first_env lcg_rand 8 4 AlgorithmCLOCK 0 7 sample_actions sample_state (CaptureTick 0))
    as [H|(alt & k & H & _)]; [lia|simpl; lia|exact sample_run|exact H|discriminate H].
Defined.
