(* ===== verification/ServerLife.v ===== *)
(** * The life of a process through the API

    A process that a request creates can be fetched as it was answered, until a
    request deletes it. *)

From S2P Require Import Prelude Models Heap FrameTable Policy Algorithms Manager ManagerInv ManagerSteps.
From S2P Require Import ProcMan ProcManProps Simulator SimulatorSteps SimulatorProps Hub Monitor Server ServerSteps ServerProps ServerRuns.
Local Open Scope Z_scope.

Section life.
Context `{Env : GoEnv} `{Rand : GoRand}.
Implicit Types (n : Z) (s : Server.t) (pid : string) (b : CreateReq.t).
Import Server.

(** ** The object of a new process *)

Definition same_procs : relation MM.t := λ mm mm', MM.procs mm' = MM.procs mm.
#[local] Instance same_procs_preorder : PreOrder same_procs.
Proof. unfold same_procs. split; [done|]. intros s1 s2 s3. congruence. Qed.

Lemma procs_CreateProcess p : related same_procs (MM.CreateProcess p).
Proof.
  unfold MM.CreateProcess. apply related_bind; [apply _|by intros s|intros s0].
  destruct (MM.procs s0 !! p) as [pr|]; [|apply related_ret, _]. cbv zeta.
  destruct (MM.processes s0 !! _); [apply related_ret, _|].
  do 3 (apply related_bind; [apply _|by intros s|intros _]).
  apply related_bind; [apply _| |intros _; apply related_ret, _].
  intros s. unfold MM.emitEvent. cbn. destruct (negb _); [done|]. destruct (MM.closed s); [done|]. by destruct (decide _).
Qed.

Lemma new_process_object pid name priority pages (s : PM.t) :
  ∃ time, let '(p, s') := PM.new_process pid name priority pages s in
    p = length (MM.procs (PM.memoryManager s)) ∧
    MM.procs (PM.memoryManager s') = MM.procs (PM.memoryManager s) ++ [Process.NewProcess time pid name priority pages].
Proof.
  unfold PM.new_process, PM.on_mm, MM.now. rewrite run_on_heap.
  destruct (time_now (MM.hp (PM.memoryManager s))) as [created h]. rewrite run_get_st, run_modify. by exists created.
Qed.

Lemma create_register_object pid name priority pages (s : PM.t) :
  ∃ time, let '(r, s') := PM.create_register pid name priority pages s in
    ∀ p, r = Ok p → PM.object p s' = Process.NewProcess time pid name priority pages.
Proof.
  destruct (new_process_object pid name priority pages s) as [time Hn]. exists time.
  unfold PM.create_register. unfold mbind at 1, M_bind at 1.
  destruct (PM.new_process pid name priority pages s) as [p s1]. destruct Hn as [-> Hn]. cbn [fst snd].
  unfold bind_ok. rewrite run_on_mm.
  pose proof (procs_CreateProcess (length (MM.procs (PM.memoryManager s))) (PM.memoryManager s1)) as Hp.
  destruct (MM.CreateProcess _ (PM.memoryManager s1)) as [[u|e] mm]; [|done]. unfold same_procs in Hp. cbn [fst snd] in *.
  unfold mret, M_ret. intros p [= <-]. unfold PM.object. cbn [PM.memoryManager]. simpl. rewrite Hp, Hn.
  by rewrite list_lookup_middle.
Qed.

Lemma CreateProcess_object name priority pages (s : PM.t) :
  (PM.nextPID s + 1 < 2 ^ 64)%N →
  ∃ time, let '(r, s') := PM.CreateProcess name priority pages s in
    ∀ p, r = Ok p → PM.object p s' = Process.NewProcess time (PM.pid_of (PM.nextPID s + 1)) name priority pages.
Proof.
  intros Hk. unfold PM.CreateProcess. unfold mbind at 1, M_bind at 1. rewrite (draw_spec s Hk).
  cbn [fst snd]. unfold bind_ok. unfold mbind at 1, M_bind at 1.
  match goal with |- context [PM.create_register ?pid _ _ _ ?s1] =>
    destruct (create_register_object pid name priority pages s1) as [time Hc]; exists time;
    destruct (PM.create_register _ _ _ _ s1) as [r s2] end.
  by destruct r.
Qed.

(** ** The requests *)

(** Setting the clients apart, what [Broadcast] leaves. *)
Lemma after_broadcast n m st bd s :
  live n s → ∃ h, (_ <-! Broadcast m; writeJSON st bd) s = (Return (Response.mk st bd), s <| hub := h |>) ∧
    live n (s <| hub := h |>).
Proof.
  intros Hs. destruct (Broadcast_returns m s (live_flags _ _ Hs)) as (h & Hb & Hf). exists h.
  unfold bind_outcome. rewrite run_seq, Hb. split; [done|by destruct Hs].
Qed.

Lemma HandleGetProcess_eq pid s :
  HandleGetProcess pid s =
  (Return (match PM.processes (pm_of s) !! pid with
           | Some p => Response.mk StatusOK (BProcess (marshalProcess (PM.object p (pm_of s))))
           | None => Response.mk StatusNotFound (BError "process not found")
           end), s).
Proof.
  unfold HandleGetProcess, PM.GetProcess. rewrite run_get_st. by destruct (PM.processes (pm_of s) !! pid).
Qed.

Lemma HandleCreateProcess_eq n s b :
  live n s → (next s + 1 < 2 ^ 64)%N → valid_process b = true →
  let pid := PM.pid_of (next s + 1) in
  ∃ time p s', let dto := marshalProcess (Process.NewProcess time pid (CreateReq.Name b) (CreateReq.Priority b) (CreateReq.VirtualPages b)) in
    HandleCreateProcess (Some b) s = (Return (Response.mk StatusCreated (BProcess dto)), s') ∧
    live n s' ∧ PM.processes (pm_of s') = <[pid := p]> (PM.processes (pm_of s)) ∧
    marshalProcess (PM.object p (pm_of s')) = dto.
Proof.
  intros Hs Hroom Hv pid. unfold HandleCreateProcess, decoded, valid_process in *.
  apply andb_true_iff in Hv as [Hv Hp2]. apply andb_true_iff in Hv as [Hv Hp1]. apply andb_true_iff in Hv as [Hv Hr2].
  apply andb_true_iff in Hv as [Hname Hr1]. apply negb_true_iff in Hname. rewrite Hname.
  rewrite (proj2 (Z.ltb_ge _ _) (proj1 (Z.leb_le _ _) Hr1)), (proj2 (Z.ltb_ge _ _) (proj1 (Z.leb_le _ _) Hr2)).
  assert ((CreateReq.VirtualPages b =? 0)%N = false) as -> by (apply N.leb_le in Hp1; apply N.eqb_neq; lia).
  rewrite (proj2 (N.ltb_ge _ _) (proj1 (N.leb_le _ _) Hp2)). cbn [orb]. rewrite run_server_pm.
  pose proof (CreateProcess_spec n (pm_of s) (CreateReq.Name b) (CreateReq.Priority b) (CreateReq.VirtualPages b)
    (live_agrees _ _ Hs) Hroom) as Hc. cbv zeta in Hc.
  destruct (CreateProcess_object (CreateReq.Name b) (CreateReq.Priority b) (CreateReq.VirtualPages b) (pm_of s) Hroom)
    as [time Ho].
  destruct (PM.CreateProcess _ _ _ (pm_of s)) as [r pm]. destruct Hc as (p & -> & Ha & Hp & _). cbn [fst snd].
  specialize (Ho p eq_refl). rewrite run_gets.
  set (s1 := s <| monitor ::= λ mon, mon <| Mon.processManager := pm |> |>).
  change (pm_of s1) with pm. rewrite Ho. assert (live n s1) as Hs1 by (by apply live_pm).
  exists time, p. match goal with |- context [Broadcast ?m] =>
    match goal with |- context [writeJSON ?st ?bd] => destruct (after_broadcast n m st bd s1 Hs1) as (h & -> & Hl) end end.
  eexists. split_and!; [reflexivity|exact Hl|exact Hp|]. change (pm_of (s1 <| hub := h |>)) with pm. by rewrite Ho.
Qed.

Lemma HandleTerminateProcess_eq n s pid :
  live n s → is_Some (PM.processes (pm_of s) !! pid) →
  ∃ s', HandleTerminateProcess pid s = (Return (Response.mk StatusOK (BPair "status" "terminated")), s') ∧
    PM.processes (pm_of s') = delete pid (PM.processes (pm_of s)).
Proof.
  intros Hs [p Hp]. unfold HandleTerminateProcess. rewrite run_server_pm.
  pose proof (TerminateProcess_spec n (pm_of s) pid (live_agrees _ _ Hs)) as Ht. rewrite Hp in Ht.
  destruct (PM.TerminateProcess pid (pm_of s)) as [r pm]. destruct Ht as (Ha & _ & -> & Hd). cbn [fst snd].
  set (s1 := s <| monitor ::= λ mon, mon <| Mon.processManager := pm |> |>).
  assert (live n s1) as Hs1 by (by apply live_pm).
  destruct (after_broadcast n (ProcessTerminated pid) StatusOK (BPair "status" "terminated") s1 Hs1) as (h & -> & _).
  eexists. split; [reflexivity|exact Hd].
Qed.

(** C23: At any point of a run, a process with acceptable fields is created under
    an identifier that no registered process has; fetching it by that identifier
    gives what the creation answered; and after it is deleted it is not found and
    the registered processes are those from before. *)
Theorem process_lifecycle n tlbSize ty t0 time l s b :
  0 < n < 2 ^ 30 → (N.of_nat (length l) < 2 ^ 62)%N →
  run_server l (NewServer n tlbSize ty t0 time) = (Return (), s) → valid_process b = true →
  ∃ created pid,
    let dto := marshalProcess (Process.NewProcess created pid (CreateReq.Name b) (CreateReq.Priority b) (CreateReq.VirtualPages b)) in
    known s pid = false ∧
    let '(r1, s1) := SetupRoutes (PostProcess (Some b)) s in
    r1 = Return (Response.mk StatusCreated (BProcess dto)) ∧
    SetupRoutes (GetProcess pid) s1 = (Return (Response.mk StatusOK (BProcess dto)), s1) ∧
    let '(r2, s2) := SetupRoutes (DeleteProcess pid) s1 in
    r2 = Return (Response.mk StatusOK (BPair "status" "terminated")) ∧
    SetupRoutes (GetProcess pid) s2 = (Return (Response.mk StatusNotFound (BError "process not found")), s2) ∧
    PM.processes (pm_of s2) = PM.processes (pm_of s).
Proof.
  intros Hn Hl Hr Hv. destruct (new_run_live n tlbSize ty t0 time l s Hn Hl Hr) as [Hs Hroom].
  destruct (HandleCreateProcess_eq n s b Hs ltac:(lia) Hv) as (created & p & s1 & Hc & Hs1 & Hp & Ho).
  pose proof (agrees_fresh n (pm_of s) (live_agrees _ _ Hs)) as Hfresh. fold (next s) in Hfresh.
  set (pid := PM.pid_of (next s + 1)) in *. exists created, pid. split; [unfold known; by rewrite Hfresh|].
  cbn [SetupRoutes]. rewrite Hc. split; [done|].
  assert (PM.processes (pm_of s1) !! pid = Some p) as Hlk by (by rewrite Hp, lookup_insert_eq).
  rewrite (HandleGetProcess_eq pid s1), Hlk, Ho. split; [done|].
  destruct (HandleTerminateProcess_eq n s1 pid Hs1 ltac:(eauto)) as (s2 & -> & Hd). split; [done|].
  rewrite HandleGetProcess_eq, Hd, lookup_delete_eq. split; [done|]. rewrite Hp. by apply delete_insert_id.
Qed.
End life.

(** ** A concrete run *)

#[local] Existing Instance first_env.
#[local] Existing Instance lcg_rand.

Lemma process_lifecycle_witness :
  ∃ resp s1, Server.SetupRoutes (Server.PostProcess (Some (CreateReq.mk "editor" 3 16))) sample_state = (Return resp, s1) ∧
    Response.status resp = Server.StatusCreated.
Proof.
  destruct (@process_lifecycle first_env lcg_rand 8 4 AlgorithmCLOCK 0 7 sample_actions sample_state
    (CreateReq.mk "editor" 3 16)) as (created & pid & _ & H); [lia|simpl; lia|exact sample_run|reflexivity|].
  destruct (Server.SetupRoutes (Server.PostProcess (Some (CreateReq.mk "editor" 3 16))) sample_state) as [r1 s1].
  destruct H as [-> _]. eexists _, s1. exact (conj eq_refl eq_refl).
Defined.
