(* ===== verification/Main.v ===== *)
(** * The entry point of the server: [cmd/server/main.go]

    The checks of the flags, and the chain of middlewares around the router.  A
    handler takes a request and acts on the server; what the router of
    [gorilla/mux] does with a request that matches none of [SetupRoutes]'s routes
    (the static files, the upgrade to a WebSocket, 404 and 405) is the parameter
    [fallback]. *)

From S2P Require Import Prelude Models Policies Policy Algorithms Manager ProcMan Simulator Hub Monitor Server.
From Stdlib Require Import Ascii.
Local Open Scope Z_scope.

Module Flags.
Record t := mk { frames : Z; tlb : Z; algorithm : string; cors : string }.
End Flags.

(** A request: [Origin] is empty when the header is absent; [Bytes] is how far
    the body has to be read for its value, and [Route] the matched route with what
    the value decodes to. *)
Module Http.
Record t := mk { Method : string; Origin : string; Bytes : N; Route : option Server.request }.
End Http.

(** What is written: [content] is [None] for an answer without a body. *)
Module Reply.
Record t := mk { code : Z; content : option body }.
End Reply.

Module Main.
Section main.
Context `{Env : GoEnv} `{Rand : GoRand}.

(** ** Flags *)

(** [strings.Split] at commas. *)
Fixpoint split_commas (acc : list ascii) (l : list ascii) : list string :=
  match l with
  | [] => [String.string_of_list_ascii (reverse acc)]
  | a :: l =>
      if Ascii.eqb a ","%char then String.string_of_list_ascii (reverse acc) :: split_commas [] l
      else split_commas (a :: acc) l
  end.
Definition Split (s : string) : list string := split_commas [] (String.list_ascii_of_string s).

(** What [log.Fatalf] prints before it ends the program. *)
Inductive fatal : Type :=
| BadFrames (n : Z)
| BadTLB (n : Z)
| BadAlgorithm (name : string).

(** [main] up to the router: the server it serves and the domains it allows. *)
Definition setup (f : Flags.t) (t0 : nat) (now : Z) : fatal + (Server.t * list string) :=
  if (Flags.frames f <? 4) || (Z.shiftl 1 20 <? Flags.frames f) then inl (BadFrames (Flags.frames f))
  else if (Flags.tlb f <? 1) || (65536 <? Flags.tlb f) then inl (BadTLB (Flags.tlb f))
  else
    match ParseAlgorithmType (Flags.algorithm f) with
    | None => inl (BadAlgorithm (Flags.algorithm f))
    | Some algType =>
        let allowedDomains := Split (Flags.cors f) in
        let server := Server.NewServer (i32 (Flags.frames f)) (Flags.tlb f) algType t0 now in
        inr ((Server.SetAllowedOrigins allowedDomains server).2, allowedDomains)
    end.

(** ** Requests and replies *)

Definition StatusNoContent : Z := 204.
Definition StatusForbidden : Z := 403.
Definition MaxRequestBodyBytes : N := N.shiftl 1 20.

(** A handler sees the server and, of the response's headers, the
    [Access-Control-Allow-Origin] that has been set so far. *)
Definition exchange : Type := Server.t * option string.
Definition handler : Type := Http.t → M exchange (outcome Reply.t).
Definition on_server {A} (m : M Server.t A) : M exchange A := λ s,
  let '(a, s') := m s.1 in (a, (s', s.2)).
Definition set_allow_origin (origin : string) : M exchange unit := modify (λ s, (s.1, Some origin)).

Definition writeJSONError (status : Z) (message : string) : M exchange (outcome Reply.t) :=
  mret (Return (Reply.mk status (Some (BError message)))).

(** The deferred [recover]. *)
Definition panicRecoveryMiddleware (next : handler) : handler := λ r,
  rec ← next r;
  match rec with
  | Panic => writeJSONError StatusInternalServerError "internal server error"
  | _ => mret rec
  end.

(** The request whose body cannot be read to its end. *)
Definition unreadable (q : Server.request) : Server.request :=
  match q with
  | Server.PostProcess _ => Server.PostProcess None
  | Server.PostHugePage id _ => Server.PostHugePage id None
  | Server.PostAccess _ => Server.PostAccess None
  | Server.PostAlgorithm _ => Server.PostAlgorithm None
  | Server.PostRun _ => Server.PostRun None
  | Server.PostCompare _ => Server.PostCompare None
  | Server.PostSweep _ => Server.PostSweep None
  | Server.PostFeature _ => Server.PostFeature None
  | _ => q
  end.
(** [http.MaxBytesReader] fails at the first byte over the limit. *)
Definition limited (limit : N) (r : Http.t) : Http.t :=
  if (limit <? Http.Bytes r)%N
  then Http.mk (Http.Method r) (Http.Origin r) (Http.Bytes r) (unreadable <$> Http.Route r) else r.
Definition requestBodyLimitMiddleware (next : handler) : handler := λ r,
  next (limited MaxRequestBodyBytes r).

Definition extractHost (origin : string) : string :=
  let origin := GoString.TrimPrefix "http://" origin in
  let origin := GoString.TrimPrefix "https://" origin in
  match GoString.IndexByte ":" origin with
  | Some idx => String.substring 0 idx origin
  | None => origin
  end.

(** The loop over the domains, which goes on after a ["*"]. *)
Definition allow (acc : bool * gmap string bool) (d : string) : bool * gmap string bool :=
  let d := GoString.TrimSpace d in
  if String.eqb d "*" then (true, acc.2) else (acc.1, <[d := true]> acc.2).
Definition allowed (allowedDomains : list string) : bool * gmap string bool :=
  foldl allow (false, ∅) allowedDomains.

Definition buildCORSMiddleware (allowedDomains : list string) (next : handler) : handler := λ r,
  let '(allowAll, allowedSet) := allowed allowedDomains in
  let origin := Http.Origin r in
  let listed := default false (allowedSet !! extractHost origin) in
  (if negb (String.eqb origin "") && (allowAll || listed) then set_allow_origin origin else mret ()) ;;
  if String.eqb (Http.Method r) "OPTIONS" then mret (Return (Reply.mk StatusNoContent None))
  else if negb (String.eqb (Http.Method r) "GET") && negb (String.eqb (Http.Method r) "HEAD") &&
          negb (String.eqb (Http.Method r) "OPTIONS") &&
          (negb (String.eqb origin "") && negb allowAll && negb listed)
  then writeJSONError StatusForbidden "cross-origin request denied"
  else next r.

(** ** The router *)

(** The methods [SetupRoutes] registers each route for. *)
Definition method_of (q : Server.request) : string :=
  match q with
  | Server.DeleteProcess _ => "DELETE"
  | Server.PostReset | Server.PostProcess _ | Server.PostFork _ | Server.PostHugePage _ _ | Server.PostAccess _
  | Server.PostAlgorithm _ | Server.PostRun _ | Server.PostCompare _ | Server.PostSweep _
  | Server.PostFeature _ => "POST"
  | _ => "GET"
  end.

Variable fallback : handler.

Definition router : handler := λ r,
  match Http.Route r with
  | Some q =>
      if String.eqb (Http.Method r) (method_of q)
      then resp <-! on_server (Server.SetupRoutes q);
           mret (Return (Reply.mk (Response.status resp) (Some (Response.content resp))))
      else fallback r
  | None => fallback r
  end.

Definition chain (allowedDomains : list string) : handler :=
  panicRecoveryMiddleware (buildCORSMiddleware allowedDomains (requestBodyLimitMiddleware router)).
End main.
End Main.
