(* ===== verification/MainProps.v ===== *)
(** * Properties of the server's entry point

    Which flags are accepted, that the WebSocket and the HTTP checks of an
    origin agree, and what the chain of middlewares answers. *)

From S2P Require Import Prelude Models Heap FrameTable Policy Algorithms Manager ProcMan ProcManProps Simulator.
From S2P Require Import Hub Monitor Server ServerSteps ServerProps ServerRuns Main.
Local Open Scope Z_scope.

Import Main.

Section main.
Context `{Env : GoEnv} `{Rand : GoRand}.
Implicit Types (f : Flags.t) (r : Http.t) (s : Server.t) (domains : list string) (next fallback : handler).

(** ** Flags *)

Definition acceptable f : bool :=
  (4 <=? Flags.frames f) && (Flags.frames f <=? 1048576) && (1 <=? Flags.tlb f) && (Flags.tlb f <=? 65536) &&
  bool_decide (Flags.algorithm f ∈ ValidAlgorithmNames).

Lemma setup_spec f t0 now :
  if acceptable f
  then ∃ ty, ParseAlgorithmType (Flags.algorithm f) = Some ty ∧
    setup f t0 now = inr ((Server.SetAllowedOrigins (Split (Flags.cors f))
      (Server.NewServer (Flags.frames f) (Flags.tlb f) ty t0 now)).2, Split (Flags.cors f))
  else ∃ e, setup f t0 now = inl e.
Proof.
  unfold acceptable, setup. change (Z.shiftl 1 20) with 1048576.
  pose proof (ParseAlgorithmType_valid (Flags.algorithm f)) as Hv.
  destruct (Z.ltb_spec (Flags.frames f) 4); [rewrite (proj2 (Z.leb_gt 4 _)) by lia; by eexists|].
  destruct (Z.ltb_spec 1048576 (Flags.frames f)).
  { rewrite (proj2 (Z.leb_gt (Flags.frames f) _)) by lia. rewrite andb_false_r. by eexists. }
  destruct (Z.ltb_spec (Flags.tlb f) 1); [rewrite (proj2 (Z.leb_gt 1 _)) by lia; rewrite !andb_false_r; by eexists|].
  destruct (Z.ltb_spec 65536 (Flags.tlb f)).
  { rewrite (proj2 (Z.leb_gt (Flags.tlb f) _)) by lia. rewrite !andb_false_r. by eexists. }
  rewrite (proj2 (Z.leb_le 4 _)), (proj2 (Z.leb_le (Flags.frames f) _)), (proj2 (Z.leb_le 1 _)),
    (proj2 (Z.leb_le (Flags.tlb f) _)) by lia. cbn [orb andb].
  destruct (ParseAlgorithmType (Flags.algorithm f)) as [ty|]; case_bool_decide; try done; [|by eexists].
  exists ty. rewrite i32_small by lia. done.
Qed.

(** ** Origins *)

Definition starred domains : bool := bool_decide ("*" ∈ GoString.TrimSpace <$> domains).
Definition hosts domains : gmap string bool :=
  foldl (λ g d, let d := GoString.TrimSpace d in if String.eqb d "*" then g else <[d := true]> g) ∅ domains.

Lemma starred_cons d domains : starred (d :: domains) = String.eqb (GoString.TrimSpace d) "*" || starred domains.
Proof.
  unfold starred. cbn [fmap list_fmap]. destruct (String.eqb_spec (GoString.TrimSpace d) "*") as [->|Hne]; cbn [orb].
  - apply bool_decide_true. by left.
  - apply bool_decide_ext. rewrite elem_of_cons. naive_solver.
Qed.

Lemma allowed_fold domains a g :
  foldl allow (a, g) domains = (a || starred domains,
    foldl (λ g d, let d := GoString.TrimSpace d in if String.eqb d "*" then g else <[d := true]> g) g domains).
Proof.
  revert a g. induction domains as [|d domains IH]; intros a g; [by rewrite orb_false_r|].
  cbn [foldl]. rewrite starred_cons. unfold allow at 2. cbn zeta.
  destruct (String.eqb _ "*"); rewrite IH; [by rewrite orb_true_r|done].
Qed.

Lemma add_origins_spec domains s :
  Server.allowAllOrigins s = false →
  let s' := Server.add_origins domains s in
  Server.allowAllOrigins s' = starred domains ∧
  (starred domains = false → Server.allowedOrigins s' =
    foldl (λ g d, let d := GoString.TrimSpace d in if String.eqb d "*" then g else <[d := true]> g)
      (Server.allowedOrigins s) domains).
Proof.
  revert s. induction domains as [|d domains IH]; intros s Hs; [done|].
  cbn [Server.add_origins foldl]. rewrite starred_cons. cbn zeta.
  destruct (String.eqb _ "*"); cbn [orb]; [done|]. by apply IH.
Qed.

Lemma add_origins_monitor domains s : Server.monitor (Server.add_origins domains s) = Server.monitor s.
Proof.
  revert s. induction domains as [|d domains IH]; intros s; [done|]. cbn [Server.add_origins].
  destruct (String.eqb _ "*"); [done|]. by rewrite IH.
Qed.

(** The two ways of asking whether a host is allowed. *)
Definition passes domains (origin : string) : bool :=
  starred domains || default false (hosts domains !! extractHost origin).
Lemma CheckOrigin_passes domains s origin :
  Server.allowAllOrigins s = false →
  Server.CheckOrigin origin (Server.SetAllowedOrigins domains s).2 = String.eqb origin "" || passes domains origin.
Proof.
  intros Hs. unfold Server.SetAllowedOrigins, modify. cbn [snd]. set (s1 := s <| Server.allowedOrigins := ∅ |>).
  destruct (add_origins_spec domains s1 Hs) as [Ha Hd]. unfold Server.CheckOrigin, passes. rewrite Ha.
  destruct (starred domains); [by rewrite orb_true_r|]. rewrite (Hd eq_refl). by destruct (String.eqb origin "").
Qed.

Lemma allowed_passes domains : allowed domains = (starred domains, hosts domains).
Proof. unfold allowed. by rewrite allowed_fold. Qed.

Definition safe_method (m : string) : bool := bool_decide (m ∈ ["GET"; "HEAD"; "OPTIONS"]).

(** What the middleware does, in terms of [passes]. *)
Lemma CORS_spec domains next r s h :
  let o := Http.Origin r in
  let h' := if negb (String.eqb o "") && passes domains o then Some o else h in
  buildCORSMiddleware domains next r (s, h) =
  if String.eqb (Http.Method r) "OPTIONS" then (Return (Reply.mk StatusNoContent None), (s, h'))
  else if safe_method (Http.Method r) || (String.eqb o "" || passes domains o) then next r (s, h')
  else (Return (Reply.mk StatusForbidden (Some (BError "cross-origin request denied"))), (s, h')).
Proof.
  intros o h'. unfold buildCORSMiddleware. rewrite allowed_passes. fold o. unfold h', passes.
  set (listed := default false _).
  assert (safe_method (Http.Method r) = String.eqb (Http.Method r) "GET" || String.eqb (Http.Method r) "HEAD" ||
    String.eqb (Http.Method r) "OPTIONS") as ->.
  { unfold safe_method. destruct (String.eqb_spec (Http.Method r) "GET") as [->|]; [done|].
    destruct (String.eqb_spec (Http.Method r) "HEAD") as [->|]; [done|].
    destruct (String.eqb_spec (Http.Method r) "OPTIONS") as [->|]; [done|]. apply bool_decide_false. set_solver. }
  destruct (String.eqb o ""), (starred domains), listed, (String.eqb (Http.Method r) "GET"),
    (String.eqb (Http.Method r) "HEAD"), (String.eqb (Http.Method r) "OPTIONS"); reflexivity.
Qed.

(** C26: The two checks of an origin agree: with the server that [main] makes, a
    request that may change something gets through the CORS middleware exactly if a
    WebSocket with the same [Origin] header would be accepted; otherwise the answer
    is 403, and neither the server nor the router is reached. *)
Theorem origin_checks_agree f t0 now server domains next r s h :
  setup f t0 now = inr (server, domains) → safe_method (Http.Method r) = false →
  buildCORSMiddleware domains next r (s, h) =
  if Server.CheckOrigin (Http.Origin r) server
  then next r (s, if String.eqb (Http.Origin r) "" then h else Some (Http.Origin r))
  else (Return (Reply.mk StatusForbidden (Some (BError "cross-origin request denied"))), (s, h)).
Proof.
  intros Hsetup Hm. pose proof (setup_spec f t0 now) as Hs. destruct (acceptable f); [|destruct Hs; congruence].
  destruct Hs as (ty & _ & Heq). rewrite Heq in Hsetup. apply (inj inr) in Hsetup. apply pair_equal_spec in Hsetup as [<- <-].
  rewrite CheckOrigin_passes by done. rewrite CORS_spec. rewrite Hm. cbn zeta.
  destruct (String.eqb_spec (Http.Method r) "OPTIONS") as [E|_]; [by rewrite E in Hm|].
  destruct (String.eqb (Http.Origin r) ""), (passes _ (Http.Origin r)); reflexivity.
Qed.

Lemma acceptable_spec f : acceptable f = true ↔
  4 ≤ Flags.frames f ≤ 2 ^ 20 ∧ 1 ≤ Flags.tlb f ≤ 65536 ∧ Flags.algorithm f ∈ ValidAlgorithmNames.
Proof. unfold acceptable. rewrite !andb_true_iff, !Z.leb_le, bool_decide_eq_true. change (2 ^ 20) with 1048576. tauto. Qed.

Lemma new_frames_free n tlbSize ty t0 :
  0 ≤ n → let mm := MM.NewMemoryManager n tlbSize ty t0 in
  length (FrameTable.Frames (MM.frameTable mm)) = Z.to_nat n ∧ FrameTable.GetUsedFrames (MM.frameTable mm) (MM.hp mm) = [].
Proof.
  intros Hn. pose proof (FrameTable.wf_NewFrameTable n t0 Hn) as Hw. unfold MM.NewMemoryManager.
  destruct (FrameTable.NewFrameTable n (mk_heap [] t0)) as [ft h]. destruct Hw as ((_ & Hfr & _) & Hsz & Hfree).
  cbn. split; [by rewrite Hfr, length_seq, Hsz|].
  destruct (FrameTable.GetUsedFrames ft _) as [|p l] eqn:Hused; [done|].
  assert (p ∈ p :: l) as Hp by left. rewrite <- Hused in Hp.
  apply FrameTable.elem_of_GetUsedFrames in Hp as [Hp _]. exfalso. revert Hp. unfold frame_of. cbn.
  destruct (frames h !! p) as [fr|] eqn:Hf; [|done]. cbn. unfold Frame.IsFree. by rewrite (proj1 (Hfree p fr Hf)).
Qed.

(** [main] starts a server exactly for frame counts from 4 to 2^20, TLB sizes
    from 1 to 65536 and the names of the algorithms; the server then has that many
    frames, all free, the named algorithm and no process. *)
Theorem setup_accepts f t0 now :
  let valid := 4 ≤ Flags.frames f ≤ 2 ^ 20 ∧ 1 ≤ Flags.tlb f ≤ 65536 ∧ Flags.algorithm f ∈ ValidAlgorithmNames in
  match setup f t0 now with
  | inl _ => ¬ valid
  | inr (server, domains) =>
      let mm := Server.mm_of server in
      valid ∧ domains = Split (Flags.cors f) ∧
      Z.of_nat (length (FrameTable.Frames (MM.frameTable mm))) = Flags.frames f ∧
      FrameTable.GetUsedFrames (MM.frameTable mm) (MM.hp mm) = [] ∧
      GetName (MM.algorithm mm) = Flags.algorithm f ∧ PM.processes (Server.pm_of server) = ∅
  end.
Proof.
  intros valid. pose proof (setup_spec f t0 now) as Hs. pose proof (acceptable_spec f) as Ha. fold valid in Ha.
  destruct (acceptable f).
  - destruct Hs as (ty & Hty & ->). assert valid as Hv by (by apply Ha). cbn zeta.
    set (server := (Server.SetAllowedOrigins _ _).2).
    assert (Server.pm_of server = Server.pm_of (Server.NewServer (Flags.frames f) (Flags.tlb f) ty t0 now)) as Hpm.
    { unfold server, Server.pm_of, Server.SetAllowedOrigins, modify. cbn [snd]. by rewrite add_origins_monitor. }
    unfold Server.mm_of. rewrite Hpm. clearbody server.
    destruct (new_frames_free (Flags.frames f) (Flags.tlb f) ty t0) as [H1 H2]; [unfold valid in Hv; lia|].
    split_and!; try done.
    + change (Z.of_nat (length (FrameTable.Frames (MM.frameTable (MM.NewMemoryManager (Flags.frames f) (Flags.tlb f) ty t0)))) = Flags.frames f).
      rewrite H1. unfold valid in Hv. lia.
    + rewrite (ParseAlgorithmType_name _ _ Hty). apply (new_algorithm_name (Flags.frames f) ty).
  - destruct Hs as [e ->]. intros Hv. apply Ha in Hv. done.
Qed.
(** ** The chain *)

(** The request as the router gets it, the body being readable up to the limit. *)
Definition received r (q : Server.request) : Server.request :=
  if (MaxRequestBodyBytes <? Http.Bytes r)%N then unreadable q else q.

Lemma method_of_unreadable q : method_of (unreadable q) = method_of q.
Proof. by destruct q. Qed.

Lemma limited_spec r q :
  Http.Route r = Some q →
  let r' := limited MaxRequestBodyBytes r in
  Http.Route r' = Some (received r q) ∧ Http.Method r' = Http.Method r ∧ method_of (received r q) = method_of q.
Proof.
  intros Hr. unfold limited, received. destruct (_ <? _)%N; [|done].
  cbn. rewrite Hr. split_and!; [done..|apply method_of_unreadable].
Qed.

Lemma setup_live f t0 now server domains l s :
  setup f t0 now = inr (server, domains) → (N.of_nat (length l) < 2 ^ 62)%N →
  run_server l server = (Return (), s) →
  live (Flags.frames f) s ∧ (next s + 2 < 2 ^ 64)%N ∧
  ∀ o, Server.CheckOrigin o server = String.eqb o "" || passes domains o.
Proof.
  intros Hsetup Hl Hrun. pose proof (setup_spec f t0 now) as Hs. pose proof (acceptable_spec f) as Ha.
  destruct (acceptable f); [|destruct Hs; congruence]. destruct (proj1 Ha eq_refl) as (Hn & _).
  destruct Hs as (ty & _ & Heq). rewrite Heq in Hsetup.
  apply (inj inr) in Hsetup. apply pair_equal_spec in Hsetup as [<- <-].
  destruct (live_new (Flags.frames f) (Flags.tlb f) ty t0 now) as [Hnew Hnext]; [lia|].
  set (new := Server.NewServer _ _ _ _ _) in *. set (new' := new <| Server.allowedOrigins := ∅ |>).
  assert (live (Flags.frames f) new') as Hnew' by (by destruct Hnew).
  destruct (add_origins_live (Flags.frames f) (Split (Flags.cors f)) new' Hnew') as [H1 H2].
  change (next new') with (next new) in H2.
  destruct (run_live (Flags.frames f) l _ s H1) as [H3 H4]; [rewrite H2, Hnext; lia|exact Hrun|].
  rewrite H2, Hnext in H4. split_and!; [done|lia|]. intros o. by apply CheckOrigin_passes.
Qed.

(** The handler a request is routed to: its path and its method are registered. *)
Definition routed r : option Server.request :=
  q ← Http.Route r; if String.eqb (Http.Method r) (method_of q) then Some q else None.

(** The header that lets a browser read the answer. *)
Definition allow_header (server : Server.t) o : option string :=
  if negb (String.eqb o "") && Server.CheckOrigin o server then Some o else None.

(** What the recovery makes of a run of a handler. *)
Definition recovered (run : outcome Reply.t * exchange) : outcome Reply.t * exchange :=
  match run.1 with
  | Panic => (Return (Reply.mk StatusInternalServerError (Some (BError "internal server error"))), run.2)
  | _ => run
  end.

Lemma router_unrouted fallback r x :
  routed r = None → router fallback (limited MaxRequestBodyBytes r) x = fallback (limited MaxRequestBodyBytes r) x.
Proof.
  unfold routed, router. destruct (Http.Route r) as [q|] eqn:Hr; simpl.
  - destruct (limited_spec r q Hr) as (-> & -> & ->). by destruct (String.eqb _ _).
  - unfold limited. destruct (_ <? _)%N; simpl; by rewrite Hr.
Qed.

Lemma router_routed n fallback r q s h :
  live n s → (next s + 2 < 2 ^ 64)%N → routed r = Some q →
  ∃ c s', router fallback (limited MaxRequestBodyBytes r) (s, h) =
      (Return (Reply.mk (expected (received r q) s) (Some c)), (s', h)) ∧
    (400 ≤ expected (received r q) s → s' = s).
Proof.
  intros Hs Hroom. unfold routed. destruct (Http.Route r) as [q'|] eqn:Hr; simpl; [|done].
  destruct (String.eqb _ _) eqn:Hm; [|done]. intros [= ->].
  unfold router. destruct (limited_spec r q Hr) as (-> & -> & ->). rewrite Hm.
  assert (answered n (received r q) s) as Ha by (apply answers; [done|lia]). unfold answered in Ha.
  unfold bind_outcome, on_server, mbind, M_bind. cbn [fst snd].
  destruct (Server.SetupRoutes (received r q) s) as [o' s']. destruct Ha as (_ & _ & resp & -> & Hst & Hsame).
  exists (Response.content resp), s'. cbn. by rewrite Hst in *.
Qed.

(** C25: What the server started by [main] answers over HTTP, at any point of a
    run, to any request.  A preflight gets 204; a request that may change something
    gets 403 if it comes from an origin that may not open a WebSocket; a request
    for a registered route and method gets what its handler answers, a body of
    more than 1 MiB counting as one that does not decode, and changes nothing if
    it is refused; anything else gets the answer of the router library, a panic
    becoming a 500.  The header that lets a browser read the answer names exactly
    the allowed origins. *)
Theorem chain_answers fallback f t0 now server domains l s r :
  setup f t0 now = inr (server, domains) → (N.of_nat (length l) < 2 ^ 62)%N →
  run_server l server = (Return (), s) →
  let o := Http.Origin r in
  let header := allow_header server o in
  let run := chain fallback domains r (s, None) in
  if String.eqb (Http.Method r) "OPTIONS" then run = (Return (Reply.mk StatusNoContent None), (s, header))
  else if negb (safe_method (Http.Method r)) && negb (Server.CheckOrigin o server)
  then run = (Return (Reply.mk StatusForbidden (Some (BError "cross-origin request denied"))), (s, header))
  else match routed r with
       | Some q => ∃ c s', run = (Return (Reply.mk (expected (received r q) s) (Some c)), (s', header)) ∧
                     (400 ≤ expected (received r q) s → s' = s)
       | None => run = recovered (fallback (limited MaxRequestBodyBytes r) (s, header))
       end.
Proof.
  intros Hsetup Hl Hrun o header run. destruct (setup_live _ _ _ _ _ _ _ Hsetup Hl Hrun) as (Hs & Hroom & Ho).
  assert (run = recovered (buildCORSMiddleware domains (requestBodyLimitMiddleware (router fallback)) r (s, None))) as ->.
  { unfold run, chain, panicRecoveryMiddleware, recovered, mbind, M_bind.
    by destruct (buildCORSMiddleware _ _ _ _) as [[| |] ?]. }
  assert ((if negb (String.eqb o "") && passes domains o then Some o else None) = header) as Hh.
  { unfold header, allow_header. rewrite Ho. by destruct (String.eqb o ""), (passes domains o). }
  rewrite CORS_spec. cbn zeta. fold o. rewrite Hh, Ho.
  destruct (String.eqb (Http.Method r) "OPTIONS"); [done|].
  destruct (safe_method (Http.Method r) || _) eqn:Hok.
  - rewrite <- negb_orb, Hok. cbn [negb]. unfold requestBodyLimitMiddleware. destruct (routed r) as [q|] eqn:Hq.
    + destruct (router_routed (Flags.frames f) fallback r q s header Hs Hroom Hq) as (c & s' & -> & Hsame). by exists c, s'.
    + by rewrite router_unrouted.
  - by rewrite <- negb_orb, Hok.
Qed.
End main.

(** ** Examples *)

#[local] Existing Instance first_env.
#[local] Existing Instance lcg_rand.

Definition sample_flags : Flags.t := Flags.mk 8 4 "CLOCK" "localhost, example.org".
Definition sample_domains : list string := ["localhost"; " example.org"].
Definition sample_server : Server.t :=
  (Server.SetAllowedOrigins sample_domains (Server.NewServer 8 4 AlgorithmCLOCK 0 7)).2.
Lemma sample_setup : setup sample_flags 0 7 = inr (sample_server, sample_domains).
Proof.
  pose proof (setup_spec sample_flags 0 7) as H. assert (acceptable sample_flags = true) as E by (vm_compute; reflexivity).
  rewrite E in H. destruct H as (ty & Hty & ->). vm_compute in Hty. injection Hty as <-.
  assert (Split (Flags.cors sample_flags) = sample_domains) as -> by (vm_compute; reflexivity). reflexivity.
Qed.

Definition post_from (origin : string) : Http.t :=
  Http.mk "POST" origin 40 (Some (Server.PostProcess (Some (CreateReq.mk "editor" 3 16)))).

Definition not_found : handler := λ _, writeJSONError 404 "not found".

Lemma origin_checks_agree_witness :
  (buildCORSMiddleware sample_domains not_found (post_from "https://example.org:8443") (sample_server, None)).2 =
    (sample_server, Some "https://example.org:8443") ∧
  buildCORSMiddleware sample_domains not_found (post_from "https://example.com") (sample_server, None) =
    (Return (Reply.mk StatusForbidden (Some (BError "cross-origin request denied"))), (sample_server, None)).
Proof.
  split.
  - rewrite (@origin_checks_agree first_env lcg_rand sample_flags 0 7 sample_server sample_domains not_found
      (post_from "https://example.org:8443") sample_server None sample_setup eq_refl). reflexivity.
  - rewrite (@origin_checks_agree first_env lcg_rand sample_flags 0 7 sample_server sample_domains not_found
      (post_from "https://example.com") sample_server None sample_setup eq_refl). reflexivity.
Defined.

Definition sample_prefix : list action := [Request (Server.PostRun (Some "looping")); EventRound; Simulate].
Definition sample_later : Server.t := (run_server sample_prefix sample_server).2.
Lemma sample_later_run : run_server sample_prefix sample_server = (Return (), sample_later).
Proof.
  assert ((run_server sample_prefix sample_server).1 = Return ()) as H by (vm_compute; reflexivity).
  unfold sample_later. exact (run_returned (run_server sample_prefix) _ (Return ()) H).
Qed.

(** A body that is too long, from an allowed origin. *)
Definition oversized : Http.t :=
  Http.mk "POST" "http://localhost:5173" (2 ^ 21) (Some (Server.PostProcess (Some (CreateReq.mk "editor" 3 16)))).
Lemma oversized_expected :
  expected (received oversized (Server.PostProcess (Some (CreateReq.mk "editor" 3 16)))) sample_later = 400 ∧
  negb (safe_method "POST") && negb (Server.CheckOrigin "http://localhost:5173" sample_server) = false ∧
  allow_header sample_server "http://localhost:5173" = Some "http://localhost:5173".
Proof. split_and!; vm_compute; reflexivity. Qed.

Lemma chain_answers_witness :
  ∃ c, chain not_found sample_domains oversized (sample_later, None) =
    (Return (Reply.mk 400 (Some c)), (sample_later, Some "http://localhost:5173")).
Proof.
  pose proof (@chain_answers first_env lcg_rand not_found sample_flags 0 7 sample_server sample_domains
    sample_prefix sample_later oversized sample_setup ltac:(simpl; lia) sample_later_run) as H.
  destruct oversized_expected as (He & Hd & Hh). cbv zeta in H.
  change (Http.Origin oversized) with "http://localhost:5173" in H. change (Http.Method oversized) with "POST" in H.
  change (String.eqb "POST" "OPTIONS") with false in H. rewrite Hd, Hh in H.
  change (routed oversized) with (Some (Server.PostProcess (Some (CreateReq.mk "editor" 3 16)))) in H.
  destruct H as (c & s' & Hrun & Hsame). rewrite He in Hrun, Hsame. rewrite (Hsame ltac:(lia)) in Hrun.
  exists c. exact Hrun.
Defined.

(** The host of an IPv6 origin is cut at its first colon. *)
Example ipv6_origin_loses_host : extractHost "http://[::1]:3000" = "["%string ∧ extractWSHost "http://[::1]:3000" = "["%string.
Proof. split; vm_compute; reflexivity. Qed.

(** Narrowing the origins after a star does not take the star back. *)
Example star_is_never_cleared :
  let s := (Server.SetAllowedOrigins ["localhost"] (Server.SetAllowedOrigins ["*"] sample_server).2).2 in
  Server.CheckOrigin "https://example.com" s = true.
Proof. vm_compute. reflexivity. Qed.
