(* ===== verification/Cli.v ===== *)
(** * The command line: [cmd/cli/main.go]

    A run takes the parsed flags and ends in what it prints on standard output,
    in the message of [log.Fatalf], or in a panic.  JSON output is the value that
    is encoded; CSV and text are rows of fields, each the value that its verb
    formats ([%.6f] and the like), without the padding of columns. *)

From S2P Require Import Prelude Models Heap Policy Algorithms Manager ProcMan Simulator.
Local Open Scope Z_scope.

Module Options.
Record t := mk {
  frames : Z; tlb : Z; algorithm : string; scenario : string; compare : bool; framesSweep : string;
  frameMin : Z; frameMax : Z; output : string;
}.
End Options.

Module Cli.

(** ** What is printed *)

Inductive field : Type :=
| Text (s : string)
| Int (z : Z)
| Fixed (digits : nat) (x : f64)
| Elapsed (ns : Z).
Definition line : Type := list field.

Inductive document : Type :=
| Result (r : ScenarioResult.t)
| Comparison (l : list AlgorithmResult.t)
| Curve (l : list FrameCountResult.t).

Inductive output : Type :=
| JSON (d : document)
| CSV (rows : list line)
| Lines (ls : list line).

Inductive ending : Type :=
| Printed (o : output)
| Fatal (msg : string) (e : option error)
| Crashed.

(** [time.Duration.Round], away from zero at halves. *)
Definition Round (d m : Z) : Z :=
  let r := Z.rem d m in
  if d <? 0 then (if (- r) + (- r) <? m then d - r else d - m - r)
  else (if r + r <? m then d - r else d + m - r).

(** [%.2f%%] of [rate*100] *)
Definition percent (rate : f64) : line := [Fixed 2 (f64_mul rate (f64_of_Z 100)); Text "%"].

Section cli.
Context `{Env : GoEnv} `{Rand : GoRand}.

(** [None] is the end by [log.Fatalf]. *)
Definition parseAlgo (name : string) : option AlgorithmType :=
  if String.eqb name "LRU" then Some AlgorithmLRU
  else if String.eqb name "CLOCK" then Some AlgorithmCLOCK
  else if String.eqb name "LFU" then Some AlgorithmLFU
  else if String.eqb name "FIFO" then Some AlgorithmFIFO
  else if String.eqb name "Optimal" then Some AlgorithmOptimal
  else if String.eqb name "Random" then Some AlgorithmRandom
  else if String.eqb name "ARC" then Some AlgorithmARC
  else if String.eqb name "CAR" then Some AlgorithmCAR
  else if String.eqb name "WSClock" then Some AlgorithmWSClock
  else if String.eqb name "PFF" then Some AlgorithmPFF
  else if String.eqb name "OPT+" then Some AlgorithmOPTPlus
  else if String.eqb name "NRU" then Some AlgorithmNRU
  else None.

(** ** One scenario *)

Definition single_header : line :=
  [Text "scenario"; Text "algorithm"; Text "duration_ns"; Text "faults"; Text "hits"; Text "fault_rate";
   Text "hit_rate"; Text "evictions"].
Definition single_row (scenario algo : string) (result : ScenarioResult.t) (m : MetricsSnapshot.t) : line :=
  [Text scenario; Text algo; Int (ScenarioResult.Duration result); Int (MetricsSnapshot.PageFaults m);
   Int (MetricsSnapshot.PageHits m); Fixed 6 (MetricsSnapshot.PageFaultRate m);
   Fixed 6 (MetricsSnapshot.PageHitRate m); Int (MetricsSnapshot.Evictions m)].

Definition single_lines (algo scenario : string) (numFrames tlbSize : Z) (result : ScenarioResult.t) : list line :=
  [ [Text "========================================"];
    [Text "Page Replacement Simulator + CoW"];
    [Text "========================================"];
    [Text "Frames: "; Int numFrames; Text " | TLB: "; Int tlbSize; Text " | Algorithm: "; Text algo;
     Text " | Scenario: "; Text scenario];
    [Text "========================================"];
    []; [Text "Duration: "; Elapsed (ScenarioResult.Duration result)] ] ++
  match ScenarioResult.Metrics result with
  | None => []
  | Some m =>
      [ []; [Text "  Accesses : "; Int (MetricsSnapshot.TotalAccesses m)];
        [Text "  Faults   : "; Int (MetricsSnapshot.PageFaults m); Text "  ("] ++
          percent (MetricsSnapshot.PageFaultRate m) ++ [Text ")"];
        [Text "  Hits     : "; Int (MetricsSnapshot.PageHits m); Text "  ("] ++
          percent (MetricsSnapshot.PageHitRate m) ++ [Text ")"];
        [Text "  Evictions: "; Int (MetricsSnapshot.Evictions m)];
        []; [Text "  Frames   : "; Int (MetricsSnapshot.UsedFrames m); Text " used / ";
             Int (MetricsSnapshot.TotalFrames m); Text " total"] ] ++
      (if 0 <? MetricsSnapshot.CoWCopies m
       then [[Text "  CoW copies created: "; Int (MetricsSnapshot.CoWCopies m); Text "  avoided: ";
              Int (MetricsSnapshot.CoWSaves m)]] else [])
  end ++
  [ [Text "========================================"] ].

(** [now] is the time the simulator is seeded with, [t0] where the environment stands. *)
Definition runSingle (algo scenario : string) (numFrames tlbSize : Z) (outputFmt : string) (t0 : nat) (now : Z)
    : ending :=
  match parseAlgo algo with
  | None => Fatal "Invalid algorithm" None
  | Some algType =>
      let mm := MM.NewMemoryManager numFrames tlbSize algType t0 in
      let sim := Sim.NewSimulator now (PM.NewProcessManager mm) in
      match (Sim.RunScenario scenario sim).1 with
      | Return (result, None) =>
          if String.eqb outputFmt "json" then Printed (JSON (Result result))
          else if String.eqb outputFmt "csv" then
            match ScenarioResult.Metrics result with
            | None => Crashed
            | Some m => Printed (CSV [single_header; single_row scenario algo result m])
            end
          else Printed (Lines (single_lines algo scenario numFrames tlbSize result))
      | Return (_, Some e) | Fail e => Fatal "Scenario failed" (Some e)
      | Panic => Crashed
      end
  end.

(** ** All algorithms *)

Definition comparison_header : line :=
  [Text "rank"; Text "algorithm"; Text "fault_rate"; Text "hit_rate"; Text "faults"; Text "hits";
   Text "evictions"; Text "cow_copies"; Text "duration_ns"].
Definition comparison_row (r : AlgorithmResult.t) : line :=
  [Int (AlgorithmResult.Rank r); Text (AlgorithmResult.Algorithm r); Fixed 6 (AlgorithmResult.FaultRate r);
   Fixed 6 (AlgorithmResult.HitRate r); Int (AlgorithmResult.PageFaults r); Int (AlgorithmResult.PageHits r);
   Int (AlgorithmResult.Evictions r); Int (AlgorithmResult.CoWCopies r); Int (AlgorithmResult.Duration r)].

Definition comparison_line (best : f64) (r : AlgorithmResult.t) : line :=
  let marker := if f64_eqb (AlgorithmResult.FaultRate r) best then " ★"%string else ""%string in
  [Text "#"; Int (AlgorithmResult.Rank r); Text (AlgorithmResult.Algorithm r)] ++
  percent (AlgorithmResult.FaultRate r) ++ percent (AlgorithmResult.HitRate r) ++
  [Int (AlgorithmResult.PageFaults r); Int (AlgorithmResult.Evictions r); Int (AlgorithmResult.CoWCopies r);
   Elapsed (Round (AlgorithmResult.Duration r) (1 * 1000 * 1000)); Text marker].
Definition comparison_lines (scenario : string) (numFrames tlbSize : Z) (results : list AlgorithmResult.t)
    : list line :=
  [ [Text "======================================================================="];
    [Text "Algorithm Comparison: scenario="; Text scenario; Text "  frames="; Int numFrames; Text "  tlb=";
     Int tlbSize];
    [Text "======================================================================="];
    [Text "Running all 12 algorithms with the same workload seed..."] ] ++
  match results with
  | [] => [ [Text "No results (all algorithms errored)."] ]
  | first :: _ =>
      [ []; [Text "Rank"; Text "Algorithm"; Text "FaultRate%"; Text "HitRate%"; Text "Faults"; Text "Evictions";
             Text "CoW"; Text "Time"];
        [Text "----  ----------  ----------  ----------  --------  ---------  -------  --------"] ] ++
      (comparison_line (AlgorithmResult.FaultRate first) <$> results) ++
      [ [Text "======================================================================="];
        [Text "Winner: "; Text (AlgorithmResult.Algorithm first); Text " (fault rate "] ++
          percent (AlgorithmResult.FaultRate first) ++ [Text " on '"; Text scenario; Text "' scenario)"] ]
  end.

Definition runComparison (scenario : string) (numFrames tlbSize : Z) (outputFmt : string) (t0 : nat) (now : Z)
    : ending :=
  let mm0 := MM.NewMemoryManager numFrames tlbSize AlgorithmLRU t0 in
  let seedSim := Sim.NewSimulator now (PM.NewProcessManager mm0) in
  match (Sim.CompareAlgorithms scenario numFrames tlbSize seedSim (tick (MM.hp mm0))).1 with
  | Return results =>
      if String.eqb outputFmt "json" then Printed (JSON (Comparison results))
      else if String.eqb outputFmt "csv" then Printed (CSV (comparison_header :: (comparison_row <$> results)))
      else Printed (Lines (comparison_lines scenario numFrames tlbSize results))
  | Fail e => Fatal "Comparison failed" (Some e)
  | Panic => Crashed
  end.

(** ** A range of frame counts *)

(** The loop, with the points that may still be added as fuel; [curr * 2] wraps. *)
Fixpoint doubling (max curr : Z) (points : nat) : list Z :=
  match points with
  | O => []
  | S points =>
      if curr <? max then
        let next := i32 (curr * 2) in
        let next := if max <? next then max else next in
        next :: doubling max next points
      else []
  end.
Definition geometricRange (min max : Z) (maxPoints : Z) : list Z :=
  min :: doubling max min (Z.to_nat (maxPoints - 1)).

Definition curve_header : line :=
  [Text "num_frames"; Text "algorithm"; Text "fault_rate"; Text "hit_rate"; Text "faults"; Text "hits";
   Text "evictions"].
Definition curve_row (r : FrameCountResult.t) : line :=
  [Int (FrameCountResult.NumFrames r); Text (FrameCountResult.Algorithm r); Fixed 6 (FrameCountResult.FaultRate r);
   Fixed 6 (FrameCountResult.HitRate r); Int (FrameCountResult.PageFaults r); Int (FrameCountResult.PageHits r);
   Int (FrameCountResult.Evictions r)].
Definition curve_line (r : FrameCountResult.t) : line :=
  [Int (FrameCountResult.NumFrames r)] ++ percent (FrameCountResult.FaultRate r) ++
  percent (FrameCountResult.HitRate r) ++ [Int (FrameCountResult.PageFaults r); Int (FrameCountResult.Evictions r)].
Definition curve_lines (algo scenario : string) (tlbSize : Z) (results : list FrameCountResult.t) : list line :=
  [ [Text "================================================================"];
    [Text "Belady Curve: algorithm="; Text algo; Text "  scenario="; Text scenario; Text "  tlb="; Int tlbSize];
    [Text "================================================================"];
    [Text "Frames"; Text "FaultRate%"; Text "HitRate%"; Text "Faults"; Text "Evictions"];
    [Text "----------  ----------  ----------  --------  ---------"] ] ++
  (curve_line <$> results) ++
  [ [Text "================================================================"] ].

(** The bounds of the sweep; [frameMin * 8] wraps. *)
Definition curve_bounds (frameMin frameMax : Z) : Z * Z :=
  let frameMin := if frameMin <? 2 then 2 else frameMin in
  (frameMin, if frameMax <=? frameMin then i32 (frameMin * 8) else frameMax).
Definition runFramesSweep (algo scenario : string) (frameMin frameMax tlbSize : Z) (outputFmt : string)
    (t0 : nat) (now : Z) : ending :=
  let '(frameMin, frameMax) := curve_bounds frameMin frameMax in
  let mm0 := MM.NewMemoryManager frameMin tlbSize AlgorithmLRU t0 in
  let seedSim := Sim.NewSimulator now (PM.NewProcessManager mm0) in
  let frameCounts := geometricRange frameMin frameMax 12 in
  match (Sim.CompareFrameCounts scenario algo frameCounts tlbSize seedSim (tick (MM.hp mm0))).1 with
  | Return results =>
      if String.eqb outputFmt "json" then Printed (JSON (Curve results))
      else if String.eqb outputFmt "csv" then Printed (CSV (curve_header :: (curve_row <$> results)))
      else Printed (Lines (curve_lines algo scenario tlbSize results))
  | Fail e => Fatal "Frame count sweep failed" (Some e)
  | Panic => Crashed
  end.

Definition main (o : Options.t) (t0 : nat) (now : Z) : ending :=
  if negb (String.eqb (Options.framesSweep o) "") then
    runFramesSweep (Options.framesSweep o) (Options.scenario o) (i32 (Options.frameMin o)) (i32 (Options.frameMax o))
      (Options.tlb o) (Options.output o) t0 now
  else if Options.compare o then
    runComparison (Options.scenario o) (i32 (Options.frames o)) (Options.tlb o) (Options.output o) t0 now
  else
    runSingle (Options.algorithm o) (Options.scenario o) (i32 (Options.frames o)) (Options.tlb o) (Options.output o)
      t0 now.
End cli.
End Cli.
