(* ===== verification/Sweeps.v ===== *)
(** * Frame counts of a sweep

    [geometricFrameRange] of the API and [geometricRange] of the command line
    compute the same doublings while nothing wraps, and a sweep reports one result
    for each of them. *)

From S2P Require Import Prelude Models Heap FrameTable Policy Algorithms Manager ProcMan.
From S2P Require Import Simulator SimulatorSteps SimulatorRuns SimulatorProps Hub Monitor Server ServerSteps ServerProps Cli.
Local Open Scope Z_scope.

(** ** Doublings *)

(** Both loops, on integers that do not wrap. *)
Fixpoint doublings (hi curr : Z) (points : nat) : list Z :=
  match points with
  | O => []
  | S points => if curr <? hi then Z.min (curr * 2) hi :: doublings hi (Z.min (curr * 2) hi) points else []
  end.

Lemma next_min curr hi : (if hi <? curr * 2 then hi else curr * 2) = Z.min (curr * 2) hi.
Proof. destruct (Z.ltb_spec hi (curr * 2)); lia. Qed.

Lemma geometric_doublings hi curr points :
  1 ≤ curr ≤ hi → hi < 2 ^ 31 → geometric hi curr points = doublings hi curr points.
Proof.
  intros Hc Hh. revert curr Hc. induction points as [|p IH]; intros curr Hc; [done|].
  cbn [geometric doublings]. destruct (Z.ltb_spec curr hi); [|done].
  rewrite i64_small by lia. cbn zeta. rewrite next_min. rewrite i32_small by lia. by rewrite IH by lia.
Qed.
Lemma cli_doublings hi curr points :
  1 ≤ curr ≤ hi → hi ≤ 2 ^ 30 → Cli.doubling hi curr points = doublings hi curr points.
Proof.
  intros Hc Hh. revert curr Hc. induction points as [|p IH]; intros curr Hc; [done|].
  cbn [Cli.doubling doublings]. destruct (Z.ltb_spec curr hi); [|done].
  rewrite i32_small by lia. cbn zeta. rewrite next_min. by rewrite IH by lia.
Qed.

Lemma doublings_length hi curr points : (length (doublings hi curr points) ≤ points)%nat.
Proof.
  revert curr. induction points as [|p IH]; intros curr; simpl; [lia|]. destruct (_ <? _); simpl; [|lia].
  specialize (IH (Z.min (curr * 2) hi)). lia.
Qed.

Lemma doublings_lookup hi curr points i x :
  1 ≤ curr ≤ hi → (curr :: doublings hi curr points) !! i = Some x → x = Z.min (curr * 2 ^ Z.of_nat i) hi.
Proof.
  revert curr points. induction i as [|i IH]; intros curr points Hc; [intros [= <-]; lia|].
  destruct points as [|p]; [done|]. cbn [doublings]. destruct (Z.ltb_spec curr hi); [|done].
  intros Hx. rewrite (IH (Z.min (curr * 2) hi) p ltac:(lia) Hx).
  replace (Z.of_nat (S i)) with (Z.of_nat i + 1) by lia. rewrite Z.pow_add_r by lia.
  assert (1 ≤ 2 ^ Z.of_nat i) by (pose proof (Z.pow_pos_nonneg 2 (Z.of_nat i)); lia). nia.
Qed.

(** The loop stops early only at the end of the range. *)
Lemma doublings_last hi curr points :
  1 ≤ curr ≤ hi → (length (doublings hi curr points) < points)%nat →
  last (curr :: doublings hi curr points) = Some hi.
Proof.
  revert curr. induction points as [|p IH]; intros curr Hc; simpl; [lia|].
  destruct (Z.ltb_spec curr hi).
  - simpl. intros Hlen. change (last (Z.min (curr * 2) hi :: doublings hi (Z.min (curr * 2) hi) p) = Some hi).
    apply IH; lia.
  - intros _. cbn. f_equal. lia.
Qed.

(** [l] is [lo] and its doublings up to [hi], at most [k] of them. *)
Definition covers (lo hi : Z) (k : nat) (l : list Z) : Prop :=
  (1 ≤ length l ≤ k)%nat ∧
  (∀ i x, l !! i = Some x → x = Z.min (lo * 2 ^ Z.of_nat i) hi) ∧
  (length l = k ∨ last l = Some hi).

Lemma doublings_cover lo hi points : 1 ≤ lo ≤ hi → covers lo hi (S points) (lo :: doublings hi lo points).
Proof.
  intros Hlo. pose proof (doublings_length hi lo points). split; [simpl; lia|split].
  - intros i x. by apply doublings_lookup.
  - destruct (decide (length (doublings hi lo points) = points)); [left; simpl; lia|].
    right. apply doublings_last; lia.
Qed.

Lemma covers_range lo hi k l : 1 ≤ lo ≤ hi → covers lo hi k l → Forall (λ x, lo ≤ x ≤ hi) l.
Proof.
  intros Hlo (_ & Hl & _). apply Forall_lookup. intros i x Hx. rewrite (Hl i x Hx).
  assert (1 ≤ 2 ^ Z.of_nat i) by (pose proof (Z.pow_pos_nonneg 2 (Z.of_nat i)); lia). nia.
Qed.

(** In their ranges the two functions for frame counts agree: each gives
    [min], then twice the count before, and ends with [max] unless it stops at
    [maxPoints] counts. *)
Theorem frame_ranges_agree min max maxPoints :
  1 ≤ min ≤ max → max ≤ 2 ^ 30 → 1 ≤ maxPoints →
  Cli.geometricRange min max maxPoints = geometricFrameRange min max maxPoints ∧
  covers min max (Z.to_nat maxPoints) (geometricFrameRange min max maxPoints).
Proof.
  intros Hmin Hmax Hk. unfold Cli.geometricRange, geometricFrameRange.
  rewrite cli_doublings, geometric_doublings by lia. split; [done|].
  replace (Z.to_nat maxPoints) with (S (Z.to_nat (maxPoints - 1))) by lia. by apply doublings_cover.
Qed.

(** The command line's function wraps where the API's does not. *)
Example command_line_range_wraps :
  Cli.geometricRange (3 * 2 ^ 29) (2 ^ 31 - 1) 3 = [3 * 2 ^ 29; - 2 ^ 30; - 2 ^ 31] ∧
  geometricFrameRange (3 * 2 ^ 29) (2 ^ 31 - 1) 3 = [3 * 2 ^ 29; 2 ^ 31 - 1].
Proof. split; reflexivity. Qed.

(** ** Sweeps *)

Section sweeps.
Context `{Env : GoEnv} `{Rand : GoRand}.

Lemma sweep_bounds_spec frameMin frameMax :
  - 2 ^ 31 ≤ frameMin < 65536 → - 2 ^ 31 ≤ frameMax < 2 ^ 31 →
  let lo := Z.max 2 frameMin in
  let hi := Z.min 65536 (if frameMax <=? lo then 8 * lo else frameMax) in
  Server.sweep_bounds frameMin frameMax = (lo, hi) ∧ 2 ≤ lo < hi ∧ hi ≤ 65536.
Proof.
  intros Hmin Hmax lo hi. unfold Server.sweep_bounds.
  assert ((if frameMin <? 2 then 2 else frameMin) = lo) as -> by (destruct (Z.ltb_spec frameMin 2); lia).
  unfold hi. destruct (Z.leb_spec frameMax lo).
  - rewrite i32_small by lia. split; [|lia]. f_equal. destruct (Z.ltb_spec 65536 (lo * 8)); lia.
  - split; [|lia]. f_equal. destruct (Z.ltb_spec 65536 frameMax); lia.
Qed.

(** The bound on [FrameMax] does not hold for [FrameMin], and [FrameMin * 8] wraps. *)
Example sweep_bounds_wrap : Server.sweep_bounds (2 ^ 30) 0 = (2 ^ 30, 0).
Proof. reflexivity. Qed.

(** C27: A sweep through the API of a known algorithm and scenario, from fewer than
    65536 frames, reports one result for each of at most ten frame counts: the
    minimum (at least 2) and its doublings, up to the maximum asked for (by default
    eight times the minimum), which is capped at 65536; and in each result every
    access of the scenario is a fault or a hit. *)
Theorem sweep_reports_doublings s b :
  let name := if String.eqb (SweepReq.Algorithm b) "" then "LRU"%string else SweepReq.Algorithm b in
  let scenario := if String.eqb (SweepReq.Scenario b) "" then "mixed"%string else SweepReq.Scenario b in
  let lo := Z.max 2 (SweepReq.FrameMin b) in
  let hi := Z.min 65536 (if SweepReq.FrameMax b <=? lo then 8 * lo else SweepReq.FrameMax b) in
  name ∈ ValidAlgorithmNames → scenario ∈ Sim.GetAvailableScenarios →
  - 2 ^ 31 ≤ SweepReq.FrameMin b < 65536 → - 2 ^ 31 ≤ SweepReq.FrameMax b < 2 ^ 31 →
  ∃ accs rs, Sim.precomputeAccesses scenario (Server.simulator s) = Return accs ∧
    (Server.HandleFrameCountSweep (Some b) s).1 = Return (Response.mk StatusOK (BSweep rs)) ∧
    covers lo hi 10 (FrameCountResult.NumFrames <$> rs) ∧
    Forall (λ r, FrameCountResult.Algorithm r = name ∧
      0 ≤ FrameCountResult.PageFaults r ∧ 0 ≤ FrameCountResult.PageHits r ∧
      FrameCountResult.PageFaults r + FrameCountResult.PageHits r = Z.of_nat (length accs)) rs.
Proof.
  intros name scenario lo hi Hname Hin Hmin Hmax.
  destruct (sweep_bounds_spec _ _ Hmin Hmax) as (Hb & Hlo & Hhi). fold lo in Hb, Hlo, Hhi. fold hi in Hb, Hlo, Hhi.
  assert (covers lo hi 10 (geometricFrameRange lo hi 10)) as Hcov.
  { unfold geometricFrameRange. rewrite geometric_doublings by lia. apply (doublings_cover lo hi 9). lia. }
  assert (Forall (λ n, 0 < n < 2 ^ 30) (geometricFrameRange lo hi 10)) as Hall.
  { eapply Forall_impl; [eapply (covers_range lo hi); [lia|exact Hcov]|]. simpl. lia. }
  set (tlb := if SweepReq.TLB b <=? 0 then 16 else SweepReq.TLB b).
  destruct (CompareFrameCounts_complete scenario name _ tlb (Server.simulator s) (tick (MM.hp (Server.mm_of s))) Hall Hin Hname)
    as (accs & rs & Hpre & Hrs & Hframes & Hres).
  exists accs, rs. split_and!; [done| |by rewrite Hframes|done].
  unfold Server.HandleFrameCountSweep, Server.decoded. fold name scenario. rewrite Hb. fold tlb.
  rewrite run_gets. unfold Server.on_env. rewrite run_server_mm. unfold MM.on_heap.
  destruct (Sim.CompareFrameCounts _ _ _ _ _ _) as [o k]. cbn [fst snd] in *. by subst o.
Qed.
End sweeps.

(** ** Examples *)

#[local] Existing Instance first_env.
#[local] Existing Instance lcg_rand.

Lemma frame_ranges_agree_witness :
  Cli.geometricRange 3 40 12 = geometricFrameRange 3 40 12 ∧ geometricFrameRange 3 40 12 = [3; 6; 12; 24; 40].
Proof.
  split; [|reflexivity].
  apply (frame_ranges_agree 3 40 12); lia.
Defined.

Definition sample_sweep : SweepReq.t := SweepReq.mk "looping" "" 0 9 4.
Definition sweep_server : Server.t := Server.NewServer 4 4 AlgorithmLRU 0 7.
Lemma sweep_reports_doublings_witness :
  ∃ accs rs, (Server.HandleFrameCountSweep (Some sample_sweep) sweep_server).1 = Return (Response.mk StatusOK (BSweep rs)) ∧
    covers 2 9 10 (FrameCountResult.NumFrames <$> rs) ∧ Sim.precomputeAccesses "looping" (Server.simulator sweep_server) = Return accs.
Proof.
  destruct (@sweep_reports_doublings first_env lcg_rand sweep_server sample_sweep) as (accs & rs & H1 & H2 & H3 & _);
    [apply (bool_decide_unpack _); vm_compute; exact I|apply (bool_decide_unpack _); vm_compute; exact I|
     simpl; lia|simpl; lia|].
  exists accs, rs. exact (conj H2 (conj H3 H1)).
Defined.
