(* ===== verification/CliProps.v ===== *)
(** * Properties of the command line

    How a run ends, that its CSV output is a table, and what the table of a
    comparison tells. *)

From S2P Require Import Prelude Models Heap FrameTable Policy Algorithms Manager ManagerSteps ProcMan ProcManProps.
From S2P Require Import Simulator SimulatorSteps SimulatorRuns SimulatorProps Server ServerSteps ServerProps Cli Sweeps.
From Stdlib Require Import Sorting.Sorted.
Local Open Scope Z_scope.

Import Cli.

Section cli.
Context `{Env : GoEnv} `{Rand : GoRand}.
Implicit Types (o : Options.t) (now : Z).

(** ** CSV *)

(** A header and rows of as many fields. *)
Definition rectangular (rows : list line) : bool :=
  match rows with
  | [] => false
  | header :: rows => forallb (λ row, length row =? length header)%nat rows
  end.

(** C29: Whatever the flags, CSV output is a header and rows with as many fields
    as the header. *)
Theorem csv_output_rectangular o t0 now rows :
  main o t0 now = Printed (CSV rows) → rectangular rows = true.
Proof.
  unfold main, runFramesSweep, runComparison, runSingle.
  intros H. repeat case_match; simplify_eq; cbn [rectangular]; [|..]; try done.
  - by apply Is_true_true, forallb_True, Forall_fmap, Forall_true.
  - by apply Is_true_true, forallb_True, Forall_fmap, Forall_true.
Qed.

(** ** How a run ends *)

(** The flags of a sweep, if one is asked for, or of the one run. *)
Definition sensible o : Prop :=
  0 < Options.frames o < 2 ^ 30 ∧ - 2 ^ 31 ≤ Options.frameMin o < 2 ^ 27 ∧ - 2 ^ 31 ≤ Options.frameMax o ≤ 2 ^ 30.

(** The names that the run looks up. *)
Definition names_known o : bool :=
  if negb (String.eqb (Options.framesSweep o) "") then bool_decide (Options.framesSweep o ∈ ValidAlgorithmNames)
  else if Options.compare o then true
  else bool_decide (Options.algorithm o ∈ ValidAlgorithmNames) && bool_decide (Options.scenario o ∈ Sim.GetAvailableScenarios).

Definition in_format (fmt : string) (out : output) : bool :=
  match out with
  | JSON _ => String.eqb fmt "json"
  | CSV _ => String.eqb fmt "csv"
  | Lines _ => negb (String.eqb fmt "json") && negb (String.eqb fmt "csv")
  end.
(** The error that ends a run with an unknown name. *)
Definition complaint o : option error :=
  if negb (String.eqb (Options.framesSweep o) "") then Some (ErrUnknownAlgorithm (Options.framesSweep o))
  else if bool_decide (Options.algorithm o ∈ ValidAlgorithmNames) then Some (ErrUnknownScenario (Options.scenario o))
  else None.

Lemma parseAlgo_eq name : parseAlgo name = ParseAlgorithmType name.
Proof. reflexivity. Qed.

Lemma new_ready n tlbSize ty t0 now :
  0 < n < 2 ^ 30 → ready n (Sim.NewSimulator now (PM.NewProcessManager (MM.NewMemoryManager n tlbSize ty t0))).
Proof.
  intros Hn. split; [lia|]. apply agrees_new; [apply wf_NewMemoryManager; lia|apply new_manager_empty].
Qed.

(** The three formats. *)
Lemma printed_format fmt d rows ls :
  let out := if String.eqb fmt "json" then Printed (JSON d)
             else if String.eqb fmt "csv" then Printed (CSV rows) else Printed (Lines ls) in
  ∃ doc, out = Printed doc ∧ in_format fmt doc = true.
Proof.
  destruct (String.eqb fmt "json") eqn:Hj; [by eexists|]. destruct (String.eqb fmt "csv") eqn:Hc; [by eexists|].
  eexists. split; [done|]. cbn. by rewrite Hj, Hc.
Qed.

Lemma single_ends algo scenario n tlbSize fmt t0 now :
  0 < n < 2 ^ 30 →
  match runSingle algo scenario n tlbSize fmt t0 now with
  | Printed out => algo ∈ ValidAlgorithmNames ∧ scenario ∈ Sim.GetAvailableScenarios ∧ in_format fmt out = true
  | Fatal _ None => algo ∉ ValidAlgorithmNames
  | Fatal _ (Some e) => algo ∈ ValidAlgorithmNames ∧ (scenario ∉ Sim.GetAvailableScenarios) ∧ e = ErrUnknownScenario scenario
  | Crashed => False
  end.
Proof.
  intros Hn. unfold runSingle. rewrite parseAlgo_eq. pose proof (ParseAlgorithmType_valid algo) as Hv.
  destruct (ParseAlgorithmType algo) as [ty|]; [|done].
  set (sim := Sim.NewSimulator now _). assert (ready n sim) as Hs by (by apply new_ready).
  destruct (decide (scenario ∈ Sim.GetAvailableScenarios)) as [Hin|Hnot].
  - pose proof (RunScenario_drives n scenario sim Hs) as Hr.
    destruct (Sim.RunScenario scenario sim) as [r s']. destruct Hr as (res & m & _ & _ & -> & _ & Hm & _); [done..|].
    cbn [fst]. rewrite Hm.
    match goal with |- context [if String.eqb _ _ then Printed (JSON ?d) else if _ then Printed (CSV ?r) else Printed (Lines ?ls)] =>
      destruct (printed_format fmt d r ls) as (doc & -> & Hdoc) end. done.
  - pose proof (RunScenario_unknown scenario sim Hnot) as Hr. destruct (Sim.RunScenario scenario sim) as [r s'].
    by destruct Hr as (res & -> & _).
Qed.

Lemma comparison_ends scenario n tlbSize fmt t0 now :
  ∃ doc, runComparison scenario n tlbSize fmt t0 now = Printed doc ∧ in_format fmt doc = true.
Proof.
  unfold runComparison. set (mm0 := MM.NewMemoryManager _ _ _ _). set (sim := Sim.NewSimulator _ _).
  destruct (CompareAlgorithms_returns scenario n tlbSize sim (tick (MM.hp mm0))) as [rs ->]. apply printed_format.
Qed.

Lemma sweep_ends algo scenario lo hi tlbSize fmt t0 now :
  match runFramesSweep algo scenario lo hi tlbSize fmt t0 now with
  | Printed out => algo ∈ ValidAlgorithmNames ∧ in_format fmt out = true
  | Fatal _ e => (algo ∉ ValidAlgorithmNames) ∧ e = Some (ErrUnknownAlgorithm algo)
  | Crashed => False
  end.
Proof.
  unfold runFramesSweep. destruct (curve_bounds lo hi) as [lo' hi'].
  set (mm0 := MM.NewMemoryManager _ _ _ _). set (sim := Sim.NewSimulator _ _).
  pose proof (CompareFrameCounts_returns scenario algo (geometricRange lo' hi' 12) tlbSize sim (tick (MM.hp mm0))) as Hr.
  pose proof (ParseAlgorithmType_valid algo) as Hv. destruct (ParseAlgorithmType algo).
  - destruct Hr as [rs ->]. destruct (printed_format fmt (Curve rs) (curve_header :: (curve_row <$> rs))
      (curve_lines algo scenario tlbSize rs)) as (doc & -> & Hdoc). done.
  - by rewrite Hr.
Qed.

(** C28: With a sensible number of frames, a run of the command line never panics:
    it prints its results in the format asked for if the names it looks up are
    known, and otherwise ends with the error for the one that is not (a comparison
    looks up none, and a sweep no scenario). *)
Theorem command_line_endings o t0 now :
  sensible o →
  match main o t0 now with
  | Printed out => names_known o = true ∧ in_format (Options.output o) out = true
  | Fatal _ e => names_known o = false ∧ e = complaint o
  | Crashed => False
  end.
Proof.
  intros (Hn & _ & _). unfold main, names_known, complaint. destruct (String.eqb (Options.framesSweep o) ""); cbn [negb].
  - destruct (Options.compare o).
    + by destruct (comparison_ends (Options.scenario o) (i32 (Options.frames o)) (Options.tlb o) (Options.output o) t0 now)
        as (doc & -> & Hdoc).
    + rewrite i32_small by lia. pose proof (single_ends (Options.algorithm o) (Options.scenario o) (Options.frames o)
        (Options.tlb o) (Options.output o) t0 now Hn) as H.
      destruct (runSingle _ _ _ _ _ _ _) as [out|msg [e|]|]; [..|done].
      * destruct H as (H1 & H2 & H3). by rewrite !bool_decide_true.
      * destruct H as (H1 & H2 & ->). by rewrite bool_decide_true, bool_decide_false.
      * by rewrite bool_decide_false.
  - pose proof (sweep_ends (Options.framesSweep o) (Options.scenario o) (i32 (Options.frameMin o)) (i32 (Options.frameMax o))
      (Options.tlb o) (Options.output o) t0 now) as H.
    destruct (runFramesSweep _ _ _ _ _ _ _ _) as [out|msg e|]; [..|done].
    + destruct H as [H1 H2]. by rewrite bool_decide_true.
    + destruct H as [H1 ->]. by rewrite bool_decide_false.
Qed.

(** ** The table of a comparison *)

(** The lines with a star. *)
Definition has_star (first r : AlgorithmResult.t) : bool :=
  match last (comparison_line (AlgorithmResult.FaultRate first) r) with
  | Some (Text s) => String.eqb s " ★"
  | _ => false
  end.

(** The table of a comparison on a known scenario has a line for each of the
    algorithms; the winner it names has the fewest page faults, and a line has a
    star exactly if its algorithm has as few. *)
Theorem comparison_stars_fewest_faults scenario n tlbSize fmt t0 now :
  0 < n < 2 ^ 30 → scenario ∈ Sim.GetAvailableScenarios → fmt ≠ "json"%string → fmt ≠ "csv"%string →
  ∃ first rs, runComparison scenario n tlbSize fmt t0 now =
      Printed (Lines (comparison_lines scenario n tlbSize (first :: rs))) ∧
    AlgorithmResult.Algorithm <$> first :: rs ≡ₚ ValidAlgorithmNames ∧
    Forall (λ r, AlgorithmResult.PageFaults first ≤ AlgorithmResult.PageFaults r ∧
      has_star first r = (AlgorithmResult.PageFaults r =? AlgorithmResult.PageFaults first)) (first :: rs).
Proof.
  intros Hn Hin Hj Hc. unfold runComparison. set (mm0 := MM.NewMemoryManager _ _ _ _). set (sim := Sim.NewSimulator _ _).
  destruct (CompareAlgorithms_complete scenario n tlbSize sim (tick (MM.hp mm0)) Hn Hin)
    as (accs & rs & Hpre & -> & Hnames & _ & Hsorted & Hcons).
  destruct rs as [|first rs]; [by apply Permutation_nil_l in Hnames|].
  exists first, rs. rewrite (proj2 (String.eqb_neq _ _) Hj), (proj2 (String.eqb_neq _ _) Hc).
  split_and!; [done|done|]. apply precomputeAccesses_length in Hpre; [|done].
  apply StronglySorted_inv in Hsorted as [_ Hfirst]. rewrite Forall_forall in Hcons.
  apply Forall_forall. intros r Hr. split.
  - apply elem_of_cons in Hr as [->|Hr]; [lia|]. rewrite Forall_forall in Hfirst. by apply Hfirst.
  - destruct (Hcons r Hr) as (? & ? & ? & Er). destruct (Hcons first ltac:(by left)) as (? & ? & ? & Ef).
    rewrite <- (rates_injective (Z.of_nat (length accs))), <- Er, <- Ef by (done || lia).
    unfold has_star, comparison_line. rewrite !last_app. cbn [last].
    by destruct (f64_eqb _ _).
Qed.
End cli.

(** ** Examples *)

#[local] Existing Instance first_env.
#[local] Existing Instance lcg_rand.

Definition sample_options : Options.t := Options.mk 4 2 "OPT+" "sequential" false "" 2 128 "csv".
Definition sample_rows : list line :=
  match main sample_options 0 7 with Printed (CSV rows) => rows | _ => [] end.
Lemma sample_prints : main sample_options 0 7 = Printed (CSV sample_rows).
Proof. vm_compute. reflexivity. Qed.

Lemma csv_output_rectangular_witness : length sample_rows = 2%nat ∧ rectangular sample_rows = true.
Proof.
  split; [vm_compute; reflexivity|].
  exact (@csv_output_rectangular first_env lcg_rand sample_options 0%nat 7 sample_rows sample_prints).
Defined.

(** A comparison does not mind an unknown scenario. *)
Definition unknown_options : Options.t := Options.mk 64 16 "LRU" "unknown" true "" 2 128 "json".
Lemma command_line_endings_witness :
  sensible unknown_options ∧ names_known unknown_options = true ∧
  match main unknown_options 0 7 with Printed out => in_format "json" out = true | _ => False end.
Proof.
  assert (sensible unknown_options) as H by (unfold sensible; cbn; lia).
  split; [exact H|split; [reflexivity|]].
  pose proof (@command_line_endings first_env lcg_rand unknown_options 0%nat 7 H) as He.
  destruct (main unknown_options 0 7) as [out|msg e|]; [exact (proj2 He)|discriminate (proj1 He)|exact He].
Defined.

Lemma comparison_stars_fewest_faults_witness :
  ∃ first rs, runComparison "looping" 8 4 "text" 0 7 = Printed (Lines (comparison_lines "looping" 8 4 (first :: rs))) ∧
    length rs = 11%nat ∧ Forall (λ r, AlgorithmResult.PageFaults first ≤ AlgorithmResult.PageFaults r) (first :: rs).
Proof.
  destruct (@comparison_stars_fewest_faults first_env lcg_rand "looping" 8 4 "text" 0%nat 7)
    as (first & rs & H1 & H2 & H3);
    [lia|apply (bool_decide_unpack _); vm_compute; exact I|discriminate|discriminate|].
  exists first, rs. split; [exact H1|split].
  - apply Permutation_length in H2. rewrite length_fmap in H2. by injection H2.
  - eapply Forall_impl; [exact H3|]. intros r Hr. exact (proj1 Hr).
Defined.

(** It prints an empty list. *)
Example unknown_scenario_compares_nothing : main unknown_options 0 7 = Printed (JSON (Comparison [])).
Proof. vm_compute. reflexivity. Qed.
